(* ===== verification/_CoqProject ===== *)
-Q . S2P
Prelude.v
Text.v
Ring.v
LinearBuffer.v
Framer.v
Message.v
Parser.v
Schema.v
Validator.v
MessageStore.v
Factory.v
RecoveryCache.v
Arena.v
Network.v
Session.v
SessionBase.v
SessionInbound.v
SessionReads.v
SessionOutbound.v
SessionWrite.v
SessionSafety.v
SessionLogon.v
SessionTrace.v
SessionPool.v
SessionManager.v
ManagerRuns.v
MpscRing.v
LogFileSink.v
ConnectionFactory.v
SessionTraffic.v
SessionRecovery.v
SessionReconnect.v
Application.v
SessionLink.v
Loopback.v
LogCore.v
