(* ===== verification/Prelude.v ===== *)
(** * FixEngine: a FIX 4.4 session engine, modelled and verified

    ** The program

    FixEngine (src/) keeps FIX sessions over a byte transport.  Bytes read from a connection
    go through the [Framer] (a [LinearBuffer] and a [Ring] of message windows), the [Parser]
    and the [Validator] (which looks the message type up in the schema [Registry]) to
    [Session::dispatch], which puts messages in sequence with the help of the [RecoveryCache]
    and runs a handler per message type.  Handlers answer through the [MessageFactory], whose
    wires are queued in [WireWriter]s on the session's [Arena], written to the connection one
    at a time, and kept in the [MessageStore] for resend requests.

    A [SessionManager] owns the sessions, in the slots of a [SessionPool], asks a connection
    factory for their connections, passes messages of the application to them, and connects a
    session again whose transport has failed.  Every session logs through a lock-free queue
    ([MpscRing]) that one thread empties into a file per session ([LogFileSink]).

    ** Files

    - [Prelude]: outcomes ([Res], [Fault]) and their monad, machine words, bytes, Z-indexed
      lists, and the lemmas and tactics on them.
    - [Text]: [std::string_view] searches, [std::from_chars] and [std::to_chars].
    - [Ring], [LinearBuffer]: include/fix/core/Ring.hpp and LinearBuffer.hpp.  [BoundedFifo] is
      the interface of a ring that the framer is proved against.
    - [Framer]: include/fix/core/Framer.hpp, src/Framer.cpp.
    - [Message]: GenericMessage.hpp, Message.hpp, Message.cpp (fields, the header cache).
    - [Parser]: Parser.hpp, Parser.cpp.
    - [Schema]: include/fix/schema, include/fix/message (type predicates, schemas, registry).
    - [Validator]: Validator.hpp, Validator.cpp, utils.hpp, the parameters of definitions.hpp.
    - [MessageStore]: MessageStore.hpp, MessageStore.cpp (index, blob, resend stream).
    - [Factory]: SeqProvider.hpp, MessageFactory.hpp, FactoryScratch.cpp.  A clock is an
      instance of [ClockLike]; the repository's own returns a constant.
    - [RecoveryCache], [Arena]: RecoveryCache.hpp/.cpp; Arena.hpp/.cpp, WireWriter.hpp/.cpp.
    - [Network]: include/fix/error/Network.hpp (classes of error codes).
    - [Session]: Session.hpp, Session.cpp: every operation, handler and completion.
    - [SessionBase]: what the theorems about sessions share; [SessionInbound]: messages in
      sequence; [SessionOutbound]: sending and resending; [SessionWrite]: the write queue;
      [SessionReads]: read completions and the messages they process; [SessionSafety]: stopping
      and reconnecting; [SessionLogon]: two sessions that log on; [SessionTrace]: the trace only
      grows, and what is handled is valid; [SessionTraffic]: what one session sends, the other
      reads and answers; [SessionRecovery]: two sessions close a gap; [SessionReconnect]: two
      sessions come back on a new connection; [SessionLink]: two sessions over a byte stream in
      each direction, from the start on.
    - [SessionPool]: SessionPool.hpp/.cpp.  [SessionManager]: SessionManager.hpp/.cpp,
      ApplicationEvents.hpp; [ManagerRuns]: what the manager and its sessions do together.
    - [ConnectionFactory]: AsioConnectionFactory.cpp (attempts and delays).
    - [Loopback]: LoopbackTransport.hpp (a pair of connections in memory).
    - [MpscRing]: include/fix/log/MpscRing.hpp, as interleaved atomic steps.
    - [LogFileSink]: LogFileSink.hpp/.cpp, LogEntry.hpp, LogFile.hpp, error/utility.hpp.
    - [LogCore]: LogCore.hpp/.cpp, SessionLogger.hpp/.cpp: the queue, the drain thread and the
      files together.
    - [Application]: the programs around the engine: FixShell.cpp, Reactor.cpp,
      AsioConnection.cpp, AsioTimer.cpp, Application.hpp, and the application, the parameters
      and [main] of examples/basic.cpp (module [Basic]).

    Definitions have the names of the code.  An operation that the code can leave by a failed
    [assert], an access out of range or a null pointer returns a [Res]; so a theorem that says
    an operation gives [Ok] also says that none of these happens.  Integers are [Z] with the
    wrap-around of their width written where the code computes with it ([u64], [u32], ...).

    ** State and its correspondence to the code

    The record of each file has the members of the class, named as in the code.  A [Session] is
    a strand: its members change only in handlers that run one at a time, so a handler is a
    function on the state and an execution is a list of events ([session_run]): calls of the
    user, completed reads and writes, timers.  What a handler does to the outside world is
    appended to the trace [effects_].  [EHandled] in the trace marks that a message in sequence
    is passed to the code for its type.  The write queue keeps messages by value;
    [Arena.wire_writer_keeps_message] justifies this for memory of the arena and of the heap.

    An engine is a heap of sessions, each with the queue of functions on its strand, and the
    manager with its own; a run interleaves calls of the user, steps of the strands, answers of
    the connection factory and completions of the transports in any order ([manager_step],
    [reachable]).  What a session calls back is read off its trace.  Concurrent code without
    strands ([MpscRing], [LogCore], [Loopback]) is a step per atomic access or critical section.

    Two sessions and the transport between them are a [Link]: for each side the session, its
    outstanding writes and reads, the bytes the transport has taken and those it has handed
    over.  [link_step] lets a side write or read any number of bytes, a timer expire, or an
    application send.

    ** What is shown

    - Bytes in: a stream of frames is delivered exactly however it is cut into reads, and any
      stream is framed without a fault ([Framer]); which frames the parser accepts, which it
      rejects and with what error is characterised exactly, and it inverts printing ([Parser]); the validator terminates, is sound, and decides
      the schemas without groups exactly ([Validator]); the registry search is right ([Schema]).
    - Sequencing: a session handles messages that need no answer in order and each once, whatever
      their order of arrival within the recovery window, and a gap is recovered
      ([SessionInbound]).
    - Bytes out: the factory writes what its operation says, and the other engine reads it
      back ([Factory]); store, queue and sequence numbers stay in step, and a resend request
      is answered exactly ([SessionOutbound]); the transport gets the queued bytes exactly, and
      the queue drains ([SessionWrite]).
    - Containers: each refines its abstract data type on every sequence of operations: bounded
      queue, window of a stream, finite map on a window, independent buffers ([Ring],
      [LinearBuffer], [RecoveryCache], [Arena]); the store gives back what was put in
      ([MessageStore]).
    - Life cycle: two sessions log on to each other ([SessionLogon]); a stopped session is
      inert, also when it is handed a new connection; a reconnect resumes with the next number ([SessionSafety]); whatever happens to a
      session, what it hands to the code for a type was accepted by the validator, and the sink
      of the application is never called ([SessionTrace], [Application.application_silent]).
    - Two engines: from the start on, whatever the transport and the applications do and as long
      as no timeout ends a session, each side has handled a prefix of what the other has sent,
      byte for byte and in order, and has sent its answers in order, and once the transport runs
      everything is delivered and answered and both sides fall silent ([SessionLink]); when messages are lost, the request of one side and the answers of the
      other make up for them exactly ([SessionRecovery]), also when they were lost with the
      connection and the Logons show the gap ([SessionReconnect]); but a custom message of the
      initiator that is lost in this way and asks for an answer ends the session
      ([SessionReconnect.reconnect_ends_session]).
    - The engine: its tables stay consistent and no step of any run faults, apart from the
      faults of a session itself and [start_all] after a removal; messages reach the sessions
      they are addressed to, in order; an initiator that has lost its connection gets a new one
      and sends its Logon there ([SessionManager], [ManagerRuns]); the pool is a finite map ([SessionPool]).
    - Connections: [async_connect] and [async_listen] call their handler once, after a bounded
      number of attempts and a bounded delay ([ConnectionFactory]), as the manager relies on;
      a loopback pair is two byte streams ([Loopback]).
    - Logging: the queue is first-in first-out under every interleaving and drains, unless a
      [try_push] fails ([MpscRing]); the files are the lists, in brackets, of what was logged as
      long as at most 128 sessions are added, so that no file has to be evicted ([LogFileSink]);
      they follow the queue in every interleaving of the threads that log and the drain thread,
      which does not sleep on an entry unless a burst was longer than 1024 (then it can,
      [LogCore.drain_loses_wakeup]), and the destructor writes everything when the semaphore has
      room for its tokens ([LogCore]).

    ** Fuel

    Loops that are not structural take fuel computed from their input: the length of the buffer
    plus two for parse loops, the announced fields for groups, the length of the index plus two
    for resends, the size of the ring or the cache plus one for the loops over them.  The
    theorems conclude [Ok], so they also show that this is enough.  [ensure_open], [evict_one] and
    [close_file] of the log files call each other; [eviction_depth] bounds the nesting, and
    without evictions none of it is used.

    ** Bounds

    Hypotheses bound lengths where the code computes them in 64 (or, in the store, 32) bits:
    streams of less than 2^60 bytes, stores of less than 2^31 bytes, numbers below 2^32 where
    they are sent for resends.  The theorems on two engines bound what makes stores grow: a text
    of at most [Max_Text] and CompIDs of at most 1000 bytes make messages of at most [Max_Wire]
    bytes, [Max_Sends] of which fill less than 2^31 bytes with their replies.  A read there is at
    most 1023 times as long as the shortest message, because a longer one can fill the ring of
    the framer and leave messages behind ([Framer.framer_read_limit]); the 64 KiB of the code
    satisfy this when the two CompIDs have 18 characters or more together.

    ** Not modelled

    In a session a log entry is an item of the trace; what [LogCore] makes of it is modelled
    apart.  The sink of [LogCore] changes in one step per entry, although [add_session] runs on
    another thread without a lock.  Boost.Asio is not part of the sources: the wrappers of
    sockets, timers and the resolver are the calls they make, their completions are the events
    of a run, and whether [io_context::run] returns is a parameter.  The interfaces IConnection.hpp
    and ITimer.hpp declare no code.  [generate_engine_id] (a time and a process number), the
    console output of the manager and accessors that return a member are left out.  In a [Link]
    the transport loses nothing, an application sends when it is logged on, the logon timer does
    not expire, and the inbound timer does not expire again while a test request is not answered.  The codec, configuration,
    serializer and the empty store headers declare nothing. *)
From Stdlib Require Export ZArith Lia.
From Stdlib Require Import Strings.Byte Strings.String.
From stdpp Require Export base numbers option list.

#[global] Open Scope Z_scope.

(** ** Outcomes

    The C++ code stops in three ways that are not a normal return: a failed
    [assert], an access through a null pointer or outside an object (undefined
    behaviour), and a thrown exception.  They are values of [Fault]; every partial
    operation of the model returns a [Res].  [OutOfFuel] is the result of a loop whose
    fuel ran out: each loop has a theorem that its fuel is enough. *)

Inductive Fault : Set :=
  | AssertFailed
  | NullDeref
  | OutOfBounds
  | Thrown
  | OutOfFuel.

Inductive Res (A : Type) : Type :=
  | Ok (a : A)
  | Err (f : Fault).
Arguments Ok {A} a.
Arguments Err {A} f.

#[global] Instance fault_eq_dec : EqDecision Fault.
Proof. solve_decision. Defined.
#[global] Instance res_ret : MRet Res := @Ok.
#[global] Instance res_bind : MBind Res := fun A B f r =>
  match r with Ok a => f a | Err e => Err e end.
#[global] Instance res_fmap : FMap Res := fun A B f r =>
  match r with Ok a => Ok (f a) | Err e => Err e end.

Declare Scope fix_scope.
Delimit Scope fix_scope with fix_.
Notation "'let!' x ':=' m 'in' k" :=
  (@mbind Res res_bind _ _ (fun x => k) m)
  (at level 10, x name, m at level 100, k at level 200) : fix_scope.
Notation "'let!' ' p ':=' m 'in' k" :=
  (@mbind Res res_bind _ _ (fun p => k) m)
  (at level 10, p strict pattern, m at level 100, k at level 200) : fix_scope.
Notation "'check!' b 'in' k" :=
  (if b then k else Err AssertFailed)
  (at level 10, b at level 100, k at level 200) : fix_scope.
#[global] Open Scope fix_scope.

Definition is_ok {A} (r : Res A) : bool := match r with Ok _ => true | Err _ => false end.

Lemma bind_ok {A B} (m : Res A) (k : A -> Res B) b :
  (let! x := m in k x) = Ok b -> exists a, m = Ok a /\ k a = Ok b.
Proof. destruct m as [a|f]; cbn; [eauto | discriminate]. Qed.

Lemma ok_bind {A B} (a : A) (k : A -> Res B) : (let! x := Ok a in k x) = k a.
Proof. done. Qed.
(** A computation that is known to succeed. *)
Lemma ok_such {A} (P : A -> Prop) (r : Res A) : match r with Ok x => P x | Err _ => False end -> exists x, r = Ok x /\ P x.
Proof. destruct r as [x|]; [by exists x|done]. Qed.

(** ** Assignment to one member of a record: [s <| m := v |>]

    [derive_updater] makes the updater of a member from the eta expansion of the record. *)

Class Updater {R T : Type} (proj : R -> T) := mk_updater { upd : (T -> T) -> R -> R }.
Arguments upd {R T} proj {_} f r.
Arguments mk_updater {R T} proj _.
#[global] Hint Mode Updater - - + : typeclass_instances.
Ltac derive_updater eta :=
  lazymatch goal with
  | |- Updater ?p =>
      let e := eval cbv [eta] in eta in
      lazymatch eval pattern p in e with
      | ?g _ => let t := eval cbv beta in (fun f => g (fun r => f (p r))) in exact (mk_updater p t)
      end
  end.
Notation "s <| p := v |>" := (upd p (fun _ => v) s) (at level 1, left associativity, p at level 9) : fix_scope.

(** ** Machine integers *)

Definition u64 (z : Z) : Z := z mod 2 ^ 64.
Definition u32 (z : Z) : Z := z mod 2 ^ 32.
Definition u16 (z : Z) : Z := z mod 2 ^ 16.
Definition u8 (z : Z) : Z := z mod 2 ^ 8.
(** The signed value of the low 64 (32) bits: [static_cast<int64_t>] of an unsigned. *)
Definition i64 (z : Z) : Z := (z + 2 ^ 63) mod 2 ^ 64 - 2 ^ 63.
Definition i32 (z : Z) : Z := (z + 2 ^ 31) mod 2 ^ 32 - 2 ^ 31.

#[global] Arguments u64 : simpl never.
#[global] Arguments u32 : simpl never.
#[global] Arguments u16 : simpl never.
#[global] Arguments u8 : simpl never.
#[global] Arguments i64 : simpl never.
#[global] Arguments i32 : simpl never.

Lemma u64_small z : 0 <= z < 2 ^ 64 -> u64 z = z.
Proof. intros. unfold u64. apply Z.mod_small. lia. Qed.
Lemma u32_small z : 0 <= z < 2 ^ 32 -> u32 z = z.
Proof. intros. unfold u32. apply Z.mod_small. lia. Qed.
Lemma u16_small z : 0 <= z < 2 ^ 16 -> u16 z = z.
Proof. intros. unfold u16. apply Z.mod_small. lia. Qed.
Lemma u8_small z : 0 <= z < 2 ^ 8 -> u8 z = z.
Proof. intros. unfold u8. apply Z.mod_small. lia. Qed.
Lemma i64_small z : - 2 ^ 63 <= z < 2 ^ 63 -> i64 z = z.
Proof. intros. unfold i64. rewrite Z.mod_small; lia. Qed.
Lemma i32_small z : - 2 ^ 31 <= z < 2 ^ 31 -> i32 z = z.
Proof. intros. unfold i32. rewrite Z.mod_small; lia. Qed.
Lemma u64_range z : 0 <= u64 z < 2 ^ 64.
Proof. apply Z.mod_pos_bound. lia. Qed.
Lemma u32_range z : 0 <= u32 z < 2 ^ 32.
Proof. apply Z.mod_pos_bound. lia. Qed.

(** [word_simpl] removes the wrap-arounds that the context shows to be the identity. *)
Ltac word_simpl :=
  repeat match goal with
  | |- context [u64 ?z] => rewrite (u64_small z) by lia
  | |- context [u32 ?z] => rewrite (u32_small z) by lia
  | |- context [u16 ?z] => rewrite (u16_small z) by lia
  | |- context [u8 ?z] => rewrite (u8_small z) by lia
  | |- context [i64 ?z] => rewrite (i64_small z) by lia
  | |- context [i32 ?z] => rewrite (i32_small z) by lia
  end.
Ltac word_simpl_in H :=
  repeat match type of H with
  | context [u64 ?z] => rewrite (u64_small z) in H by lia
  | context [u32 ?z] => rewrite (u32_small z) in H by lia
  | context [i64 ?z] => rewrite (i64_small z) in H by lia
  | context [i32 ?z] => rewrite (i32_small z) in H by lia
  end.

(** Case analysis on a boolean comparison of the goal, kept as an arithmetic fact. *)
Ltac case_Z :=
  match goal with
  | |- context [?a <? ?b] => destruct (Z.ltb_spec a b)
  | |- context [?a <=? ?b] => destruct (Z.leb_spec a b)
  | |- context [?a =? ?b] => destruct (Z.eqb_spec a b)
  end.
Ltac case_Z_in H :=
  match type of H with
  | context [?a <? ?b] => destruct (Z.ltb_spec a b)
  | context [?a <=? ?b] => destruct (Z.leb_spec a b)
  | context [?a =? ?b] => destruct (Z.eqb_spec a b)
  end.

(** ** Bytes *)

Abbreviation byte := Byte.byte (only parsing).
Abbreviation bytes := (list Byte.byte) (only parsing).

#[global] Instance byte_eq_decision : EqDecision Byte.byte := Byte.byte_eq_dec.

(** [static_cast<uint8_t>] of a char. *)
Definition bval (b : byte) : Z := Z.of_N (Byte.to_N b).

Definition byte_of (z : Z) : byte :=
  match Byte.of_N (Z.to_N (z mod 256)) with Some b => b | None => x00 end.

Lemma bval_range b : 0 <= bval b < 256.
Proof. unfold bval. pose proof (Byte.to_N_bounded b). lia. Qed.

Lemma bval_inj a b : bval a = bval b -> a = b.
Proof.
  unfold bval. intros E%N2Z.inj.
  pose proof (Byte.of_to_N a) as Ea. pose proof (Byte.of_to_N b) as Eb. congruence.
Qed.

Lemma bval_byte_of z : bval (byte_of z) = z mod 256.
Proof.
  pose proof (Z.mod_pos_bound z 256 ltac:(lia)) as R. unfold byte_of, bval.
  destruct (Byte.of_N (Z.to_N (z mod 256))) as [b|] eqn:E.
  - apply Byte.to_of_N in E. rewrite E. lia.
  - apply Byte.of_N_None_iff in E. lia.
Qed.

Export String.StringSyntax.

(** A string literal as the bytes of a [std::string_view]. *)
Definition B (s : string) : bytes := String.list_byte_of_string s.
Arguments B s%_string_scope.

(** The field separator [\x01]. *)
Definition SOH : byte := x01.

(** ** Lists indexed by machine integers

    Sizes and positions of the C++ code are [size_t] values, so they are [Z] here and
    these wrappers convert once. *)

Section ZList.
Context {A : Type}.
Implicit Types (l s : list A) (i n : Z).

Definition zlen l : Z := Z.of_nat (length l).
Definition ztake n l : list A := take (Z.to_nat n) l.
Definition zdrop n l : list A := drop (Z.to_nat n) l.
(** [substr(i, n)] / the range [data + i, data + i + n). *)
Definition zsub i n l : list A := ztake n (zdrop i l).
Definition znth l i : option A := if i <? 0 then None else l !! Z.to_nat i.
Definition zset i (x : A) l : list A := if i <? 0 then l else <[Z.to_nat i := x]> l.
(** [memcpy]/[memmove] of [s] to offset [i] of the written prefix [l] of a block. *)
Definition blit i s l : list A := ztake i l ++ s ++ zdrop (i + zlen s) l.

Lemma zlen_nil : zlen [] = 0.
Proof. done. Qed.
Lemma zlen_cons x l : zlen (x :: l) = 1 + zlen l.
Proof. unfold zlen. cbn [length]. lia. Qed.
Lemma zlen_app l s : zlen (l ++ s) = zlen l + zlen s.
Proof. unfold zlen. rewrite length_app. lia. Qed.
Lemma zlen_nonneg l : 0 <= zlen l.
Proof. unfold zlen. lia. Qed.
Lemma zlen_replicate k (x : A) : zlen (replicate k x) = Z.of_nat k.
Proof. unfold zlen. by rewrite length_replicate. Qed.
Lemma zlen_ztake n l : 0 <= n <= zlen l -> zlen (ztake n l) = n.
Proof. unfold zlen, ztake. intros. rewrite length_take. lia. Qed.
Lemma zlen_zdrop n l : 0 <= n <= zlen l -> zlen (zdrop n l) = zlen l - n.
Proof. unfold zlen, zdrop. intros. rewrite length_drop. lia. Qed.
Lemma zlen_zsub i n l : 0 <= i -> 0 <= n -> i + n <= zlen l -> zlen (zsub i n l) = n.
Proof. intros. unfold zsub. rewrite zlen_ztake; [done|]. rewrite zlen_zdrop; lia. Qed.
Lemma zlen_blit i s l : 0 <= i <= zlen l -> zlen (blit i s l) = Z.max (zlen l) (i + zlen s).
Proof.
  intros. unfold blit. rewrite !zlen_app, zlen_ztake by lia.
  pose proof (zlen_nonneg s). destruct (Z.le_gt_cases (i + zlen s) (zlen l)).
  - rewrite zlen_zdrop; lia.
  - unfold zdrop, zlen at 2. rewrite length_drop. unfold zlen in *. lia.
Qed.

Lemma ztake_0 l : ztake 0 l = [].
Proof. done. Qed.
Lemma zdrop_0 l : zdrop 0 l = l.
Proof. done. Qed.
Lemma ztake_all n l : zlen l <= n -> ztake n l = l.
Proof. unfold zlen, ztake. intros. apply take_ge. lia. Qed.
Lemma zdrop_all n l : zlen l <= n -> zdrop n l = [].
Proof. unfold zlen, zdrop. intros. apply drop_ge. lia. Qed.
Lemma ztake_app_l n l s : n <= zlen l -> ztake n (l ++ s) = ztake n l.
Proof. unfold zlen, ztake. intros. apply take_app_le. lia. Qed.
Lemma ztake_app_r n l s : zlen l <= n -> ztake n (l ++ s) = l ++ ztake (n - zlen l) s.
Proof. unfold zlen, ztake. intros. rewrite take_app_ge by lia. do 2 f_equal. lia. Qed.
Lemma ztake_app_exact l s : ztake (zlen l) (l ++ s) = l.
Proof. unfold zlen, ztake. rewrite Nat2Z.id. apply take_app_length. Qed.
Lemma zdrop_app_l n l s : n <= zlen l -> zdrop n (l ++ s) = zdrop n l ++ s.
Proof. unfold zlen, zdrop. intros. apply drop_app_le. lia. Qed.
Lemma zdrop_app_r n l s : zlen l <= n -> zdrop n (l ++ s) = zdrop (n - zlen l) s.
Proof. unfold zlen, zdrop. intros. rewrite drop_app_ge by lia. f_equal. lia. Qed.
Lemma zdrop_app_exact l s : zdrop (zlen l) (l ++ s) = s.
Proof. unfold zlen, zdrop. rewrite Nat2Z.id. apply drop_app_length. Qed.
Lemma ztake_zdrop n l : ztake n l ++ zdrop n l = l.
Proof. apply take_drop. Qed.
Lemma zdrop_zdrop m n l : 0 <= m -> 0 <= n -> zdrop m (zdrop n l) = zdrop (n + m) l.
Proof. unfold zdrop. intros. rewrite drop_drop. f_equal. lia. Qed.
Lemma ztake_ztake m n l : m <= n -> ztake m (ztake n l) = ztake m l.
Proof. unfold ztake. intros. rewrite take_take. f_equal. lia. Qed.
Lemma zdrop_ztake m n l : 0 <= m -> zdrop m (ztake n l) = ztake (n - m) (zdrop m l).
Proof.
  intros. unfold zdrop, ztake. rewrite skipn_firstn_comm. f_equal. lia.
Qed.

Lemma zsub_full l : zsub 0 (zlen l) l = l.
Proof. unfold zsub. rewrite zdrop_0. apply ztake_all. lia. Qed.
Lemma zsub_app_l i n l s : 0 <= i -> 0 <= n -> i + n <= zlen l -> zsub i n (l ++ s) = zsub i n l.
Proof.
  intros. unfold zsub. rewrite zdrop_app_l by lia. apply ztake_app_l.
  rewrite zlen_zdrop; lia.
Qed.
Lemma zsub_app_r i n l s : zlen l <= i -> zsub i n (l ++ s) = zsub (i - zlen l) n s.
Proof. intros. unfold zsub. by rewrite zdrop_app_r. Qed.
Lemma zsub_mid l s t : zsub (zlen l) (zlen s) (l ++ s ++ t) = s.
Proof. unfold zsub. rewrite zdrop_app_exact. apply ztake_app_exact. Qed.

Lemma blit_app i s l : 0 <= i <= zlen l -> ztake (i + zlen s) (blit i s l) = ztake i l ++ s.
Proof.
  intros. unfold blit. rewrite app_assoc. rewrite <- (ztake_app_exact (ztake i l ++ s) (zdrop (i + zlen s) l)) at 2.
  f_equal. rewrite zlen_app, zlen_ztake; lia.
Qed.

Lemma znth_app_l l s i : i < zlen l -> znth (l ++ s) i = znth l i.
Proof.
  unfold zlen, znth. intros. case_Z; [done|]. apply lookup_app_l. lia.
Qed.
Lemma znth_app_r l s i : zlen l <= i -> znth (l ++ s) i = znth s (i - zlen l).
Proof.
  unfold znth. pose proof (zlen_nonneg l). intros. repeat case_Z; try lia.
  unfold zlen in *. rewrite lookup_app_r by lia. f_equal. lia.
Qed.
Lemma znth_is_Some l i : 0 <= i < zlen l -> exists x, znth l i = Some x.
Proof.
  unfold zlen, znth. intros. case_Z; [lia|]. apply lookup_lt_is_Some_2. lia.
Qed.
Lemma znth_Some_lt l i x : znth l i = Some x -> 0 <= i < zlen l.
Proof.
  unfold zlen, znth. case_Z; [done|]. intros E%lookup_lt_Some. lia.
Qed.
Lemma znth_None l i : zlen l <= i -> znth l i = None.
Proof. unfold zlen, znth. intros. case_Z; [done|]. apply lookup_ge_None. lia. Qed.
Lemma zlen_zset i x l : zlen (zset i x l) = zlen l.
Proof. unfold zset, zlen. case_Z; [done|]. by rewrite length_insert. Qed.
Lemma znth_zset_eq i x l : 0 <= i < zlen l -> znth (zset i x l) i = Some x.
Proof.
  unfold zset, znth, zlen. intros. case_Z; [lia|]. apply list_lookup_insert_eq. lia.
Qed.
Lemma znth_zset_ne i j x l : i <> j -> 0 <= i -> znth (zset i x l) j = znth l j.
Proof.
  unfold zset, znth. intros. repeat case_Z; try lia; [done|].
  apply list_lookup_insert_ne. lia.
Qed.
Lemma znth_cons x l i : 0 <= i -> znth (x :: l) (i + 1) = znth l i.
Proof.
  unfold znth. intros. repeat case_Z; try lia.
  by replace (Z.to_nat (i + 1)) with (S (Z.to_nat i)) by lia.
Qed.
Lemma znth_zdrop l n i : 0 <= n -> 0 <= i -> znth (zdrop n l) i = znth l (n + i).
Proof.
  unfold znth, zdrop. intros. repeat case_Z; try lia.
  rewrite lookup_drop. f_equal. lia.
Qed.
Lemma zdrop_znth l i x : 0 <= i -> znth l i = Some x -> zdrop i l = x :: zdrop (i + 1) l.
Proof.
  unfold znth, zdrop. intros Hi. case_Z; [lia|]. intros E.
  replace (Z.to_nat (i + 1)) with (S (Z.to_nat i)) by lia. by apply drop_S.
Qed.
End ZList.

(** [zlia] is [lia] for goals about list lengths: it pushes [zlen] through [++] and [::] and
    adds that lengths are non-negative. *)
Ltac zlen_norm :=
  repeat match goal with
  | |- context [@zlen ?A (?x ++ ?y)] => rewrite (@zlen_app A x y)
  | |- context [@zlen ?A (?x :: ?y)] => rewrite (@zlen_cons A x y)
  | |- context [@zlen ?A (@nil _)] => change (@zlen A []) with 0
  | H : context [@zlen ?A (?x ++ ?y)] |- _ => rewrite (@zlen_app A x y) in H
  | H : context [@zlen ?A (?x :: ?y)] |- _ => rewrite (@zlen_cons A x y) in H
  | H : context [@zlen ?A (@nil _)] |- _ => change (@zlen A []) with 0 in H
  end.
Ltac zlen_pos :=
  repeat match goal with
  | |- context [@zlen ?A ?l] =>
      lazymatch goal with _ : 0 <= @zlen A l |- _ => fail | _ => pose proof (@zlen_nonneg A l) end
  | H : context [@zlen ?A ?l] |- _ =>
      lazymatch goal with _ : 0 <= @zlen A l |- _ => fail | _ => pose proof (@zlen_nonneg A l) end
  end.
Ltac zlia := zlen_norm; zlen_pos; lia.

#[global] Arguments zlen : simpl never.
#[global] Arguments ztake : simpl never.
#[global] Arguments zdrop : simpl never.
#[global] Arguments zsub : simpl never.
#[global] Arguments znth : simpl never.
#[global] Arguments zset : simpl never.
#[global] Arguments blit : simpl never.

(** Two lists are equal when they agree at every position. *)
Lemma zlist_ext {A} (l1 l2 : list A) : zlen l1 = zlen l2 ->
  (forall k, 0 <= k < zlen l1 -> znth l1 k = znth l2 k) -> l1 = l2.
Proof.
  unfold zlen. intros Hl Hk. apply list_eq. intros i.
  destruct (decide (i < length l1)%nat).
  - specialize (Hk (Z.of_nat i) ltac:(lia)). unfold znth in Hk.
    rewrite (proj2 (Z.ltb_ge _ _)), Nat2Z.id in Hk by lia. done.
  - rewrite !lookup_ge_None_2; [done|lia|lia].
Qed.

(** Reading a range that a write does not touch, and reading back what was written. *)
Lemma zsub_blit_disjoint {A} i n p (s l : list A) :
  0 <= i -> 0 <= n -> i + n <= zlen l -> 0 <= p -> p + zlen s <= zlen l ->
  i + n <= p \/ p + zlen s <= i -> zsub i n (blit p s l) = zsub i n l.
Proof.
  intros Hi Hn Hl Hp Hs. pose proof (zlen_nonneg s). unfold blit. intros [H1|H1].
  - rewrite zsub_app_l by (rewrite ?zlen_ztake; lia). unfold zsub. rewrite zdrop_ztake, ztake_ztake by lia. done.
  - rewrite !zsub_app_r by (rewrite ?zlen_ztake; lia). rewrite zlen_ztake by lia. unfold zsub.
    rewrite zdrop_zdrop by lia. f_equal. f_equal. lia.
Qed.
Lemma zsub_blit_same {A} p (s l : list A) : 0 <= p -> p + zlen s <= zlen l -> zsub p (zlen s) (blit p s l) = s.
Proof.
  intros Hp Hs. pose proof (zlen_nonneg s). unfold blit.
  pose proof (zsub_mid (ztake p l) s (zdrop (p + zlen s) l)) as E. by rewrite zlen_ztake in E by lia.
Qed.
(** A write inside a range, seen from the range. *)
Lemma zsub_blit_inside {A} q n o (s l : list A) : 0 <= q -> 0 <= o -> o + zlen s <= n -> q + n <= zlen l ->
  zsub q n (blit (q + o) s l) = blit o s (zsub q n l).
Proof.
  intros Hq Ho Hn Hl. pose proof (zlen_nonneg s). apply zlist_ext.
  { rewrite zlen_zsub by (rewrite ?zlen_blit; lia). rewrite zlen_blit; rewrite zlen_zsub; lia. }
  intros k Hk. rewrite zlen_zsub in Hk by (rewrite ?zlen_blit; lia).
  assert (G : forall (m : list A) i, zlen m = zlen l -> 0 <= i < n -> znth (zsub q n m) i = znth m (q + i)).
  { intros m i Hm Hi. rewrite <- (znth_zdrop m q i) by lia. unfold zsub.
    rewrite <- (ztake_zdrop n (zdrop q m)) at 2. rewrite znth_app_l; [done|]. rewrite zlen_ztake; [lia|]. rewrite zlen_zdrop; lia. }
  assert (W : forall p (m : list A) i, 0 <= p -> p + zlen s <= zlen m -> 0 <= i ->
    znth (blit p s m) i = if (p <=? i) && (i <? p + zlen s) then znth s (i - p) else znth m i).
  { intros p m i Hp Hm Hi. unfold blit. destruct (Z.leb_spec p i); cbn [andb].
    - rewrite znth_app_r by (rewrite zlen_ztake; lia). rewrite zlen_ztake by lia. case_Z; [apply znth_app_l; lia|].
      rewrite znth_app_r, znth_zdrop by lia. f_equal. lia.
    - rewrite znth_app_l by (rewrite zlen_ztake; lia). rewrite <- (ztake_zdrop p m) at 2. rewrite znth_app_l; [done|]. rewrite zlen_ztake; lia. }
  rewrite G by (rewrite ?zlen_blit; lia). rewrite !W by (rewrite ?zlen_zsub; lia). rewrite G by lia.
  replace (q + k - (q + o)) with (k - o) by lia.
  replace (q + o <=? q + k) with (o <=? k) by (apply eq_true_iff_eq; rewrite !Z.leb_le; lia).
  replace (q + k <? q + o + zlen s) with (k <? o + zlen s) by (apply eq_true_iff_eq; rewrite !Z.ltb_lt; lia). done.
Qed.
