(* ===== verification/Text.v ===== *)
(** The part of the C++ standard library the engine's text handling uses:
    [std::string_view::find]/[rfind]/[substr], [std::isdigit] and the
    [<charconv>] conversions [from_chars]/[to_chars], with the lemmas the other
    files need of them. *)
From Stdlib Require Import Strings.Byte.
From S2P Require Import Prelude.

(** ** Searching *)

Fixpoint prefixb (p l : bytes) : bool :=
  match p, l with
  | [], _ => true
  | _, [] => false
  | a :: p', b :: l' => Byte.eqb a b && prefixb p' l'
  end.

(** First suffix of [l] (from position [i] on) that starts with [p]. *)
Fixpoint find_at (p l : bytes) (i : Z) : option Z :=
  if prefixb p l then Some i
  else match l with [] => None | _ :: l' => find_at p l' (i + 1) end.

(** [sv.find(p, pos)]; [npos] is [None]. *)
Definition find (p l : bytes) (pos : Z) : option Z :=
  if pos <=? zlen l then find_at p (zdrop pos l) pos else None.

(** [sv.substr(pos, n)] throws when [pos], as an unsigned number, is past the end. *)
Definition substr (pos n : Z) (l : bytes) : Res bytes :=
  if (0 <=? pos) && (pos <=? zlen l) then Ok (zsub pos n l) else Err Thrown.

Lemma substr_ok pos n l : 0 <= pos <= zlen l -> substr pos n l = Ok (zsub pos n l).
Proof. intros H. unfold substr. by rewrite (proj2 (Z.leb_le 0 pos)), (proj2 (Z.leb_le pos _)) by lia. Qed.

Fixpoint rfind_at (p l : bytes) (i : Z) : option Z :=
  match match l with [] => None | _ :: l' => rfind_at p l' (i + 1) end with
  | Some j => Some j
  | None => if prefixb p l then Some i else None
  end.

(** [sv.rfind(p)]. *)
Definition rfind (p l : bytes) : option Z := rfind_at p l 0.

(** The needle [p] occurs in [l] at position [i]. *)
Definition occurs (p l : bytes) (i : Z) : Prop := prefixb p (zdrop i l) = true.

Lemma byte_eqb_eq a b : Byte.eqb a b = true <-> a = b.
Proof.
  split; [apply Byte.byte_dec_bl|]. intros ->. by apply Byte.byte_dec_lb.
Qed.
Lemma byte_eqb_neq a b : Byte.eqb a b = false <-> a <> b.
Proof. rewrite <- not_true_iff_false. by rewrite byte_eqb_eq. Qed.

Lemma prefixb_spec p l : prefixb p l = true <-> exists t, l = p ++ t.
Proof.
  revert l. induction p as [|a p IH]; intros l; cbn.
  - split; [intros _; by exists l | done].
  - destruct l as [|b l]; [split; [done | intros [t E]; done]|].
    rewrite andb_true_iff, byte_eqb_eq, IH. split.
    + intros [-> [t ->]]. by exists t.
    + intros [t [= <- ->]]. split; [done|]. by exists t.
Qed.

Lemma prefixb_app p t : prefixb p (p ++ t) = true.
Proof. apply prefixb_spec. by exists t. Qed.

Lemma prefixb_length p l : prefixb p l = true -> zlen p <= zlen l.
Proof. intros [t ->]%prefixb_spec. rewrite zlen_app. pose proof (zlen_nonneg t). lia. Qed.

Lemma prefixb_app_long p l t : zlen p <= zlen l -> prefixb p (l ++ t) = prefixb p l.
Proof.
  revert l. induction p as [|a p IH]; intros l Hl; cbn; [done|].
  destruct l as [|b l]; cbn.
  - rewrite zlen_cons, zlen_nil in Hl. pose proof (zlen_nonneg p). lia.
  - rewrite IH; [done|]. rewrite !zlen_cons in Hl. lia.
Qed.

Lemma occurs_bound p l i : 0 <= i <= zlen l -> occurs p l i -> i + zlen p <= zlen l.
Proof. intros Hi H%prefixb_length. rewrite zlen_zdrop in H by lia. lia. Qed.

Lemma zdrop_cons_succ {A} (x : A) l n : 0 <= n -> zdrop (n + 1) (x :: l) = zdrop n l.
Proof. unfold zdrop. intros. replace (Z.to_nat (n + 1)) with (S (Z.to_nat n)) by lia. done. Qed.

Lemma find_at_spec p l i :
  match find_at p l i with
  | Some j => i <= j <= i + zlen l /\ occurs p l (j - i) /\
              forall k, 0 <= k < j - i -> ~ occurs p l k
  | None => forall k, 0 <= k <= zlen l -> ~ occurs p l k
  end.
Proof.
  revert i. induction l as [|c l IH]; intros i; cbn [find_at].
  - rewrite zlen_nil. destruct (prefixb p []) eqn:E.
    + unfold occurs. rewrite Z.sub_diag, zdrop_0. repeat split; [lia|lia|done|]. intros; lia.
    + intros k Hk. unfold occurs. replace k with 0 by lia. rewrite zdrop_0. congruence.
  - destruct (prefixb p (c :: l)) eqn:E.
    + unfold occurs. pose proof (zlen_nonneg (c :: l)).
      rewrite Z.sub_diag, zdrop_0. repeat split; [lia|lia|done|]. intros; lia.
    + specialize (IH (i + 1)). rewrite zlen_cons.
      assert (Hs : forall k, 0 < k -> occurs p (c :: l) k <-> occurs p l (k - 1)).
      { intros k Hk. unfold occurs. replace k with (k - 1 + 1) at 1 by lia.
        by rewrite zdrop_cons_succ by lia. }
      assert (H0 : ~ occurs p (c :: l) 0) by (unfold occurs; rewrite zdrop_0; congruence).
      destruct (find_at p l (i + 1)) as [j|].
      * destruct IH as (Hj & Ho & Hn). repeat split; [lia|lia| |].
        -- apply Hs; [lia|]. by replace (j - i - 1) with (j - (i + 1)) by lia.
        -- intros k Hk. destruct (Z.eq_dec k 0) as [->|]; [done|].
           rewrite Hs by lia. apply Hn. lia.
      * intros k Hk. destruct (Z.eq_dec k 0) as [->|]; [done|].
        rewrite Hs by lia. apply IH. lia.
Qed.

Lemma find_Some p l pos i : 0 <= pos -> find p l pos = Some i ->
  pos <= i <= zlen l /\ occurs p l i /\ forall k, pos <= k < i -> ~ occurs p l k.
Proof.
  unfold find. intros Hp. case_Z; [|done]. intros E.
  pose proof (find_at_spec p (zdrop pos l) pos) as S. rewrite E in S.
  rewrite zlen_zdrop in S by lia. destruct S as (Hi & Ho & Hn). unfold occurs in *.
  rewrite zdrop_zdrop in Ho by lia. replace (pos + (i - pos)) with i in Ho by lia.
  repeat split; [lia|lia|done|]. intros k Hk. specialize (Hn (k - pos) ltac:(lia)).
  rewrite zdrop_zdrop in Hn by lia. by replace (pos + (k - pos)) with k in Hn by lia.
Qed.

Lemma find_None p l pos : 0 <= pos -> find p l pos = None ->
  forall k, pos <= k <= zlen l -> ~ occurs p l k.
Proof.
  unfold find. intros Hp. case_Z; [|intros; lia]. intros E k Hk.
  pose proof (find_at_spec p (zdrop pos l) pos) as S. rewrite E in S.
  specialize (S (k - pos)). rewrite zlen_zdrop in S by lia. specialize (S ltac:(lia)).
  unfold occurs in *. rewrite zdrop_zdrop in S by lia.
  by replace (pos + (k - pos)) with k in S by lia.
Qed.

Lemma find_intro p l pos i : 0 <= pos <= i -> i <= zlen l -> occurs p l i ->
  (forall k, pos <= k < i -> ~ occurs p l k) -> find p l pos = Some i.
Proof.
  intros Hp Hi Ho Hn. destruct (find p l pos) as [j|] eqn:E.
  - apply find_Some in E as (Hj & Hoj & Hnj); [|lia]. f_equal.
    destruct (Z.lt_trichotomy i j) as [|[|]]; [|done|].
    + by destruct (Hnj i ltac:(lia)).
    + by destruct (Hn j ltac:(lia)).
  - by destruct (find_None p l pos ltac:(lia) E i ltac:(lia)).
Qed.

Lemma find_none_intro p l pos : 0 <= pos ->
  (forall k, pos <= k <= zlen l -> ~ occurs p l k) -> find p l pos = None.
Proof.
  intros Hp Hn. destruct (find p l pos) as [j|] eqn:E; [|done].
  apply find_Some in E as (Hj & Ho & _); [|lia]. by destruct (Hn j).
Qed.

(** Single-character needles. *)

Lemma occurs_char c l i : 0 <= i -> occurs [c] l i <-> znth l i = Some c.
Proof.
  intros Hi. unfold occurs, znth, zdrop. rewrite (proj2 (Z.ltb_ge i 0)) by lia.
  rewrite <- (Nat.add_0_r (Z.to_nat i)) at 2. rewrite <- lookup_drop.
  destruct (drop (Z.to_nat i) l) as [|d t]; cbn; [done|].
  rewrite andb_true_r, byte_eqb_eq. split; congruence.
Qed.

Lemma znth_elem {A} (l : list A) i x : znth l i = Some x -> x ∈ l.
Proof. unfold znth. case_Z; [done|]. apply list_elem_of_lookup_2. Qed.

(** The scan for a delimiter stops at the first one after a delimiter-free run. *)
Lemma find_char_app pre s c t : c ∉ s ->
  find [c] (pre ++ s ++ c :: t) (zlen pre) = Some (zlen pre + zlen s).
Proof.
  intros Hc. pose proof (zlen_nonneg pre). pose proof (zlen_nonneg s).
  pose proof (zlen_nonneg t). apply find_intro; [lia| | |].
  - rewrite !zlen_app, zlen_cons. lia.
  - apply occurs_char; [lia|].
    rewrite znth_app_r, znth_app_r by lia.
    by replace (zlen pre + zlen s - zlen pre - zlen s) with 0 by lia.
  - intros k Hk Ho%occurs_char; [|lia].
    rewrite znth_app_r, znth_app_l in Ho by lia. by apply znth_elem in Ho.
Qed.

Lemma find_char_none pre s c : c ∉ s -> find [c] (pre ++ s) (zlen pre) = None.
Proof.
  intros Hc. pose proof (zlen_nonneg pre). apply find_none_intro; [lia|].
  intros k Hk Ho%occurs_char; [|lia].
  rewrite znth_app_r in Ho by lia. by apply znth_elem in Ho.
Qed.

Lemma find_here p pre t : find p (pre ++ p ++ t) (zlen pre) = Some (zlen pre).
Proof.
  pose proof (zlen_nonneg pre). pose proof (zlen_nonneg (p ++ t)).
  apply find_intro; [lia| | |intros; lia].
  - rewrite zlen_app. lia.
  - unfold occurs. rewrite zdrop_app_exact. apply prefixb_app.
Qed.

Lemma rfind_at_spec p l i :
  match rfind_at p l i with
  | Some j => i <= j <= i + zlen l /\ occurs p l (j - i) /\
              forall k, j - i < k <= zlen l -> ~ occurs p l k
  | None => forall k, 0 <= k <= zlen l -> ~ occurs p l k
  end.
Proof.
  revert i. induction l as [|c l IH]; intros i; cbn [rfind_at].
  - rewrite zlen_nil. destruct (prefixb p []) eqn:E.
    + unfold occurs. rewrite Z.sub_diag, zdrop_0. repeat split; [lia|lia|done|]. intros; lia.
    + intros k Hk. unfold occurs. replace k with 0 by lia. rewrite zdrop_0. congruence.
  - specialize (IH (i + 1)). rewrite zlen_cons.
    assert (Hs : forall k, 0 < k -> occurs p (c :: l) k <-> occurs p l (k - 1)).
    { intros k Hk. unfold occurs. replace k with (k - 1 + 1) at 1 by lia.
      by rewrite zdrop_cons_succ by lia. }
    destruct (rfind_at p l (i + 1)) as [j|].
    + destruct IH as (Hj & Ho & Hn). repeat split; [lia|lia| |].
      * apply Hs; [lia|]. by replace (j - i - 1) with (j - (i + 1)) by lia.
      * intros k Hk. rewrite Hs by lia. apply Hn. lia.
    + destruct (prefixb p (c :: l)) eqn:E.
      * pose proof (zlen_nonneg l). unfold occurs at 1. rewrite Z.sub_diag, zdrop_0.
        repeat split; [lia|lia|done|]. intros k Hk. rewrite Hs by lia. apply IH. lia.
      * intros k Hk. destruct (Z.eq_dec k 0) as [->|].
        -- unfold occurs. rewrite zdrop_0. congruence.
        -- rewrite Hs by lia. apply IH. lia.
Qed.

Lemma rfind_Some p l i : rfind p l = Some i ->
  0 <= i <= zlen l /\ occurs p l i /\ forall k, i < k <= zlen l -> ~ occurs p l k.
Proof.
  unfold rfind. intros E. pose proof (rfind_at_spec p l 0) as S. rewrite E in S.
  rewrite Z.sub_0_r in S. naive_solver lia.
Qed.

Lemma rfind_intro p l i : 0 <= i <= zlen l -> occurs p l i ->
  (forall k, i < k <= zlen l -> ~ occurs p l k) -> rfind p l = Some i.
Proof.
  intros Hi Ho Hn. unfold rfind. pose proof (rfind_at_spec p l 0) as S.
  destruct (rfind_at p l 0) as [j|].
  - rewrite Z.sub_0_r in S. destruct S as (Hj & Hoj & Hnj). f_equal.
    destruct (Z.lt_trichotomy i j) as [|[|]]; [|done|].
    + by destruct (Hn j ltac:(lia)).
    + by destruct (Hnj i ltac:(lia)).
  - by destruct (S i Hi).
Qed.

(** ** Characters and numbers *)

(** [std::isdigit] in the "C" locale. *)
Definition isdigit (c : byte) : bool := (48 <=? bval c) && (bval c <=? 57).

Fixpoint span_digits (s : bytes) : bytes :=
  match s with
  | c :: t => if isdigit c then c :: span_digits t else []
  | [] => []
  end.

Definition digits_val (s : bytes) : Z :=
  fold_left (fun acc c => acc * 10 + (bval c - 48)) s 0.

Inductive errc : Set := errc_ok | errc_invalid_argument | errc_out_of_range.

(** Result of [std::from_chars]: the stored value ([None]: the output variable is left
    unmodified), the offset of [ptr] from [first], and [ec]. *)
Record from_chars_result : Type := mk_fc {
  fc_value : option Z;
  fc_ptr : Z;
  fc_ec : errc
}.

(** [std::from_chars] into an unsigned integer of [w] bits. *)
Definition from_chars (w : Z) (s : bytes) : from_chars_result :=
  let d := span_digits s in
  if zlen d =? 0 then mk_fc None 0 errc_invalid_argument
  else if digits_val d <? 2 ^ w then mk_fc (Some (digits_val d)) (zlen d) errc_ok
  else mk_fc None (zlen d) errc_out_of_range.

(** [std::from_chars] into a signed integer of [w] bits: a leading minus is accepted. *)
Definition from_chars_signed (w : Z) (s : bytes) : from_chars_result :=
  match s with
  | x2d :: t =>
      let d := span_digits t in
      if zlen d =? 0 then mk_fc None 0 errc_invalid_argument
      else if digits_val d <=? 2 ^ (w - 1)
           then mk_fc (Some (- digits_val d)) (1 + zlen d) errc_ok
           else mk_fc None (1 + zlen d) errc_out_of_range
  | _ => from_chars (w - 1) s
  end.

Definition errc_is_ok (e : errc) : bool := match e with errc_ok => true | _ => false end.

(** The test [ec == std::errc{} && ptr == last]. *)
Definition fc_complete (s : bytes) (r : from_chars_result) : bool :=
  errc_is_ok (fc_ec r) && (fc_ptr r =? zlen s).

(** The value left in the output variable, which held [old]. *)
Definition fc_or (old : Z) (r : from_chars_result) : Z :=
  match fc_value r with Some v => v | None => old end.

(** [std::to_chars] of an integer of at most 64 bits. *)
Definition digit_char (d : Z) : byte := byte_of (48 + d).

Fixpoint dec_digits (fuel : nat) (n : Z) (acc : bytes) : bytes :=
  match fuel with
  | O => acc
  | S f =>
      let acc' := digit_char (n mod 10) :: acc in
      if n / 10 =? 0 then acc' else dec_digits f (n / 10) acc'
  end.

Definition to_dec (n : Z) : bytes := dec_digits 20 n [].
#[global] Arguments to_dec : simpl never.
Definition to_chars (n : Z) : bytes := if n <? 0 then x2d :: to_dec (- n) else to_dec n.

Lemma isdigit_digit_char d : 0 <= d < 10 -> isdigit (digit_char d) = true.
Proof.
  intros. unfold isdigit, digit_char. rewrite bval_byte_of, Z.mod_small by lia. lia.
Qed.
Lemma bval_digit_char d : 0 <= d < 10 -> bval (digit_char d) = 48 + d.
Proof. intros. unfold digit_char. rewrite bval_byte_of, Z.mod_small; lia. Qed.

Definition all_digits (s : bytes) : Prop := Forall (fun c => isdigit c = true) s.

Lemma fold_digits_acc t a :
  fold_left (fun acc c => acc * 10 + (bval c - 48)) t a = a * 10 ^ zlen t + digits_val t.
Proof.
  revert a. unfold digits_val.
  induction t as [|c t IH]; intros a; cbn [fold_left].
  - rewrite zlen_nil. lia.
  - rewrite (IH (a * 10 + _)), (IH (0 * 10 + _)), zlen_cons.
    rewrite Z.pow_add_r by (pose proof (zlen_nonneg t); lia). lia.
Qed.

Lemma digits_val_cons c t : digits_val (c :: t) = (bval c - 48) * 10 ^ zlen t + digits_val t.
Proof. unfold digits_val at 1. cbn [fold_left]. rewrite fold_digits_acc. lia. Qed.

Lemma digits_val_nonneg s : all_digits s -> 0 <= digits_val s < 10 ^ zlen s.
Proof.
  induction 1 as [|c t Hc Ht IH].
  - by vm_compute.
  - rewrite digits_val_cons, zlen_cons. pose proof (zlen_nonneg t).
    rewrite Z.pow_add_r by lia. unfold isdigit in Hc. nia.
Qed.

Lemma span_digits_app s t : all_digits s ->
  (match t with c :: _ => isdigit c = false | [] => True end) -> span_digits (s ++ t) = s.
Proof.
  induction 1 as [|c s Hc Hs IH]; intros Ht; cbn.
  - destruct t as [|c t]; cbn; [done|]. by rewrite Ht.
  - by rewrite Hc, IH.
Qed.
Lemma span_digits_all s : all_digits s -> span_digits s = s.
Proof. intros H. rewrite <- (app_nil_r s) at 1. by apply span_digits_app. Qed.
Lemma span_digits_digits s : all_digits (span_digits s).
Proof.
  induction s as [|c t IH]; cbn; [constructor|].
  destruct (isdigit c) eqn:E; constructor; auto.
Qed.
Lemma span_digits_prefix s : exists t, s = span_digits s ++ t.
Proof.
  induction s as [|c t [u IH]]; cbn; [by exists []|].
  destruct (isdigit c); [exists u; cbn; congruence | by exists (c :: t)].
Qed.

Lemma dec_digits_spec fuel n acc : 0 <= n < 10 ^ Z.of_nat fuel -> (0 < fuel)%nat ->
  exists d, dec_digits fuel n acc = d ++ acc /\ all_digits d /\ d <> [] /\
            digits_val d = n /\ (n <> 0 -> 10 ^ (zlen d - 1) <= n) /\ (n = 0 -> zlen d = 1).
Proof.
  revert n acc. induction fuel as [|f IH]; intros n acc Hn Hf; [lia|].
  cbn [dec_digits].
  pose proof (Z.mod_pos_bound n 10 ltac:(lia)) as Hm.
  pose proof (Z.div_mod n 10 ltac:(lia)) as Hd.
  rewrite Nat2Z.inj_succ, Z.pow_succ_r in Hn by lia.
  case_Z.
  - exists [digit_char (n mod 10)]. split_and!; [done| |done| | |done].
    + constructor; [by apply isdigit_digit_char | constructor].
    + unfold digits_val. cbn [fold_left]. rewrite bval_digit_char by lia. lia.
    + intros. change (zlen [digit_char (n mod 10)]) with 1. lia.
  - destruct f as [|f']; [cbn in Hn; lia|].
    destruct (IH (n / 10) (digit_char (n mod 10) :: acc)) as (d & E & Ha & Hne & Hv & Hl & _); [lia|lia|].
    exists (d ++ [digit_char (n mod 10)]). rewrite E, <- app_assoc. split_and!; [done| | | | |].
    + apply Forall_app. split; [done|]. constructor; [by apply isdigit_digit_char | constructor].
    + by destruct d.
    + unfold digits_val. rewrite fold_left_app. fold (digits_val d). cbn [fold_left].
      rewrite Hv, bval_digit_char by lia. lia.
    + intros _. rewrite zlen_app. specialize (Hl ltac:(lia)).
      replace (zlen d + zlen [_] - 1) with (1 + (zlen d - 1)) by (rewrite zlen_cons, zlen_nil; lia).
      assert (1 <= zlen d) by (destruct d; [done|]; rewrite zlen_cons; pose proof (zlen_nonneg d); lia).
      rewrite Z.pow_add_r by lia. lia.
    + lia.
Qed.

Section ToDec.
Context (n : Z) (Hn : 0 <= n < 10 ^ 20).

Lemma to_dec_spec : all_digits (to_dec n) /\ to_dec n <> [] /\ digits_val (to_dec n) = n /\
  (n <> 0 -> 10 ^ (zlen (to_dec n) - 1) <= n) /\ (n = 0 -> zlen (to_dec n) = 1).
Proof using Hn.
  destruct (dec_digits_spec 20 n [] Hn) as (d & E & ?); [lia|].
  unfold to_dec. rewrite E, app_nil_r. tauto.
Qed.
Lemma to_dec_digits : all_digits (to_dec n).
Proof using Hn. apply to_dec_spec. Qed.
Lemma to_dec_nonempty : to_dec n <> [].
Proof using Hn. apply to_dec_spec. Qed.
Lemma to_dec_val : digits_val (to_dec n) = n.
Proof using Hn. apply to_dec_spec. Qed.

(** [to_chars] writes at most [k] digits for a number below [10^k]. *)
Lemma to_dec_length k : 1 <= k -> n < 10 ^ k -> 1 <= zlen (to_dec n) <= k.
Proof using Hn.
  intros Hk Hnk. destruct to_dec_spec as (_ & Hne & _ & Hl & Hz).
  assert (1 <= zlen (to_dec n)).
  { destruct (to_dec n); [done|]. rewrite zlen_cons. pose proof (zlen_nonneg l). lia. }
  split; [done|]. destruct (Z.eq_dec n 0) as [E0|E0]; [rewrite Hz by done; lia|].
  specialize (Hl E0). destruct (Z.le_gt_cases (zlen (to_dec n)) k); [done|].
  pose proof (Z.pow_le_mono_r 10 k (zlen (to_dec n) - 1) ltac:(lia) ltac:(lia)). lia.
Qed.

(** [from_chars] reads back what [to_chars] wrote. *)
Lemma from_chars_to_dec w t : n < 2 ^ w ->
  (match t with c :: _ => isdigit c = false | [] => True end) ->
  from_chars w (to_dec n ++ t) = mk_fc (Some n) (zlen (to_dec n)) errc_ok.
Proof using Hn.
  intros Hw Ht. unfold from_chars. rewrite span_digits_app by (auto using to_dec_digits).
  rewrite to_dec_val. pose proof (to_dec_length 20 ltac:(lia) ltac:(lia)).
  rewrite (proj2 (Z.eqb_neq _ _)) by lia. by rewrite (proj2 (Z.ltb_lt _ _)).
Qed.
End ToDec.

Lemma not_digit_notin c s : all_digits s -> isdigit c = false -> c ∉ s.
Proof.
  intros Hs Hc Hin. unfold all_digits in Hs. rewrite Forall_forall in Hs.
  by rewrite (Hs c Hin) in Hc.
Qed.

Lemma from_chars_ok_iff w s v : 0 <= w ->
  (fc_complete s (from_chars w s) = true /\ fc_value (from_chars w s) = Some v) <->
  (s <> [] /\ all_digits s /\ digits_val s = v /\ v < 2 ^ w).
Proof.
  intros Hw. unfold from_chars, fc_complete.
  destruct (span_digits_prefix s) as [t Es]. pose proof (span_digits_digits s) as Hd.
  cbv zeta. destruct (Z.eqb_spec (zlen (span_digits s)) 0) as [H|H]; cbn [fc_value fc_ec fc_ptr errc_is_ok andb].
  - split; [by intros [_ ?]|]. intros (Hne & Ha & _). rewrite span_digits_all in H by done.
    destruct s; [done|]. rewrite zlen_cons in H. pose proof (zlen_nonneg s). lia.
  - destruct (Z.ltb_spec (digits_val (span_digits s)) (2 ^ w)) as [H0|H0]; cbn [fc_value fc_ec fc_ptr errc_is_ok andb]; split.
    + intros [Hl%Z.eqb_eq [= Hv]]. assert (span_digits s = s) as E.
      { apply (f_equal zlen) in Es as El. rewrite zlen_app in El.
        destruct t as [|c t]; [by rewrite app_nil_r in Es|].
        rewrite zlen_cons in El. pose proof (zlen_nonneg t). lia. }
      rewrite E in *. split_and!; [by intros ->|done|done|lia].
    + intros (Hne & Ha & Hv & Hlt). rewrite span_digits_all by done. by rewrite Z.eqb_refl, Hv.
    + by intros [_ ?].
    + intros (Hne & Ha & Hv & Hlt). rewrite span_digits_all in H0 by done. lia.
Qed.

(** ** Splitting at an occurrence *)

Lemma occurs_split p l i : 0 <= i <= zlen l -> occurs p l i ->
  exists pre t, l = pre ++ p ++ t /\ zlen pre = i.
Proof.
  intros Hi [t E]%prefixb_spec. exists (ztake i l), t.
  rewrite <- E, ztake_zdrop, zlen_ztake by lia. done.
Qed.

Lemma occurs_app_intro p pre t : occurs p (pre ++ p ++ t) (zlen pre).
Proof. unfold occurs. rewrite zdrop_app_exact. apply prefixb_app. Qed.

Lemma occurs_app_r p l s i : 0 <= i <= zlen l -> occurs p l i -> occurs p (l ++ s) i.
Proof.
  intros Hi (pre & t & -> & <-)%occurs_split; [|done].
  rewrite <- !app_assoc. apply occurs_app_intro.
Qed.

Lemma find_char_split c pre t e : find [c] (pre ++ t) (zlen pre) = Some e ->
  exists d r, t = d ++ c :: r /\ (c ∉ d) /\ e = zlen pre + zlen d.
Proof.
  pose proof (zlen_nonneg pre).
  intros (He & Ho & Hn)%find_Some; [|done].
  assert (Ho' : occurs [c] t (e - zlen pre)).
  { unfold occurs in *. rewrite zdrop_app_r in Ho by lia. done. }
  apply occurs_split in Ho' as (d & r & -> & Ed); [|zlia].
  exists d, r. split_and!; [done| |lia]. intros Hc%list_elem_of_lookup_1. destruct Hc as [k Hk].
  pose proof (lookup_lt_Some _ _ _ Hk). apply (Hn (zlen pre + Z.of_nat k)).
  - unfold zlen in *. lia.
  - apply occurs_char; [lia|]. rewrite znth_app_r, znth_app_l by (unfold zlen in *; lia).
    unfold znth. rewrite (proj2 (Z.ltb_ge _ _)) by lia.
    by replace (Z.to_nat (zlen pre + Z.of_nat k - zlen pre)) with k by lia.
Qed.

(** A list splits at the first occurrence of an element in one way. *)
Lemma app_cons_unique {A} (c : A) d1 d2 r1 r2 : d1 ++ c :: r1 = d2 ++ c :: r2 -> c ∉ d1 -> c ∉ d2 -> d1 = d2 /\ r1 = r2.
Proof.
  revert d2. induction d1 as [|x d1 IH]; intros [|y d2] E H1 H2; cbn in E; injection E.
  - by intros ->.
  - intros _ ->. destruct H2. left.
  - intros _ ->. destruct H1. left.
  - intros E' ->. rewrite not_elem_of_cons in H1, H2. destruct (IH d2 E') as [-> ->]; [apply H1|apply H2|done].
Qed.

Lemma find_char_absent c pre s : find [c] (pre ++ s) (zlen pre) = None -> c ∉ s.
Proof. intros E Hin. apply list_elem_of_split_l in Hin as (d & r & -> & Hd). by rewrite find_char_app in E. Qed.

Lemma znth_app_head {A} (pre t : list A) (x : A) :
  znth (pre ++ t) (zlen pre) = Some x -> exists t', t = x :: t'.
Proof.
  rewrite znth_app_r, Z.sub_diag by lia. destruct t as [|y t]; [done|].
  intros [= ->]. by exists t.
Qed.

(** Two splittings of the same list. *)
Lemma app_eq_split {A} (a b c d : list A) : a ++ b = c ++ d -> zlen a <= zlen c ->
  exists k, c = a ++ k /\ b = k ++ d.
Proof.
  unfold zlen. intros E Hl. exists (drop (length a) c).
  assert (a = take (length a) c) as Ea.
  { apply (f_equal (take (length a))) in E. rewrite take_app_length, take_app_le in E by lia. done. }
  split.
  - rewrite Ea at 1. by rewrite take_drop.
  - apply (f_equal (drop (length a))) in E. rewrite drop_app_length, drop_app_le in E by lia. done.
Qed.
