(* ===== verification/Ring.v ===== *)
(** [Fix::Ring] (include/fix/core/Ring.hpp): the circular buffer with its three
    overflow policies.  The template parameters [T], [MinGrowSize] and [Policy] are
    section variables.  [ring_wf] is the representation invariant, [contents] the
    abstraction to a list; every operation is shown to refine the list operation, and
    the [Reject] instantiation is exported as an instance of [BoundedFifo], the
    interface the framer's theorems are proved against. *)
From S2P Require Import Prelude.

Inductive RingPolicy : Set := Grow | Reject | Overwrite.

Record Ring (T : Type) : Type := mk_ring {
  head_ : Z;
  tail_ : Z;
  capacity_ : Z;
  size_ : Z;
  buffer_ : list T
}.
Arguments mk_ring {T} _ _ _ _ _.
Arguments head_ {T} _.
Arguments tail_ {T} _.
Arguments capacity_ {T} _.
Arguments size_ {T} _.
Arguments buffer_ {T} _.

Section Ring.
Context {T : Type} `{Inhabited T}.

(** [buffer_[i]]. *)
Definition cell (r : Ring T) (i : Z) : T := default inhabitant (znth (buffer_ r) i).

Definition ring_new (Capacity : Z) : Ring T :=
  mk_ring 0 0 Capacity 0 (replicate (Z.to_nat Capacity) inhabitant).

Definition empty (r : Ring T) : bool := size_ r =? 0.
Definition full (r : Ring T) : bool := size_ r =? capacity_ r.
Definition next (r : Ring T) (idx : Z) : Z := u64 (idx + 1) mod capacity_ r.
Definition prev (r : Ring T) (idx : Z) : Z :=
  if idx =? 0 then u64 (capacity_ r - 1) else idx - 1.

(** The elements in queue order, from [head_]: the loop body of the growing copy. *)
Definition contents (r : Ring T) : list T :=
  (fun k => cell r (u64 (head_ r + k) mod capacity_ r)) <$> seqZ 0 (size_ r).

(** The part of [push] after the overflow policy was applied. *)
Definition push_back (item : T) (r : Ring T) : Ring T :=
  mk_ring (head_ r) (next r (tail_ r)) (capacity_ r) (u64 (size_ r + 1))
          (zset (tail_ r) item (buffer_ r)).

Definition grow (MinGrowSize : Z) (r : Ring T) : Ring T :=
  let new_capacity := u64 (capacity_ r + MinGrowSize) in
  mk_ring 0 (size_ r) new_capacity (size_ r)
          (contents r ++ replicate (Z.to_nat (new_capacity - size_ r)) inhabitant).

Definition push (MinGrowSize : Z) (Policy : RingPolicy) (item : T) (r : Ring T) : bool * Ring T :=
  if full r then
    match Policy with
    | Grow => (true, push_back item (grow MinGrowSize r))
    | Overwrite =>
        (true, push_back item
                 (mk_ring (next r (head_ r)) (tail_ r) (capacity_ r) (size_ r - 1) (buffer_ r)))
    | Reject => (false, r)
    end
  else (true, push_back item r).

Definition front (r : Ring T) : Res T :=
  check! negb (empty r) in Ok (cell r (head_ r)).

Definition back (r : Ring T) : Res T :=
  check! negb (empty r) in Ok (cell r (prev r (tail_ r))).

Definition pop_front (r : Ring T) : Res (Ring T) :=
  check! negb (empty r) in
  Ok (mk_ring (next r (head_ r)) (tail_ r) (capacity_ r) (size_ r - 1) (buffer_ r)).

Definition pop_back (r : Ring T) : Res (Ring T) :=
  check! negb (empty r) in
  Ok (mk_ring (head_ r) (prev r (tail_ r)) (capacity_ r) (size_ r - 1) (buffer_ r)).

Definition clear (r : Ring T) : Ring T :=
  mk_ring 0 0 (capacity_ r) 0 (buffer_ r).

Definition size (r : Ring T) : Z := size_ r.

(** ** Representation invariant *)

Record ring_wf (r : Ring T) : Prop := {
  wf_cap : 0 < capacity_ r < 2 ^ 62;
  wf_head : 0 <= head_ r < capacity_ r;
  wf_size : 0 <= size_ r <= capacity_ r;
  wf_tail : tail_ r = (head_ r + size_ r) mod capacity_ r;
  wf_buffer : zlen (buffer_ r) = capacity_ r
}.

Lemma wf_tail_range r : ring_wf r -> 0 <= tail_ r < capacity_ r.
Proof. intros [? ? ? -> ?]. apply Z.mod_pos_bound. lia. Qed.

(** Reading the [k]-th element of the queue. *)
Lemma contents_lookup r k : ring_wf r -> 0 <= k < size_ r ->
  znth (contents r) k = Some (cell r ((head_ r + k) mod capacity_ r)).
Proof.
  intros W Hk. unfold contents, znth. rewrite (proj2 (Z.ltb_ge k 0)) by lia.
  rewrite list_lookup_fmap, lookup_seqZ_lt by lia. cbn. f_equal. destruct W.
  rewrite u64_small by lia. do 2 f_equal. lia.
Qed.

Lemma contents_length r : ring_wf r -> zlen (contents r) = size_ r.
Proof. intros []. unfold contents, zlen. rewrite length_fmap, length_seqZ. lia. Qed.
End Ring.

(** Index arithmetic of the ring: distinct live offsets sit in distinct cells. *)
Lemma ring_index_inj h c j k : 0 < c -> 0 <= j < c -> 0 <= k < c -> 
  (h + j) mod c = (h + k) mod c -> j = k.
Proof.
  intros Hc Hj Hk E. 
  pose proof (Z.div_mod (h + j) c ltac:(lia)). pose proof (Z.div_mod (h + k) c ltac:(lia)).
  assert (j - k = c * ((h + j) / c - (h + k) / c)) by lia.
  assert ((h + j) / c - (h + k) / c = 0) by nia. lia.
Qed.

Lemma mod_succ h c : 0 < c -> 0 <= h -> (h mod c + 1) mod c = (h + 1) mod c.
Proof. intros. by rewrite Zplus_mod_idemp_l. Qed.

Section RingLaws.
Context {T : Type} `{Inhabited T}.
Implicit Types (r : Ring T) (x : T).

Lemma ring_new_wf n : 0 < n < 2 ^ 62 -> ring_wf (ring_new (T:=T) n) /\ contents (ring_new (T:=T) n) = [].
Proof.
  intros Hn. split; [|done]. split; cbn; try lia.
  - by rewrite Z.mod_0_l by lia.
  - rewrite zlen_replicate. lia.
Qed.

Lemma push_back_wf r x : ring_wf r -> size_ r < capacity_ r -> ring_wf (push_back x r).
Proof.
  intros W Hs. pose proof (wf_tail_range r W). destruct W. split; cbn; try lia.
  - rewrite u64_small; lia.
  - unfold next. rewrite !u64_small, wf_tail0, mod_succ by lia. f_equal. lia.
  - by rewrite zlen_zset.
Qed.

Lemma push_back_contents r x : ring_wf r -> size_ r < capacity_ r ->
  contents (push_back x r) = contents r ++ [x].
Proof.
  intros W Hs. pose proof (push_back_wf r x W Hs) as W'. pose proof (wf_tail_range r W).
  pose proof (contents_length r W) as L. destruct (W) as [? ? ? Et Hb].
  assert (size_ (push_back x r) = size_ r + 1) as E by (cbn; apply u64_small; lia).
  apply zlist_ext; [rewrite zlen_app, L, contents_length, E by done; done|].
  intros k Hk. rewrite contents_length, E in Hk by done.
  rewrite contents_lookup by (done || lia). unfold cell. cbn [push_back buffer_ head_ capacity_].
  destruct (Z.eq_dec k (size_ r)) as [->|Hne].
  - rewrite znth_app_r, L, Z.sub_diag by lia. rewrite <- Et, znth_zset_eq by lia. done.
  - rewrite znth_app_l, contents_lookup by (done || lia).
    rewrite znth_zset_ne; [done| |lia]. rewrite Et. intros E'.
    apply ring_index_inj in E'; lia.
Qed.

Lemma grow_wf m r : ring_wf r -> 0 < m -> capacity_ r + m < 2 ^ 62 ->
  ring_wf (grow m r) /\ capacity_ (grow m r) = capacity_ r + m /\ size_ (grow m r) = size_ r.
Proof.
  intros W Hm Hc. pose proof (contents_length r W) as L. destruct W.
  unfold grow. rewrite u64_small by lia. split_and!; [|done|done].
  split; cbn; try lia.
  - rewrite Z.mod_small; lia.
  - rewrite zlen_app, L, zlen_replicate. lia.
Qed.

Lemma grow_contents m r : ring_wf r -> 0 < m -> capacity_ r + m < 2 ^ 62 ->
  contents (grow m r) = contents r.
Proof.
  intros W Hm Hc. pose proof (grow_wf m r W Hm Hc) as (W' & Ec & Es).
  pose proof (contents_length r W) as L.
  apply zlist_ext; [by rewrite !contents_length|].
  intros k Hk. rewrite contents_length, Es in Hk by done.
  rewrite contents_lookup by (done || lia). rewrite Ec. unfold cell.
  cbn [grow buffer_ head_]. destruct W. rewrite Z.mod_small, znth_app_l by lia.
  replace (0 + k) with k by lia. destruct (znth_is_Some (contents r) k) as [y E]; [lia|].
  by rewrite E.
Qed.

Lemma pop_front_spec r x l : ring_wf r -> contents r = x :: l ->
  front r = Ok x /\
  exists r', pop_front r = Ok r' /\ ring_wf r' /\ contents r' = l /\ capacity_ r' = capacity_ r.
Proof.
  intros W E. pose proof (contents_length r W) as L. rewrite E, zlen_cons in L.
  pose proof (zlen_nonneg l) as Hl.
  assert (Hne : empty r = false) by (apply Z.eqb_neq; lia).
  pose proof (contents_lookup r 0 W ltac:(lia)) as H0. rewrite E in H0.
  unfold front, pop_front. rewrite Hne. cbn [negb].
  destruct (W) as [Wc Wh Ws Wt Wb]. rewrite Z.add_0_r, Z.mod_small in H0 by lia.
  split; [by injection H0 as ->|].
  eexists; split; [done|].
  set (r' := mk_ring _ _ _ _ _).
  assert (W' : ring_wf r').
  { subst r'. unfold next. split; cbn; rewrite ?u64_small by lia; try lia.
    - apply Z.mod_pos_bound. lia.
    - rewrite Zplus_mod_idemp_l, Wt. f_equal. lia. }
  split_and!; [done| |done].
  apply zlist_ext; [rewrite contents_length by done; cbn; lia|].
  intros k Hk. rewrite contents_length in Hk by done. cbn in Hk.
  rewrite contents_lookup by (done || cbn; lia).
  pose proof (contents_lookup r (k + 1) W ltac:(lia)) as Hk1. rewrite E in Hk1.
  rewrite znth_cons in Hk1 by lia. rewrite Hk1. unfold cell. subst r'. cbn. unfold next.
  rewrite u64_small by lia.
  rewrite Zplus_mod_idemp_l. do 4 f_equal. lia.
Qed.

Lemma pop_back_spec r x l : ring_wf r -> contents r = l ++ [x] ->
  back r = Ok x /\
  exists r', pop_back r = Ok r' /\ ring_wf r' /\ contents r' = l /\ capacity_ r' = capacity_ r.
Proof.
  intros W E. pose proof (contents_length r W) as L.
  rewrite E, zlen_app, zlen_cons, zlen_nil in L. pose proof (zlen_nonneg l) as Hl.
  pose proof (wf_tail_range r W) as Ht.
  assert (Hne : empty r = false) by (apply Z.eqb_neq; lia).
  destruct (W) as [Wc Wh Ws Wt Wb].
  assert (Hp : prev r (tail_ r) = (head_ r + (size_ r - 1)) mod capacity_ r).
  { unfold prev. pose proof (Z.div_mod (head_ r + size_ r) (capacity_ r) ltac:(lia)) as D.
    rewrite <- Wt in D. case_Z.
    - rewrite u64_small by lia. apply Z.mod_unique with ((head_ r + size_ r) / capacity_ r - 1); lia.
    - apply Z.mod_unique with ((head_ r + size_ r) / capacity_ r); lia. }
  unfold back, pop_back. rewrite Hne. cbn [negb].
  pose proof (contents_lookup r (size_ r - 1) W ltac:(lia)) as H0.
  rewrite E, znth_app_r in H0 by lia. replace (size_ r - 1 - zlen l) with 0 in H0 by lia.
  rewrite <- Hp in H0. split; [by injection H0 as ->|].
  eexists; split; [done|]. set (r' := mk_ring _ _ _ _ _).
  assert (W' : ring_wf r').
  { subst r'. split; cbn; try lia; done. }
  split_and!; [done| |done].
  apply zlist_ext; [rewrite contents_length by done; cbn; lia|].
  intros k Hk. rewrite contents_length in Hk by done. cbn in Hk.
  rewrite contents_lookup by (done || cbn; lia).
  pose proof (contents_lookup r k W ltac:(lia)) as Hk1.
  rewrite E, znth_app_l in Hk1 by lia. by rewrite Hk1.
Qed.

Lemma clear_spec r : ring_wf r ->
  ring_wf (clear r) /\ contents (clear r) = [] /\ capacity_ (clear r) = capacity_ r.
Proof.
  intros []. split_and!; [|done|done]. split; cbn; try lia. by rewrite Z.mod_0_l by lia.
Qed.
End RingLaws.

(** ** Abstract specification: a bounded queue

    The state of the specification is the capacity and the queued elements. *)

Inductive ring_op (T : Type) : Type :=
  | OpPush (x : T) | OpFront | OpBack | OpPopFront | OpPopBack | OpClear | OpSize.
Arguments OpPush {T} x.
Arguments OpFront {T}.
Arguments OpBack {T}.
Arguments OpPopFront {T}.
Arguments OpPopBack {T}.
Arguments OpClear {T}.
Arguments OpSize {T}.

Inductive ring_out (T : Type) : Type :=
  | OutBool (b : bool) | OutVal (x : T) | OutSize (n : Z) | OutUnit | OutFault (f : Fault).
Arguments OutBool {T} b.
Arguments OutVal {T} x.
Arguments OutSize {T} n.
Arguments OutUnit {T}.
Arguments OutFault {T} f.

Section QueueSpec.
Context {T : Type}.

Definition queue_push (m : Z) (pol : RingPolicy) (x : T) (q : Z * list T) : bool * (Z * list T) :=
  let '(cap, l) := q in
  if zlen l =? cap then
    match pol with
    | Grow => (true, (cap + m, l ++ [x]))
    | Overwrite => (true, (cap, tail l ++ [x]))
    | Reject => (false, q)
    end
  else (true, (cap, l ++ [x])).

Definition queue_step (m : Z) (pol : RingPolicy) (op : ring_op T) (q : Z * list T)
  : ring_out T * (Z * list T) :=
  let '(cap, l) := q in
  match op with
  | OpPush x => let '(b, q') := queue_push m pol x q in (OutBool b, q')
  | OpFront => (match l with [] => OutFault AssertFailed | x :: _ => OutVal x end, q)
  | OpBack => (match last l with None => OutFault AssertFailed | Some x => OutVal x end, q)
  | OpPopFront => match l with [] => (OutFault AssertFailed, q) | _ :: t => (OutUnit, (cap, t)) end
  | OpPopBack => match l with [] => (OutFault AssertFailed, q) | _ => (OutUnit, (cap, removelast l)) end
  | OpClear => (OutUnit, (cap, []))
  | OpSize => (OutSize (zlen l), q)
  end.
End QueueSpec.

Section RingSteps.
Context {T : Type} `{Inhabited T}.

Definition of_val (r : Res T) : ring_out T :=
  match r with Ok x => OutVal x | Err f => OutFault f end.
Definition of_state (old : Ring T) (r : Res (Ring T)) : ring_out T * Ring T :=
  match r with Ok r' => (OutUnit, r') | Err f => (OutFault f, old) end.

Definition ring_step (m : Z) (pol : RingPolicy) (op : ring_op T) (r : Ring T)
  : ring_out T * Ring T :=
  match op with
  | OpPush x => let '(b, r') := push m pol x r in (OutBool b, r')
  | OpFront => (of_val (front r), r)
  | OpBack => (of_val (back r), r)
  | OpPopFront => of_state r (pop_front r)
  | OpPopBack => of_state r (pop_back r)
  | OpClear => (OutUnit, clear r)
  | OpSize => (OutSize (size r), r)
  end.

Definition abs (r : Ring T) : Z * list T := (capacity_ r, contents r).

Lemma push_refines m pol (r : Ring T) x : ring_wf r ->
  (pol = Grow -> 0 < m /\ capacity_ r + m < 2 ^ 62) ->
  ring_wf (snd (push m pol x r)) /\
  queue_push m pol x (abs r) = (fst (push m pol x r), abs (snd (push m pol x r))).
Proof.
  intros W Hm. pose proof (contents_length r W) as L. unfold push, queue_push, full, abs.
  rewrite L. destruct (Z.eqb_spec (size_ r) (capacity_ r)) as [E|E].
  - destruct pol; cbn [fst snd].
    + destruct (Hm eq_refl) as [Hm0 Hm1].
      pose proof (grow_wf m r W Hm0 Hm1) as (W' & Ec & Es).
      assert (size_ (grow m r) < capacity_ (grow m r)) by lia.
      split; [by apply push_back_wf|].
      rewrite push_back_contents, grow_contents by done. cbn [push_back capacity_]. by rewrite Ec.
    + done.
    + destruct (contents r) as [|y l] eqn:C.
      { rewrite zlen_nil in L. destruct W. lia. }
      destruct (pop_front_spec r y l W C) as (_ & r' & P & W' & C' & Hc).
      unfold pop_front in P. destruct (negb (empty r)); [injection P as <-|done].
      assert (Hlt : size_ r - 1 < capacity_ r) by lia.
      split; [by apply push_back_wf|].
      rewrite push_back_contents by (done || cbn; lia). by rewrite C'.
  - cbn [fst snd]. assert (size_ r < capacity_ r) by (destruct W; lia).
    split; [by apply push_back_wf|]. by rewrite push_back_contents.
Qed.

Lemma contents_nil_empty (r : Ring T) : ring_wf r -> contents r = [] -> empty r = true.
Proof.
  intros W C. pose proof (contents_length r W) as L. rewrite C, zlen_nil in L.
  apply Z.eqb_eq. lia.
Qed.

Lemma ring_step_refines m pol op (r : Ring T) : ring_wf r ->
  (pol = Grow -> 0 < m /\ capacity_ r + m < 2 ^ 62) ->
  ring_wf (snd (ring_step m pol op r)) /\
  queue_step m pol op (abs r) = (fst (ring_step m pol op r), abs (snd (ring_step m pol op r))).
Proof.
  intros W Hm. destruct op as [x| | | | | |]; cbn [ring_step].
  - pose proof (push_refines m pol r x W Hm) as [W' E].
    change (queue_step m pol (OpPush x) (abs r)) with
      (let '(b, q') := queue_push m pol x (abs r) in (@OutBool T b, q')).
    rewrite E. by destruct (push m pol x r).
  - unfold queue_step, abs. cbn [fst snd]. destruct (contents r) as [|y l] eqn:C.
    + unfold front. by rewrite (contents_nil_empty r W C).
    + destruct (pop_front_spec r y l W C) as (-> & _). by rewrite <- C.
  - unfold queue_step, abs. cbn [fst snd]. destruct (contents r) as [|y l _] eqn:C using rev_ind.
    + unfold back. by rewrite (contents_nil_empty r W C).
    + destruct (pop_back_spec r y l W C) as (-> & _). by rewrite last_snoc.
  - unfold queue_step, abs. cbn [fst snd]. destruct (contents r) as [|y l] eqn:C.
    + unfold pop_front. rewrite (contents_nil_empty r W C). cbn. by rewrite C.
    + destruct (pop_front_spec r y l W C) as (_ & r' & -> & W' & <- & Hc). cbn. by rewrite Hc.
  - unfold queue_step, abs. cbn [fst snd]. destruct (contents r) as [|y l _] eqn:C using rev_ind.
    + unfold pop_back. rewrite (contents_nil_empty r W C). cbn. by rewrite C.
    + destruct (pop_back_spec r y l W C) as (_ & r' & -> & W' & <- & Hc). cbn.
      rewrite Hc. split; [done|]. destruct (contents r' ++ [y]) eqn:E; [by destruct (contents r')|].
      rewrite <- E. by rewrite removelast_last.
  - destruct (clear_spec r W) as (W' & E & Hc). split; [done|]. unfold queue_step, abs.
    cbn [fst snd]. by rewrite E, Hc.
  - split; [done|]. unfold queue_step, abs, size. cbn [fst snd]. by rewrite contents_length.
Qed.

Fixpoint ring_run (m : Z) (pol : RingPolicy) (ops : list (ring_op T)) (r : Ring T) : list (ring_out T) :=
  match ops with
  | [] => []
  | op :: ops' => let '(o, r') := ring_step m pol op r in o :: ring_run m pol ops' r'
  end.

Fixpoint queue_run (m : Z) (pol : RingPolicy) (ops : list (ring_op T)) (q : Z * list T) : list (ring_out T) :=
  match ops with
  | [] => []
  | op :: ops' => let '(o, q') := queue_step m pol op q in o :: queue_run m pol ops' q'
  end.

Lemma ring_step_capacity m pol op (r : Ring T) : 0 < m ->
  (pol = Grow -> ring_wf r /\ capacity_ r + m < 2 ^ 62) ->
  capacity_ r <= capacity_ (snd (ring_step m pol op r)) <= capacity_ r + m.
Proof.
  intros Hm Hg. destruct op; cbn; try lia.
  - unfold push. destruct (full r); [destruct pol|]; cbn; try lia.
    destruct (Hg eq_refl) as [[] ?]. rewrite u64_small; lia.
  - unfold pop_front. destruct (negb _); cbn; lia.
  - unfold pop_back. destruct (negb _); cbn; lia.
Qed.

(** C37: every run of a [Ring], under each of the three overflow policies, returns exactly
    what the same calls return on a bounded queue: elements come out in FIFO order, [Reject]
    refuses and keeps the queue, [Overwrite] drops the oldest element, [Grow] keeps them all,
    and an access to an empty ring is the failed assertion. *)
Theorem ring_refines_queue m pol ops (r : Ring T) : ring_wf r -> 0 < m ->
  capacity_ r + m * (1 + zlen ops) < 2 ^ 62 ->
  ring_run m pol ops r = queue_run m pol ops (abs r).
Proof.
  revert r. induction ops as [|op ops IH]; intros r W Hm Hb; [done|]. cbn [ring_run queue_run].
  rewrite zlen_cons in Hb. pose proof (zlen_nonneg ops).
  assert (Hg : pol = Grow -> 0 < m /\ capacity_ r + m < 2 ^ 62) by (intros _; nia).
  pose proof (ring_step_refines m pol op r W Hg) as [W' E]. rewrite E.
  pose proof (ring_step_capacity m pol op r Hm (fun E => conj W (proj2 (Hg E)))) as Hc.
  destruct (ring_step m pol op r) as [o r']; cbn in *. f_equal. apply IH; [done|done|nia].
Qed.
End RingSteps.

Example ring_refines_queue_witness :
  ring_run 1 Overwrite [OpPush 7; OpPush 8; OpPush 9; OpFront; OpPopBack; OpBack; OpSize] (ring_new 2)
  = queue_run 1 Overwrite [OpPush 7; OpPush 8; OpPush 9; OpFront; OpPopBack; OpBack; OpSize] (2, []).
Proof.
  apply (ring_refines_queue 1 Overwrite _ (ring_new (T:=Z) 2)).
  - apply ring_new_wf. lia.
  - lia.
  - vm_compute. reflexivity.
Defined.

(** ** The interface used by the framer *)

(** What a client of a rejecting queue of capacity [cap] may rely on. *)
Class BoundedFifo {Q T : Type} (inv : Q -> Prop) (elems : Q -> list T) (cap : Z)
    (push : T -> Q -> bool * Q) (front : Q -> Res T) (pop : Q -> Res Q) (clear : Q -> Q)
    (size : Q -> Z) : Prop := {
  fifo_size q : inv q -> size q = zlen (elems q) /\ zlen (elems q) <= cap;
  fifo_push q x : inv q -> zlen (elems q) < cap ->
    exists q', push x q = (true, q') /\ inv q' /\ elems q' = elems q ++ [x];
  fifo_push_full q x : inv q -> zlen (elems q) = cap -> push x q = (false, q);
  fifo_pop q x l : inv q -> elems q = x :: l ->
    front q = Ok x /\ exists q', pop q = Ok q' /\ inv q' /\ elems q' = l;
  fifo_clear q : inv q -> inv (clear q) /\ elems (clear q) = []
}.

#[export] Instance ring_bounded_fifo {T} `{Inhabited T} (cap : Z) :
  BoundedFifo (fun r : Ring T => ring_wf r /\ capacity_ r = cap) contents cap
    (push 0 Reject) front pop_front clear size.
Proof.
  split.
  - intros q [W <-]. rewrite contents_length by done. destruct W. unfold size. lia.
  - intros q x [W <-] Hs. destruct (push_refines 0 Reject q x W ltac:(done)) as [W' E].
    unfold queue_push, abs in E. rewrite (proj2 (Z.eqb_neq _ _)) in E by lia.
    destruct (push 0 Reject x q) as [b q']; cbn in *. injection E as <- E1 E2.
    by exists q'.
  - intros q x [W <-] Hs. rewrite contents_length in Hs by done.
    unfold push, full. by rewrite (proj2 (Z.eqb_eq _ _)).
  - intros q x l [W <-] E. destruct (pop_front_spec q x l W E) as (-> & q' & -> & W' & <- & ?).
    split; [done|]. by exists q'.
  - intros q [W <-]. by destruct (clear_spec q W) as (? & ? & ?).
Qed.
