(* ===== verification/LinearBuffer.v ===== *)
(** [Fix::LinearBuffer<unsigned char>] (include/fix/core/LinearBuffer.hpp): the growable
    receive buffer with absolute stream positions.

    [data_] is the written prefix of the allocated block: bytes past its end were never
    written and no operation reads them.  The abstraction of a buffer is the pair of the
    absolute position of its first readable byte and the readable bytes ([origin] and
    [readable]); pushing appends, discarding drops from the front and advances the origin,
    and growing, compacting and resetting the indices are invisible. *)
From S2P Require Import Prelude.

Definition Start_Capacity : Z := 64 * 1024.
Definition Min_Grow : Z := 16 * 1024.

Record LinearBuffer : Type := mk_linear_buffer {
  capacity_ : Z;
  data_ : bytes;
  head_ : Z;
  tail_ : Z;
  base_abs_ : Z
}.

Definition linear_buffer_new : LinearBuffer := mk_linear_buffer Start_Capacity [] 0 0 0.

Definition readable_size (b : LinearBuffer) : Z := u64 (tail_ b - head_ b).
Definition empty (b : LinearBuffer) : bool := tail_ b =? head_ b.
Definition readable (b : LinearBuffer) : bytes := zsub (head_ b) (tail_ b - head_ b) (data_ b).

Definition local_to_abs (b : LinearBuffer) (local : Z) : Z := u64 (base_abs_ b + local).
Definition abs_to_local (b : LinearBuffer) (abs : Z) : Res Z :=
  check! base_abs_ b <=? abs in Ok (u64 (abs - base_abs_ b)).
Definition readable_rel_to_abs (b : LinearBuffer) (rel : Z) : Z :=
  local_to_abs b (u64 (head_ b + rel)).
Definition abs_to_readable_rel (b : LinearBuffer) (abs : Z) : Res Z :=
  let! local := abs_to_local b abs in
  check! head_ b <=? local in Ok (local - head_ b).

Definition compact (b : LinearBuffer) : LinearBuffer :=
  let live := tail_ b - head_ b in
  if live =? 0 then
    mk_linear_buffer (capacity_ b) (data_ b) 0 0 (u64 (base_abs_ b + head_ b))
  else
    mk_linear_buffer (capacity_ b) (blit 0 (zsub (head_ b) live (data_ b)) (data_ b))
                     0 live (u64 (base_abs_ b + head_ b)).

Definition grow (n : Z) (b : LinearBuffer) : LinearBuffer :=
  let live := tail_ b - head_ b in
  let required := u64 (live + n) in
  let increase := Z.max n Min_Grow in
  let new_capacity := u64 (capacity_ b + increase) in
  let new_capacity := if new_capacity <? required then required else new_capacity in
  let new_data := if 0 <? live then zsub (head_ b) live (data_ b) else [] in
  mk_linear_buffer new_capacity new_data 0 live (u64 (base_abs_ b + head_ b)).

Definition ensure_writable (n : Z) (b : LinearBuffer) : LinearBuffer :=
  if u64 (tail_ b + n) <=? capacity_ b then b
  else
    let live := tail_ b - head_ b in
    if (0 <? head_ b) && (u64 (live + n) <=? capacity_ b) then compact b
    else grow n b.

Definition push (items : bytes) (b : LinearBuffer) : LinearBuffer :=
  let b := ensure_writable (zlen items) b in
  mk_linear_buffer (capacity_ b) (blit (tail_ b) items (data_ b))
                   (head_ b) (u64 (tail_ b + zlen items)) (base_abs_ b).

Definition discard_prefix (count : Z) (b : LinearBuffer) : Res LinearBuffer :=
  check! count <=? tail_ b - head_ b in
  let h := u64 (head_ b + count) in
  if h =? tail_ b then
    Ok (mk_linear_buffer (capacity_ b) (data_ b) 0 0 (u64 (base_abs_ b + h)))
  else
    let b := mk_linear_buffer (capacity_ b) (data_ b) h (tail_ b) (base_abs_ b) in
    Ok (if capacity_ b / 2 <=? h then compact b else b).

Definition reset (b : LinearBuffer) : LinearBuffer :=
  mk_linear_buffer (capacity_ b) (data_ b) 0 0 0.

(** ** Invariant and abstraction *)

(** The index invariant: the live range lies inside the written part of the block, which
    lies inside the block, and stream positions have not reached [2^63]. *)
Record lb_wf (b : LinearBuffer) : Prop := {
  wf_head : 0 <= head_ b <= tail_ b;
  wf_tail : tail_ b <= zlen (data_ b);
  wf_data : zlen (data_ b) <= capacity_ b;
  wf_cap : Start_Capacity <= capacity_ b < 2 ^ 62;
  wf_base : 0 <= base_abs_ b
}.

(** Absolute position of the first readable byte. *)
Definition origin (b : LinearBuffer) : Z := base_abs_ b + head_ b.

Lemma linear_buffer_new_wf : lb_wf linear_buffer_new.
Proof. split; cbn; unfold Start_Capacity; zlia. Qed.

Lemma readable_length b : lb_wf b -> zlen (readable b) = tail_ b - head_ b.
Proof. intros []. unfold readable. rewrite zlen_zsub; lia. Qed.

Lemma readable_size_spec b : lb_wf b -> readable_size b = zlen (readable b).
Proof. intros W. rewrite readable_length by done. destruct W. apply u64_small. lia. Qed.

Lemma readable_rel_to_abs_spec b r : lb_wf b -> 0 <= r < 2 ^ 62 -> origin b + r < 2 ^ 64 ->
  readable_rel_to_abs b r = origin b + r.
Proof.
  intros [] Hr Ho. unfold readable_rel_to_abs, local_to_abs, origin in *.
  rewrite (u64_small (head_ b + r)) by lia. rewrite u64_small; lia.
Qed.

Lemma abs_to_readable_rel_spec b a : lb_wf b -> origin b <= a < 2 ^ 64 ->
  abs_to_readable_rel b a = Ok (a - origin b).
Proof.
  intros [] Ha. unfold abs_to_readable_rel, abs_to_local, origin in *. cbn.
  rewrite (proj2 (Z.leb_le _ _)) by lia. rewrite u64_small by lia. cbn.
  rewrite (proj2 (Z.leb_le _ _)) by lia. f_equal. lia.
Qed.

(** [b'] shows the same stream contents as [b]. *)
Record same_view (b b' : LinearBuffer) : Prop := {
  sv_origin : origin b' = origin b;
  sv_readable : readable b' = readable b
}.

#[export] Instance same_view_equiv : Equivalence same_view.
Proof.
  split; [by split| |]; intros x y; [|intros z]; intros []; [|intros []]; split; congruence.
Qed.

Lemma compact_spec b : lb_wf b -> origin b < 2 ^ 64 ->
  lb_wf (compact b) /\ same_view b (compact b) /\ head_ (compact b) = 0 /\
  capacity_ (compact b) = capacity_ b.
Proof.
  intros W Ho. pose proof (readable_length b W) as L. destruct (W) as [Wh Wt Wd Wc Wb].
  unfold origin in Ho. unfold compact. case_Z.
  - split_and!; [split; cbn; word_simpl; lia| |done|done]. split; unfold origin, readable; cbn.
    + rewrite u64_small; lia.
    + by replace (tail_ b - head_ b) with 0 by lia.
  - fold (readable b). rewrite <- L. split_and!; [|split|done|done].
    + split; cbn; rewrite ?zlen_blit by (pose proof (zlen_nonneg (data_ b)); lia);
        word_simpl; lia.
    + unfold origin. cbn. rewrite u64_small; lia.
    + unfold readable at 1. cbn. rewrite Z.sub_0_r. unfold blit. rewrite ztake_0. cbn [app].
      unfold zsub. rewrite zdrop_0. apply ztake_app_exact.
Qed.

Lemma grow_spec n b : lb_wf b -> origin b < 2 ^ 64 -> 0 <= n -> capacity_ b + n + Min_Grow < 2 ^ 62 ->
  lb_wf (grow n b) /\ same_view b (grow n b) /\
  tail_ (grow n b) + n <= capacity_ (grow n b) /\
  capacity_ (grow n b) <= capacity_ b + n + Min_Grow.
Proof.
  intros W Ho Hn Hc. pose proof (readable_length b W) as L. pose proof (zlen_nonneg (readable b)).
  destruct (W) as [Wh Wt Wd Wc Wb]. unfold origin in Ho. unfold Min_Grow in *. unfold grow.
  rewrite !(u64_small (_ + _)) by (unfold Min_Grow; lia).
  fold (readable b). rewrite <- L.
  assert (E : (if 0 <? zlen (readable b) then readable b else []) = readable b).
  { case_Z; [done|]. destruct (readable b); [done|zlia]. }
  rewrite E. set (cap' := if _ <? _ then _ else _).
  assert (Hcap : capacity_ b + n <= cap' <= capacity_ b + n + 16384 /\ zlen (readable b) + n <= cap')
    by (subst cap'; unfold Min_Grow, Start_Capacity in *; case_Z; lia).
  clearbody cap'. unfold Start_Capacity in *.
  split_and!; [split|split| |]; cbn; unfold Start_Capacity; rewrite ?u64_small by lia; try lia.
  - unfold origin. cbn. lia.
  - unfold readable at 1. cbn. rewrite Z.sub_0_r. apply zsub_full.
Qed.

(** After [ensure_writable(n)] the next [n] bytes fit in the block. *)
Lemma ensure_writable_spec n b : lb_wf b -> origin b < 2 ^ 64 -> 0 <= n ->
  capacity_ b + n + Min_Grow < 2 ^ 62 ->
  lb_wf (ensure_writable n b) /\ same_view b (ensure_writable n b) /\
  tail_ (ensure_writable n b) + n <= capacity_ (ensure_writable n b) /\
  capacity_ (ensure_writable n b) <= capacity_ b + n + Min_Grow.
Proof.
  intros W Ho Hn Hc. destruct (W) as [Wh Wt Wd Wc Wb]. unfold ensure_writable.
  unfold Min_Grow in *. rewrite !(u64_small (_ + _)) by lia.
  destruct (Z.leb_spec (tail_ b + n) (capacity_ b)); [split_and!; [done|reflexivity|lia|lia]|].
  destruct ((0 <? head_ b) && (tail_ b - head_ b + n <=? capacity_ b)) eqn:E.
  - apply andb_true_iff in E as [E1%Z.ltb_lt E2%Z.leb_le].
    destruct (compact_spec b W Ho) as (W' & S & H0 & Ec).
    split_and!; [done|done| |lia].
    pose proof (readable_length _ W') as L'. rewrite (sv_readable _ _ S), readable_length, H0 in L' by done.
    lia.
  - apply grow_spec; unfold Min_Grow; done || lia.
Qed.

Lemma push_spec s b : lb_wf b -> origin b < 2 ^ 64 -> capacity_ b + zlen s + Min_Grow < 2 ^ 62 ->
  lb_wf (push s b) /\ origin (push s b) = origin b /\ readable (push s b) = readable b ++ s /\
  capacity_ (push s b) <= capacity_ b + zlen s + Min_Grow.
Proof.
  intros W Ho Hc. pose proof (zlen_nonneg s) as Hs.
  destruct (ensure_writable_spec (zlen s) b W Ho Hs Hc) as (W' & [So Sr] & Hf & Hcap).
  unfold push. set (b' := ensure_writable (zlen s) b) in *. destruct (W') as [Wh Wt Wd Wc Wb].
  rewrite !u64_small by lia. rewrite <- So, <- Sr.
  split_and!; [|done| |done].
  - split; cbn; rewrite ?zlen_blit by lia; lia.
  - unfold readable at 1. cbn.
    unfold zsub. rewrite <- (ztake_zdrop (tail_ b' + zlen s) (blit _ _ _)), blit_app by lia.
    rewrite zdrop_app_l by (rewrite zlen_app, zlen_ztake; lia).
    rewrite zdrop_app_l by (rewrite zlen_ztake; lia).
    rewrite zdrop_ztake by lia. fold (zsub (head_ b') (tail_ b' - head_ b') (data_ b')).
    fold (readable b'). pose proof (readable_length b' W') as L.
    replace (tail_ b' + zlen s - head_ b') with (zlen (readable b' ++ s)) by (rewrite zlen_app; lia).
    apply ztake_app_exact.
Qed.

Lemma discard_prefix_spec n b : lb_wf b -> origin b + n < 2 ^ 64 -> 0 <= n <= zlen (readable b) ->
  exists b', discard_prefix n b = Ok b' /\ lb_wf b' /\ origin b' = origin b + n /\
             readable b' = zdrop n (readable b) /\ capacity_ b' = capacity_ b.
Proof.
  intros W Ho Hn. pose proof (readable_length b W) as L. destruct (W) as [Wh Wt Wd Wc Wb].
  unfold origin in Ho. unfold discard_prefix. rewrite (proj2 (Z.leb_le _ _)) by lia.
  rewrite (u64_small (head_ b + n)) by lia.
  destruct (Z.eqb_spec (head_ b + n) (tail_ b)).
  - eexists; split; [done|]. rewrite u64_small by lia. split_and!; [split; cbn; lia| | |done].
    + unfold origin. cbn. lia.
    + rewrite zdrop_all by lia. done.
  - set (b1 := mk_linear_buffer _ _ _ _ _).
    assert (W1 : lb_wf b1) by (split; cbn; lia).
    assert (O1 : origin b1 = origin b + n) by (unfold origin; cbn; lia).
    assert (R1 : readable b1 = zdrop n (readable b)).
    { unfold readable, zsub. cbn. rewrite zdrop_ztake, zdrop_zdrop by lia. f_equal. lia. }
    destruct (_ <=? _); eexists; (split; [done|]).
    + destruct (compact_spec b1 W1) as (W2 & [So Sr] & _ & Ec); [unfold origin in *; lia|].
      split_and!; [done|congruence|congruence|done].
    + done.
Qed.

Lemma reset_spec b : lb_wf b -> lb_wf (reset b) /\ origin (reset b) = 0 /\ readable (reset b) = [].
Proof. intros []. split_and!; [split; cbn; lia|done|done]. Qed.

(** ** Refinement of a byte stream window

    The specification state is [(origin, window)]: the absolute position of the first
    retained byte, and the retained bytes. *)

Inductive lb_op : Set := LPush (s : bytes) | LDiscard (n : Z) | LReset.

Definition lb_step (op : lb_op) (b : LinearBuffer) : Res LinearBuffer :=
  match op with
  | LPush s => Ok (push s b)
  | LDiscard n => discard_prefix n b
  | LReset => Ok (reset b)
  end.

Definition window_step (op : lb_op) (w : Z * bytes) : Res (Z * bytes) :=
  let '(o, l) := w in
  match op with
  | LPush s => Ok (o, l ++ s)
  | LDiscard n => check! n <=? zlen l in Ok (o + n, zdrop n l)
  | LReset => Ok (0, [])
  end.

Fixpoint run {S : Type} (step : lb_op -> S -> Res S) (ops : list lb_op) (s : S) : Res S :=
  match ops with
  | [] => Ok s
  | op :: ops' => let! s' := step op s in run step ops' s'
  end.

Definition view (b : LinearBuffer) : Z * bytes := (origin b, readable b).

(** Room an operation may take: bytes pushed plus the growth slack. *)
Definition lb_cost (op : lb_op) : Z :=
  match op with LPush s => zlen s + Min_Grow | LDiscard n => n | LReset => 0 end.
Definition lb_op_ok (op : lb_op) : Prop :=
  match op with LDiscard n => 0 <= n | _ => True end.
Fixpoint lb_total (ops : list lb_op) : Z :=
  match ops with [] => 0 | op :: ops' => lb_cost op + lb_total ops' end.

Lemma lb_cost_nonneg op : lb_op_ok op -> 0 <= lb_cost op.
Proof. destruct op; cbn; unfold Min_Grow; zlia. Qed.

Lemma lb_total_nonneg ops : Forall lb_op_ok ops -> 0 <= lb_total ops.
Proof. induction 1 as [|op ops H _ IH]; cbn; [lia|]. pose proof (lb_cost_nonneg op H). lia. Qed.

Lemma lb_step_refines op b : lb_wf b -> lb_op_ok op ->
  origin b + lb_cost op < 2 ^ 62 -> capacity_ b + lb_cost op < 2 ^ 62 ->
  match lb_step op b with
  | Ok b' => window_step op (view b) = Ok (view b') /\ lb_wf b' /\
             origin b' <= origin b + lb_cost op /\ capacity_ b' <= capacity_ b + lb_cost op
  | Err f => window_step op (view b) = Err f
  end.
Proof.
  intros W Hop Ho Hc. pose proof (lb_cost_nonneg op Hop). destruct op as [s|n|]; cbn [lb_step window_step lb_cost lb_op_ok] in *.
  - destruct (push_spec s b W) as (W' & Eo & Er & Ec); [lia|lia|].
    unfold view, window_step. rewrite Eo, Er. split_and!; [done|done|lia|lia].
  - unfold view, window_step. destruct (Z.leb_spec n (zlen (readable b))).
    + destruct (discard_prefix_spec n b W) as (b' & -> & W' & -> & -> & ->); [lia|lia|].
      split_and!; [done|done|lia|lia].
    + unfold discard_prefix. rewrite readable_length in H0 by done.
      by rewrite (proj2 (Z.leb_gt _ _)).
  - destruct (reset_spec b W) as (W' & Eo & Er). unfold view, window_step. rewrite Eo, Er.
    destruct W. unfold origin. split_and!; [done|done|lia|cbn; lia].
Qed.

(** C36: the receive buffer is a window on the byte stream.  Whatever sequence of pushes,
    discards and resets is applied, the readable bytes and the absolute position of the first
    one are those of the abstract window (so compaction, index normalisation and reallocation
    are invisible), a discard past the end is the failed assertion in both, and the live range
    stays inside the bytes written, which stay inside the allocated block. *)
Theorem linear_buffer_refines_window ops b : lb_wf b -> Forall lb_op_ok ops ->
  origin b + lb_total ops < 2 ^ 62 -> capacity_ b + lb_total ops < 2 ^ 62 ->
  match run lb_step ops b with
  | Ok b' => run window_step ops (view b) = Ok (view b') /\
             0 <= head_ b' <= tail_ b' /\ tail_ b' <= zlen (data_ b') <= capacity_ b'
  | Err f => run window_step ops (view b) = Err f
  end.
Proof.
  revert b. induction ops as [|op ops IH]; intros b W Hops Ho Hc; cbn [run].
  - destruct W. split; [done|lia].
  - apply Forall_cons in Hops as [Hop Hops]. cbn [lb_total] in Ho, Hc. pose proof (lb_total_nonneg ops Hops).
    pose proof (lb_step_refines op b W Hop ltac:(lia) ltac:(lia)) as S.
    destruct (lb_step op b) as [b'|f]; cbn [mbind res_bind].
    + destruct S as (-> & W' & Ho' & Hc'). cbn [mbind res_bind]. apply IH; [done|done|lia|lia].
    + by rewrite S.
Qed.

Definition lb_demo : list lb_op := [LPush (B "8=FIX"); LDiscard 2; LPush (B ".4.4"); LDiscard 7; LPush (B "9=")].

Example linear_buffer_refines_window_witness :
  match run lb_step lb_demo linear_buffer_new with
  | Ok b' => run window_step lb_demo (view linear_buffer_new) = Ok (view b') /\
             0 <= head_ b' <= tail_ b' /\ tail_ b' <= zlen (data_ b') <= capacity_ b'
  | Err f => run window_step lb_demo (view linear_buffer_new) = Err f
  end.
Proof.
  apply (linear_buffer_refines_window lb_demo linear_buffer_new).
  - apply linear_buffer_new_wf.
  - repeat constructor; cbn; lia.
  - vm_compute. reflexivity.
  - vm_compute. reflexivity.
Defined.
