(* ===== verification/Framer.v ===== *)
(** [Fix::Framer] (include/fix/core/Framer.hpp, src/Framer.cpp): cuts the received byte
    stream into FIX messages by the BeginString and BodyLength fields.

    The state is the receive buffer, the ring of completed message windows (absolute
    positions), the context of the message being scanned, and the scan position. *)
From Stdlib Require Import Strings.Byte.
From S2P Require Import Prelude.
From S2P Require Import Text.
From S2P Require Import Ring.
From S2P Require Import LinearBuffer.

Inductive FramerContextState : Set := FindingBegin | ReadingBody | Complete.
Inductive FramerParseResult : Set := QueuedMessage | ProgressNoMsg | NeedMoreData.

Record MessageWindow : Set := mk_window { win_begin : Z; win_end : Z }.

Record FramerContext : Set := mk_context {
  ctx_begin : Z;
  ctx_end : Z;
  ctx_body_len : Z;
  ctx_state : FramerContextState
}.

(** [FramerContext{}]: the default member initializers. *)
Definition fresh_context : FramerContext := mk_context 0 0 0 FindingBegin.

Definition make_message_window (ctx : FramerContext) : MessageWindow :=
  mk_window (ctx_begin ctx) (ctx_end ctx).

#[export] Instance window_inhabited : Inhabited MessageWindow := populate (mk_window 0 0).

Definition Fix_First_Field : bytes := B "8=FIX.4.4" ++ [SOH].
Definition MAX_MESSAGE_SIZE : Z := 1024 * 1024.
(** Capacity of the ring of completed messages. *)
Definition Completed_Capacity : Z := 1024.

Record Framer : Type := mk_framer {
  current_context_ : FramerContext;
  buffer_ : LinearBuffer;
  completed_messages_ : Ring MessageWindow;
  scan_abs_ : Z
}.

Definition framer_new : Framer :=
  mk_framer fresh_context linear_buffer_new (ring_new Completed_Capacity) 0.

Definition has_message (f : Framer) : bool := 0 <? Ring.size (completed_messages_ f).

(** The window is pushed, the scan continues after it and the context starts afresh. *)
Definition complete_message (ctx : FramerContext) (f : Framer) : Framer :=
  mk_framer fresh_context (buffer_ f)
    (snd (Ring.push 0 Reject (make_message_window ctx) (completed_messages_ f)))
    (ctx_end ctx).

(** [scan_abs_ = begin + 1; current_context_ = {}]: skip a malformed header. *)
Definition resync (ctx : FramerContext) (f : Framer) : Framer :=
  mk_framer fresh_context (buffer_ f) (completed_messages_ f) (u64 (ctx_begin ctx + 1)).

Definition with_context (ctx : FramerContext) (scan : Z) (f : Framer) : Framer :=
  mk_framer ctx (buffer_ f) (completed_messages_ f) scan.

(** The header scan, from the position [begin_pos] of a BeginString on (the part of
    [parse_buffer] from line 50 to line 92). *)
Definition parse_header (view : bytes) (begin_pos : Z) (f : Framer)
  : Res (FramerParseResult * Framer) :=
  let ctx := current_context_ f in
  let body_start := begin_pos + zlen Fix_First_Field in
  if zlen view <? body_start + 2 then Ok (NeedMoreData, f)
  else if negb (bool_decide (znth view body_start = Some x39) &&
                bool_decide (znth view (body_start + 1) = Some x3d))
  then Ok (ProgressNoMsg, resync ctx f)
  else
    let body_start := body_start + 2 in
    match find [SOH] view body_start with
    | None => Ok (NeedMoreData, f)
    | Some body_end_pos =>
        let body_length_str := zsub body_start (body_end_pos - body_start) view in
        let r := from_chars 64 body_length_str in
        let ctx := mk_context (ctx_begin ctx) (ctx_end ctx) (fc_or (ctx_body_len ctx) r) (ctx_state ctx) in
        if negb (fc_complete body_length_str r) then Ok (ProgressNoMsg, resync ctx f)
        else if MAX_MESSAGE_SIZE <? ctx_body_len ctx then Ok (ProgressNoMsg, resync ctx f)
        else
          let end_ := u64 (body_end_pos + 1 + ctx_body_len ctx + 7) in
          let ctx := mk_context (ctx_begin ctx) (readable_rel_to_abs (buffer_ f) end_)
                                (ctx_body_len ctx) ReadingBody in
          if zlen view <? end_ then Ok (NeedMoreData, with_context ctx (scan_abs_ f) f)
          else Ok (QueuedMessage, complete_message ctx f)
    end.

Definition parse_buffer (f : Framer) : Res (FramerParseResult * Framer) :=
  let view := readable (buffer_ f) in
  let readable_begin_abs := readable_rel_to_abs (buffer_ f) 0 in
  let f := if scan_abs_ f <? readable_begin_abs
           then with_context (current_context_ f) readable_begin_abs f else f in
  let! relative_start := abs_to_readable_rel (buffer_ f) (scan_abs_ f) in
  if zlen view <=? relative_start then Ok (NeedMoreData, f)
  else
    match ctx_state (current_context_ f) with
    | FindingBegin =>
        match find Fix_First_Field view relative_start with
        | Some begin_pos =>
            let begin_ := readable_rel_to_abs (buffer_ f) begin_pos in
            let ctx := current_context_ f in
            let ctx := mk_context begin_ (ctx_end ctx) (ctx_body_len ctx) (ctx_state ctx) in
            parse_header view begin_pos (with_context ctx begin_ f)
        | None =>
            if Ring.empty (completed_messages_ f) then
              let k := zlen Fix_First_Field in
              let keep := if zlen view <? k - 1 then zlen view else k - 1 in
              let drop := zlen view - keep in
              let! b := discard_prefix drop (buffer_ f) in
              Ok (NeedMoreData,
                  mk_framer (current_context_ f) b (completed_messages_ f) (readable_rel_to_abs b 0))
            else Ok (NeedMoreData, f)
        end
    | _ =>
        let end_ := ctx_end (current_context_ f) in
        if readable_rel_to_abs (buffer_ f) (zlen view) <? end_ then Ok (NeedMoreData, f)
        else Ok (QueuedMessage, complete_message (current_context_ f) f)
    end.

(** [while (!completed_messages_.full() && parse_buffer() != NeedMoreData) {}]. *)
Fixpoint parse_loop (fuel : nat) (f : Framer) : Res Framer :=
  match fuel with
  | O => Err OutOfFuel
  | S fuel' =>
      if Ring.full (completed_messages_ f) then Ok f
      else
        let! '(r, f') := parse_buffer f in
        match r with NeedMoreData => Ok f' | _ => parse_loop fuel' f' end
  end.

Definition append (data : bytes) (f : Framer) : Res Framer :=
  let f := mk_framer (current_context_ f) (LinearBuffer.push data (buffer_ f))
                     (completed_messages_ f) (scan_abs_ f) in
  parse_loop (S (S (length (readable (buffer_ f))))) f.

Definition consume_message (f : Framer) : Res Framer :=
  check! has_message f in
  let! w := Ring.front (completed_messages_ f) in
  let! n := abs_to_readable_rel (buffer_ f) (win_end w) in
  let! b := discard_prefix n (buffer_ f) in
  let! q := Ring.pop_front (completed_messages_ f) in
  Ok (mk_framer (current_context_ f) b q (scan_abs_ f)).

Definition get_message (f : Framer) : Res bytes :=
  check! has_message f in
  let! w := Ring.front (completed_messages_ f) in
  let! rel_begin := abs_to_readable_rel (buffer_ f) (win_begin w) in
  let! rel_end := abs_to_readable_rel (buffer_ f) (win_end w) in
  let view := readable (buffer_ f) in
  check! rel_begin <=? zlen view in
  check! rel_end <=? zlen view in
  check! rel_begin <=? rel_end in
  Ok (zsub rel_begin (rel_end - rel_begin) view).

Definition discard_n_from_head (count : Z) (f : Framer) : Res Framer :=
  check! count <=? readable_size (buffer_ f) in
  let! b := discard_prefix count (buffer_ f) in
  Ok (mk_framer (current_context_ f) b (completed_messages_ f) (scan_abs_ f)).

Definition reset (f : Framer) : Framer :=
  mk_framer fresh_context (LinearBuffer.reset (buffer_ f)) (Ring.clear (completed_messages_ f)) 0.

(** ** What a frame is

    A frame is a BeginString field, a BodyLength field announcing [n], and [n + 7] more
    bytes (the body and the checksum field). *)

Definition frame_header (d : bytes) : bytes := Fix_First_Field ++ B "9=" ++ d ++ [SOH].

Definition header_ok (d : bytes) : Prop :=
  all_digits d /\ d <> [] /\ digits_val d <= MAX_MESSAGE_SIZE.

Definition is_frame (m : bytes) : Prop :=
  exists d r, m = frame_header d ++ r /\ header_ok d /\ zlen r = digits_val d + 7.

(** A complete header at relative position [a] that announces a message ending at [e]. *)
Definition header_at (view : bytes) (a e : Z) : Prop :=
  exists d, header_ok d /\ 0 <= a <= zlen view /\ occurs (frame_header d) view a /\
            e = a + zlen (frame_header d) + digits_val d + 7.

Definition frame_at (view : bytes) (a e : Z) : Prop :=
  0 <= a /\ a < e <= zlen view /\ is_frame (zsub a (e - a) view).

Lemma header_ok_val d : header_ok d -> 0 <= digits_val d <= MAX_MESSAGE_SIZE.
Proof. intros (Ha & _ & ?). pose proof (digits_val_nonneg d Ha). lia. Qed.

Lemma frame_header_length d : zlen (frame_header d) = 13 + zlen d.
Proof. unfold frame_header. rewrite !zlen_app. change (zlen Fix_First_Field) with 10.
  change (zlen (B "9=")) with 2. change (zlen [SOH]) with 1. lia. Qed.

Lemma header_at_frame view a e : header_at view a e -> e <= zlen view -> frame_at view a e.
Proof.
  intros (d & Hd & Ha & Ho & ->) He. pose proof (header_ok_val d Hd).
  pose proof (frame_header_length d). pose proof (zlen_nonneg d).
  split; [lia|]. split; [lia|].
  apply occurs_split in Ho as (pre & t & -> & <-); [|done].
  unfold zsub. rewrite zdrop_app_exact.
  exists d, (ztake (digits_val d + 7) t). split_and!; [|done|].
  - rewrite ztake_app_r by lia. do 2 f_equal. lia.
  - apply zlen_ztake. zlia.
Qed.

Lemma header_at_app view s a e : header_at view a e -> header_at (view ++ s) a e.
Proof.
  intros (d & Hd & Ha & Ho & ->). exists d. split_and!; [done|lia|zlia| |done].
  by apply occurs_app_r.
Qed.

Lemma frame_at_app view s a e : frame_at view a e -> frame_at (view ++ s) a e.
Proof.
  intros (Ha & He & Hf). split; [done|]. split; [zlia|]. by rewrite zsub_app_l by lia.
Qed.

Lemma frame_at_drop view k a e : 0 <= k <= a -> frame_at view a e ->
  frame_at (zdrop k view) (a - k) (e - k).
Proof.
  intros Hk (Ha & He & Hf). split; [lia|]. rewrite zlen_zdrop by lia. split; [lia|].
  unfold zsub in *. rewrite zdrop_zdrop by lia.
  replace (k + (a - k)) with a by lia. by replace (e - k - (a - k)) with (e - a) by lia.
Qed.

Lemma header_at_drop view k a e : 0 <= k <= a -> header_at view a e ->
  header_at (zdrop k view) (a - k) (e - k).
Proof.
  intros Hk (d & Hd & Ha & Ho & ->). exists d. rewrite zlen_zdrop by lia.
  split_and!; [done|lia|lia| |lia]. unfold occurs in *. rewrite zdrop_zdrop by lia.
  by replace (k + (a - k)) with a by lia.
Qed.

(** ** The header scan *)

(** Outcomes of [parse_header] for a BeginString found at [p] in a buffer of origin [o]. *)
Inductive header_outcome (o p : Z) (view : bytes) (f : Framer) : FramerParseResult -> Framer -> Prop :=
  | ho_partial : header_outcome o p view f NeedMoreData f
  | ho_malformed : header_outcome o p view f ProgressNoMsg (resync (current_context_ f) f)
  | ho_body n e : header_at view p e -> zlen view < e ->
      header_outcome o p view f NeedMoreData
        (with_context (mk_context (o + p) (o + e) n ReadingBody) (scan_abs_ f) f)
  | ho_message n e : frame_at view p e ->
      header_outcome o p view f QueuedMessage
        (complete_message (mk_context (o + p) (o + e) n ReadingBody) f).

(** A text with the beginning of a BodyLength field at [zlen pre]. *)
Lemma length_prefix pre t : let p := pre ++ Fix_First_Field ++ B "9=" in
  zlen p = zlen pre + 10 + 2 /\ znth (p ++ t) (zlen pre + 10) = Some x39 /\ znth (p ++ t) (zlen pre + 10 + 1) = Some x3d.
Proof.
  cbv zeta. split_and!.
  - rewrite !zlen_app. change (zlen Fix_First_Field) with 10. change (zlen (B "9=")) with 2. lia.
  - rewrite <- app_assoc, znth_app_r by lia. by replace (zlen pre + 10 - zlen pre) with 10 by lia.
  - rewrite <- app_assoc, znth_app_r by lia. by replace (zlen pre + 10 + 1 - zlen pre) with 11 by lia.
Qed.

(** The two ways on once the BodyLength field is complete. *)
Section Length.
Context (f : Framer) (pre d t : bytes).
Let view := (pre ++ Fix_First_Field ++ B "9=") ++ d ++ SOH :: t.
Hypothesis Hd : SOH ∉ d.

Lemma parse_header_field : parse_header view (zlen pre) f =
  let e := zlen pre + 12 + zlen d in
  let r := from_chars 64 d in
  let ctx := mk_context (ctx_begin (current_context_ f)) (ctx_end (current_context_ f)) (fc_or (ctx_body_len (current_context_ f)) r) (ctx_state (current_context_ f)) in
  if negb (fc_complete d r) then Ok (ProgressNoMsg, resync ctx f)
  else if MAX_MESSAGE_SIZE <? ctx_body_len ctx then Ok (ProgressNoMsg, resync ctx f)
  else
    let end_ := u64 (e + 1 + ctx_body_len ctx + 7) in
    let ctx := mk_context (ctx_begin ctx) (readable_rel_to_abs (buffer_ f) end_) (ctx_body_len ctx) ReadingBody in
    if zlen view <? end_ then Ok (NeedMoreData, with_context ctx (scan_abs_ f) f) else Ok (QueuedMessage, complete_message ctx f).
Proof using Hd.
  destruct (length_prefix pre (d ++ SOH :: t)) as (Hp & E9 & E61).
  unfold parse_header. change (zlen Fix_First_Field) with 10. unfold view. rewrite E9, E61, zlen_app.
  destruct (Z.ltb_spec (zlen (pre ++ Fix_First_Field ++ B "9=") + zlen (d ++ SOH :: t)) (zlen pre + 10 + 2)) as [|_]; [zlen_pos; lia|].
  rewrite !bool_decide_true by done. cbn [andb negb]. rewrite <- Hp, find_char_app by done.
  replace (zlen (pre ++ Fix_First_Field ++ B "9=") + zlen d - zlen (pre ++ Fix_First_Field ++ B "9=")) with (zlen d) by lia.
  rewrite zsub_mid, Hp. replace (zlen pre + 10 + 2 + zlen d) with (zlen pre + 12 + zlen d) by lia. done.
Qed.

Lemma parse_header_bad : ~ header_ok d -> parse_header view (zlen pre) f = Ok (ProgressNoMsg, resync (current_context_ f) f).
Proof using Hd.
  intros Hn. rewrite parse_header_field. cbv zeta. cbn [ctx_body_len ctx_begin].
  destruct (fc_complete d (from_chars 64 d)) eqn:Efc; [|done]. cbn [negb].
  destruct (fc_value (from_chars 64 d)) as [n|] eqn:En; [|unfold fc_complete, from_chars in Efc, En; repeat case_match; done].
  destruct (proj1 (from_chars_ok_iff 64 d n ltac:(lia)) (conj Efc En)) as (Hne & Ha & Hv & _).
  unfold fc_or. rewrite En. destruct (Z.ltb_spec MAX_MESSAGE_SIZE n); [done|]. destruct Hn. split_and!; [done|done|lia].
Qed.

Lemma parse_header_good : header_ok d -> lb_wf (buffer_ f) -> origin (buffer_ f) + zlen view < 2 ^ 61 ->
  let e := zlen pre + zlen (frame_header d) + digits_val d + 7 in
  let ctx := mk_context (ctx_begin (current_context_ f)) (origin (buffer_ f) + e) (digits_val d) ReadingBody in
  parse_header view (zlen pre) f =
    if zlen view <? e then Ok (NeedMoreData, with_context ctx (scan_abs_ f) f) else Ok (QueuedMessage, complete_message ctx f).
Proof using Hd.
  intros Hok W Hb e ctx. pose proof (header_ok_val d Hok) as Hv. destruct Hok as (Ha & Hne & Hm). unfold MAX_MESSAGE_SIZE in *.
  destruct (proj2 (from_chars_ok_iff 64 d (digits_val d) ltac:(lia))) as [Efc En]; [split_and!; [done|done|done|lia]|].
  rewrite parse_header_field. cbv zeta. rewrite Efc. cbn [ctx_body_len ctx_begin negb]. unfold fc_or. rewrite En. unfold MAX_MESSAGE_SIZE.
  destruct (Z.ltb_spec (1024 * 1024) (digits_val d)); [lia|].
  assert (Hl : zlen view = zlen pre + 12 + (zlen d + 1 + zlen t)).
  { unfold view. rewrite !zlen_app, zlen_cons. change (zlen Fix_First_Field) with 10. change (zlen (B "9=")) with 2. lia. }
  pose proof (zlen_nonneg pre). pose proof (zlen_nonneg d). pose proof (zlen_nonneg t).
  assert (0 <= origin (buffer_ f)) by (destruct W; unfold origin; lia).
  replace (zlen pre + 12 + zlen d + 1 + digits_val d + 7) with e by (unfold e; rewrite frame_header_length; lia).
  assert (0 <= e < 2 ^ 62) by (unfold e; rewrite frame_header_length; lia).
  rewrite u64_small, readable_rel_to_abs_spec by (done || lia). done.
Qed.
End Length.

(** No end of the field yet. *)
Lemma parse_header_waits f pre d : SOH ∉ d -> parse_header ((pre ++ Fix_First_Field ++ B "9=") ++ d) (zlen pre) f = Ok (NeedMoreData, f).
Proof.
  intros Hd. destruct (length_prefix pre d) as (Hp & E9 & E61). unfold parse_header. change (zlen Fix_First_Field) with 10.
  rewrite E9, E61. rewrite !bool_decide_true by done. cbn [andb negb]. rewrite <- Hp, find_char_none by done. by destruct (_ <? _).
Qed.

Lemma header_ok_dec d : header_ok d \/ ~ header_ok d.
Proof.
  unfold header_ok, all_digits. destruct (decide (Forall (fun c => isdigit c = true) d)); [|tauto].
  destruct (decide (d = [])); [tauto|]. destruct (Z.le_gt_cases (digits_val d) MAX_MESSAGE_SIZE); [tauto|]. right. lia.
Qed.

(** The ways out before that. *)
Lemma parse_header_cases view p f :
  parse_header view p f = Ok (NeedMoreData, f) \/ parse_header view p f = Ok (ProgressNoMsg, resync (current_context_ f) f) \/
  exists e, znth view (p + 10) = Some x39 /\ znth view (p + 10 + 1) = Some x3d /\ find [SOH] view (p + 10 + 2) = Some e.
Proof.
  unfold parse_header. change (zlen Fix_First_Field) with 10. destruct (zlen view <? p + 10 + 2); [by left|].
  destruct (_ && _) eqn:E9; cbn [negb]; [|by right; left].
  apply andb_true_iff in E9 as [E9%bool_decide_eq_true E61%bool_decide_eq_true].
  destruct (find [SOH] view (p + 10 + 2)) as [e|]; [|by left]. right. right. by exists e.
Qed.

Lemma occurs_length view p : occurs Fix_First_Field view p -> 0 <= p <= zlen view -> znth view (p + 10) = Some x39 -> znth view (p + 10 + 1) = Some x3d ->
  exists pre t, view = (pre ++ Fix_First_Field ++ B "9=") ++ t /\ zlen pre = p.
Proof.
  intros Ho Hp E9 E61. apply occurs_split in Ho as (pre & t & Ev & Ep); [|done].
  assert (H10 : p + 10 = zlen (pre ++ Fix_First_Field)) by (rewrite zlen_app; change (zlen Fix_First_Field) with 10; lia).
  rewrite Ev, app_assoc, H10 in E9. apply znth_app_head in E9 as [t1 ->].
  assert (H11 : p + 10 + 1 = zlen ((pre ++ Fix_First_Field) ++ [x39])) by zlia.
  rewrite Ev, app_assoc, H11 in E61. change (x39 :: t1) with ([x39] ++ t1) in E61. rewrite app_assoc in E61.
  apply znth_app_head in E61 as [t2 ->]. exists pre, t2. split; [|done]. rewrite Ev. by rewrite <- !app_assoc.
Qed.

Lemma parse_header_spec f p : let b := buffer_ f in let view := readable b in
  lb_wf b -> origin b + zlen view < 2 ^ 61 -> 0 <= p <= zlen view ->
  occurs Fix_First_Field view p -> ctx_begin (current_context_ f) = origin b + p ->
  exists r f', parse_header view p f = Ok (r, f') /\ header_outcome (origin b) p view f r f'.
Proof.
  intros b view W Hb Hp Ho Hc. destruct (parse_header_cases view p f) as [->|[->|(e & E9 & E61 & Ef)]]; [eauto using header_outcome..|].
  destruct (occurs_length view p Ho Hp E9 E61) as (pre & t2 & Ev & Ep).
  destruct (length_prefix pre t2) as (H12 & _ & _). rewrite Ev, <- Ep, <- H12 in Ef. apply find_char_split in Ef as (d & t3 & -> & Hsoh & ->). rewrite <- Ep, Ev.
  destruct (header_ok_dec d) as [Hok|Hno]; [|rewrite parse_header_bad by done; eauto using header_outcome].
  rewrite parse_header_good by (try done; by rewrite <- Ev). cbv zeta. rewrite Hc, <- Ep, <- Ev. fold b.
  assert (Hh : header_at view (zlen pre) (zlen pre + zlen (frame_header d) + digits_val d + 7)).
  { exists d. split_and!; [done|lia|lia| |lia]. rewrite Ev. unfold frame_header.
    replace ((pre ++ Fix_First_Field ++ B "9=") ++ d ++ SOH :: t3) with (pre ++ (Fix_First_Field ++ B "9=" ++ d ++ [SOH]) ++ t3) by (by rewrite <- !app_assoc).
    apply occurs_app_intro. }
  case_Z; (eexists _, _; split; [done|]); [by apply ho_body|]. apply ho_message. by apply header_at_frame.
Qed.

(** ** Invariant *)

Definition origin_of (f : Framer) : Z := origin (buffer_ f).
Definition view_of (f : Framer) : bytes := readable (buffer_ f).
Definition windows (f : Framer) : list MessageWindow := Ring.contents (completed_messages_ f).

Definition queue_ok (q : Ring MessageWindow) : Prop :=
  ring_wf q /\ Ring.capacity_ q = Completed_Capacity.

(** The windows [ws] are frames of the buffer, in order and disjoint, between the absolute
    positions [lo] and [hi]. *)
Fixpoint chain (o : Z) (view : bytes) (lo : Z) (ws : list MessageWindow) (hi : Z) : Prop :=
  match ws with
  | [] => lo <= hi
  | w :: ws' => lo <= win_begin w /\ frame_at view (win_begin w - o) (win_end w - o) /\
                chain o view (win_end w) ws' hi
  end.

Lemma chain_le o view lo ws hi : chain o view lo ws hi -> lo <= hi.
Proof.
  revert lo. induction ws as [|w ws IH]; intros lo; cbn; [done|].
  intros (? & (_ & ? & _) & Hc). apply IH in Hc. lia.
Qed.

Lemma chain_weaken o view lo ws hi hi' : chain o view lo ws hi -> hi <= hi' -> chain o view lo ws hi'.
Proof.
  revert lo. induction ws as [|w ws IH]; intros lo; cbn; [lia|]. intros (? & ? & ?) ?. split_and!; eauto.
Qed.

Lemma chain_snoc o view lo ws hi w : chain o view lo ws hi -> hi <= win_begin w ->
  frame_at view (win_begin w - o) (win_end w - o) -> chain o view lo (ws ++ [w]) (win_end w).
Proof.
  revert lo. induction ws as [|w' ws IH]; intros lo; cbn.
  - intros. split_and!; [lia|done|lia].
  - intros (? & ? & ?) ? ?. split_and!; [done|done|]. by apply IH.
Qed.

Lemma chain_app o view s lo ws hi : chain o view lo ws hi -> chain o (view ++ s) lo ws hi.
Proof.
  revert lo. induction ws as [|w ws IH]; intros lo; cbn; [done|].
  intros (? & ? & ?). split_and!; [done|by apply frame_at_app|by apply IH].
Qed.

Lemma chain_drop o view k lo ws hi : 0 <= k -> o + k <= lo -> chain o view lo ws hi ->
  chain (o + k) (zdrop k view) lo ws hi.
Proof.
  intros Hk. revert lo. induction ws as [|w ws IH]; intros lo Hlo; cbn; [done|].
  intros (? & Hf & ?). split_and!; [done| |].
  - replace (win_begin w - (o + k)) with (win_begin w - o - k) by lia.
    replace (win_end w - (o + k)) with (win_end w - o - k) by lia.
    apply frame_at_drop; [lia|done].
  - apply IH; [|done]. destruct Hf as (_ & ? & _). lia.
Qed.

Record framer_inv (f : Framer) : Prop := {
  fi_buffer : lb_wf (buffer_ f);
  fi_queue : queue_ok (completed_messages_ f);
  fi_scan : origin_of f <= scan_abs_ f <= origin_of f + zlen (view_of f);
  fi_chain : chain (origin_of f) (view_of f) (origin_of f) (windows f) (scan_abs_ f);
  fi_context :
    match ctx_state (current_context_ f) with
    | FindingBegin => True
    | ReadingBody =>
        ctx_begin (current_context_ f) = scan_abs_ f /\
        header_at (view_of f) (scan_abs_ f - origin_of f)
                  (ctx_end (current_context_ f) - origin_of f)
    | Complete => False
    end
}.

(** How [f'] continues [f]: bytes may leave at the front only while no message is queued, and
    messages are only added. *)
Record advances (f f' : Framer) : Prop := {
  ad_origin : origin_of f <= origin_of f' <= origin_of f + zlen (view_of f);
  ad_view : view_of f' = zdrop (origin_of f' - origin_of f) (view_of f);
  ad_windows : windows f `prefix_of` windows f';
  ad_keep : windows f <> [] -> origin_of f' = origin_of f;
  ad_capacity : LinearBuffer.capacity_ (buffer_ f') = LinearBuffer.capacity_ (buffer_ f)
}.

#[export] Instance advances_refl : Reflexive advances.
Proof.
  intros f. split; [split; [done|zlia]| |done|done|done]. by rewrite Z.sub_diag, zdrop_0.
Qed.

Lemma advances_end f f' : advances f f' ->
  origin_of f' + zlen (view_of f') = origin_of f + zlen (view_of f).
Proof. intros [Ho Ev _ _ _]. rewrite Ev, zlen_zdrop; lia. Qed.

#[export] Instance advances_trans : Transitive advances.
Proof.
  intros f g h A1 A2. pose proof (advances_end _ _ A1).
  destruct A1 as [Ho1 Ev1 Hw1 Hk1 Hc1], A2 as [Ho2 Ev2 Hw2 Hk2 Hc2]. split.
  - lia.
  - rewrite Ev2, Ev1, zdrop_zdrop by lia. f_equal. lia.
  - by etransitivity.
  - intros Hne. rewrite Hk2, Hk1; [done|done|]. intros E. rewrite E in Hw1.
    by apply prefix_nil_inv in Hw1.
  - congruence.
Qed.

Lemma queue_full q : queue_ok q ->
  Ring.full q = (zlen (Ring.contents q) =? Completed_Capacity).
Proof. intros [W Hc]. unfold Ring.full. by rewrite contents_length, Hc. Qed.

Lemma queue_empty q : queue_ok q -> Ring.empty q = true <-> Ring.contents q = [].
Proof.
  intros [W Hc]. pose proof (contents_length q W) as L. unfold Ring.empty.
  rewrite Z.eqb_eq, <- L. split; [|by intros ->]. destruct (Ring.contents q); [done|zlia].
Qed.

Lemma queue_push q w : queue_ok q -> Ring.full q = false ->
  queue_ok (snd (Ring.push 0 Reject w q)) /\
  Ring.contents (snd (Ring.push 0 Reject w q)) = Ring.contents q ++ [w].
Proof.
  intros Q F. rewrite queue_full in F by done. apply Z.eqb_neq in F.
  destruct (fifo_size (BoundedFifo := ring_bounded_fifo Completed_Capacity) q Q) as [_ ?].
  destruct (fifo_push (BoundedFifo := ring_bounded_fifo Completed_Capacity) q w Q)
    as (q' & -> & Q' & E); [lia|]. done.
Qed.

Lemma has_message_spec f : queue_ok (completed_messages_ f) ->
  has_message f = negb (bool_decide (windows f = [])).
Proof.
  intros [W Hc]. unfold has_message, windows, Ring.size. rewrite <- contents_length by done.
  destruct (Ring.contents (completed_messages_ f)) eqn:E; [done|].
  rewrite (proj2 (Z.ltb_lt _ _)) by zlia. by rewrite bool_decide_false.
Qed.

Lemma windows_complete ctx f : queue_ok (completed_messages_ f) -> Ring.full (completed_messages_ f) = false ->
  queue_ok (completed_messages_ (complete_message ctx f)) /\
  windows (complete_message ctx f) = windows f ++ [make_message_window ctx].
Proof. intros Q F. exact (queue_push (completed_messages_ f) (make_message_window ctx) Q F). Qed.

Lemma complete_advances ctx f : queue_ok (completed_messages_ f) -> Ring.full (completed_messages_ f) = false ->
  advances f (complete_message ctx f).
Proof.
  intros Q F. destruct (windows_complete ctx f Q F) as [_ Ew].
  destruct (reflexivity f : advances f f) as [Ho Ev _ _ _].
  split; [done|done| |done|done]. rewrite Ew. by apply prefix_app_r.
Qed.

Lemma same_buffer_advances f f' : buffer_ f' = buffer_ f -> completed_messages_ f' = completed_messages_ f ->
  advances f f'.
Proof.
  intros Eb Eq. destruct (reflexivity f : advances f f).
  split; unfold origin_of, view_of, windows in *; rewrite ?Eb, ?Eq; done.
Qed.

(** A message found at the scan position is queued. *)
Lemma complete_inv f f0 a e n : framer_inv f -> Ring.full (completed_messages_ f) = false ->
  buffer_ f0 = buffer_ f -> completed_messages_ f0 = completed_messages_ f ->
  scan_abs_ f <= origin_of f + a -> frame_at (view_of f) a e ->
  let g := complete_message (mk_context (origin_of f + a) (origin_of f + e) n ReadingBody) f0 in
  framer_inv g /\ advances f g /\ scan_abs_ f < scan_abs_ g.
Proof.
  intros [Wb Wq Hs Hch _] F Eb Eq Ha Hf g. pose proof Hf as (Ha0 & He & _).
  set (ctx := mk_context (origin_of f + a) (origin_of f + e) n ReadingBody) in *.
  assert (Q0 : queue_ok (completed_messages_ f0)) by (by rewrite Eq).
  assert (F0 : Ring.full (completed_messages_ f0) = false) by (by rewrite Eq).
  destruct (windows_complete ctx f0 Q0 F0) as [Q Ew].
  assert (Eo : origin_of g = origin_of f) by (unfold origin_of, g; cbn; by rewrite Eb).
  assert (Ev : view_of g = view_of f) by (unfold view_of, g; cbn; by rewrite Eb).
  split_and!.
  - split; [by unfold g; cbn; rewrite Eb|done| | |done].
    + rewrite Eo, Ev. cbn. lia.
    + rewrite Eo, Ev. unfold g. rewrite Ew. unfold windows at 1. rewrite Eq.
      change (scan_abs_ (complete_message ctx f0)) with (win_end (make_message_window ctx)).
      eapply chain_snoc; [exact Hch|done|]. cbn.
      by replace (origin_of f + a - origin_of f) with a by lia;
         replace (origin_of f + e - origin_of f) with e by lia.
  - transitivity f0; [by apply same_buffer_advances|]. by apply complete_advances.
  - cbn. lia.
Qed.

Lemma parse_header_inv f p n : framer_inv f -> origin_of f + zlen (view_of f) < 2 ^ 61 ->
  Ring.full (completed_messages_ f) = false -> scan_abs_ f <= origin_of f + p ->
  0 <= p <= zlen (view_of f) -> occurs Fix_First_Field (view_of f) p ->
  exists r f', parse_header (view_of f) p
                 (with_context (mk_context (origin_of f + p) (ctx_end (current_context_ f)) n FindingBegin)
                               (origin_of f + p) f) = Ok (r, f') /\
    framer_inv f' /\ advances f f' /\ (r <> NeedMoreData -> scan_abs_ f < scan_abs_ f').
Proof.
  intros I Hb F Hs Hp Ho. destruct (I) as [Wb Wq Hsc Hch _].
  set (g := with_context _ _ f).
  destruct (parse_header_spec g p) as (r & f' & E & O); [done|done|done|done|done|].
  exists r, f'. split; [exact E|].
  assert (Hpl : p < zlen (view_of f)).
  { apply occurs_bound in Ho; [|done]. change (zlen Fix_First_Field) with 10 in Ho. lia. }
  assert (0 <= origin_of f) by (destruct Wb; unfold origin_of, origin; lia).
  assert (Ig : forall c s, ctx_state c = FindingBegin -> origin_of f + p <= s <= origin_of f + p + 1 -> framer_inv (with_context c s f)).
  { intros c s Ec Hss. split; [done|done| | |by cbn; rewrite Ec].
    - change (origin_of f <= s <= origin_of f + zlen (view_of f)). lia.
    - change (chain (origin_of f) (view_of f) (origin_of f) (windows f) s).
      eapply chain_weaken; [exact Hch|lia]. }
  destruct O as [| |m e He Hl|m e He].
  - split_and!; [apply Ig; [done|lia]|by apply same_buffer_advances|done].
  - split_and!; [|by apply same_buffer_advances|].
    + unfold resync. change (ctx_begin (current_context_ g)) with (origin_of f + p). rewrite u64_small by lia.
      apply (Ig fresh_context); [done|lia].
    + intros _. change (scan_abs_ (resync (current_context_ g) g)) with (u64 (origin_of f + p + 1)).
      rewrite u64_small by lia. lia.
  - split_and!; [|by apply same_buffer_advances|done]. split; [done|done| | |].
    + change (origin_of f <= origin_of f + p <= origin_of f + zlen (view_of f)). lia.
    + change (chain (origin_of f) (view_of f) (origin_of f) (windows f) (origin_of f + p)).
      eapply chain_weaken; [exact Hch|lia].
    + change (origin_of f + p = origin_of f + p /\
              header_at (view_of f) (origin_of f + p - origin_of f) (origin_of f + e - origin_of f)).
      split; [done|].
      by replace (origin_of f + p - origin_of f) with p by lia;
         replace (origin_of f + e - origin_of f) with e by lia.
  - destruct (complete_inv f g p e m I F) as (? & ? & ?); try done.
Qed.

(** Unfolds [parse_buffer] up to the test for unscanned bytes. *)
Ltac parse_buffer_start f :=
  unfold parse_buffer; fold (view_of f);
  rewrite (readable_rel_to_abs_spec (buffer_ f) 0) by (done || (unfold origin_of in *; lia));
  fold (origin_of f); rewrite (proj2 (Z.ltb_ge (scan_abs_ f) (origin_of f + 0))) by lia;
  rewrite abs_to_readable_rel_spec by (done || (unfold origin_of in *; lia)); rewrite ok_bind;
  fold (origin_of f).

Lemma parse_buffer_inv f : framer_inv f -> origin_of f + zlen (view_of f) < 2 ^ 61 ->
  Ring.full (completed_messages_ f) = false ->
  exists r f', parse_buffer f = Ok (r, f') /\ framer_inv f' /\ advances f f' /\
               (r <> NeedMoreData -> scan_abs_ f < scan_abs_ f').
Proof.
  intros I Hb F. pose proof I as [Wb Wq Hsc Hch Hctx].
  assert (0 <= origin_of f) by (destruct Wb; unfold origin_of, origin; lia).
  parse_buffer_start f. destruct (Z.leb_spec (zlen (view_of f)) (scan_abs_ f - origin_of f)).
  { eexists _, _. split; [done|]. split_and!; [done|done|done]. }
  destruct (ctx_state (current_context_ f)) eqn:Est.
  - destruct (find Fix_First_Field (view_of f) (scan_abs_ f - origin_of f)) as [p|] eqn:Ef.
    + apply find_Some in Ef as (Hp & Ho & _); [|lia].
      rewrite readable_rel_to_abs_spec by (done || unfold origin_of in *; lia).
      fold (origin_of f). by apply parse_header_inv; [..|lia|lia|].
    + destruct (Ring.empty (completed_messages_ f)) eqn:Ee.
      * apply queue_empty in Ee; [|done]. change (zlen Fix_First_Field - 1) with 9.
        set (keep := if zlen (view_of f) <? 9 then zlen (view_of f) else 9).
        assert (0 <= keep <= zlen (view_of f)) by (subst keep; case_Z; lia).
        destruct (discard_prefix_spec (zlen (view_of f) - keep) (buffer_ f))
          as (b & -> & Wb' & Eo & Er & Ec); [done|unfold origin_of in *; lia|unfold view_of in *; lia|].
        rewrite ok_bind, readable_rel_to_abs_spec by (done || unfold origin_of in *; lia).
        assert (Ev : zlen (readable b) = keep) by (rewrite Er; fold (view_of f); rewrite zlen_zdrop; lia).
        eexists _, _. split; [done|]. split_and!; [|split|done]; unfold origin_of, view_of, windows in *; cbn.
        -- split; unfold origin_of, view_of, windows; cbn; [done|done|lia| |by rewrite Est].
           rewrite Ee. cbn. lia.
        -- lia.
        -- rewrite Eo, Er. f_equal. lia.
        -- done.
        -- done.
        -- done.
      * eexists _, _. split; [done|]. split_and!; [done|done|done].
  - destruct Hctx as [Hcb (d & Hd & ? & Hoc & Ee)].
    rewrite readable_rel_to_abs_spec by (done || unfold origin_of, view_of in *; lia). fold (origin_of f).
    destruct (Z.ltb_spec (origin_of f + zlen (view_of f)) (ctx_end (current_context_ f))).
    { eexists _, _. split; [done|]. split_and!; [done|done|done]. }
    eexists _, _. split; [done|].
    destruct (complete_inv f f (scan_abs_ f - origin_of f) (ctx_end (current_context_ f) - origin_of f)
               (ctx_body_len (current_context_ f)) I F eq_refl eq_refl) as (Ig & Ag & Hg); [lia| |].
    { apply header_at_frame; [|lia]. exists d. done. }
    destruct (current_context_ f) as [cb ce cl cs] eqn:Ectx. cbn in *.
    replace (origin_of f + (scan_abs_ f - origin_of f)) with cb in * by lia.
    replace (origin_of f + (ce - origin_of f)) with ce in * by lia. subst cs. done.
  - done.
Qed.

(** ** The parse loop and [append] *)

Lemma parse_loop_inv fuel f : framer_inv f -> origin_of f + zlen (view_of f) < 2 ^ 61 ->
  origin_of f + zlen (view_of f) - scan_abs_ f < Z.of_nat fuel ->
  exists f', parse_loop fuel f = Ok f' /\ framer_inv f' /\ advances f f'.
Proof.
  revert f. induction fuel as [|fuel IH]; intros f I Hb Hfuel.
  { destruct I. lia. }
  cbn [parse_loop]. destruct (Ring.full (completed_messages_ f)) eqn:F; [by exists f|].
  destruct (parse_buffer_inv f I Hb F) as (r & f1 & -> & I1 & A1 & Hr).
  pose proof (advances_end _ _ A1) as Hend. rewrite ok_bind.
  destruct r.
  1,2: specialize (Hr ltac:(done)); destruct (IH f1 I1) as (f' & -> & I' & A'); [lia|lia|];
       exists f'; split_and!; [done|done|by transitivity f1].
  by exists f1.
Qed.

Lemma framer_new_inv : framer_inv framer_new.
Proof.
  split; [apply linear_buffer_new_wf| | | |done].
  - split; [|done]. apply ring_new_wf. by unfold Completed_Capacity.
  - by vm_compute.
  - by vm_compute.
Qed.

Lemma append_push_inv data f : framer_inv f -> origin_of f + zlen (view_of f) + zlen data < 2 ^ 61 ->
  LinearBuffer.capacity_ (buffer_ f) + zlen data + Min_Grow < 2 ^ 62 ->
  let g := mk_framer (current_context_ f) (LinearBuffer.push data (buffer_ f))
                     (completed_messages_ f) (scan_abs_ f) in
  framer_inv g /\ origin_of g = origin_of f /\ view_of g = view_of f ++ data /\
  LinearBuffer.capacity_ (buffer_ g) <= LinearBuffer.capacity_ (buffer_ f) + zlen data + Min_Grow.
Proof.
  intros [Wb Wq Hs Hch Hctx] Hb Hc g. pose proof (zlen_nonneg (view_of f)). pose proof (zlen_nonneg data).
  destruct (push_spec data (buffer_ f)) as (W' & Eo & Er & Hcap);
    [done|unfold origin_of in *; lia|done|].
  split_and!; [|done|done|done].
  split; [done|done|..]; unfold origin_of, view_of, windows, g in *;
    cbn [buffer_ scan_abs_ completed_messages_ current_context_]; rewrite ?Eo, ?Er.
  - zlia.
  - by apply chain_app.
  - destruct (ctx_state (current_context_ f)); [done| |done].
    destruct Hctx as [? ?]. split; [done|]. by apply header_at_app.
Qed.

(** [append] returns, keeps the invariant, and the buffer afterwards holds the old bytes
    followed by the new ones, less bytes dropped at the front. *)
Lemma append_spec data f : framer_inv f -> origin_of f + zlen (view_of f) + zlen data < 2 ^ 61 ->
  LinearBuffer.capacity_ (buffer_ f) + zlen data + Min_Grow < 2 ^ 62 ->
  exists f', append data f = Ok f' /\ framer_inv f' /\
    origin_of f <= origin_of f' <= origin_of f + zlen (view_of f ++ data) /\
    view_of f' = zdrop (origin_of f' - origin_of f) (view_of f ++ data) /\
    windows f `prefix_of` windows f' /\
    LinearBuffer.capacity_ (buffer_ f') <= LinearBuffer.capacity_ (buffer_ f) + zlen data + Min_Grow.
Proof.
  intros I Hb Hc. destruct (append_push_inv data f I Hb Hc) as (Ig & Eo & Ev & Hcap).
  unfold append. set (g := mk_framer _ _ _ _) in *.
  destruct (parse_loop_inv (S (S (length (readable (buffer_ g))))) g) as (f' & -> & I' & A').
  - done.
  - rewrite Eo, Ev. zlia.
  - change (readable (buffer_ g)) with (view_of g). destruct Ig. unfold zlen. lia.
  - exists f'. destruct A' as [Ho' Ev' Hw' _ Hc']. rewrite Eo, Ev in *.
    split_and!; [done|done|lia|lia|done|done|congruence || lia].
Qed.

(** ** Reading a message *)

Lemma get_consume_spec f w ws : framer_inv f -> origin_of f + zlen (view_of f) < 2 ^ 61 ->
  windows f = w :: ws ->
  get_message f = Ok (zsub (win_begin w - origin_of f) (win_end w - win_begin w) (view_of f)) /\
  exists f', consume_message f = Ok f' /\ framer_inv f' /\ windows f' = ws /\
    origin_of f' = win_end w /\ view_of f' = zdrop (win_end w - origin_of f) (view_of f) /\
    scan_abs_ f' = scan_abs_ f /\ current_context_ f' = current_context_ f /\
    LinearBuffer.capacity_ (buffer_ f') = LinearBuffer.capacity_ (buffer_ f).
Proof.
  intros I Hb Ew. pose proof I as [Wb Wq Hs Hch Hctx]. rewrite Ew in Hch. cbn in Hch.
  destruct Hch as (Hlo & Hfr & Hch). pose proof Hfr as (Ha & He & _). pose proof (chain_le _ _ _ _ _ Hch).
  assert (0 <= origin_of f) by (destruct Wb; unfold origin_of, origin; lia).
  assert (Hm : has_message f = true) by (rewrite has_message_spec, bool_decide_false by (done || by rewrite Ew); done).
  destruct Wq as [Wr Wc]. destruct (pop_front_spec _ _ _ Wr Ew) as (Ef & q & Ep & Wq & Eq & Ec).
  assert (Eb : abs_to_readable_rel (buffer_ f) (win_begin w) = Ok (win_begin w - origin_of f))
    by (apply abs_to_readable_rel_spec; [done|unfold origin_of in *; lia]).
  assert (Ee : abs_to_readable_rel (buffer_ f) (win_end w) = Ok (win_end w - origin_of f))
    by (apply abs_to_readable_rel_spec; [done|unfold origin_of in *; lia]).
  unfold get_message, consume_message. rewrite Hm, Ef, !ok_bind, Eb, Ee, !ok_bind.
  fold (view_of f). split.
  - rewrite !(proj2 (Z.leb_le _ _)) by lia. do 2 f_equal. lia.
  - destruct (discard_prefix_spec (win_end w - origin_of f) (buffer_ f)) as (b & -> & Wb' & Eo & Er & Ecap);
      [done|unfold origin_of in *; lia|unfold view_of in *; lia|].
    rewrite ok_bind, Ep, ok_bind. eexists. split; [done|].
    fold (origin_of f) in Eo. fold (view_of f) in Er.
    assert (Hv : zlen (readable b) = zlen (view_of f) - (win_end w - origin_of f)) by (rewrite Er, zlen_zdrop; lia).
    replace (origin_of f + (win_end w - origin_of f)) with (win_end w) in Eo by lia.
    split_and!; [|done|done|done|done|done|done].
    split; unfold origin_of, view_of, windows; cbn [buffer_ completed_messages_ scan_abs_ current_context_];
      [done|split; [done|congruence]|lia| |].
    + rewrite Eo, Er, Eq. replace (win_end w) with (origin_of f + (win_end w - origin_of f)) at 1 by lia.
      apply chain_drop; [lia|lia|]. done.
    + destruct (ctx_state (current_context_ f)); [done| |done]. destruct Hctx as [? Hh]. split; [done|].
      rewrite Eo, Er. apply (header_at_drop _ (win_end w - origin_of f)) in Hh; [|lia].
      by replace (scan_abs_ f - win_end w) with (scan_abs_ f - origin_of f - (win_end w - origin_of f)) by lia;
        replace (ctx_end (current_context_ f) - win_end w)
          with (ctx_end (current_context_ f) - origin_of f - (win_end w - origin_of f)) by lia.
Qed.

(** ** Any sequence of reads

    [FNext] is one turn of the session's loop: take a message when there is one. *)

Inductive framer_op : Set := FAppend (data : bytes) | FNext.

Definition framer_step (op : framer_op) (f : Framer) : Res (list bytes * Framer) :=
  match op with
  | FAppend data => let! f' := append data f in Ok ([], f')
  | FNext =>
      if has_message f then
        let! m := get_message f in let! f' := consume_message f in Ok ([m], f')
      else Ok ([], f)
  end.

Fixpoint framer_run (ops : list framer_op) (f : Framer) : Res (list bytes * Framer) :=
  match ops with
  | [] => Ok ([], f)
  | op :: ops' =>
      let! '(ms, f1) := framer_step op f in
      let! '(ms', f2) := framer_run ops' f1 in Ok (ms ++ ms', f2)
  end.

Fixpoint framer_input (ops : list framer_op) : bytes :=
  match ops with
  | [] => []
  | FAppend data :: ops' => data ++ framer_input ops'
  | FNext :: ops' => framer_input ops'
  end.

(** Room the appends may take in the buffer. *)
Fixpoint framer_cost (ops : list framer_op) : Z :=
  match ops with
  | [] => 0
  | FAppend data :: ops' => zlen data + Min_Grow + framer_cost ops'
  | FNext :: ops' => framer_cost ops'
  end.

(** [ms] are disjoint pieces of [s], in order. *)
Inductive segments : list bytes -> bytes -> Prop :=
  | seg_nil s : segments [] s
  | seg_cons gap m ms s : segments ms s -> segments (m :: ms) (gap ++ m ++ s).

Lemma segments_snoc ms s gap m : segments ms s -> segments (ms ++ [m]) (s ++ gap ++ m).
Proof.
  induction 1 as [s|g m' ms s Hs IH]; cbn.
  - rewrite <- (app_nil_r m) at 2. rewrite app_assoc. apply seg_cons, seg_nil.
  - rewrite <- !app_assoc. by apply seg_cons.
Qed.

Lemma segments_weaken ms s t : segments ms s -> segments ms (s ++ t).
Proof.
  induction 1 as [s|g m' ms s Hs IH]; cbn; [apply seg_nil|].
  rewrite <- !app_assoc. by apply seg_cons.
Qed.

(** After the input [s], with [ms] delivered: the buffer holds the input from its origin on,
    and the delivered messages are pieces of what lies before. *)
Record framer_track (f : Framer) (s : bytes) (ms : list bytes) : Prop := {
  ft_inv : framer_inv f;
  ft_len : 0 <= origin_of f <= zlen s;
  ft_view : view_of f = zdrop (origin_of f) s;
  ft_segments : segments ms (ztake (origin_of f) s);
  ft_frames : Forall is_frame ms
}.

Lemma framer_track_end f s ms : framer_track f s ms -> origin_of f + zlen (view_of f) = zlen s.
Proof. intros [_ ? Ev _ _]. rewrite Ev, zlen_zdrop; lia. Qed.

Lemma ztake_split {A} (l : list A) a b : 0 <= a <= b -> b <= zlen l ->
  ztake b l = ztake a l ++ zsub a (b - a) l.
Proof.
  intros Ha Hb. rewrite <- (ztake_zdrop a l) at 1. unfold zsub.
  rewrite ztake_app_r; rewrite zlen_ztake by lia; [done|lia].
Qed.

Lemma append_track data f s ms : framer_track f s ms -> zlen s + zlen data < 2 ^ 61 ->
  LinearBuffer.capacity_ (buffer_ f) + zlen data + Min_Grow < 2 ^ 62 ->
  exists f', append data f = Ok f' /\ framer_track f' (s ++ data) ms /\
    LinearBuffer.capacity_ (buffer_ f') <= LinearBuffer.capacity_ (buffer_ f) + zlen data + Min_Grow.
Proof.
  intros T Hb Hc. pose proof (framer_track_end _ _ _ T). destruct T as [I Hl Ev Hseg Hfr].
  destruct (append_spec data f I ltac:(lia) Hc) as (f' & E & I' & Ho & Ev' & _ & Hcap).
  exists f'. split_and!; [done| |done]. rewrite zlen_app in Ho. split.
  - done.
  - zlia.
  - rewrite Ev', Ev, <- zdrop_app_l, zdrop_zdrop by lia. f_equal. lia.
  - rewrite (ztake_split (s ++ data) (origin_of f)) by zlia.
    apply segments_weaken. by rewrite ztake_app_l by lia.
  - done.
Qed.

Lemma next_track f s ms : framer_track f s ms -> zlen s < 2 ^ 61 ->
  exists ms' f', framer_step FNext f = Ok (ms', f') /\ framer_track f' s (ms ++ ms') /\
    LinearBuffer.capacity_ (buffer_ f') = LinearBuffer.capacity_ (buffer_ f).
Proof.
  intros T Hb. pose proof (framer_track_end _ _ _ T) as Hend. destruct (T) as [I Hl Ev Hseg Hfr].
  unfold framer_step. rewrite has_message_spec by apply I.
  destruct (windows f) as [|w ws] eqn:Ew.
  { rewrite bool_decide_true by done. exists [], f. by rewrite app_nil_r. }
  rewrite bool_decide_false by done. cbn [negb].
  destruct (get_consume_spec f w ws I ltac:(lia) Ew) as (-> & f' & -> & I' & _ & Eo & Ev' & _ & _ & Hc).
  rewrite !ok_bind. eexists _, f'. split; [done|]. split; [|done].
  pose proof (fi_chain _ I) as Hch. rewrite Ew in Hch. destruct Hch as (Hlo & (Ha & He & Hm) & _).
  replace (win_end w - origin_of f - (win_begin w - origin_of f)) with (win_end w - win_begin w) in Hm by lia.
  split.
  - done.
  - rewrite Eo. lia.
  - rewrite Ev', Ev, Eo, zdrop_zdrop by lia. f_equal. lia.
  - rewrite Eo, (ztake_split s (origin_of f) (win_end w)) by lia.
    replace (zsub (origin_of f) (win_end w - origin_of f) s) with
      (ztake (win_begin w - origin_of f) (view_of f) ++
       zsub (win_begin w - origin_of f) (win_end w - win_begin w) (view_of f)).
    + by apply segments_snoc.
    + unfold zsub at 2. rewrite <- Ev.
      rewrite (ztake_split (view_of f) (win_begin w - origin_of f) (win_end w - origin_of f)) by lia.
      do 2 f_equal. lia.
  - apply Forall_app. split; [done|]. by constructor.
Qed.

Lemma framer_run_track ops f s ms : framer_track f s ms -> zlen s + framer_cost ops < 2 ^ 61 ->
  LinearBuffer.capacity_ (buffer_ f) + framer_cost ops < 2 ^ 62 ->
  exists ms' f', framer_run ops f = Ok (ms', f') /\ framer_track f' (s ++ framer_input ops) (ms ++ ms').
Proof.
  revert f s ms. induction ops as [|[data|] ops IH]; intros f s ms T Hb Hc; cbn [framer_run framer_input framer_cost] in *.
  - exists [], f. by rewrite !app_nil_r.
  - assert (0 <= framer_cost ops).
    { clear. induction ops as [|[data|] ops IH]; cbn; unfold Min_Grow; zlia. }
    unfold Min_Grow in *. destruct (append_track data f s ms T) as (f1 & E & T1 & Hcap); [lia|unfold Min_Grow; lia|].
    unfold Min_Grow in *. cbn [framer_step]. rewrite E, !ok_bind.
    destruct (IH f1 _ _ T1) as (ms' & f' & -> & T'); [zlia|lia|].
    exists ms', f'. rewrite ok_bind, app_assoc. done.
  - assert (0 <= framer_cost ops).
    { clear. induction ops as [|[data|] ops IH]; cbn; unfold Min_Grow; zlia. }
    destruct (next_track f s ms T ltac:(lia)) as (m1 & f1 & -> & T1 & Hcap). rewrite ok_bind.
    destruct (IH f1 _ _ T1) as (ms' & f' & -> & T'); [lia|lia|].
    exists (m1 ++ ms'), f'. rewrite ok_bind, app_assoc. done.
Qed.

(** C20: whatever bytes arrive, in whatever pieces, and however the reads interleave with
    taking messages, the framer never fails an assertion or leaves its buffer, its loops
    terminate, every delivered message is a complete frame (BeginString, a decimal BodyLength
    of at most [MAX_MESSAGE_SIZE], and as many bytes as it announces plus the checksum
    field), and the delivered messages are disjoint pieces of the input, in order. *)
Theorem framer_sound ops : framer_cost ops < 2 ^ 60 ->
  exists ms f, framer_run ops framer_new = Ok (ms, f) /\
               Forall is_frame ms /\ segments ms (framer_input ops).
Proof.
  intros Hc. destruct (framer_run_track ops framer_new [] []) as (ms & f & E & T).
  - split; [apply framer_new_inv|by vm_compute|done|apply seg_nil|constructor].
  - change (zlen []) with 0. lia.
  - change (LinearBuffer.capacity_ (buffer_ framer_new)) with 65536. lia.
  - destruct T as [_ _ _ Hs Hf]. exists ms, f. split_and!; [done|done|].
    cbn [app] in *. rewrite <- (ztake_zdrop (origin_of f) (framer_input ops)).
    by apply segments_weaken.
Qed.

Definition framer_demo : list framer_op :=
  [FAppend (B "noise8=FIX.4.4" ++ [SOH] ++ B "9=5"); FNext; FAppend ([SOH] ++ B "35=0"); FNext;
   FAppend ([SOH] ++ B "10=163" ++ [SOH] ++ B "8=F"); FNext].

Example framer_sound_witness : framer_cost framer_demo < 2 ^ 60 /\
  exists ms f, framer_run framer_demo framer_new = Ok (ms, f) /\
               Forall is_frame ms /\ segments ms (framer_input framer_demo).
Proof. split; [by vm_compute|]. apply (framer_sound framer_demo). by vm_compute. Defined.

(** ** Streams of well-formed messages

    Completeness: when the peer sends frames and nothing else, the session's read loop
    delivers exactly those frames, however the transport cuts the stream. *)

(** [while (framer_.has_message()) { get_message(); ...; consume_message(); }]. *)
Fixpoint drain (fuel : nat) (f : Framer) : Res (list bytes * Framer) :=
  match fuel with
  | O => Err OutOfFuel
  | S fuel' =>
      if has_message f then
        let! m := get_message f in
        let! f' := consume_message f in
        let! '(ms, f'') := drain fuel' f' in Ok (m :: ms, f'')
      else Ok ([], f)
  end.

(** One completed read: the bytes are appended and every queued message is taken. *)
Definition read_chunk (data : bytes) (f : Framer) : Res (list bytes * Framer) :=
  let! f' := append data f in drain (S (Z.to_nat Completed_Capacity)) f'.

Fixpoint read_all (chunks : list bytes) (f : Framer) : Res (list bytes * Framer) :=
  match chunks with
  | [] => Ok ([], f)
  | c :: cs =>
      let! '(ms, f') := read_chunk c f in
      let! '(ms', f'') := read_all cs f' in Ok (ms ++ ms', f'')
  end.

(** The windows of the frames [qs] laid out from position [o]. *)
Fixpoint layout (o : Z) (qs : list bytes) : list MessageWindow :=
  match qs with
  | [] => []
  | m :: qs' => mk_window o (o + zlen m) :: layout (o + zlen m) qs'
  end.

Lemma layout_snoc o qs m :
  layout o (qs ++ [m]) = layout o qs ++ [mk_window (o + zlen (concat qs)) (o + zlen (concat qs) + zlen m)].
Proof.
  revert o. induction qs as [|q qs IH]; intros o; cbn.
  - change (zlen []) with 0. by rewrite Z.add_0_r.
  - rewrite IH, zlen_app. do 3 f_equal; f_equal; lia.
Qed.

Lemma layout_length o qs : zlen (layout o qs) = zlen qs.
Proof. revert o. induction qs as [|q qs IH]; intros o; cbn; [done|]. rewrite !zlen_cons. by rewrite IH. Qed.

Lemma is_frame_length m : is_frame m -> 21 <= zlen m.
Proof.
  intros (d & r & -> & Hd & Hr). pose proof (header_ok_val d Hd). destruct Hd as (_ & Hne & _).
  rewrite zlen_app, frame_header_length, Hr. destruct d; [done|]. zlia.
Qed.

(** The state between reads of a stream: [qs] are queued, the buffer ends with the beginning
    [v] of the frames [ms] still to come, of which [rest] has not arrived. *)
Record synced (f : Framer) (qs ms : list bytes) (v rest : bytes) : Prop := {
  sy_inv : framer_inv f;
  sy_windows : windows f = layout (origin_of f) qs;
  sy_view : view_of f = concat qs ++ v;
  sy_rest : v ++ rest = concat ms;
  sy_frames : Forall is_frame ms;
  sy_scan : scan_abs_ f = origin_of f + zlen (concat qs);
  sy_body : ctx_state (current_context_ f) = ReadingBody ->
    ms <> [] /\ ctx_end (current_context_ f) = scan_abs_ f + zlen (default [] (head ms))
}.

(** The header scan on the beginning [v] of a frame [m]. *)
Lemma parse_header_frame f pre v rest m t :
  lb_wf (buffer_ f) -> origin_of f + zlen pre + zlen v < 2 ^ 61 ->
  view_of f = pre ++ v -> is_frame m -> v ++ rest = m ++ t -> 10 <= zlen v ->
  ctx_begin (current_context_ f) = origin_of f + zlen pre ->
  let ctx n := mk_context (origin_of f + zlen pre) (origin_of f + zlen pre + zlen m) n ReadingBody in
  (zlen m <= zlen v /\ exists n, parse_header (view_of f) (zlen pre) f = Ok (QueuedMessage, complete_message (ctx n) f)) \/
  (zlen v < zlen m /\
    (parse_header (view_of f) (zlen pre) f = Ok (NeedMoreData, f) \/
     exists n, parse_header (view_of f) (zlen pre) f = Ok (NeedMoreData, with_context (ctx n) (scan_abs_ f) f))).
Proof.
  intros W Hb Ev Hm Hsplit H10 Hc ctx. pose proof (is_frame_length m Hm) as Hlm.
  destruct Hm as (d & r & Em & Hd & Hr). pose proof (header_ok_val d Hd) as Hv.
  assert (Hml : zlen m = 13 + zlen d + digits_val d + 7) by (rewrite Em, zlen_app, frame_header_length; lia).
  destruct (Z.lt_ge_cases (zlen v) 12) as [H12|H12].
  { right. split; [lia|]. left. unfold parse_header. change (zlen Fix_First_Field) with 10. rewrite Ev, zlen_app.
    by destruct (Z.ltb_spec (zlen pre + zlen v) (zlen pre + 10 + 2)); [|lia]. }
  assert (exists v2, v = Fix_First_Field ++ B "9=" ++ v2 /\ v2 ++ rest = d ++ SOH :: r ++ t) as (v2 & -> & Hs2).
  { rewrite Em in Hsplit. unfold frame_header in Hsplit.
    replace (((Fix_First_Field ++ B "9=" ++ d ++ [SOH]) ++ r) ++ t) with
      ((Fix_First_Field ++ B "9=") ++ d ++ SOH :: r ++ t) in Hsplit by (by rewrite <- !app_assoc).
    symmetry in Hsplit. apply app_eq_split in Hsplit as (k & -> & E);
      [|change (zlen (Fix_First_Field ++ B "9=")) with 12; lia].
    exists k. by rewrite <- app_assoc. }
  assert (Hsoh : SOH ∉ d) by (apply not_digit_notin; [apply Hd|done]).
  assert (Epre : view_of f = (pre ++ Fix_First_Field ++ B "9=") ++ v2) by (by rewrite Ev, <- !app_assoc).
  assert (Hvl : zlen (Fix_First_Field ++ B "9=" ++ v2) = 12 + zlen v2)
    by (rewrite !zlen_app; change (zlen Fix_First_Field) with 10; change (zlen (B "9=")) with 2; lia).
  destruct (Z.le_gt_cases (zlen v2) (zlen d)) as [Hle|Hgt].
  { apply app_eq_split in Hs2 as (k & -> & _); [|done]. right. split; [lia|]. left.
    rewrite Epre. apply parse_header_waits. intros ?. apply Hsoh, elem_of_app. by left. }
  assert (exists v3, v2 = d ++ SOH :: v3) as (v3 & ->).
  { replace (d ++ SOH :: r ++ t) with ((d ++ [SOH]) ++ r ++ t) in Hs2 by (by rewrite <- app_assoc).
    symmetry in Hs2. apply app_eq_split in Hs2 as (k & -> & E); [|zlia].
    exists k. by rewrite <- app_assoc. }
  assert (Hvl' : zlen (view_of f) = zlen pre + (12 + zlen (d ++ SOH :: v3))) by (rewrite Ev, zlen_app; lia).
  rewrite Hvl in *. rewrite Epre, parse_header_good; [|done|done|done|rewrite <- Epre; unfold origin_of in *; lia].
  cbv zeta. rewrite Hc, <- Epre, Hvl'.
  replace (zlen pre + zlen (frame_header d) + digits_val d + 7) with (zlen pre + zlen m) by (rewrite frame_header_length; lia).
  fold (origin_of f). rewrite (Z.add_assoc (origin_of f)).
  destruct (Z.ltb_spec (zlen pre + (12 + zlen (d ++ SOH :: v3))) (zlen pre + zlen m)).
  - right. split; [lia|]. right. by exists (digits_val d).
  - left. split; [lia|]. by exists (digits_val d).
Qed.

(** One step of the parser on a stream of frames: the next frame is queued as soon as all
    of it is in the buffer, and otherwise nothing is lost. *)
Definition starved (ms : list bytes) (v : bytes) : Prop :=
  match ms with [] => v = [] | m :: _ => zlen v < zlen m end.

Lemma synced_queue f f' qs m ms v' rest : synced f qs (m :: ms) (m ++ v') rest ->
  framer_inv f' -> buffer_ f' = buffer_ f ->
  windows f' = windows f ++ [mk_window (scan_abs_ f) (scan_abs_ f + zlen m)] ->
  scan_abs_ f' = scan_abs_ f + zlen m -> current_context_ f' = fresh_context ->
  synced f' (qs ++ [m]) ms v' rest.
Proof.
  intros [I Ew Ev Er Hf Es Hb] I' Eb Ew' Es' Ec.
  assert (Eo : origin_of f' = origin_of f) by (unfold origin_of; by rewrite Eb).
  split.
  - done.
  - by rewrite Ew', Ew, Eo, layout_snoc, Es.
  - unfold view_of. rewrite Eb. fold (view_of f). rewrite Ev, concat_app. cbn. by rewrite app_nil_r, <- app_assoc.
  - cbn in Er. rewrite <- app_assoc in Er. by apply app_inv_head in Er.
  - by inversion Hf.
  - rewrite Es', Es, Eo, concat_app, zlen_app. cbn. rewrite app_nil_r. lia.
  - by rewrite Ec.
Qed.

Lemma synced_same f f' qs ms v rest : synced f qs ms v rest -> framer_inv f' ->
  origin_of f' = origin_of f -> view_of f' = view_of f -> windows f' = windows f ->
  scan_abs_ f' = scan_abs_ f ->
  (ctx_state (current_context_ f') = ReadingBody ->
   ms <> [] /\ ctx_end (current_context_ f') = scan_abs_ f + zlen (default [] (head ms))) ->
  synced f' qs ms v rest.
Proof. intros [I Ew Ev Er Hf Es Hb] I' Eo Ev' Ew' Es' Hb'. by split; rewrite ?Eo, ?Ev', ?Ew', ?Es'. Qed.

Lemma frame_head_split (v rest m : bytes) (ms : list bytes) : v ++ rest = concat (m :: ms) -> zlen m <= zlen v ->
  exists v', v = m ++ v'.
Proof.
  intros E Hl. cbn in E. symmetry in E. apply app_eq_split in E as (k & -> & _); [|done]. by exists k.
Qed.

Lemma frame_begin (v rest m : bytes) (ms : list bytes) : is_frame m -> v ++ rest = concat (m :: ms) -> 10 <= zlen v ->
  exists v', v = Fix_First_Field ++ v'.
Proof.
  intros (d & r & -> & _ & _) E Hl. cbn [concat] in E. unfold frame_header in E. rewrite <- !app_assoc in E.
  symmetry in E. apply app_eq_split in E as (k & -> & _); [|change (zlen Fix_First_Field) with 10; lia].
  by exists k.
Qed.

(** A BeginString shorter than the field is not found, and the discard keeps all of it. *)
Lemma discard_synced f qs ms v rest : synced f qs ms v rest -> zlen v < 10 -> 0 < zlen v ->
  origin_of f + zlen (view_of f) < 2 ^ 61 ->
  ctx_state (current_context_ f) = FindingBegin ->
  parse_buffer f = Ok (NeedMoreData, f) \/
  exists f', parse_buffer f = Ok (NeedMoreData, f') /\ origin_of f' = origin_of f /\
    view_of f' = view_of f /\ windows f' = windows f /\ scan_abs_ f' = scan_abs_ f /\
    current_context_ f' = current_context_ f.
Proof.
  intros [I Ew Ev Er Hf Es Hb] H10 H0 Hbd Est. pose proof I as [Wb Wq Hsc _ _].
  assert (0 <= origin_of f) by (destruct Wb; unfold origin_of, origin; lia).
  parse_buffer_start f.
  destruct (Z.leb_spec (zlen (view_of f)) (scan_abs_ f - origin_of f)); [by left|]. rewrite Est.
  rewrite find_none_intro; [|lia|].
  2:{ intros k Hk Ho%occurs_bound; [|lia]. change (zlen Fix_First_Field) with 10 in Ho.
      rewrite Ev, zlen_app in *. lia. }
  destruct (Ring.empty (completed_messages_ f)) eqn:Ee; [|by left]. right.
  apply queue_empty in Ee; [|done]. fold (windows f) in Ee.
  assert (qs = []) as ->.
  { rewrite Ee in Ew. pose proof (layout_length (origin_of f) qs) as L. rewrite <- Ew in L.
    destruct qs; [done|]. zlia. }
  cbn in Ev, Es. change (zlen []) with 0 in Es. change (zlen Fix_First_Field - 1) with 9.
  assert (Hk : (if zlen (view_of f) <? 9 then zlen (view_of f) else 9) = zlen (view_of f))
    by (rewrite Ev; case_Z; lia).
  rewrite Hk, Z.sub_diag.
  destruct (discard_prefix_spec 0 (buffer_ f)) as (b & -> & Wb' & Eo' & Er' & _);
    [done|unfold origin_of in *; lia|zlia|].
  rewrite ok_bind, readable_rel_to_abs_spec by (done || (unfold origin_of in *; lia)).
  rewrite zdrop_0 in Er'. eexists. split; [done|].
  unfold origin_of, view_of in *; cbn. split_and!; [lia|done|done|lia|done].
Qed.

(** What one step of the parser makes of frames [ms], of which [v] is in the buffer. *)
Definition parser_step (qs ms : list bytes) (v rest : bytes) (r : FramerParseResult) (f' : Framer) : Prop :=
  (r = NeedMoreData /\ synced f' qs ms v rest /\ starved ms v) \/
  exists m ms' v', r = QueuedMessage /\ ms = m :: ms' /\ v = m ++ v' /\ synced f' (qs ++ [m]) ms' v' rest.

(** At the beginning of a frame. *)
Lemma begin_synced f qs m ms v rest r f' : synced f qs (m :: ms) v rest -> parse_buffer f = Ok (r, f') -> framer_inv f' ->
  origin_of f + zlen (view_of f) < 2 ^ 61 -> Ring.full (completed_messages_ f) = false -> 0 < zlen v ->
  ctx_state (current_context_ f) = FindingBegin -> parser_step qs (m :: ms) v rest r f'.
Proof.
  intros S Ep I' Hb F Hv0 Est. pose proof S as [I Ew Ev Er Hf Es _]. pose proof I as [Wb Wq Hsc _ _].
  assert (0 <= origin_of f) by (destruct Wb; unfold origin_of, origin; lia).
  assert (Hlv : zlen (view_of f) = zlen (concat qs) + zlen v) by (by rewrite Ev, zlen_app).
  assert (Hm : is_frame m) by (by inversion Hf). pose proof (is_frame_length m Hm).
  destruct (Z.le_gt_cases 10 (zlen v)) as [H10|H10].
  - destruct (frame_begin v rest m ms Hm Er H10) as (v1 & Ev1).
    revert Ep. parse_buffer_start f. rewrite (proj2 (Z.leb_gt _ _)) by lia. rewrite Est.
    replace (scan_abs_ f - origin_of f) with (zlen (concat qs)) by lia.
    assert (find Fix_First_Field (view_of f) (zlen (concat qs)) = Some (zlen (concat qs))) as ->
      by (rewrite Ev, Ev1; apply find_here).
    pose proof (zlen_nonneg (concat qs)).
    rewrite readable_rel_to_abs_spec by (done || (unfold origin_of in *; lia)). fold (origin_of f).
    set (g := with_context _ _ f).
    assert (Hg : origin_of g + zlen (concat qs) + zlen v < 2 ^ 61) by (change (origin_of g) with (origin_of f); lia).
    pose proof (parse_header_frame g (concat qs) v rest m (concat ms) Wb Hg Ev Hm Er H10 eq_refl) as P.
    cbv zeta in P. change (view_of g) with (view_of f) in P.
    destruct P as [[Hl [n ->]]|[Hl [->|[n ->]]]]; intros [= <- <-].
    + destruct (frame_head_split v rest m ms Er Hl) as (v' & ->). right.
      exists m, ms, v'. split_and!; [done|done|done|].
      apply (synced_queue f); [done|done|done| |cbn; change (origin_of g) with (origin_of f); lia|done].
      change (origin_of g) with (origin_of f).
      destruct (windows_complete (mk_context (origin_of f + zlen (concat qs))
        (origin_of f + zlen (concat qs) + zlen m) n ReadingBody) g Wq F) as [_ ->].
      rewrite <- Es. done.
    + left. split_and!; [done| |done]. by apply (synced_same f).
    + left. split_and!; [done| |done]. apply (synced_same f); try done.
      intros _. split; [done|]. cbn. change (origin_of g) with (origin_of f). lia.
  - destruct (discard_synced f qs (m :: ms) v rest S) as [Ed|(f1 & Ed & Eo & Evw & Eww & Esc & Ec)];
      [lia|lia|done|done|..]; rewrite Ed in Ep; injection Ep as <- <-.
    + left. split_and!; [done|done|cbn; lia].
    + left. split_and!; [done| |cbn; lia]. apply (synced_same f); try done. by rewrite Ec, Est.
Qed.

(** Inside a frame whose length is known. *)
Lemma body_synced f qs m ms v rest r f' : synced f qs (m :: ms) v rest -> parse_buffer f = Ok (r, f') -> framer_inv f' ->
  origin_of f + zlen (view_of f) < 2 ^ 61 -> Ring.full (completed_messages_ f) = false -> 0 < zlen v ->
  ctx_state (current_context_ f) = ReadingBody -> parser_step qs (m :: ms) v rest r f'.
Proof.
  intros S Ep I' Hb F Hv0 Est. pose proof S as [I Ew Ev Er _ Es Hbody]. pose proof I as [Wb Wq Hsc _ Hctx]. rewrite Est in Hctx.
  assert (0 <= origin_of f) by (destruct Wb; unfold origin_of, origin; lia).
  assert (Hlv : zlen (view_of f) = zlen (concat qs) + zlen v) by (by rewrite Ev, zlen_app).
  destruct (Hbody Est) as [_ He]. cbn in He.
  revert Ep. parse_buffer_start f. rewrite (proj2 (Z.leb_gt _ _)) by lia. rewrite Est.
  rewrite readable_rel_to_abs_spec by (done || (unfold origin_of in *; lia)). fold (origin_of f).
  destruct (Z.ltb_spec (origin_of f + zlen (view_of f)) (ctx_end (current_context_ f))); intros [= <- <-].
  - left. split_and!; [done|done|cbn; lia].
  - destruct (frame_head_split v rest m ms Er ltac:(lia)) as (v' & ->). right.
    exists m, ms, v'. split_and!; [done|done|done|].
    apply (synced_queue f); [done|done|done| |done|done].
    destruct (windows_complete (current_context_ f) f Wq F) as [_ ->].
    unfold make_message_window. destruct Hctx as [-> _]. by rewrite He.
Qed.

Lemma parse_buffer_synced f qs ms v rest : synced f qs ms v rest ->
  origin_of f + zlen (view_of f) < 2 ^ 61 -> Ring.full (completed_messages_ f) = false ->
  exists r f', parse_buffer f = Ok (r, f') /\ framer_inv f' /\ advances f f' /\
    (r <> NeedMoreData -> scan_abs_ f < scan_abs_ f') /\ parser_step qs ms v rest r f'.
Proof.
  intros S Hb F. pose proof S as [I Ew Ev Er Hf Es _].
  destruct (parse_buffer_inv f I Hb F) as (r & f' & Ep & I' & A' & Hsc).
  exists r, f'. do 4 (split; [done|]). clear Hsc. pose proof I as [Wb _ Hsc _ Hctx].
  assert (0 <= origin_of f) by (destruct Wb; unfold origin_of, origin; lia).
  assert (Hlv : zlen (view_of f) = zlen (concat qs) + zlen v) by (by rewrite Ev, zlen_app).
  destruct ms as [|m ms].
  { apply app_eq_nil in Er as [-> ->]. revert Ep. parse_buffer_start f.
    rewrite (proj2 (Z.leb_le _ _)) by zlia. intros [= <- <-]. left. done. }
  assert (Hm : is_frame m) by (by inversion Hf). pose proof (is_frame_length m Hm).
  destruct (Z.le_gt_cases (zlen v) 0) as [Hv0|Hv0].
  { revert Ep. parse_buffer_start f. rewrite (proj2 (Z.leb_le _ _)) by lia.
    intros [= <- <-]. left. split_and!; [done|done|cbn; lia]. }
  destruct (ctx_state (current_context_ f)) eqn:Est; [by eapply begin_synced|by eapply body_synced|done].
Qed.

(** More frames follow. *)
Lemma synced_extend f qs ms v rest w : synced f qs ms v rest -> is_frame w -> synced f qs (ms ++ [w]) v (rest ++ w).
Proof.
  intros [I Ew Ev Er Hf Es Hb] Hw. split; try done.
  - rewrite app_assoc, Er, concat_app. cbn. by rewrite app_nil_r.
  - apply Forall_app. split; [done|by constructor].
  - intros Hc. destruct (Hb Hc) as [Hne He]. by destruct ms.
Qed.
Lemma starved_extend ms v rest w : starved ms v -> Forall is_frame ms -> is_frame w -> v ++ rest = concat ms -> starved (ms ++ [w]) v.
Proof.
  intros Hs Hf Hw E. destruct ms as [|m ms]; [|done]. cbn in *. subst v. pose proof (is_frame_length w Hw). change (zlen []) with 0. lia.
Qed.

Lemma parse_loop_synced fuel f qs ms v rest : synced f qs ms v rest ->
  origin_of f + zlen (view_of f) < 2 ^ 61 ->
  origin_of f + zlen (view_of f) - scan_abs_ f < Z.of_nat fuel ->
  exists f' qs1 ms' v', parse_loop fuel f = Ok f' /\ advances f f' /\ ms = qs1 ++ ms' /\
    v = concat qs1 ++ v' /\ synced f' (qs ++ qs1) ms' v' rest /\
    (Ring.full (completed_messages_ f') = true \/ starved ms' v').
Proof.
  revert f qs ms v. induction fuel as [|fuel IH]; intros f qs ms v S Hb Hfuel.
  { destruct S as [[] ? ? ? ? ? ?]. lia. }
  cbn [parse_loop]. destruct (Ring.full (completed_messages_ f)) eqn:F.
  { exists f, [], ms, v. rewrite app_nil_r. split_and!; auto; reflexivity. }
  destruct (parse_buffer_synced f qs ms v rest S Hb F) as (r & f1 & -> & I1 & A1 & Hsc & Hr).
  pose proof (advances_end _ _ A1). rewrite ok_bind.
  destruct Hr as [(-> & S1 & Hst)|(m & ms1 & v1 & -> & -> & -> & S1)].
  - exists f1, [], ms, v. rewrite app_nil_r. split_and!; auto; reflexivity.
  - specialize (Hsc ltac:(done)).
    destruct (IH f1 _ _ _ S1) as (f' & qs1 & ms' & v' & -> & A' & -> & -> & S' & Hd); [lia|lia|].
    exists f', (m :: qs1), ms', v'. cbn. rewrite <- !app_assoc in *.
    split_and!; [done|by transitivity f1|done|done|done|done].
Qed.

Lemma get_consume_synced f m qs ms v rest : synced f (m :: qs) ms v rest ->
  origin_of f + zlen (view_of f) < 2 ^ 61 ->
  get_message f = Ok m /\ exists f', consume_message f = Ok f' /\ synced f' qs ms v rest /\
    origin_of f' + zlen (view_of f') = origin_of f + zlen (view_of f) /\
    LinearBuffer.capacity_ (buffer_ f') = LinearBuffer.capacity_ (buffer_ f).
Proof.
  intros [I Ew Ev Er Hf Es Hb] Hbd. cbn [layout concat] in *.
  destruct (get_consume_spec f _ _ I Hbd Ew) as (-> & f' & -> & I' & Ew' & Eo & Ev' & Es' & Ec' & Hcap).
  cbn [win_begin win_end] in *.
  assert (Evd : view_of f' = concat qs ++ v).
  { rewrite Ev', Ev, <- app_assoc. replace (origin_of f + zlen m - origin_of f) with (zlen m) by lia.
    by rewrite zdrop_app_exact. }
  split.
  - f_equal. rewrite Ev, <- app_assoc, Z.sub_diag.
    replace (origin_of f + zlen m - origin_of f) with (zlen m) by lia. exact (zsub_mid [] m _).
  - exists f'. split_and!; [done| |rewrite Evd, Ev, Eo; zlia|done].
    split; [done|by rewrite Eo|done|done|done| |].
    + rewrite Es', Es, Eo. zlia.
    + by rewrite Ec', Es'.
Qed.

Lemma drain_synced fuel f qs ms v rest : synced f qs ms v rest ->
  origin_of f + zlen (view_of f) < 2 ^ 61 -> (length qs < fuel)%nat ->
  exists f', drain fuel f = Ok (qs, f') /\ synced f' [] ms v rest /\
    origin_of f' + zlen (view_of f') = origin_of f + zlen (view_of f) /\
    LinearBuffer.capacity_ (buffer_ f') = LinearBuffer.capacity_ (buffer_ f).
Proof.
  revert f qs. induction fuel as [|fuel IH]; intros f qs S Hb Hfuel; [lia|]. cbn [drain].
  rewrite has_message_spec by apply S. rewrite (sy_windows _ _ _ _ _ S).
  destruct qs as [|m qs]; cbn [layout].
  { rewrite bool_decide_true by done. by exists f. }
  rewrite bool_decide_false by done. cbn [negb length] in *.
  destruct (get_consume_synced f m qs ms v rest S Hb) as (-> & f1 & -> & S1 & Hend & Hc).
  rewrite !ok_bind. destruct (IH f1 qs S1) as (f' & -> & S' & Hend' & Hc'); [lia|lia|].
  exists f'. rewrite ok_bind. split_and!; [done|done|lia|congruence].
Qed.

(** The queue holds at most [Completed_Capacity] messages. *)
Lemma synced_bound f qs ms v rest : synced f qs ms v rest ->
  zlen qs <= Completed_Capacity /\
  Ring.full (completed_messages_ f) = (zlen qs =? Completed_Capacity).
Proof.
  intros [[Wb Wq _ _ _] Ew _ _ _ _ _].
  destruct (fifo_size (BoundedFifo := ring_bounded_fifo Completed_Capacity) _ Wq) as [_ Hl].
  rewrite queue_full by done. fold (windows f) in *. rewrite Ew, layout_length in *. done.
Qed.

(** One append: the frames that became complete are queued, at most [Completed_Capacity] of
    them; if fewer, less than one frame is left in the buffer. *)
Lemma append_synced data f ms v rest : synced f [] ms v (data ++ rest) ->
  origin_of f + zlen (view_of f) + zlen data < 2 ^ 61 ->
  LinearBuffer.capacity_ (buffer_ f) + zlen data + Min_Grow < 2 ^ 62 ->
  exists f1 qs ms' v', append data f = Ok f1 /\ ms = qs ++ ms' /\
    v ++ data = concat qs ++ v' /\ synced f1 qs ms' v' rest /\
    zlen qs <= Completed_Capacity /\ (zlen qs = Completed_Capacity \/ starved ms' v') /\
    origin_of f1 + zlen (view_of f1) = origin_of f + zlen (view_of f) + zlen data /\
    LinearBuffer.capacity_ (buffer_ f1) <= LinearBuffer.capacity_ (buffer_ f) + zlen data + Min_Grow.
Proof.
  intros Sf Hb Hc. pose proof Sf as [I Ew Ev Er Hf Es Hbody].
  destruct (append_push_inv data f I Hb Hc) as (Ig & Eo & Evg & Hcap).
  unfold append. set (g := mk_framer _ _ _ _) in *.
  assert (Sg : synced g [] ms (v ++ data) rest).
  { split; [done| | | |done| |].
    - by rewrite Eo.
    - by rewrite Evg, Ev.
    - by rewrite <- app_assoc.
    - by rewrite Eo.
    - exact Hbody. }
  destruct (parse_loop_synced (S (S (length (readable (buffer_ g))))) g _ _ _ _ Sg)
    as (f1 & qs & ms' & v' & -> & A1 & -> & Evd & S1 & Hd).
  - rewrite Eo, Evg. zlia.
  - change (readable (buffer_ g)) with (view_of g). destruct Ig. unfold zlen. lia.
  - pose proof (advances_end _ _ A1) as Hend. rewrite Eo, Evg, zlen_app in Hend.
    destruct (synced_bound _ _ _ _ _ S1) as [Hl Hfull]. cbn [app] in *. exists f1, qs, ms', v'.
    destruct A1 as [_ _ _ _ Hca]. split_and!; try done; [|lia|lia].
    destruct Hd as [Hd|Hd]; [left|by right]. rewrite Hfull in Hd. lia.
Qed.

(** One read: the queued frames are delivered. *)
Lemma read_chunk_synced data f ms v rest : synced f [] ms v (data ++ rest) ->
  origin_of f + zlen (view_of f) + zlen data < 2 ^ 61 ->
  LinearBuffer.capacity_ (buffer_ f) + zlen data + Min_Grow < 2 ^ 62 ->
  exists f' qs ms' v', read_chunk data f = Ok (qs, f') /\ ms = qs ++ ms' /\
    v ++ data = concat qs ++ v' /\ synced f' [] ms' v' rest /\
    zlen qs <= Completed_Capacity /\ (zlen qs = Completed_Capacity \/ starved ms' v') /\
    origin_of f' + zlen (view_of f') = origin_of f + zlen (view_of f) + zlen data /\
    LinearBuffer.capacity_ (buffer_ f') <= LinearBuffer.capacity_ (buffer_ f) + zlen data + Min_Grow.
Proof.
  intros Sf Hb Hc. destruct (append_synced data f ms v rest Sf Hb Hc) as (f1 & qs & ms' & v' & E & -> & Ev & S1 & Hl & Hd & He & Hca).
  unfold read_chunk. rewrite E, ok_bind.
  destruct (drain_synced (S (Z.to_nat Completed_Capacity)) f1 qs ms' v' rest S1) as (f' & -> & S' & Hend' & Hc').
  - lia.
  - unfold zlen in Hl. lia.
  - exists f', qs, ms', v'. split_and!; try done; lia.
Qed.

(** [buff_.resize(Framer::start_size())]: no read returns more. *)
Definition Max_Read : Z := Start_Capacity.
(** If all frames have [k] bytes, a read of this length completes fewer than the ring holds. *)
Definition read_limit (k : Z) : Z := k * (Completed_Capacity - 1).

Lemma concat_length_ge (ms : list bytes) k : Forall (fun m => k <= zlen m) ms -> k * zlen ms <= zlen (concat ms).
Proof. induction 1 as [|m ms Hm _ IH]; cbn; [zlia|]. rewrite zlen_cons, zlen_app. lia. Qed.

Lemma chunk_not_full k qs ms' v v' data : starved (qs ++ ms') v -> v ++ data = concat qs ++ v' ->
  Forall (fun m => k <= zlen m) qs -> zlen data <= read_limit k ->
  zlen qs < Completed_Capacity.
Proof.
  unfold read_limit, Completed_Capacity. intros Hst E Hf Hl.
  destruct qs as [|q qs]; [by vm_compute|]. cbn in Hst, E. inversion Hf as [|? ? Hq Hqs]; subst.
  apply concat_length_ge in Hqs. apply (f_equal zlen) in E. rewrite !zlen_app in E.
  rewrite zlen_cons. pose proof (zlen_nonneg v'). pose proof (zlen_nonneg data).
  destruct (Z.ltb_spec (1 + zlen qs) 1024); [done|]. pose proof (Z.mul_le_mono_nonneg_l 1023 (zlen qs) k). lia.
Qed.

Lemma read_all_synced k chunks f ms v : synced f [] ms v (concat chunks) -> starved ms v ->
  Forall (fun m => k <= zlen m) ms -> Forall (fun c => zlen c <= read_limit k) chunks ->
  origin_of f + zlen (view_of f) + framer_cost (FAppend <$> chunks) < 2 ^ 61 ->
  LinearBuffer.capacity_ (buffer_ f) + framer_cost (FAppend <$> chunks) < 2 ^ 62 ->
  exists f', read_all chunks f = Ok (ms, f').
Proof.
  revert f ms v. induction chunks as [|c cs IH]; intros f ms v S Hst Hms Hcs Hb Hc; cbn [read_all].
  - exists f. destruct S as [_ _ _ Er _ _ _]. cbn in Er. rewrite app_nil_r in Er. subst v.
    destruct ms as [|m ms]; [done|]. cbn in Hst. rewrite zlen_app in Hst. pose proof (zlen_nonneg (concat ms)). lia.
  - inversion Hcs; subst. cbn [fmap list_fmap framer_cost] in Hb, Hc.
    assert (0 <= framer_cost (FAppend <$> cs)) by (clear; induction cs; cbn; unfold Min_Grow; zlia).
    unfold Min_Grow in *.
    destruct (read_chunk_synced c f ms v (concat cs) S) as (f1 & qs & ms' & v' & -> & -> & E & S1 & Hq & Hd & Hend & Hcap);
      [lia|unfold Min_Grow; lia|]. unfold Min_Grow in *. rewrite ok_bind.
    apply Forall_app in Hms as [Hqs Hms'].
    pose proof (chunk_not_full k qs ms' v v' c Hst E Hqs ltac:(done)).
    destruct Hd as [?|Hst1]; [lia|].
    destruct (IH f1 ms' v' S1 Hst1 Hms' ltac:(done)) as (f' & ->); [lia|lia|].
    by exists f'.
Qed.

Lemma framer_new_synced ms : Forall is_frame ms -> synced framer_new [] ms [] (concat ms).
Proof. intros Hf. split; [apply framer_new_inv|done|done|done|done|done|done]. Qed.

Lemma starved_nil ms : Forall is_frame ms -> starved ms [].
Proof.
  intros H. destruct ms as [|m ms]; cbn; [done|]. inversion H as [|? ? Hm _]; subst.
  apply is_frame_length in Hm. change (zlen []) with 0. lia.
Qed.

(** C13: a stream of frames is delivered exactly, message by message, however the transport
    cuts it into reads.  The frames have [k] bytes or more and a read returns at most [1023 * k],
    so that no single read fills the ring: the 64 KiB of the session's read buffer will do if
    all frames have 65 bytes. *)
Theorem framer_streaming k (ms : list bytes) (chunks : list bytes) :
  concat chunks = concat ms -> Forall is_frame ms ->
  Forall (fun m => k <= zlen m) ms -> Forall (fun c => zlen c <= read_limit k) chunks ->
  framer_cost (FAppend <$> chunks) < 2 ^ 60 ->
  exists f, read_all chunks framer_new = Ok (ms, f).
Proof.
  intros E Hf Hm Hc Hb. apply (read_all_synced k chunks framer_new ms []); [|by apply starved_nil|done|done| |].
  - rewrite E. by apply framer_new_synced.
  - change (origin_of framer_new + zlen (view_of framer_new)) with 0. lia.
  - change (LinearBuffer.capacity_ (buffer_ framer_new)) with 65536. lia.
Qed.

(** C40: the ring of completed messages bounds what one read delivers: when a read completes
    more frames than the ring holds, exactly [Completed_Capacity] are delivered, and the
    complete frames after them stay in the buffer, unqueued, until another read. *)
Theorem framer_read_limit (ms : list bytes) : Forall is_frame ms ->
  Completed_Capacity < zlen ms -> zlen (concat ms) < 2 ^ 60 ->
  exists f, read_chunk (concat ms) framer_new = Ok (take 1024 ms, f) /\
            view_of f = concat (drop 1024 ms) /\ has_message f = false.
Proof.
  intros Hf Hl Hb. destruct (read_chunk_synced (concat ms) framer_new ms [] []) as
    (f & qs & ms' & v' & E & Em & Ev & S & Hq & Hd & _).
  - rewrite app_nil_r. by apply framer_new_synced.
  - change (origin_of framer_new + zlen (view_of framer_new)) with 0. lia.
  - change (LinearBuffer.capacity_ (buffer_ framer_new)) with 65536. unfold Min_Grow. lia.
  - pose proof S as [I Ew Evf Er _ _ _]. rewrite app_nil_r in Er. subst v'.
    assert (Hqs : zlen qs = Completed_Capacity).
    { destruct Hd as [Hd|Hd]; [done|]. destruct ms' as [|m' ms'].
      - rewrite app_nil_r in Em. subst. lia.
      - cbn in Hd. rewrite zlen_app in Hd. pose proof (zlen_nonneg (concat ms')). lia. }
    assert (Hlq : length qs = 1024%nat) by (unfold zlen, Completed_Capacity in Hqs; lia).
    exists f. rewrite E, Em. rewrite take_app_length', drop_app_length' by done. split_and!; [done|done|].
    rewrite has_message_spec by apply I. by rewrite Ew.
Qed.

Definition demo_frame (n : byte) : bytes :=
  frame_header (B "51") ++ B "35=0" ++ [SOH] ++ B "34=" ++ [n; SOH] ++
  B "52=20250101-00:00:00.000000000" ++ [SOH] ++ B "49=A" ++ [SOH] ++ B "56=B" ++ [SOH] ++ B "10=000" ++ [SOH].

Example framer_streaming_witness :
  exists f, read_all [take 20 (demo_frame x31); drop 20 (demo_frame x31) ++ take 5 (demo_frame x32);
                      drop 5 (demo_frame x32)] framer_new = Ok ([demo_frame x31; demo_frame x32], f).
Proof.
  assert (Hf : forall n, n <> SOH -> is_frame (demo_frame n)).
  { intros n Hn. exists (B "51"), (drop 15 (demo_frame n)). split_and!; [done| |done].
    split_and!; [by repeat constructor|done|by vm_compute]. }
  apply (framer_streaming 65); [done| | | |by vm_compute];
    repeat (constructor; [first [by apply Hf | by vm_compute]|]); constructor.
Defined.

Example framer_read_limit_witness :
  exists f, read_chunk (concat (replicate 1025 (demo_frame x31))) framer_new =
              Ok (take 1024 (replicate 1025 (demo_frame x31)), f) /\
            view_of f = concat (drop 1024 (replicate 1025 (demo_frame x31))) /\ has_message f = false.
Proof.
  apply (framer_read_limit (replicate 1025 (demo_frame x31))).
  - apply Forall_replicate. exists (B "51"), (drop 15 (demo_frame x31)). split_and!; [done| |done].
    split_and!; [by repeat constructor|done|by vm_compute].
  - by rewrite zlen_replicate.
  - by vm_compute.
Defined.
