(* ===== verification/Message.v ===== *)
(** Messages (include/fix/message/GenericMessage.hpp, include/fix/core/Message.hpp,
    src/Message.cpp): fields, the message type, and the header cache that gives the session
    direct access to the header fields it needs.

    A cache slot is a pointer to the value of a field of the same message; here it is the
    index of that field. *)
From Stdlib Require Import Strings.Byte.
From S2P Require Import Prelude.
From S2P Require Import Text.

(** [GenericField] and [GenericFieldView]; [Tag] is a [uint32_t]. *)
Record GenericField : Set := mk_field { tag : Z; value : bytes }.

Abbreviation GenericMessage := (list GenericField).

#[export] Instance field_eq_dec : EqDecision GenericField.
Proof. solve_decision. Defined.
#[export] Instance field_inhabited : Inhabited GenericField := populate (mk_field 0 []).

(** [MsgType(sv)]: at most eight characters are kept. *)
Record MsgType : Set := mk_msg_type { mt_value : bytes; mt_length : Z }.
Definition msg_type (sv : bytes) : MsgType :=
  let length := u8 (zlen sv) in
  let length := if 8 <? zlen sv then 8 else length in
  mk_msg_type (ztake length sv) length.
Definition msg_type_view (m : MsgType) : bytes := ztake (mt_length m) (mt_value m).

(** ** The header cache *)

Inductive CacheSlot : Set :=
  | MsgTypeSlot | SenderCompIDSlot | TargetCompIDSlot | SendingTimeSlot | MsgSeqNumSlot
  | PossDupFlagSlot | OrigSendingTimeSlot | TestReqIDSlot.

Definition slot_index (s : CacheSlot) : nat :=
  match s with
  | MsgTypeSlot => 0 | SenderCompIDSlot => 1 | TargetCompIDSlot => 2 | SendingTimeSlot => 3
  | MsgSeqNumSlot => 4 | PossDupFlagSlot => 5 | OrigSendingTimeSlot => 6 | TestReqIDSlot => 7
  end.

(** The [case] labels of [make_valid_message_view]. *)
Definition slot_of_tag (t : Z) : option CacheSlot :=
  if t =? 35 then Some MsgTypeSlot
  else if t =? 49 then Some SenderCompIDSlot
  else if t =? 56 then Some TargetCompIDSlot
  else if t =? 52 then Some SendingTimeSlot
  else if t =? 43 then Some PossDupFlagSlot
  else if t =? 122 then Some OrigSendingTimeSlot
  else if t =? 112 then Some TestReqIDSlot
  else if t =? 34 then Some MsgSeqNumSlot
  else None.

Definition slot_tag (s : CacheSlot) : Z :=
  match s with
  | MsgTypeSlot => 35 | SenderCompIDSlot => 49 | TargetCompIDSlot => 56 | SendingTimeSlot => 52
  | MsgSeqNumSlot => 34 | PossDupFlagSlot => 43 | OrigSendingTimeSlot => 122 | TestReqIDSlot => 112
  end.

Record HeaderCache : Set := mk_cache {
  slots : list (option Z);
  msg_seq_num : Z;
  has_msg_seq_num : bool
}.

Definition empty_cache : HeaderCache := mk_cache (replicate 8 None) 0 false.

(** The [switch] of [make_valid_message_view] for the field at index [i]. *)
Definition cache_field (i : Z) (field : GenericField) (c : HeaderCache) : HeaderCache :=
  match slot_of_tag (tag field) with
  | None => c
  | Some s =>
      let slots' := <[slot_index s := Some i]> (slots c) in
      match s with
      | MsgSeqNumSlot =>
          let r := from_chars 64 (value field) in
          mk_cache slots' (fc_or (msg_seq_num c) r)
                   (if fc_complete (value field) r then true else has_msg_seq_num c)
      | _ => mk_cache slots' (msg_seq_num c) (has_msg_seq_num c)
      end
  end.

Record ValidMessage : Set := mk_valid { message_ : GenericMessage; header_cache_ : HeaderCache }.

Fixpoint scan_fields (i : Z) (fields : GenericMessage) (c : HeaderCache) : HeaderCache :=
  match fields with
  | [] => c
  | field :: fields' => scan_fields (i + 1) fields' (cache_field i field c)
  end.

(** The view refers to the message it was made from. *)
Definition make_valid_message_view (msg : GenericMessage) : ValidMessage :=
  mk_valid msg (scan_fields 0 msg empty_cache).

(** The owning copy: a field is appended, then its slot points to the appended element. *)
Fixpoint copy_fields (msg new_msg : GenericMessage) (c : HeaderCache) : ValidMessage :=
  match msg with
  | [] => mk_valid new_msg c
  | field :: msg' =>
      let new_msg' := new_msg ++ [mk_field (tag field) (value field)] in
      copy_fields msg' new_msg' (cache_field (zlen new_msg' - 1) field c)
  end.

Definition make_valid_message (msg : GenericMessage) : ValidMessage := copy_fields msg [] empty_cache.

(** [*header_cache_.slots[s]]; [None] is the null pointer. *)
Definition slot (m : ValidMessage) (s : CacheSlot) : option bytes :=
  i ← default None (slots (header_cache_ m) !! slot_index s);
  value <$> znth (message_ m) i.

(** ** The cache points at the last field of each tag *)

Definition last_field (t : Z) (msg : GenericMessage) : option bytes :=
  value <$> last (filter (fun f => tag f = t) msg).

Lemma last_field_snoc t msg f :
  last_field t (msg ++ [f]) = if decide (tag f = t) then Some (value f) else last_field t msg.
Proof.
  unfold last_field. rewrite filter_app, filter_cons, filter_nil. case_decide.
  - by rewrite last_snoc.
  - by rewrite app_nil_r.
Qed.

Lemma slot_of_tag_inv t s : slot_of_tag t = Some s <-> t = slot_tag s.
Proof.
  unfold slot_of_tag. split.
  - repeat (case_Z; [intros [= <-]; subst; done|]). done.
  - intros ->. by destruct s.
Qed.

Lemma slot_index_inj s s' : slot_index s = slot_index s' -> s = s'.
Proof. by destruct s, s'. Qed.

Lemma cache_field_slots i f c s : length (slots c) = 8%nat ->
  length (slots (cache_field i f c)) = 8%nat /\
  slots (cache_field i f c) !! slot_index s =
    if decide (tag f = slot_tag s) then Some (Some i) else slots c !! slot_index s.
Proof.
  intros Hl. unfold cache_field. destruct (slot_of_tag (tag f)) as [s'|] eqn:E.
  - assert (Es : slots (match s' with
      | MsgSeqNumSlot => mk_cache (<[slot_index s' := Some i]> (slots c))
           (fc_or (msg_seq_num c) (from_chars 64 (value f)))
           (if fc_complete (value f) (from_chars 64 (value f)) then true else has_msg_seq_num c)
      | _ => mk_cache (<[slot_index s' := Some i]> (slots c)) (msg_seq_num c) (has_msg_seq_num c)
      end) = <[slot_index s' := Some i]> (slots c)) by (by destruct s').
    rewrite Es, length_insert. split; [done|]. apply slot_of_tag_inv in E. rewrite E. case_decide as D.
    + assert (s' = s) as -> by (by destruct s', s). apply list_lookup_insert_eq.
      rewrite Hl. destruct s; cbn; lia.
    + apply list_lookup_insert_ne. intros ->%slot_index_inj. done.
  - split; [done|]. case_decide as D; [|done]. by apply slot_of_tag_inv in D; rewrite D in E.
Qed.

Lemma scan_fields_app i l1 l2 c :
  scan_fields i (l1 ++ l2) c = scan_fields (i + zlen l1) l2 (scan_fields i l1 c).
Proof.
  revert i c. induction l1 as [|f l1 IH]; intros i c; cbn.
  - by change (zlen []) with 0; rewrite Z.add_0_r.
  - rewrite IH. f_equal. zlia.
Qed.

Lemma copy_fields_spec msg new_msg c :
  copy_fields msg new_msg c = mk_valid (new_msg ++ msg) (scan_fields (zlen new_msg) msg c).
Proof.
  revert new_msg c. induction msg as [|f msg IH]; intros new_msg c; cbn [copy_fields scan_fields].
  - by rewrite app_nil_r.
  - rewrite IH, zlen_app, <- app_assoc. change (zlen [_]) with 1. destruct f; cbn.
    by replace (zlen new_msg + 1 - 1) with (zlen new_msg) by lia.
Qed.

(** The owning copy is the view, field by field and slot by slot. *)
Lemma make_valid_message_view_eq msg : make_valid_message msg = make_valid_message_view msg.
Proof. unfold make_valid_message. by rewrite copy_fields_spec. Qed.

Definition slot_ok (msg : GenericMessage) (c : HeaderCache) (s : CacheSlot) : Prop :=
  (slots c !! slot_index s = Some None /\ last_field (slot_tag s) msg = None) \/
  exists i f, slots c !! slot_index s = Some (Some i) /\ znth msg i = Some f /\
              last_field (slot_tag s) msg = Some (value f).

Lemma scan_fields_slots msg s : length (slots (scan_fields 0 msg empty_cache)) = 8%nat /\
  slot_ok msg (scan_fields 0 msg empty_cache) s.
Proof.
  induction msg as [|f msg [Hl IH]] using rev_ind.
  { split; [done|]. left. by destruct s. }
  rewrite scan_fields_app. cbn [scan_fields].
  destruct (cache_field_slots (0 + zlen msg) f (scan_fields 0 msg empty_cache) s Hl) as [Hl' E].
  split; [done|]. unfold slot_ok. rewrite E, last_field_snoc. case_decide as D.
  - right. exists (0 + zlen msg), f. rewrite znth_app_r by lia.
    by replace (0 + zlen msg - zlen msg) with 0 by lia.
  - destruct IH as [[? ?]|(i & g & ? & Hg & ?)]; [by left|right]. exists i, g.
    rewrite znth_app_l; [done|]. apply znth_Some_lt in Hg. lia.
Qed.

(** Reading a slot gives the value of the last field with its tag, if there is one. *)
Lemma slot_spec msg s : slot (make_valid_message_view msg) s = last_field (slot_tag s) msg.
Proof.
  destruct (scan_fields_slots msg s) as [_ [[E ->]|(i & f & E & Hf & ->)]];
    unfold slot; cbn; rewrite E; cbn; [done|]. by rewrite Hf.
Qed.

(** *** The sequence number *)

(** What the loop leaves in [msg_seq_num] and [has_msg_seq_num]. *)
Fixpoint seq_fields (msg : GenericMessage) (n : Z) (has : bool) : Z * bool :=
  match msg with
  | [] => (n, has)
  | f :: msg' =>
      if tag f =? 34 then
        seq_fields msg' (fc_or n (from_chars 64 (value f)))
                   (fc_complete (value f) (from_chars 64 (value f)) || has)
      else seq_fields msg' n has
  end.

Lemma scan_fields_seq msg : forall i c,
  (msg_seq_num (scan_fields i msg c), has_msg_seq_num (scan_fields i msg c)) =
  seq_fields msg (msg_seq_num c) (has_msg_seq_num c).
Proof.
  induction msg as [|f msg IH]; intros i c; cbn [scan_fields seq_fields]; [done|].
  rewrite IH. unfold cache_field. destruct (Z.eqb_spec (tag f) 34) as [->|Hne].
  - cbn. by destruct (fc_complete _ _).
  - destruct (slot_of_tag (tag f)) as [s|] eqn:E; [|done]. destruct s; try done.
    apply slot_of_tag_inv in E. done.
Qed.

Lemma seq_fields_none msg n has : 34 ∉ (tag <$> msg) -> seq_fields msg n has = (n, has).
Proof.
  revert n has. induction msg as [|f msg IH]; intros n has; cbn [fmap list_fmap seq_fields]; [done|].
  rewrite not_elem_of_cons. intros [Hne Hin]. destruct (Z.eqb_spec (tag f) 34); [congruence|]. by apply IH.
Qed.

(** With one MsgSeqNum field, the flag says that its value is a decimal [uint64_t], and the
    number is that value. *)
Lemma seq_spec l1 v l2 : 34 ∉ (tag <$> l1) -> 34 ∉ (tag <$> l2) ->
  let c := header_cache_ (make_valid_message_view (l1 ++ mk_field 34 v :: l2)) in
  has_msg_seq_num c = fc_complete v (from_chars 64 v) /\
  (has_msg_seq_num c = true -> msg_seq_num c = digits_val v).
Proof.
  intros H1 H2 c.
  assert (E : (msg_seq_num c, has_msg_seq_num c) = seq_fields (l1 ++ mk_field 34 v :: l2) 0 false)
    by apply (scan_fields_seq _ 0 empty_cache).
  assert (Ea : forall l1 n h, 34 ∉ (tag <$> l1) ->
    seq_fields (l1 ++ mk_field 34 v :: l2) n h = seq_fields (mk_field 34 v :: l2) n h).
  { clear. induction l1 as [|f l1 IH]; intros n h; cbn [app seq_fields fmap list_fmap]; [done|].
    rewrite not_elem_of_cons. intros [? ?]. destruct (Z.eqb_spec (tag f) 34); [congruence|]. by apply IH. }
  rewrite Ea in E by done. cbn [seq_fields tag value] in E. rewrite Z.eqb_refl, seq_fields_none in E by done.
  injection E as E1 E2. rewrite orb_false_r in E2. split; [done|]. rewrite E1, E2. intros Hc.
  destruct (fc_value (from_chars 64 v)) as [n|] eqn:En.
  - unfold fc_or. rewrite En.
    destruct (proj1 (from_chars_ok_iff 64 v n ltac:(lia)) (conj Hc En)) as (_ & _ & <- & _). done.
  - unfold fc_complete, from_chars in Hc, En. repeat case_match; done.
Qed.
