(* ===== verification/Parser.v ===== *)
(** [Fix::Parser] (include/fix/core/Parser.hpp, src/Parser.cpp): one framed message to its
    list of fields, with the checksum verified. *)
From Stdlib Require Import Strings.Byte.
From S2P Require Import Prelude.
From S2P Require Import Text.
From S2P Require Import Message.

Inductive ParseError : Set :=
  | NoTag | MaxTagSize | MalformedTag | MissingEqualSign | MissingValue | Failed_checksum | Missing_soh.

Record ParseErrorInfo : Set := mk_parse_error { pe_tag : Z; pe_code : ParseError }.

Definition MAX_TAG_SIZE : Z := 7.
Definition undefined_tag : Z := 0.

Definition parse_tag (str : bytes) : option Z :=
  let r := from_chars 32 str in
  if fc_complete str r then fc_value r else None.

(** The accumulation loop over the bytes before the checksum, in a [uint64_t]. *)
Definition byte_sum (l : bytes) : Z := fold_left (fun acc c => u64 (acc + bval c)) l 0.

(** The field loop, from [pos] on; the second result is the error that ended it. *)
Fixpoint parse_fields (fuel : nat) (msg_frame : bytes) (checksum_pos pos : Z) (out_msg : GenericMessage)
  : Res (GenericMessage * option ParseErrorInfo) :=
  match fuel with
  | O => Err OutOfFuel
  | S fuel' =>
      if pos <? checksum_pos then
        match find [x3d] msg_frame pos with
        | None => Ok (out_msg, Some (mk_parse_error undefined_tag MalformedTag))
        | Some equal_pos =>
            if MAX_TAG_SIZE <? equal_pos - pos then Ok (out_msg, Some (mk_parse_error undefined_tag MalformedTag))
            else
              match parse_tag (zsub pos (equal_pos - pos) msg_frame) with
              | None => Ok (out_msg, Some (mk_parse_error undefined_tag MalformedTag))
              | Some tag =>
                  let pos := equal_pos + 1 in
                  match find [SOH] msg_frame pos with
                  | None => Ok (out_msg, Some (mk_parse_error tag Missing_soh))
                  | Some soh_pos =>
                      let value := zsub pos (soh_pos - pos) msg_frame in
                      if zlen value =? 0 then Ok (out_msg, Some (mk_parse_error tag MissingValue))
                      else parse_fields fuel' msg_frame checksum_pos (soh_pos + 1)
                                        (out_msg ++ [mk_field tag value])
                  end
              end
        end
      else Ok (out_msg, None)
  end.

Definition checksum_error : GenericMessage * list ParseErrorInfo :=
  ([], [mk_parse_error 10 Failed_checksum]).

(** [parse] clears its output arguments, so they are results. *)
Definition parse (msg_frame : bytes) : Res (GenericMessage * list ParseErrorInfo) :=
  match rfind (B "10=") msg_frame with
  | None => Ok checksum_error
  | Some checksum_pos =>
      let checksum_str := ztake 3 (zdrop (checksum_pos + 3) msg_frame) in
      let r := from_chars 16 checksum_str in
      if negb (fc_complete checksum_str r) then Ok checksum_error
      else
        let computed_checksum := byte_sum (ztake checksum_pos msg_frame) mod 256 in
        if negb (computed_checksum =? fc_or 0 r) then Ok checksum_error
        else
          let! '(out_msg, e) := parse_fields (S (length msg_frame)) msg_frame checksum_pos 0 [] in
          match e with
          | Some err => Ok (out_msg, [err])
          | None => Ok (out_msg ++ [mk_field 10 checksum_str], [])
          end
  end.

(** ** What is accepted *)

Definition tag_text (t : bytes) : Prop := t <> [] /\ all_digits t /\ zlen t <= MAX_TAG_SIZE.
Definition value_text (v : bytes) : Prop := v <> [] /\ SOH ∉ v.

(** [fields_from cp pos s fs]: the text [s] at position [pos] begins with the fields [fs]
    written as tag, [=], value, SOH, up to the first field boundary at or after [cp]. *)
Inductive fields_from (cp : Z) : Z -> bytes -> GenericMessage -> Prop :=
  | fields_done pos s : cp <= pos -> fields_from cp pos s []
  | fields_cons pos t v s fs : pos < cp -> tag_text t -> value_text v ->
      fields_from cp (pos + zlen t + zlen v + 2) s fs ->
      fields_from cp pos (t ++ [x3d] ++ v ++ [SOH] ++ s) (mk_field (digits_val t) v :: fs).

(** The checksum text [ck] gives the sum of the bytes before it, modulo 256. *)
Definition checksum_ok (ck body : bytes) : Prop :=
  ck <> [] /\ all_digits ck /\ digits_val ck = byte_sum body mod 256.

(** A frame whose checksum is right and whose text reads as the fields before it. *)
Definition accepts (frame : bytes) (fs : GenericMessage) : Prop :=
  exists cp fs', rfind (B "10=") frame = Some cp /\
    let ck := ztake 3 (zdrop (cp + 3) frame) in
    checksum_ok ck (ztake cp frame) /\ fields_from cp 0 frame fs' /\ fs = fs' ++ [mk_field 10 ck].

(** The text does not begin with a tag of one to seven digits and [=]. *)
Definition no_tag (s : bytes) : Prop := forall t s', s = t ++ x3d :: s' -> ~ tag_text t.

(** [fails_from cp pos s fs e]: the text [s] at position [pos] begins with the fields [fs], and
    what follows them, before [cp], is no field, with the error [e]. *)
Inductive fails_from (cp : Z) : Z -> bytes -> GenericMessage -> ParseErrorInfo -> Prop :=
  | fails_tag pos s : pos < cp -> no_tag s -> fails_from cp pos s [] (mk_parse_error undefined_tag MalformedTag)
  | fails_soh pos t s : pos < cp -> tag_text t -> SOH ∉ s ->
      fails_from cp pos (t ++ x3d :: s) [] (mk_parse_error (digits_val t) Missing_soh)
  | fails_value pos t s : pos < cp -> tag_text t ->
      fails_from cp pos (t ++ x3d :: SOH :: s) [] (mk_parse_error (digits_val t) MissingValue)
  | fails_later pos t v s fs e : pos < cp -> tag_text t -> value_text v ->
      fails_from cp (pos + zlen t + zlen v + 2) s fs e ->
      fails_from cp pos (t ++ x3d :: v ++ SOH :: s) (mk_field (digits_val t) v :: fs) e.

(** The checksum is tested first; [10] is reported for it. *)
Definition rejects (frame : bytes) (fs : GenericMessage) (e : ParseErrorInfo) : Prop :=
  match rfind (B "10=") frame with
  | None => fs = [] /\ e = mk_parse_error 10 Failed_checksum
  | Some cp =>
      let good := checksum_ok (ztake 3 (zdrop (cp + 3) frame)) (ztake cp frame) in
      (~ good /\ fs = [] /\ e = mk_parse_error 10 Failed_checksum) \/ (good /\ fails_from cp 0 frame fs e)
  end.

Lemma digits_val_bound t k : all_digits t -> zlen t <= k -> 0 <= digits_val t < 10 ^ k.
Proof.
  intros Hd Hl. pose proof (digits_val_nonneg t Hd) as [? H]. split; [done|].
  eapply Z.lt_le_trans; [exact H|]. pose proof (zlen_nonneg t). apply Z.pow_le_mono_r; lia.
Qed.

Lemma parse_tag_some t n : zlen t <= MAX_TAG_SIZE -> parse_tag t = Some n <-> tag_text t /\ n = digits_val t.
Proof.
  intros Hl. unfold parse_tag, tag_text. destruct (fc_complete t (from_chars 32 t)) eqn:E.
  - split.
    + intros Hv. destruct (proj1 (from_chars_ok_iff 32 t n ltac:(lia)) (conj E Hv)) as (? & ? & <- & _). done.
    + intros [(Hne & Hd & _) ->]. apply (from_chars_ok_iff 32); [lia|]. split_and!; [done|done|done|].
      pose proof (digits_val_bound t _ Hd Hl). unfold MAX_TAG_SIZE in *. lia.
  - split; [done|]. intros [(Hne & Hd & _) ->].
    destruct (proj2 (from_chars_ok_iff 32 t (digits_val t) ltac:(lia))) as [E' _]; [|congruence].
    split_and!; [done|done|done|]. pose proof (digits_val_bound t _ Hd Hl). unfold MAX_TAG_SIZE in *. lia.
Qed.

Lemma equal_notin_digits t : all_digits t -> x3d ∉ t.
Proof. intros. by apply not_digit_notin. Qed.

Section FieldLoop.
Context (frame : bytes) (cp : Z).
Hypothesis Hcp : cp <= zlen frame.

(** The loop ends within the fuel: each turn moves [pos] forward. *)
Lemma parse_fields_total fuel pos out : 0 <= pos -> (0 < fuel)%nat -> cp - pos < Z.of_nat fuel ->
  exists r, parse_fields fuel frame cp pos out = Ok r.
Proof using Hcp.
  revert pos out. induction fuel as [|fuel IH]; intros pos out Hp H0 Hf; cbn [parse_fields].
  - lia.
  - destruct (Z.ltb_spec pos cp); [|eauto].
    destruct (find [x3d] frame pos) as [e|] eqn:Ee; [|eauto]. apply find_Some in Ee as (He & _); [|lia].
    case_match; [eauto|]. case_match; [|eauto].
    destruct (find [SOH] frame (e + 1)) as [q|] eqn:Eq; [|eauto].
    apply find_Some in Eq as (Hq & _); [|lia]. case_match; [eauto|]. apply IH; lia.
Qed.

Lemma parse_fields_out fuel pos out r e : parse_fields fuel frame cp pos out = Ok (r, e) ->
  exists fs, r = out ++ fs.
Proof using.
  revert pos out. induction fuel as [|fuel IH]; intros pos out; cbn [parse_fields]; [done|].
  repeat case_match; try (intros [= <- _]; exists []; by rewrite app_nil_r).
  intros (fs & ->)%IH. rewrite <- app_assoc. eauto.
Qed.

Lemma parse_fields_step fuel pre t v s out : zlen pre < cp -> tag_text t -> value_text v ->
  frame = pre ++ t ++ [x3d] ++ v ++ [SOH] ++ s ->
  parse_fields (S fuel) frame cp (zlen pre) out =
  parse_fields fuel frame cp (zlen pre + zlen t + zlen v + 2) (out ++ [mk_field (digits_val t) v]).
Proof using.
  intros Hp Ht Hv E. destruct (Ht) as (_ & Hd & Hl). destruct (Hv) as [Hne Hs].
  assert (F1 : find [x3d] frame (zlen pre) = Some (zlen pre + zlen t)).
  { rewrite E. apply find_char_app. by apply equal_notin_digits. }
  assert (Z1 : zsub (zlen pre) (zlen pre + zlen t - zlen pre) frame = t).
  { replace (zlen pre + zlen t - zlen pre) with (zlen t) by lia. rewrite E. apply zsub_mid. }
  assert (E2 : frame = (pre ++ t ++ [x3d]) ++ v ++ SOH :: s) by (rewrite E, <- !app_assoc; done).
  assert (H2 : zlen pre + zlen t + 1 = zlen (pre ++ t ++ [x3d])) by (rewrite !zlen_app; change (zlen [_]) with 1; lia).
  set (p2 := pre ++ t ++ [x3d]) in *.
  assert (F2 : find [SOH] frame (zlen p2) = Some (zlen p2 + zlen v)) by (rewrite E2; by apply find_char_app).
  assert (Z2 : zsub (zlen p2) (zlen p2 + zlen v - zlen p2) frame = v).
  { replace (zlen p2 + zlen v - zlen p2) with (zlen v) by lia. rewrite E2. apply zsub_mid. }
  cbn [parse_fields]. rewrite (proj2 (Z.ltb_lt _ _)), F1 by done.
  rewrite (proj2 (Z.ltb_ge MAX_TAG_SIZE _)) by lia. rewrite Z1.
  rewrite (proj2 (parse_tag_some t (digits_val t) Hl)) by done. cbv zeta. rewrite H2, F2, Z2.
  destruct (Z.eqb_spec (zlen v) 0) as [H0|_].
  - destruct v; [done|]. rewrite zlen_cons in H0. pose proof (zlen_nonneg v). lia.
  - f_equal. lia.
Qed.

(** Once the tag is read. *)
Lemma parse_fields_tag fuel pre t n s out : frame = pre ++ t ++ x3d :: s -> zlen pre < cp -> x3d ∉ t -> zlen t <= MAX_TAG_SIZE ->
  parse_tag t = Some n ->
  parse_fields (S fuel) frame cp (zlen pre) out =
    match find [SOH] frame (zlen pre + zlen t + 1) with
    | None => Ok (out, Some (mk_parse_error n Missing_soh))
    | Some q => let v := zsub (zlen pre + zlen t + 1) (q - (zlen pre + zlen t + 1)) frame in
        if zlen v =? 0 then Ok (out, Some (mk_parse_error n MissingValue))
        else parse_fields fuel frame cp (q + 1) (out ++ [mk_field n v])
    end.
Proof using.
  intros E Hp Ht Hl En. assert (Ef : find [x3d] frame (zlen pre) = Some (zlen pre + zlen t)) by (rewrite E; by apply find_char_app).
  assert (Ez : zsub (zlen pre) (zlen pre + zlen t - zlen pre) frame = t).
  { replace (zlen pre + zlen t - zlen pre) with (zlen t) by lia. rewrite E. apply zsub_mid. }
  cbn [parse_fields]. rewrite (proj2 (Z.ltb_lt (zlen pre) cp)), Ef by done.
  rewrite (proj2 (Z.ltb_ge MAX_TAG_SIZE _)) by lia. by rewrite Ez, En.
Qed.

(** One turn of the loop. *)
Lemma parse_fields_cases fuel pre s out : frame = pre ++ s -> zlen pre < cp ->
  let turn := parse_fields (S fuel) frame cp (zlen pre) out in
  (no_tag s /\ turn = Ok (out, Some (mk_parse_error undefined_tag MalformedTag))) \/
  exists t s1, s = t ++ x3d :: s1 /\ tag_text t /\
    (((SOH ∉ s1) /\ turn = Ok (out, Some (mk_parse_error (digits_val t) Missing_soh))) \/
     (exists s2, s1 = SOH :: s2 /\ turn = Ok (out, Some (mk_parse_error (digits_val t) MissingValue))) \/
     (exists v s2, s1 = v ++ SOH :: s2 /\ value_text v /\ zlen pre + zlen t + zlen v + 2 = zlen (pre ++ t ++ [x3d] ++ v ++ [SOH]) /\
        turn = parse_fields fuel frame cp (zlen pre + zlen t + zlen v + 2) (out ++ [mk_field (digits_val t) v]))).
Proof using.
  intros E Hp turn. destruct (find [x3d] frame (zlen pre)) as [e|] eqn:Ee.
  2:{ left. split; [|unfold turn; cbn [parse_fields]; by rewrite (proj2 (Z.ltb_lt _ _)), Ee by done].
      rewrite E in Ee. apply find_char_absent in Ee. intros t s' -> _. apply Ee, elem_of_app. right. left. }
  pose proof Ee as Es. rewrite E in Es. apply find_char_split in Es as (t & s1 & -> & Ht & ->).
  assert (Ez : zsub (zlen pre) (zlen pre + zlen t - zlen pre) frame = t).
  { replace (zlen pre + zlen t - zlen pre) with (zlen t) by lia. rewrite E. apply zsub_mid. }
  assert (Hno : ~ tag_text t -> no_tag (t ++ x3d :: s1)).
  { intros Hn t' s' Et Ht'. pose proof (equal_notin_digits t' (proj1 (proj2 Ht'))) as Hx. apply app_cons_unique in Et as [-> _]; done. }
  assert (Hmal : ~ tag_text t -> turn = Ok (out, Some (mk_parse_error undefined_tag MalformedTag))).
  { intros Hn. unfold turn. cbn [parse_fields]. rewrite (proj2 (Z.ltb_lt (zlen pre) cp)), Ee by done.
    destruct (Z.ltb_spec MAX_TAG_SIZE (zlen pre + zlen t - zlen pre)); [done|]. rewrite Ez.
    destruct (parse_tag t) as [n|] eqn:En; [|done]. apply parse_tag_some in En as [? _]; [done|lia]. }
  destruct (decide (zlen t <= MAX_TAG_SIZE)) as [Hl|Hl]; [|left; assert (~ tag_text t) by (intros (_ & _ & ?); lia); auto].
  destruct (parse_tag t) as [n|] eqn:En; [|left; assert (~ tag_text t) by (intros Htt; by rewrite (proj2 (parse_tag_some t _ Hl) (conj Htt eq_refl)) in En); auto].
  pose proof (parse_fields_tag fuel pre t n s1 out E Hp Ht Hl En) as Hstep. apply parse_tag_some in En as [Htt ->]; [|done].
  right. exists t, s1. split; [done|]. split; [done|]. fold turn in Hstep.
  assert (E2 : frame = (pre ++ t ++ [x3d]) ++ s1) by (rewrite E, <- !app_assoc; done).
  assert (H2 : zlen pre + zlen t + 1 = zlen (pre ++ t ++ [x3d])) by (rewrite !zlen_app; change (zlen [_]) with 1; lia).
  destruct (find [SOH] frame (zlen pre + zlen t + 1)) as [q|] eqn:Eq; rewrite H2, E2 in Eq.
  2:{ left. split; [by apply find_char_absent in Eq|exact Hstep]. }
  apply find_char_split in Eq as (v & s2 & -> & Hv & ->). right. rewrite H2 in Hstep. cbv zeta in Hstep.
  replace (zlen (pre ++ t ++ [x3d]) + zlen v - zlen (pre ++ t ++ [x3d])) with (zlen v) in Hstep by lia.
  assert (Ev : zsub (zlen (pre ++ t ++ [x3d])) (zlen v) frame = v) by (rewrite E2; apply zsub_mid). rewrite Ev in Hstep.
  destruct v as [|c v]; [left; by exists s2|right; exists (c :: v), s2].
  assert (H3 : zlen pre + zlen t + zlen (c :: v) + 2 = zlen (pre ++ t ++ [x3d] ++ (c :: v) ++ [SOH])) by (rewrite !zlen_app; change (zlen [_]) with 1; lia).
  rewrite (proj2 (Z.eqb_neq _ 0)) in Hstep by (rewrite zlen_cons; zlia). split_and!; [done|done|exact H3|]. rewrite Hstep. f_equal. rewrite <- H2. lia.
Qed.

(** The loop reads fields up to [cp], or up to an error. *)
Definition fields_result (pos : Z) (s : bytes) (fs : GenericMessage) (e : option ParseErrorInfo) : Prop :=
  match e with None => fields_from cp pos s fs | Some e => fails_from cp pos s fs e end.

Lemma parse_fields_ok fuel pre s out r e : frame = pre ++ s ->
  parse_fields fuel frame cp (zlen pre) out = Ok (r, e) ->
  exists fs, r = out ++ fs /\ fields_result (zlen pre) s fs e.
Proof using Hcp.
  revert pre s out. induction fuel as [|fuel IH]; intros pre s out E; [done|].
  destruct (Z.ltb_spec (zlen pre) cp) as [Hp|Hp].
  2:{ cbn [parse_fields]. rewrite (proj2 (Z.ltb_ge _ _)) by done. intros [= <- <-]. exists []. rewrite app_nil_r. split; [done|by constructor]. }
  destruct (parse_fields_cases fuel pre s out E Hp) as [(Hn & ->)|(t & s1 & -> & Ht & [(Hs & ->)|[(s2 & -> & ->)|(v & s2 & -> & Hv & H3 & ->)]])].
  1-3: intros [= <- <-]; exists []; rewrite app_nil_r; split; [done|by constructor].
  rewrite H3. intros Er. apply (IH _ s2) in Er as (fs & -> & F); [|by rewrite E, <- !app_assoc].
  exists (mk_field (digits_val t) v :: fs). split; [by rewrite <- app_assoc|].
  rewrite <- H3 in F. destruct e; [by apply fails_later|]. cbn [fields_result] in *.
  change (x3d :: v ++ SOH :: s2) with ([x3d] ++ v ++ [SOH] ++ s2). by constructor.
Qed.

Lemma tag_step t t' s s' : tag_text t -> tag_text t' -> t ++ x3d :: s = t' ++ x3d :: s' -> t = t' /\ s = s'.
Proof using. intros (_ & H & _) (_ & H' & _) E. apply app_cons_unique in E; [done|by apply equal_notin_digits..]. Qed.

Lemma parse_fields_fails fuel pre s out fs e : frame = pre ++ s -> (0 < fuel)%nat -> cp - zlen pre < Z.of_nat fuel ->
  fails_from cp (zlen pre) s fs e -> parse_fields fuel frame cp (zlen pre) out = Ok (out ++ fs, Some e).
Proof using Hcp.
  revert pre s out fs. induction fuel as [|fuel IH]; intros pre s out fs E H0 Hf F; [lia|].
  assert (Hp : zlen pre < cp) by (by destruct F).
  destruct (parse_fields_cases fuel pre s out E Hp) as [(Hn & ->)|(t & s1 & -> & Ht & Hc)].
  { inversion F; subst; [by rewrite app_nil_r|..]; exfalso; by eapply Hn. }
  inversion F as [? ? _ Hn|? t' s' _ Ht' Hs|? t' s' _ Ht'|? t' v' s' fs' ? _ Ht' Hv' F']; subst; [by destruct (Hn _ _ eq_refl)|..];
    match goal with H : _ ++ x3d :: _ = _ ++ x3d :: _ |- _ => apply tag_step in H as [-> <-]; [|done|done] end.
  - destruct Hc as [(_ & ->)|[(s2 & -> & _)|(v & s2 & -> & _)]]; [by rewrite app_nil_r|..]; destruct Hs; [left|apply elem_of_app; right; left].
  - destruct Hc as [(Hs & _)|[(s2 & _ & ->)|(v & s2 & Ev & [Hne Hv] & _)]]; [destruct Hs; left|by rewrite app_nil_r|].
    destruct v as [|c v]; [done|]. assert (c = SOH) as -> by (cbn in Ev; congruence). destruct Hv. left.
  - destruct Hv' as [Hne Hv']. destruct Hc as [(Hs & _)|[(s2 & Ev & _)|(v & s2 & Ev & [_ Hv] & H3 & ->)]].
    + destruct Hs. apply elem_of_app. right. left.
    + destruct v' as [|c v']; [done|]. injection Ev as -> _. destruct Hv'. left.
    + apply app_cons_unique in Ev as [-> ->]; [|done|done]. rewrite H3. rewrite H3 in F'.
      rewrite (IH _ s2 _ fs'); [by rewrite <- app_assoc|by rewrite <- !app_assoc|pose proof (zlen_nonneg t); pose proof (zlen_nonneg v); lia..|exact F'].
Qed.

Lemma parse_fields_complete fuel pre s out fs : frame = pre ++ s -> (0 < fuel)%nat ->
  cp - zlen pre < Z.of_nat fuel -> fields_from cp (zlen pre) s fs ->
  parse_fields fuel frame cp (zlen pre) out = Ok (out ++ fs, None).
Proof using Hcp.
  revert pre s out fs. induction fuel as [|fuel IH]; intros pre s out fs E H0 Hf F; [lia|].
  revert E. inversion F as [? ? Hp|? t v s' fs' Hp Ht Hv F']; subst; intros E.
  - cbn [parse_fields]. rewrite (proj2 (Z.ltb_ge _ _)) by done. by rewrite app_nil_r.
  - rewrite (parse_fields_step fuel pre t v s' out) by done.
    pose proof (zlen_nonneg t). pose proof (zlen_nonneg v).
    assert (H3 : zlen pre + zlen t + zlen v + 2 = zlen (pre ++ t ++ [x3d] ++ v ++ [SOH])).
    { rewrite !zlen_app. change (zlen [_]) with 1. lia. }
    rewrite H3. erewrite IH; [| |lia|lia|by rewrite <- H3].
    + by rewrite <- app_assoc.
    + by rewrite <- !app_assoc.
Qed.
End FieldLoop.

(** ** Theorems *)

Lemma checksum_test ck body : zlen ck <= 3 ->
  (fc_complete ck (from_chars 16 ck) = true /\ (byte_sum body mod 256 =? fc_or 0 (from_chars 16 ck)) = true)
  <-> checksum_ok ck body.
Proof.
  intros Hl. unfold checksum_ok. split.
  - intros [E1 E2%Z.eqb_eq]. destruct (fc_value (from_chars 16 ck)) as [n|] eqn:En.
    + destruct (proj1 (from_chars_ok_iff 16 ck n ltac:(lia)) (conj E1 En)) as (? & ? & <- & _).
      unfold fc_or in E2. by rewrite En in E2.
    + unfold fc_complete, from_chars in E1, En. repeat case_match; done.
  - intros (Hne & Hd & Hs). pose proof (digits_val_bound ck 3 Hd Hl).
    destruct (proj2 (from_chars_ok_iff 16 ck (digits_val ck) ltac:(lia))) as [-> Ev].
    { split_and!; [done|done|done|lia]. }
    unfold fc_or. rewrite Ev. split; [done|]. by apply Z.eqb_eq.
Qed.

Lemma rfind_bound frame cp : rfind (B "10=") frame = Some cp -> 0 <= cp /\ cp + 3 <= zlen frame.
Proof.
  intros (Hc & Ho & _)%rfind_Some. apply occurs_bound in Ho; [|done]. split; [lia|done].
Qed.

(** The checksum of a frame and the text after its last [10=]. *)
Definition checksum_str (cp : Z) (frame : bytes) : bytes := ztake 3 (zdrop (cp + 3) frame).

Lemma checksum_str_length cp frame : zlen (checksum_str cp frame) <= 3.
Proof. unfold checksum_str, ztake, zlen. rewrite length_take. lia. Qed.

Lemma parse_complete frame fs : accepts frame fs -> parse frame = Ok (fs, []).
Proof.
  intros (cp & fs' & Er & Hck & F & ->). cbv zeta in *. pose proof (rfind_bound _ _ Er) as [Hc0 Hc].
  unfold parse. rewrite Er. cbv zeta. fold (checksum_str cp frame) in *.
  destruct (proj2 (checksum_test _ _ (checksum_str_length cp frame)) Hck) as [-> ->]. cbn [negb].
  pose proof (parse_fields_complete frame cp ltac:(lia) (S (length frame)) [] frame [] fs' eq_refl) as P.
  change (zlen []) with 0 in P. rewrite P; [done|lia|unfold zlen in *; lia|done].
Qed.

Lemma parse_sound frame fs : parse frame = Ok (fs, []) -> accepts frame fs.
Proof.
  unfold parse, accepts. destruct (rfind (B "10=") frame) as [cp|] eqn:Er; [|done].
  pose proof (rfind_bound _ _ Er) as [Hc0 Hc]. cbv zeta. fold (checksum_str cp frame).
  destruct (fc_complete _ _) eqn:E1; cbn [negb]; [|done].
  destruct (_ =? _) eqn:E2; cbn [negb]; [|done].
  intros ([out e] & Ef & Eo)%bind_ok. destruct e as [err|]; [done|]. injection Eo as <-.
  destruct (parse_fields_ok frame cp ltac:(lia) _ [] frame [] out None eq_refl Ef) as (fs' & -> & F).
  exists cp, fs'. split_and!; [done| |done|done]. apply checksum_test; [apply checksum_str_length|done].
Qed.

(** C21: the parser accepts a frame, with the fields [fs], exactly when the text after the last
    [10=] is up to three digits that give the sum of the bytes before it modulo 256, and the
    frame, read from its start, is a sequence of fields (a decimal tag of one to seven digits,
    [=], a non-empty value, the separator) up to the first field boundary at or after that [10=];
    [fs] is those fields, in order, and the checksum field.  The last of them may contain that
    [10=] in its value, and what follows the three digits is not looked at. *)
Theorem parse_accepts frame fs : parse frame = Ok (fs, []) <-> accepts frame fs.
Proof. split; [apply parse_sound|apply parse_complete]. Qed.

(** The checksum found inside a value: this text has no checksum field. *)
Example parse_accepts_inside : parse (B "58=x10=034" ++ [SOH]) = Ok ([mk_field 58 (B "x10=034"); mk_field 10 (B "034")], []).
Proof. by vm_compute. Qed.

(** The parser returns on every input, and reports at most one error. *)
Lemma parse_total frame : exists fs errs, parse frame = Ok (fs, errs) /\ zlen errs <= 1.
Proof.
  unfold parse. destruct (rfind (B "10=") frame) as [cp|] eqn:Er; [|by eexists _, _].
  pose proof (rfind_bound _ _ Er) as [Hc0 Hc].
  case_match; [by eexists _, _|]. case_match; [by eexists _, _|].
  destruct (parse_fields_total frame cp ltac:(lia) (S (length frame)) 0 []) as [[out [e|]] ->];
    [lia|lia|unfold zlen in *; lia|by eexists _, _..].
Qed.

Lemma rejects_sound frame fs e : parse frame = Ok (fs, [e]) -> rejects frame fs e.
Proof.
  unfold parse, rejects. destruct (rfind (B "10=") frame) as [cp|] eqn:Er; [|by intros [= <- <-]].
  pose proof (rfind_bound _ _ Er) as [Hc0 Hc]. cbv zeta. fold (checksum_str cp frame).
  pose proof (checksum_test _ (ztake cp frame) (checksum_str_length cp frame)) as Hck.
  destruct (fc_complete _ _) eqn:E1; cbn [negb]; [|intros [= <- <-]; left; split; [intros [? _]%Hck|]; done].
  destruct (_ =? _) eqn:E2; cbn [negb]; [|intros [= <- <-]; left; split; [intros [_ ?]%Hck|]; done].
  intros ([out e'] & Ef & Eo)%bind_ok. destruct e' as [err|]; [|done]. injection Eo as -> ->. right. split; [by apply Hck|].
  destruct (parse_fields_ok frame cp ltac:(lia) _ [] frame [] _ _ eq_refl Ef) as (fs' & -> & F). exact F.
Qed.

Lemma rejects_complete frame fs e : rejects frame fs e -> parse frame = Ok (fs, [e]).
Proof.
  unfold parse, rejects. destruct (rfind (B "10=") frame) as [cp|] eqn:Er; [|by intros [-> ->]].
  pose proof (rfind_bound _ _ Er) as [Hc0 Hc]. cbv zeta. fold (checksum_str cp frame).
  pose proof (checksum_test _ (ztake cp frame) (checksum_str_length cp frame)) as Hck.
  intros [(Hn & -> & ->)|(Hg & F)].
  - destruct (fc_complete _ _); cbn [negb]; [|done]. destruct (_ =? _); cbn [negb]; [|done]. destruct Hn. by apply Hck.
  - destruct (proj2 Hck Hg) as [-> ->]. cbn [negb].
    pose proof (parse_fields_fails frame cp ltac:(lia) (S (length frame)) [] frame [] fs e eq_refl) as P.
    change (zlen []) with 0 in P. rewrite P; [done|lia|unfold zlen in *; lia|done].
Qed.

(** C39: what the parser reports.  Every frame is accepted or rejected with one error, and it is
    rejected with the fields [fs] and the error [e] exactly when: the text after the last [10=]
    does not give the checksum (or there is none), no field is returned and the error is that of
    the checksum; or else [fs] are the fields that are read before the first place, ahead of that
    [10=], where a field does not begin with a tag of one to seven digits and [=] (a malformed
    tag), has no separator, or has an empty value (both with its tag).  The codes [NoTag],
    [MaxTagSize] and [MissingEqualSign] are never reported. *)
Theorem parse_rejects frame : (forall fs e, parse frame = Ok (fs, [e]) <-> rejects frame fs e) /\
  ((exists fs, accepts frame fs) \/ exists fs e, rejects frame fs e).
Proof.
  split; [intros fs e; split; [apply rejects_sound|apply rejects_complete]|].
  destruct (parse_total frame) as (fs & errs & E & Hl). destruct errs as [|e [|e' errs]].
  - left. exists fs. by apply parse_sound.
  - right. exists fs, e. by apply rejects_sound.
  - rewrite !zlen_cons in Hl. pose proof (zlen_nonneg errs). lia.
Qed.

(** ** Round trip *)

(** [add_field]: a field on the wire. *)
Definition field_wire (f : GenericField) : bytes := to_dec (tag f) ++ [x3d] ++ value f ++ [SOH].
Definition fields_wire (fs : GenericMessage) : bytes := concat (field_wire <$> fs).

(** Fields that have a wire form: a tag of at most seven digits, a non-empty value without
    the separator. *)
Definition field_ok (f : GenericField) : Prop := 0 <= tag f < 10 ^ 7 /\ value_text (value f).

(** Three digits, zero-padded. *)
Definition checksum_text (n : Z) : bytes :=
  (if zlen (to_dec n) <? 3 then replicate (Z.to_nat (3 - zlen (to_dec n))) x30 else []) ++ to_dec n.

Lemma checksum_text_spec n : 0 <= n < 1000 ->
  all_digits (checksum_text n) /\ zlen (checksum_text n) = 3 /\ digits_val (checksum_text n) = n.
Proof.
  intros Hn. assert (H20 : 0 <= n < 10 ^ 20) by lia.
  pose proof (to_dec_digits n H20) as Hd. pose proof (to_dec_length n H20 3 ltac:(lia) ltac:(lia)) as Hl.
  assert (Hz : forall k t, digits_val (replicate k x30 ++ t) = digits_val t).
  { intros k t. induction k as [|k IH]; cbn [replicate app]; [done|].
    rewrite digits_val_cons, IH. change (bval x30) with 48. lia. }
  unfold checksum_text. split_and!.
  - apply Forall_app. split; [|done]. case_match; [by apply Forall_replicate|constructor].
  - rewrite zlen_app. case_Z; [rewrite zlen_replicate; lia|change (zlen []) with 0; lia].
  - case_match; [rewrite Hz|cbn [app]]; by apply to_dec_val.
Qed.

Lemma field_wire_length f : zlen (field_wire f) = zlen (to_dec (tag f)) + zlen (value f) + 2.
Proof. unfold field_wire. rewrite !zlen_app. change (zlen [_]) with 1. lia. Qed.

Lemma fields_wire_cons f fs : fields_wire (f :: fs) = field_wire f ++ fields_wire fs.
Proof. done. Qed.

Lemma fields_wire_from cp pos fs t : Forall field_ok fs -> cp = pos + zlen (fields_wire fs) ->
  fields_from cp pos (fields_wire fs ++ t) fs.
Proof.
  intros Hf. revert pos. induction Hf as [|f fs [Ht Hv] _ IH]; intros pos Ecp.
  - constructor. change (zlen (fields_wire [])) with 0 in Ecp. lia.
  - assert (H20 : 0 <= tag f < 10 ^ 20) by lia. pose proof (to_dec_length _ H20 7 ltac:(lia) ltac:(lia)).
    rewrite fields_wire_cons, zlen_app, field_wire_length in Ecp. rewrite fields_wire_cons.
    unfold field_wire. destruct f as [n v]; cbn [tag value] in *. rewrite <- !app_assoc.
    pose proof (zlen_nonneg v). pose proof (zlen_nonneg (fields_wire fs)).
    replace (mk_field n v) with (mk_field (digits_val (to_dec n)) v) by (by rewrite to_dec_val).
    apply fields_cons.
    + lia.
    + split_and!; [by apply to_dec_nonempty|by apply to_dec_digits|unfold MAX_TAG_SIZE; lia].
    + done.
    + apply IH. lia.
Qed.

Lemma rfind_checksum body ck : all_digits ck -> 
  rfind (B "10=") (body ++ B "10=" ++ ck ++ [SOH]) = Some (zlen body).
Proof.
  intros Hd. assert (Hall : Forall (fun c => c <> x3d) (ck ++ [SOH])).
  { apply Forall_app. split; [|by repeat constructor]. eapply Forall_impl; [exact Hd|].
    intros c Hc ->. done. }
  apply rfind_intro; [rewrite zlen_app; zlia|apply occurs_app_intro|].
  intros k Hk Ho. apply occurs_split in Ho as (pre & t & E & <-); [|zlia].
  replace (body ++ B "10=" ++ ck ++ [SOH]) with ((body ++ B "10=") ++ ck ++ [SOH]) in E by (by rewrite <- app_assoc).
  assert (Hlen : zlen (body ++ B "10=") <= zlen (pre ++ B "10")).
  { rewrite !zlen_app. change (zlen (B "10=")) with 3. change (zlen (B "10")) with 2. lia. }
  replace (pre ++ B "10=" ++ t) with ((pre ++ B "10") ++ x3d :: t) in E by (by rewrite <- app_assoc).
  apply app_eq_split in E as (k & _ & E); [|done].
  rewrite E, Forall_app, Forall_cons in Hall. by destruct Hall as (_ & Hx & _).
Qed.

(** Reading back fields and their checksum. *)
Lemma parse_wire fs : Forall field_ok fs ->
  let body := fields_wire fs in
  let ck := checksum_text (byte_sum body mod 256) in
  parse (body ++ B "10=" ++ ck ++ [SOH]) = Ok (fs ++ [mk_field 10 ck], []).
Proof.
  intros Hf body ck. pose proof (Z.mod_pos_bound (byte_sum body) 256 ltac:(lia)).
  destruct (checksum_text_spec (byte_sum body mod 256) ltac:(lia)) as (Hd & Hl & Hv).
  apply parse_complete. exists (zlen body), fs.
  assert (Eck : ztake 3 (zdrop (zlen body + 3) (body ++ B "10=" ++ ck ++ [SOH])) = ck).
  { rewrite app_assoc. replace (zlen body + 3) with (zlen (body ++ B "10=")) by (rewrite zlen_app; done).
    rewrite zdrop_app_exact, ztake_app_l by (fold ck in Hl; lia). apply ztake_all. fold ck in Hl. lia. }
  cbv zeta. rewrite Eck, ztake_app_exact. split_and!; [by apply rfind_checksum| |by apply fields_wire_from|done].
  split_and!; [|done|done]. fold ck in Hl. intros E. rewrite E in Hl. done.
Qed.

Lemma fields_from_ok cp pos s fs : fields_from cp pos s fs -> Forall field_ok fs.
Proof.
  induction 1 as [|pos t v s fs _ (_ & Hd & Hl) Hv _ IH]; constructor; [|done].
  split; [|done]. cbn [tag]. by apply digits_val_bound.
Qed.

(** Parsing and printing agree: when a frame is accepted, printing the fields that were
    read (with the checksum of the printed text) gives a frame that is accepted with the
    same fields. *)
Lemma parse_print_parse frame fs last : parse frame = Ok (fs ++ [last], []) ->
  let body := fields_wire fs in
  let ck := checksum_text (byte_sum body mod 256) in
  parse (body ++ B "10=" ++ ck ++ [SOH]) = Ok (fs ++ [mk_field 10 ck], []).
Proof.
  intros (cp & fs' & _ & _ & F & E)%parse_sound. apply app_inj_tail in E as [-> _].
  apply parse_wire. by eapply fields_from_ok.
Qed.

Definition demo_frame : bytes := B "8=X" ++ [SOH] ++ B "035=0" ++ [SOH] ++ B "10=212" ++ [SOH].

Example parse_print_parse_witness :
  let fs := [mk_field 8 (B "X"); mk_field 35 (B "0")] in
  let body := fields_wire fs in
  let ck := checksum_text (byte_sum body mod 256) in
  parse (body ++ B "10=" ++ ck ++ [SOH]) = Ok (fs ++ [mk_field 10 ck], []).
Proof.
  apply (parse_print_parse demo_frame [mk_field 8 (B "X"); mk_field 35 (B "0")] (mk_field 10 (B "212"))).
  by vm_compute.
Defined.
