(* ===== verification/Schema.v ===== *)
(** Message schemas (include/fix/schema/*.hpp, include/fix/message/*.hpp and admin/*.hpp):
    the value formats, the schemas of the header, the trailer and the message bodies, and
    the registry with its binary search. *)
From Stdlib Require Import Strings.Byte Sorting.Sorted.
From S2P Require Import Prelude.
From S2P Require Import Text.

Inductive FieldType : Set := INT | STRING | BOOLEAN | FLOAT | DOUBLE | CHAR | GROUP.
Inductive FieldPresence : Set := REQUIRED | OPTIONAL | CONDITIONAL.

#[export] Instance field_type_eq_dec : EqDecision FieldType.
Proof. solve_decision. Defined.
#[export] Instance field_presence_eq_dec : EqDecision FieldPresence.
Proof. solve_decision. Defined.

(** A [GroupSchema] is its array of fields; [None] is the null [group_schema]. *)
Inductive FieldSchema : Set :=
  mk_schema (fs_tag : Z) (fs_type : FieldType) (fs_presence : FieldPresence)
            (group_schema : option (list FieldSchema)).

Definition fs_tag (f : FieldSchema) : Z := let 'mk_schema t _ _ _ := f in t.
Definition fs_type (f : FieldSchema) : FieldType := let 'mk_schema _ t _ _ := f in t.
Definition fs_presence (f : FieldSchema) : FieldPresence := let 'mk_schema _ _ p _ := f in p.
Definition group_schema (f : FieldSchema) : option (list FieldSchema) := let 'mk_schema _ _ _ g := f in g.

(** ** Value formats *)

Definition is_sign (c : byte) : bool := Byte.eqb c x2b || Byte.eqb c x2d.

(** [first_num_idx]: past a sign. *)
Definition first_num_idx (sv : bytes) : Z :=
  match sv with c :: _ => if is_sign c then 1 else 0 | [] => 0 end.

Fixpoint double_loop (singledot : bool) (s : bytes) : bool :=
  match s with
  | [] => true
  | c :: s' =>
      if Byte.eqb c x2e && negb singledot then double_loop true s'
      else if isdigit c then double_loop singledot s' else false
  end.

(** A lone sign makes the code read [sv[1]], past the end. *)
Definition is_double_type (sv : bytes) : Res bool :=
  match sv with
  | [] => Ok false
  | _ =>
      match znth sv (first_num_idx sv) with
      | None => Err OutOfBounds
      | Some c => if isdigit c then Ok (double_loop false (zdrop (first_num_idx sv + 1) sv)) else Ok false
      end
  end.

Definition is_boolean_type (sv : bytes) : bool := bool_decide (sv = B "Y") || bool_decide (sv = B "N").
Definition is_char_type (sv : bytes) : bool := zlen sv =? 1.
Definition is_int_type (sv : bytes) : bool :=
  match sv with
  | [] => false
  | _ => if zlen sv <=? first_num_idx sv then false else forallb isdigit (zdrop (first_num_idx sv) sv)
  end.

(** ** Schemas *)

Definition req t ty := mk_schema t ty REQUIRED None.
Definition opt t ty := mk_schema t ty OPTIONAL None.

Definition Group627Schema : list FieldSchema := [opt 628 STRING; opt 629 STRING; opt 630 INT].

Definition StandardHeaderSchema : list FieldSchema :=
  [req 8 STRING; req 9 INT; req 35 STRING; req 49 STRING; req 56 STRING; req 34 INT; req 52 STRING;
   opt 115 STRING; opt 128 STRING;
   opt 90 INT; opt 91 STRING;
   opt 50 STRING; opt 142 STRING;
   opt 57 STRING; opt 143 STRING;
   opt 116 STRING; opt 144 STRING;
   opt 129 STRING; opt 145 STRING;
   opt 43 STRING; opt 97 BOOLEAN;
   opt 122 STRING;
   opt 212 INT; opt 213 STRING;
   opt 347 STRING; opt 369 INT;
   mk_schema 627 GROUP OPTIONAL (Some Group627Schema)].

Definition TrailerSchema : list FieldSchema := [req 10 INT; opt 83 STRING; opt 93 INT].

Definition Group384Schema : list FieldSchema := [req 372 STRING; req 385 CHAR].

Definition LogonSchema : list FieldSchema :=
  [req 98 INT; req 108 INT; opt 141 BOOLEAN; opt 95 INT; opt 96 STRING; opt 553 STRING; opt 554 STRING;
   opt 789 INT; opt 383 INT; mk_schema 384 GROUP OPTIONAL (Some Group384Schema); opt 464 BOOLEAN].
Definition HeartbeatSchema : list FieldSchema := [opt 112 STRING].
Definition TestRequestSchema : list FieldSchema := [req 112 STRING].
Definition SequenceResetSchema : list FieldSchema := [req 36 INT; opt 123 BOOLEAN].
Definition LogoutSchema : list FieldSchema := [opt 58 STRING; opt 354 INT; opt 355 STRING].
Definition ResendRequestSchema : list FieldSchema := [req 7 INT; req 16 INT].
Definition RejectSchema : list FieldSchema :=
  [req 45 INT; opt 371 INT; opt 372 STRING; opt 373 INT; opt 58 STRING; opt 354 INT; opt 355 STRING].
Definition CustomSchema : list FieldSchema := [req 9250 STRING].

Record MessageSchema : Set := mk_message_schema { msg_type : bytes; body : list FieldSchema }.

#[export] Instance message_schema_inhabited : Inhabited MessageSchema := populate (mk_message_schema [] []).

(** [Registry::message_schemas]. *)
Definition message_schemas : list MessageSchema :=
  [mk_message_schema (B "A") LogonSchema; mk_message_schema (B "0") HeartbeatSchema;
   mk_message_schema (B "1") TestRequestSchema; mk_message_schema (B "4") SequenceResetSchema;
   mk_message_schema (B "5") LogoutSchema; mk_message_schema (B "2") ResendRequestSchema;
   mk_message_schema (B "3") RejectSchema; mk_message_schema (B "cu") CustomSchema].

(** [operator<] of [std::string_view]: lexicographic on unsigned characters. *)
Fixpoint bytes_ltb (a b : bytes) : bool :=
  match a, b with
  | _, [] => false
  | [], _ :: _ => true
  | x :: a', y :: b' => if bval x <? bval y then true else if bval y <? bval x then false else bytes_ltb a' b'
  end.

(** [std::sort] of the indices by message type; the keys are distinct, so the result does not
    depend on the algorithm. *)
Section Registry.
Context (arr : list MessageSchema).

Definition key (i : nat) : bytes := msg_type (nth i arr inhabitant).

Fixpoint insert_index (i : nat) (l : list nat) : list nat :=
  match l with
  | [] => [i]
  | j :: l' => if bytes_ltb (key j) (key i) then j :: insert_index i l' else i :: l
  end.
Definition make_sorted_registry_indices : list nat :=
  foldr insert_index [] (seq 0 (length arr)).

(** The loop of [Registry::get] over the half-open range [left, right). *)
Fixpoint lower_bound (fuel : nat) (indices : list nat) (message_type : bytes) (left right : Z) : Res Z :=
  match fuel with
  | O => Err OutOfFuel
  | S fuel' =>
      if left <? right then
        let mid := left + (right - left) / 2 in
        match znth indices mid with
        | None => Err OutOfBounds
        | Some idx =>
            if bytes_ltb (key idx) message_type then lower_bound fuel' indices message_type (mid + 1) right
            else lower_bound fuel' indices message_type left mid
        end
      else Ok left
  end.

Definition registry_get (indices : list nat) (message_type : bytes) : Res (option MessageSchema) :=
  let! left := lower_bound (S (length indices)) indices message_type 0 (zlen indices) in
  if left <? zlen indices then
    match znth indices left with
    | None => Err OutOfBounds
    | Some idx =>
        if bool_decide (key idx = message_type) then Ok (Some (nth idx arr inhabitant)) else Ok None
    end
  else Ok None.
End Registry.

Definition sorted_indices : list nat := make_sorted_registry_indices message_schemas.
Definition get (message_type : bytes) : Res (option MessageSchema) :=
  registry_get message_schemas sorted_indices message_type.

(** ** Lemmas on the value formats *)

Lemma forallb_Forall {A} (f : A -> bool) l : forallb f l = true <-> Forall (fun x => f x = true) l.
Proof.
  induction l as [|x l IH]; cbn; [split; constructor|].
  rewrite andb_true_iff, IH, Forall_cons. done.
Qed.

Lemma is_int_type_digits d : all_digits d -> d <> [] -> is_int_type d = true.
Proof.
  intros Hd Hne. destruct d as [|c d]; [done|]. unfold is_int_type, first_num_idx.
  assert (is_sign c = false) as ->.
  { inversion Hd as [|? ? Hc _]; subst. unfold is_sign. apply orb_false_iff.
    split; apply byte_eqb_neq; intros ->; done. }
  rewrite (proj2 (Z.leb_gt _ _)) by zlia. rewrite zdrop_0. by apply forallb_Forall.
Qed.

(** ** The registry *)

Lemma bytes_ltb_irrefl a : bytes_ltb a a = false.
Proof. induction a as [|x a IH]; cbn; [done|]. by rewrite Z.ltb_irrefl. Qed.

Lemma bytes_ltb_trans a b c : bytes_ltb a b = true -> bytes_ltb b c = true -> bytes_ltb a c = true.
Proof.
  revert b c. induction a as [|x a IH]; intros [|y b] [|z c]; cbn; try done.
  destruct (Z.ltb_spec (bval x) (bval y)), (Z.ltb_spec (bval y) (bval x)), (Z.ltb_spec (bval y) (bval z)),
    (Z.ltb_spec (bval z) (bval y)), (Z.ltb_spec (bval x) (bval z)), (Z.ltb_spec (bval z) (bval x));
    try done; try lia. apply IH.
Qed.

Lemma bytes_ltb_total a b : a <> b -> bytes_ltb a b = false -> bytes_ltb b a = true.
Proof.
  revert b. induction a as [|x a IH]; intros [|y b]; cbn; try done. intros Hne.
  destruct (Z.ltb_spec (bval x) (bval y)), (Z.ltb_spec (bval y) (bval x)); try done; try lia.
  intros E. apply IH; [|done].
  intros ->. apply Hne. f_equal. apply bval_inj. lia.
Qed.

#[export] Instance bytes_ltb_transitive : Transitive (fun a b => bytes_ltb a b = true).
Proof. intros a b c. apply bytes_ltb_trans. Qed.

Section RegistryLaws.
Context (arr : list MessageSchema).
Hypothesis Hkeys : NoDup (msg_type <$> arr).

Abbreviation key := (key arr).
Definition key_lt (i j : nat) : Prop := bytes_ltb (key i) (key j) = true.

#[local] Instance key_lt_trans : Transitive key_lt.
Proof. intros i j k. apply bytes_ltb_trans. Qed.

Lemma key_lookup i : (i < length arr)%nat -> (msg_type <$> arr) !! i = Some (key i).
Proof using.
  intros Hi. rewrite list_lookup_fmap. unfold Schema.key.
  destruct (nth_lookup_or_length arr i inhabitant) as [->|]; [done|lia].
Qed.

Lemma key_inj i j : (i < length arr)%nat -> (j < length arr)%nat -> key i = key j -> i = j.
Proof using Hkeys.
  intros Hi Hj E. eapply NoDup_lookup; [exact Hkeys|by apply key_lookup|]. rewrite E. by apply key_lookup.
Qed.

(** *** Sorting *)

Lemma insert_index_perm i l : insert_index arr i l ≡ₚ i :: l.
Proof using.
  induction l as [|j l IH]; cbn; [done|]. case_match; [|done]. rewrite IH. apply Permutation_swap.
Qed.

Lemma sorted_perm : make_sorted_registry_indices arr ≡ₚ seq 0 (length arr).
Proof using.
  unfold make_sorted_registry_indices. induction (seq 0 (length arr)) as [|i l IH]; cbn; [done|].
  by rewrite insert_index_perm, IH.
Qed.

Lemma insert_index_sorted i l : (i < length arr)%nat -> Forall (fun j => j < length arr)%nat l ->
  i ∉ l -> StronglySorted key_lt l -> StronglySorted key_lt (insert_index arr i l).
Proof using Hkeys.
  intros Hi Hl Hin HS. induction HS as [|j l HS IH Hj]; cbn; [by repeat constructor|].
  inversion Hl as [|? ? Hjl Hl']; subst. rewrite not_elem_of_cons in Hin. destruct Hin as [Hij Hin].
  destruct (bytes_ltb (key j) (key i)) eqn:E.
  - constructor; [by apply IH|]. rewrite insert_index_perm. by constructor.
  - assert (Hlt : key_lt i j).
    { apply bytes_ltb_total; [|done]. intros E'. by apply Hij, (key_inj i j) in E' || apply Hij; symmetry; apply key_inj. }
    constructor; [by constructor|]. constructor; [done|]. eapply Forall_impl; [exact Hj|].
    intros k Hk. by transitivity j.
Qed.

Lemma sorted_sorted : StronglySorted key_lt (make_sorted_registry_indices arr).
Proof using Hkeys.
  unfold make_sorted_registry_indices.
  assert (H : forall l, NoDup l -> Forall (fun j => j < length arr)%nat l ->
    StronglySorted key_lt (foldr (insert_index arr) [] l) /\ foldr (insert_index arr) [] l ≡ₚ l).
  { induction 1 as [|i l Hi Hnd IH]; intros Hl; cbn; [by split; constructor|].
    inversion Hl as [|? ? Hil Hl']; subst. destruct (IH Hl') as [HS HP]. split.
    - apply insert_index_sorted; [done|by rewrite HP|by rewrite HP|done].
    - by rewrite insert_index_perm, HP. }
  apply H; [apply NoDup_ListNoDup, seq_NoDup|]. apply Forall_forall. intros i Hi%elem_of_seq. lia.
Qed.

(** *** Binary search *)

Section Search.
Context (idxs : list nat) (t : bytes).
Hypothesis Hsorted : StronglySorted key_lt idxs.

Definition below (k : Z) : Prop := exists i, znth idxs k = Some i /\ bytes_ltb (key i) t = true.

Lemma sorted_znth j k a b : j < k -> znth idxs j = Some a -> znth idxs k = Some b -> key_lt a b.
Proof using Hsorted.
  unfold znth. intros Hjk. repeat case_Z; try done. intros Ha Hb. revert Ha Hb.
  assert (Hn : (Z.to_nat j < Z.to_nat k)%nat) by lia. revert Hn.
  generalize (Z.to_nat j) as m, (Z.to_nat k) as n. induction Hsorted as [|x l HS IH Hx]; intros m n Hmn Ha Hb.
  - done.
  - destruct n as [|n]; [lia|]. destruct m as [|m]; cbn in *.
    + injection Ha as ->. rewrite Forall_lookup in Hx. by eapply Hx.
    + eapply (IH HS m n); [lia|done|done].
Qed.

(** [lower_bound] terminates and finds the first position whose key is not below [t]. *)
Lemma lower_bound_spec fuel l r : 0 <= l <= r -> r <= zlen idxs -> r - l < Z.of_nat fuel ->
  (forall k, 0 <= k < l -> below k) -> (forall k, r <= k -> ~ below k) ->
  exists p, lower_bound arr fuel idxs t l r = Ok p /\ l <= p <= r /\
    (forall k, 0 <= k < p -> below k) /\ (forall k, p <= k -> ~ below k).
Proof using Hsorted.
  revert l r. induction fuel as [|fuel IH]; intros l r Hl Hr Hf Hlo Hhi; cbn [lower_bound]; [lia|].
  destruct (Z.ltb_spec l r).
  - pose proof (Z.div_pos (r - l) 2 ltac:(lia) ltac:(lia)).
    pose proof (Z.div_lt_upper_bound (r - l) 2 (r - l) ltac:(lia) ltac:(lia)).
    set (m := l + (r - l) / 2). destruct (znth_is_Some idxs m) as [i Hi]; [lia|]. rewrite Hi.
    destruct (bytes_ltb (key i) t) eqn:Ei.
    + destruct (IH (m + 1) r) as (p & Hp & Hpr & Hpl & Hph); [lia|lia|lia| |done|].
      * intros k Hk. destruct (Z.eq_dec k m) as [->|]; [by exists i|].
        destruct (znth_is_Some idxs k) as [j Hj]; [lia|]. exists j. split; [done|].
        eapply bytes_ltb_trans; [|exact Ei]. apply (sorted_znth k m); [lia|done|done].
      * exists p. split_and!; [done|lia|lia|done|done].
    + destruct (IH l m) as (p & Hp & Hpr & Hpl & Hph); [lia|lia|lia|done| |].
      * intros k Hk (j & Hj & Hjt). destruct (Z.eq_dec k m) as [->|]; [congruence|].
        assert (key_lt i j) by (apply (sorted_znth m k); [lia|done|done]).
        rewrite (bytes_ltb_trans (key i) (key j) t) in Ei; done.
      * exists p. split_and!; [done|lia|lia|done|done].
  - exists l. split_and!; [done|lia|lia|done|]. intros k Hk. apply Hhi. lia.
Qed.
End Search.

Lemma registry_get_spec idxs t : StronglySorted key_lt idxs -> idxs ≡ₚ seq 0 (length arr) ->
  registry_get arr idxs t = Ok (snd <$> list_find (fun s => msg_type s = t) arr).
Proof using Hkeys.
  intros HS HP. unfold registry_get.
  destruct (lower_bound_spec idxs t HS (S (length idxs)) 0 (zlen idxs)) as (p & -> & Hp & Hlo & Hhi).
  { split; [done|apply zlen_nonneg]. } { done. } { unfold zlen. lia. } { lia. }
  { intros k Hk (i & Hi%znth_Some_lt & _). lia. }
  rewrite ok_bind. destruct (list_find _ arr) as [[n s]|] eqn:Ef; cbn.
  - apply list_find_Some in Ef as (Hn & Hs & _).
    pose proof (lookup_lt_Some _ _ _ Hn) as Hnl.
    assert (Hin : n ∈ idxs) by (rewrite HP; apply elem_of_seq; lia).
    assert (Ek : key n = t) by (unfold Schema.key; by rewrite (nth_lookup_Some _ _ _ _ Hn)).
    apply list_elem_of_lookup in Hin as [q Hq].
    assert (Hzq : znth idxs (Z.of_nat q) = Some n) by (unfold znth; rewrite (proj2 (Z.ltb_ge _ _)), Nat2Z.id by lia; done).
    assert (Hpq : p = Z.of_nat q).
    { destruct (Z.lt_trichotomy p (Z.of_nat q)) as [Hlt|[->|Hlt]]; [exfalso|done|exfalso].
      - pose proof (znth_Some_lt _ _ _ Hzq). destruct (znth_is_Some idxs p) as [i Hi]; [lia|].
        apply (Hhi p); [lia|]. exists i. split; [done|]. rewrite <- Ek.
        by apply (sorted_znth idxs HS p (Z.of_nat q)).
      - destruct (Hlo (Z.of_nat q)) as (i & Hi & Hlt'); [lia|]. rewrite Hzq in Hi. injection Hi as <-.
        by rewrite Ek, bytes_ltb_irrefl in Hlt'. }
    subst p. pose proof (znth_Some_lt _ _ _ Hzq). rewrite (proj2 (Z.ltb_lt _ _)), Hzq by lia.
    rewrite bool_decide_true by done. by rewrite (nth_lookup_Some _ _ _ _ Hn).
  - destruct (Z.ltb_spec p (zlen idxs)); [|done]. destruct (znth_is_Some idxs p) as [i Hi]; [lia|]. rewrite Hi.
    rewrite bool_decide_false; [done|]. intros Ek. rewrite list_find_None in Ef.
    assert (Hin : i ∈ idxs) by (by eapply znth_elem).
    rewrite HP in Hin. apply elem_of_seq in Hin.
    pose proof (key_lookup i ltac:(lia)) as Hl. rewrite list_lookup_fmap in Hl.
    destruct (arr !! i) as [s|] eqn:Es; [|done]. rewrite Forall_lookup in Ef. apply (Ef i s Es).
    cbn in Hl. congruence.
Qed.

(** The registry finds a schema exactly when one is registered: over any table of
    distinct message types, the binary search through the indices sorted at start-up returns
    the entry whose type is the given text, and none when there is no such entry; it
    terminates and stays inside the index table. *)
Lemma registry_get_correct t :
  registry_get arr (make_sorted_registry_indices arr) t = Ok (snd <$> list_find (fun s => msg_type s = t) arr).
Proof using Hkeys. apply registry_get_spec; [apply sorted_sorted|apply sorted_perm]. Qed.
End RegistryLaws.

Lemma message_schemas_keys : NoDup (msg_type <$> message_schemas).
Proof. apply (bool_decide_unpack _). by vm_compute. Qed.

Lemma get_find t : get t = Ok (snd <$> list_find (fun s => msg_type s = t) message_schemas).
Proof.
  pose proof message_schemas_keys. by apply registry_get_spec; [|apply sorted_sorted|apply sorted_perm].
Qed.

Example registry_get_correct_witness : get (B "cu") = Ok (Some (mk_message_schema (B "cu") CustomSchema)).
Proof. exact (registry_get_correct message_schemas message_schemas_keys (B "cu")). Defined.
