(* ===== verification/Validator.v ===== *)
(** [Fix::Validator] (include/fix/core/Validator.hpp, src/Validator.cpp): a parsed message
    against the schemas of the header, its type and the trailer.

    [TagScratch] is the bit set of the fields that some schema entry accounts for. *)
From Stdlib Require Import Strings.Byte.
From S2P Require Import Prelude.
From S2P Require Import Text.
From S2P Require Import Message.
From S2P Require Import Schema.

(** ** Errors and results *)

Inductive ValidatorError : Set :=
  | InvalidTagNumber | RequiredTagMissing | TagNotDefinedForMessage | UndefinedTag
  | TagSpecifiedWithoutAValue | ValueIsIncorrect | IncorrectDataFormatForValue | DecryptionProblem
  | SignatureProblem | CompIDProblem | SendingTimeAccuracyProblem | InvalidMsgType | XMLValidationError
  | TagAppearsMoreThanOnce | TagSpecifiedOutOfRequiredOrder | RepeatingGroupFieldsOutOfOrder
  | IncorrectNumInGroupCount | NonDataFieldIncludesFieldDelimiter | Other.

(** [static_cast<uint32_t>(code)]. *)
Definition validator_code (e : ValidatorError) : Z :=
  match e with
  | InvalidTagNumber => 0 | RequiredTagMissing => 1 | TagNotDefinedForMessage => 2 | UndefinedTag => 3
  | TagSpecifiedWithoutAValue => 4 | ValueIsIncorrect => 5 | IncorrectDataFormatForValue => 6
  | DecryptionProblem => 7 | SignatureProblem => 8 | CompIDProblem => 9 | SendingTimeAccuracyProblem => 10
  | InvalidMsgType => 11 | XMLValidationError => 12 | TagAppearsMoreThanOnce => 13
  | TagSpecifiedOutOfRequiredOrder => 14 | RepeatingGroupFieldsOutOfOrder => 15
  | IncorrectNumInGroupCount => 16 | NonDataFieldIncludesFieldDelimiter => 17 | Other => 99
  end.

Inductive Severity : Set := NA | Low | Moderate | High | Fatal.

#[export] Instance severity_eq_dec : EqDecision Severity.
Proof. solve_decision. Defined.

(** [ErrorString(sv)]: a fixed array of 32 characters, asserted to be enough. *)
Definition error_string (sv : bytes) : Res bytes := check! zlen sv <=? 32 in Ok sv.

Record ValidatorErrorContext : Set := mk_verr { info : bytes; err_tag : Z; code : ValidatorError }.

Record ValidatorResult : Set := mk_result { severity : Severity; errors : list ValidatorErrorContext }.

(** ** [TagScratch]: words of 64 bits *)

Definition TagScratch : Type := list Z.

Definition ensure_bits (size : Z) (t : TagScratch) : TagScratch :=
  let n := Z.shiftr size 6 + 1 in
  if zlen t <? n then t ++ replicate (Z.to_nat (n - zlen t)) 0 else t.

Definition ts_clear (t : TagScratch) : TagScratch := (fun _ : Z => 0) <$> t.

Definition ts_set (index : Z) (t : TagScratch) : Res TagScratch :=
  match znth t (Z.shiftr index 6) with
  | None => Err OutOfBounds
  | Some w => Ok (zset (Z.shiftr index 6) (Z.lor w (Z.shiftl 1 (Z.land index 63))) t)
  end.

Definition ts_get (index : Z) (t : TagScratch) : Res bool :=
  match znth t (Z.shiftr index 6) with
  | None => Err OutOfBounds
  | Some w => Ok (negb (Z.land w (Z.shiftl 1 (Z.land index 63)) =? 0))
  end.

(** The word loop of [full], for [n] more words from [i]. *)
Fixpoint full_words (n : nat) (i : Z) (t : TagScratch) : Res bool :=
  match n with
  | O => Ok true
  | S n' =>
      match znth t i with
      | None => Err OutOfBounds
      | Some w => if w =? 2 ^ 64 - 1 then full_words n' (i + 1) t else Ok false
      end
  end.

Definition ts_full (size : Z) (t : TagScratch) : Res bool :=
  let q := Z.shiftr size 6 in
  let r := Z.land size 63 in
  let! b := full_words (Z.to_nat q) 0 t in
  if (b : bool) then
    if r =? 0 then Ok true
    else
      let mask := Z.shiftl 1 r - 1 in
      match znth t q with
      | None => Err OutOfBounds
      | Some w => Ok (Z.land w mask =? mask)
      end
  else Ok false.

(** ** The validator *)

Record Validator : Type := mk_validator { results_ : ValidatorResult; tagscratch_ : TagScratch }.

Definition validator_new : Validator := mk_validator (mk_result Moderate []) [].

Definition push_error (i : bytes) (t : Z) (c : ValidatorError) (v : Validator) : Res Validator :=
  let! s := error_string i in
  Ok (mk_validator (mk_result (severity (results_ v)) (errors (results_ v) ++ [mk_verr s t c])) (tagscratch_ v)).

Definition set_severity (s : Severity) (v : Validator) : Validator :=
  mk_validator (mk_result s (errors (results_ v))) (tagscratch_ v).

(** [push_back] of an error that is fatal. *)
Definition push_fatal (i : bytes) (t : Z) (c : ValidatorError) (v : Validator) : Res Validator :=
  let! v := push_error i t c v in Ok (set_severity Fatal v).

Definition set_tag (index : Z) (v : Validator) : Res Validator :=
  let! t := ts_set index (tagscratch_ v) in Ok (mk_validator (results_ v) t).

Definition validate_type_ (value : bytes) (type : FieldType) : Res bool :=
  match type with
  | GROUP | INT => Ok (is_int_type value)
  | STRING => Ok true
  | BOOLEAN => Ok (is_boolean_type value)
  | FLOAT | DOUBLE => is_double_type value
  | CHAR => Ok (is_char_type value)
  end.

(** [Utils::parse_int]: a non-negative [int]. *)
Definition parse_int (sv : bytes) : option Z :=
  let r := from_chars_signed 32 sv in
  match fc_value r with
  | Some tmp => if negb (fc_complete sv r) || (tmp <? 0) then None else Some tmp
  | None => None
  end.

(** *** Repeating groups *)

Definition kMaxGroupCount : Z := 32.

(** The array of tags and occurrence counts. *)
Definition has_occured (count : list (Z * Z)) (tag : Z) : bool :=
  existsb (fun '(t, cnt) => (tag =? t) && (0 <? cnt)) count.
Definition increment_tag_count (tag : Z) (count : list (Z * Z)) : list (Z * Z) :=
  (fun '(t, cnt) => if tag =? t then (t, cnt + 1) else (t, cnt)) <$> count.
Definition reset_counts (count : list (Z * Z)) : list (Z * Z) := (fun '(t, _) => (t, 0)) <$> count.
Definition atleast_one_occurence (count : list (Z * Z)) : bool := existsb (fun '(_, cnt) => 0 <? cnt) count.

(** How the loop over the fields of one group entry ends: [false] is a [return] of the whole
    function, [true] is the end of the loop or a [break]. *)
Definition GroupStep : Type := bool * Z * list (Z * Z) * Validator.

Section Groups.
Context (message : GenericMessage).
(** The recursive call for a nested group. *)
Context (nested : Z -> FieldSchema -> Z -> Validator -> Res (Z * Validator)).

Fixpoint group_fields (fields : list FieldSchema) (curr_index : Z) (count : list (Z * Z)) (v : Validator)
  : Res GroupStep :=
  match fields with
  | [] => Ok (true, curr_index, count, v)
  | field_schema :: fields' =>
      if zlen message <=? curr_index then
        let! v := push_error [] (fs_tag field_schema) IncorrectNumInGroupCount v in
        Ok (false, curr_index, count, v)
      else
        match znth message curr_index with
        | None => Err OutOfBounds
        | Some field =>
            let current_tag := tag field in
            if negb (current_tag =? fs_tag field_schema) then
              if bool_decide (fs_presence field_schema = REQUIRED) then
                let! v := push_error [] (fs_tag field_schema) RequiredTagMissing v in
                Ok (false, curr_index, count, v)
              else group_fields fields' curr_index count v
            else if has_occured count current_tag then Ok (true, curr_index, count, v)
            else
              let! v := set_tag curr_index v in
              if bool_decide (fs_type field_schema = GROUP) then
                let curr_index := i32 (curr_index + 1) in
                match parse_int (value field) with
                | None =>
                    let! v := push_error [] (fs_tag field_schema) IncorrectDataFormatForValue v in
                    Ok (false, curr_index, count, v)
                | Some group_count =>
                    let! '(curr_index, v) := nested group_count field_schema curr_index v in
                    group_fields fields' (i32 (curr_index + 1)) (increment_tag_count current_tag count) v
                end
              else
                let! ok := validate_type_ (value field) (fs_type field_schema) in
                if negb ok then
                  let! v := push_error [] (fs_tag field_schema) IncorrectDataFormatForValue v in
                  Ok (false, curr_index, count, v)
                else group_fields fields' (i32 (curr_index + 1)) (increment_tag_count current_tag count) v
        end
  end.

(** The loop over the entries of the group. *)
Fixpoint group_loop (fuel : nat) (groupfield : FieldSchema) (fields : list FieldSchema) (i groupcnt curr_index : Z)
    (count : list (Z * Z)) (v : Validator) : Res (Z * Validator) :=
  match fuel with
  | O => Err OutOfFuel
  | S fuel' =>
      if i <? groupcnt then
        let! '(continue, curr_index, count, v) := group_fields fields curr_index (reset_counts count) v in
        if (continue : bool) then
          if atleast_one_occurence count
          then group_loop fuel' groupfield fields (i + 1) groupcnt curr_index count v
          else
            let! v := push_error [] (fs_tag groupfield) IncorrectNumInGroupCount v in Ok (curr_index, v)
        else Ok (curr_index, v)
      else Ok (curr_index, v)
  end.
End Groups.

(** [depth] bounds the nesting of group schemas. *)
Fixpoint validate_groups_ (depth : nat) (message : GenericMessage) (groupcnt : Z) (groupfield : FieldSchema)
    (curr_index : Z) (v : Validator) : Res (Z * Validator) :=
  if groupcnt =? 0 then Ok (curr_index, v)
  else
    match group_schema groupfield with
    | None =>
        let! v := push_error (B "Missing group schema") (fs_tag groupfield) Other v in Ok (curr_index, v)
    | Some fields =>
        if zlen fields =? 0 then
          let! v := push_error (B "Missing group schema entry") (fs_tag groupfield) Other v in Ok (curr_index, v)
        else if kMaxGroupCount <? zlen fields then
          let! v := push_error (B "Unsupported group size") (fs_tag groupfield) Other v in Ok (curr_index, v)
        else
          let count := (fun f => (fs_tag f, 0)) <$> fields in
          match depth with
          | O => Err OutOfFuel
          | S depth' =>
              group_loop message (validate_groups_ depth' message) (S (S (length message)))
                         groupfield fields 0 groupcnt curr_index count v
          end
    end.

(** Nesting depth of a schema entry. *)
Fixpoint group_depth (f : FieldSchema) : nat :=
  match f with
  | mk_schema _ _ _ None => 0%nat
  | mk_schema _ _ _ (Some fields) => S (list_max (map group_depth fields))
  end.

(** *** Fields, header, trailer, message *)

(** [std::find_if] by tag. *)
Definition find_tag (t : Z) (message : GenericMessage) : option (Z * GenericField) :=
  prod_map Z.of_nat id <$> list_find (fun f => tag f = t) message.

Fixpoint validate_fields_ (message : GenericMessage) (schema : list FieldSchema) (v : Validator) : Res Validator :=
  match schema with
  | [] => Ok v
  | field_schema :: schema' =>
      match find_tag (fs_tag field_schema) message with
      | Some (idx, field) =>
          let! v := set_tag idx v in
          if bool_decide (fs_type field_schema = GROUP) then
            let start_idx := i32 (i32 idx + 1) in
            match parse_int (value field) with
            | None => push_error [] (fs_tag field_schema) IncorrectNumInGroupCount v
            | Some group_count =>
                let! '(_, v) := validate_groups_ (group_depth field_schema) message group_count field_schema start_idx v in
                validate_fields_ message schema' v
            end
          else
            let! ok := validate_type_ (value field) (fs_type field_schema) in
            if negb ok then push_error [] (fs_tag field_schema) IncorrectDataFormatForValue v
            else validate_fields_ message schema' v
      | None =>
          if bool_decide (fs_presence field_schema = REQUIRED)
          then push_error [] (fs_tag field_schema) RequiredTagMissing v
          else validate_fields_ message schema' v
      end
  end.

Definition DEFAULT_FIX_VERSION : bytes := B "FIX.4.4".

(** The members of [SessionParameters] the engine reads. *)
Record SessionParameters : Set := mk_params {
  no_resend_messages_types : bytes;
  fix_version : bytes;
  sender_comp_id : bytes;
  target_comp_id : bytes;
  heart_beat_int : Z;
  encrypt_method : Z;
  initiator_reset_on_logon : bool;
  acceptor_reset_on_logon : bool
}.

(** The value and the schema type at position [i] of the message and of the header schema. *)
Definition header_value (message : ValidMessage) (i : Z) : Res bytes :=
  match znth (message_ message) i with Some f => Ok (value f) | None => Err OutOfBounds end.

Definition validate_header_ (message : ValidMessage) (expected_message_type : bytes)
    (params : SessionParameters) (v : Validator) : Res Validator :=
  if zlen (message_ message) <? 3 then push_fatal [] 8 RequiredTagMissing v
  else
    let! v0 := header_value message 0 in
    let! v1 := header_value message 1 in
    let! v2 := header_value message 2 in
    let! ok0 := validate_type_ v0 STRING in
    if negb ok0 || negb (bool_decide (v0 = DEFAULT_FIX_VERSION)) then
      push_fatal (B "Unsupported FIX version") 8 Other v
    else
      let! ok1 := validate_type_ v1 INT in
      if negb ok1 then push_error [] 9 IncorrectDataFormatForValue v
      else
        let! ok2 := validate_type_ v2 STRING in
        if negb ok2 || negb (bool_decide (v2 = expected_message_type)) then
          push_error [] 35 IncorrectDataFormatForValue v
        else
          let! seq_ok := match slot message MsgSeqNumSlot with
                         | None => Ok false
                         | Some s => validate_type_ s INT
                         end in
          if negb seq_ok then push_fatal [] 34 IncorrectDataFormatForValue v
          else if negb (bool_decide (slot message SenderCompIDSlot = Some (target_comp_id params))) then
            push_fatal (B "Sender CompID mismatch") 49 CompIDProblem v
          else if negb (bool_decide (slot message TargetCompIDSlot = Some (sender_comp_id params))) then
            push_fatal (B "Target CompID mismatch") 56 CompIDProblem v
          else validate_fields_ (message_ message) StandardHeaderSchema v.

Definition validate_trailer_ (message : ValidMessage) (v : Validator) : Res Validator :=
  validate_fields_ (message_ message) TrailerSchema v.

Definition validate_message (message : ValidMessage) (params : SessionParameters) (v : Validator) : Res Validator :=
  let v := mk_validator (mk_result Moderate []) (ts_clear (ensure_bits (zlen (message_ message)) (tagscratch_ v))) in
  match slot message MsgTypeSlot with
  | None => push_error [] 35 RequiredTagMissing v
  | Some expected_message_type =>
      let! schema := Schema.get expected_message_type in
      match schema with
      | None => push_error [] 0 InvalidMsgType v
      | Some s =>
          let! v := validate_header_ message expected_message_type params v in
          let! v := validate_fields_ (message_ message) (Schema.body s) v in
          let! v := validate_trailer_ message v in
          match errors (results_ v) with
          | [] =>
              let! full := ts_full (zlen (message_ message)) (tagscratch_ v) in
              if negb full then push_error [] 0 InvalidTagNumber v else Ok v
          | _ => Ok v
          end
      end
  end.

(** ** The bit set *)

Definition bit (t : TagScratch) (i : Z) : bool :=
  match znth t (Z.shiftr i 6) with Some w => Z.testbit w (Z.land i 63) | None => false end.

Record tags_ok (n : Z) (t : TagScratch) : Prop := {
  tags_words : Forall (fun w => 0 <= w < 2 ^ 64) t;
  tags_size : Z.shiftr n 6 < zlen t
}.

Lemma shiftr6 i : Z.shiftr i 6 = i / 64.
Proof. by rewrite Z.shiftr_div_pow2. Qed.
Lemma land63 i : Z.land i 63 = i mod 64.
Proof. change 63 with (Z.ones 6). by rewrite Z.land_ones. Qed.

Lemma index_eq i : i = 64 * Z.shiftr i 6 + Z.land i 63.
Proof. rewrite shiftr6, land63. apply Z.div_mod. lia. Qed.

(** A word and the bit in it determine the index. *)
Lemma index_split i j : Z.shiftr i 6 = Z.shiftr j 6 -> Z.land i 63 = Z.land j 63 -> i = j.
Proof.
  rewrite !shiftr6, !land63. intros Hq Hr.
  pose proof (Z.div_mod i 64 ltac:(lia)). pose proof (Z.div_mod j 64 ltac:(lia)). lia.
Qed.

Lemma land63_range i : 0 <= Z.land i 63 < 64.
Proof. rewrite land63. apply Z.mod_pos_bound. lia. Qed.

Lemma shiftr6_mono i n : 0 <= i <= n -> 0 <= Z.shiftr i 6 <= Z.shiftr n 6.
Proof. intros. rewrite !shiftr6. split; [apply Z.div_pos; lia|apply Z.div_le_mono; lia]. Qed.

Lemma lor_bit_range w k : 0 <= w < 2 ^ 64 -> 0 <= k < 64 -> 0 <= Z.lor w (Z.shiftl 1 k) < 2 ^ 64.
Proof.
  intros Hw Hk. rewrite Z.shiftl_1_l. split; [apply Z.lor_nonneg; lia|].
  destruct (Z.eq_dec (Z.lor w (2 ^ k)) 0) as [->|Hne]; [lia|].
  assert (0 < Z.lor w (2 ^ k)).
  { pose proof (proj2 (Z.lor_nonneg w (2 ^ k)) ltac:(lia)). lia. }
  apply Z.log2_lt_pow2; [done|]. rewrite Z.log2_lor, Z.log2_pow2 by lia. apply Z.max_lub_lt; [|lia].
  destruct (Z.eq_dec w 0) as [->|]; [by vm_compute|]. apply Z.log2_lt_pow2; lia.
Qed.

Lemma ts_set_spec n i t : tags_ok n t -> 0 <= i <= n ->
  exists t', ts_set i t = Ok t' /\ tags_ok n t' /\
    forall j, 0 <= j -> bit t' j = if decide (j = i) then true else bit t j.
Proof.
  intros [Hw Hs] Hi. unfold ts_set. pose proof (shiftr6_mono i n Hi) as Hq.
  pose proof (land63_range i) as Hr.
  destruct (znth_is_Some t (Z.shiftr i 6)) as [w Ew]; [lia|]. rewrite Ew.
  assert (Hwr : 0 <= w < 2 ^ 64) by (apply znth_elem in Ew; rewrite Forall_forall in Hw; by apply Hw).
  eexists. split; [done|]. split; [split|].
  - unfold zset. case_match; [done|]. apply Forall_insert; [done|]. by apply lor_bit_range.
  - by rewrite zlen_zset.
  - intros j Hj. unfold bit. destruct (Z.eq_dec (Z.shiftr i 6) (Z.shiftr j 6)) as [E|E].
    + rewrite <- E, znth_zset_eq, Ew by lia. rewrite Z.lor_spec, Z.shiftl_1_l.
      case_decide as D.
      * subst. rewrite Z.pow2_bits_true by lia. by rewrite orb_true_r.
      * rewrite Z.pow2_bits_false, orb_false_r; [done|]. intros E2. apply D. by apply index_split.
    + rewrite znth_zset_ne by lia. case_decide as D; [by subst|done].
Qed.

Lemma word_full w : 0 <= w < 2 ^ 64 -> w = 2 ^ 64 - 1 <-> forall k, 0 <= k < 64 -> Z.testbit w k = true.
Proof.
  intros Hw. split.
  - intros -> k Hk. change (2 ^ 64 - 1) with (Z.ones 64). by apply Z.ones_spec_low.
  - intros Hk. change (2 ^ 64 - 1) with (Z.ones 64). apply Z.bits_inj'. intros k Hk0.
    destruct (Z.lt_ge_cases k 64).
    + by rewrite Hk, Z.ones_spec_low by lia.
    + rewrite Z.ones_spec_high by lia. destruct (Z.eq_dec w 0) as [->|]; [apply Z.bits_0|].
      apply Z.bits_above_log2; [lia|]. pose proof (proj1 (Z.log2_lt_pow2 w 64 ltac:(lia))). lia.
Qed.

Lemma mask_full w r : 0 <= r -> (Z.land w (Z.shiftl 1 r - 1) =? Z.shiftl 1 r - 1) = true <->
  forall k, 0 <= k < r -> Z.testbit w k = true.
Proof.
  intros Hr. rewrite Z.shiftl_1_l. replace (2 ^ r - 1) with (Z.ones r) by (rewrite Z.ones_equiv; lia).
  rewrite Z.eqb_eq. split.
  - intros E k Hk. assert (Z.testbit (Z.land w (Z.ones r)) k = true) by (rewrite E; by apply Z.ones_spec_low).
    rewrite Z.land_spec, andb_true_iff in *. tauto.
  - intros Hk. apply Z.bits_inj'. intros k Hk0. rewrite Z.land_spec. destruct (Z.lt_ge_cases k r).
    + by rewrite Hk, andb_true_l by lia.
    + by rewrite Z.ones_spec_high, andb_false_r by lia.
Qed.

Lemma full_words_spec n i t : Forall (fun w => 0 <= w < 2 ^ 64) t -> 0 <= i -> i + Z.of_nat n <= zlen t ->
  exists b, full_words n i t = Ok b /\
    (b = true <-> forall q, i <= q < i + Z.of_nat n -> forall k, 0 <= k < 64 ->
       exists w, znth t q = Some w /\ Z.testbit w k = true).
Proof.
  intros Hw. revert i. induction n as [|n IH]; intros i Hi Hl; cbn [full_words].
  - exists true. split; [done|]. split; [intros _ q Hq; lia|done].
  - destruct (znth_is_Some t i) as [w Ew]; [lia|]. rewrite Ew.
    assert (Hwr : 0 <= w < 2 ^ 64) by (apply znth_elem in Ew; rewrite Forall_forall in Hw; by apply Hw).
    destruct (Z.eqb_spec w (2 ^ 64 - 1)) as [E|E].
    + destruct (IH (i + 1)) as (b & -> & Hb); [lia|lia|]. exists b. split; [done|]. rewrite Hb. split.
      * intros H q Hq k Hk. destruct (Z.eq_dec q i) as [->|]; [|apply H; lia].
        exists w. split; [done|]. by apply word_full.
      * intros H q Hq. apply H. lia.
    + exists false. split; [done|]. split; [done|]. intros H. exfalso. apply E. apply word_full; [done|].
      intros k Hk. destruct (H i ltac:(lia) k Hk) as (w' & E' & ?). congruence.
Qed.

(** [full] says that every index below [n] is marked. *)
Lemma ts_full_spec n t : tags_ok n t -> 0 <= n ->
  exists b, ts_full n t = Ok b /\ (b = true <-> forall i, 0 <= i < n -> bit t i = true).
Proof.
  intros [Hw Hs] Hn. unfold ts_full. pose proof (shiftr6_mono n n ltac:(lia)) as Hq.
  destruct (full_words_spec (Z.to_nat (Z.shiftr n 6)) 0 t) as (b & -> & Hb); [done|lia|lia|].
  rewrite ok_bind. rewrite Z2Nat.id, Z.add_0_l in Hb by lia. pose proof (land63_range n).
  assert (Hlow : forall i, 0 <= i -> Z.shiftr i 6 < Z.shiftr n 6 -> b = true -> bit t i = true).
  { intros i Hi Hlt Eb. pose proof (shiftr6_mono i i ltac:(lia)).
    destruct (proj1 Hb Eb (Z.shiftr i 6) ltac:(lia) (Z.land i 63) (land63_range i)) as (w & Ew & ?).
    unfold bit. by rewrite Ew. }
  pose proof (index_eq n) as Hdm.
  assert (Hidx : forall q k, 0 <= k < 64 -> Z.shiftr (64 * q + k) 6 = q /\ Z.land (64 * q + k) 63 = k).
  { intros q k Hk. rewrite shiftr6, land63. rewrite (Z.mul_comm 64), Z.div_add_l, Z.div_small by lia.
    split; [lia|]. rewrite (Z.add_comm (q * 64)), Z.mod_add, Z.mod_small by lia. done. }
  destruct b.
  - destruct (Z.eqb_spec (Z.land n 63) 0) as [E0|E0].
    + exists true. split; [done|]. split; [|done]. intros _ i Hi. apply Hlow; [lia| |done].
      rewrite shiftr6. apply Z.div_lt_upper_bound; lia.
    + destruct (znth_is_Some t (Z.shiftr n 6)) as [w Ew]; [lia|]. rewrite Ew. eexists. split; [done|].
      rewrite mask_full by lia. split.
      * intros Hm i Hi. pose proof (shiftr6_mono i n ltac:(lia)).
        destruct (Z.eq_dec (Z.shiftr i 6) (Z.shiftr n 6)) as [E|]; [|apply Hlow; [lia|lia|done]].
        unfold bit. rewrite E, Ew. apply Hm.
        pose proof (index_eq i). pose proof (land63_range i). lia.
      * intros Hm k Hk. destruct (Hidx (Z.shiftr n 6) k ltac:(lia)) as [Eq Er].
        specialize (Hm (64 * Z.shiftr n 6 + k) ltac:(lia)). unfold bit in Hm. by rewrite Eq, Er, Ew in Hm.
  - exists false. split; [done|]. split; [done|]. intros Hm. apply Hb. intros q Hq2 k Hk.
    destruct (Hidx q k Hk) as [Eq Er]. specialize (Hm (64 * q + k) ltac:(lia)).
    unfold bit in Hm. rewrite Eq, Er in Hm. destruct (znth t q) as [w|]; [by exists w|done].
Qed.

Lemma ensure_clear_spec n t : 0 <= n ->
  tags_ok n (ts_clear (ensure_bits n t)) /\ forall i, bit (ts_clear (ensure_bits n t)) i = false.
Proof.
  intros Hn. split; [split|].
  - apply Forall_fmap, Forall_true. intros. cbn. lia.
  - unfold ts_clear, zlen. rewrite length_fmap. unfold ensure_bits.
    pose proof (shiftr6_mono n n ltac:(lia)). case_Z; [|unfold zlen in *; lia].
    rewrite length_app, length_replicate. unfold zlen in *. lia.
  - intros i. unfold bit, znth, ts_clear. destruct (Z.shiftr i 6 <? 0); [done|]. case_match eqn:E; [|done].
    apply list_lookup_fmap_Some in E as (? & -> & _). apply Z.bits_0.
Qed.

(** ** Steps of the validator

    Every function of the validator only appends errors and only marks fields that a schema
    entry accounts for. *)

Definition marked (v : Validator) (i : Z) : bool := bit (tagscratch_ v) i.
Definition errs (v : Validator) : list ValidatorErrorContext := errors (results_ v).

Record vstep (n : Z) (P : Z -> Prop) (v v' : Validator) : Prop := {
  vs_tags : tags_ok n (tagscratch_ v) -> tags_ok n (tagscratch_ v');
  vs_errors : errs v `prefix_of` errs v';
  vs_keep : forall i, 0 <= i -> marked v i = true -> marked v' i = true;
  vs_new : forall i, 0 <= i -> marked v' i = true -> marked v i = true \/ P i;
  vs_severity : errs v' = errs v -> severity (results_ v') = severity (results_ v)
}.

Lemma prefix_same {A} (l1 l2 l3 : list A) : l1 `prefix_of` l2 -> l2 `prefix_of` l3 -> l3 = l1 -> l2 = l1 /\ l3 = l2.
Proof.
  intros [k1 E1] [k2 E2] E. rewrite E2, E1 in E. rewrite <- app_assoc in E. rewrite <- (app_nil_r l1) in E at 2.
  apply app_inv_head in E. apply app_eq_nil in E as [-> ->]. rewrite app_nil_r in *. by rewrite E2, E1.
Qed.

#[export] Instance vstep_refl n P : Reflexive (vstep n P).
Proof. split; auto. Qed.
#[export] Instance vstep_trans n P : Transitive (vstep n P).
Proof.
  intros v1 v2 v3 [] []. split; [auto|by etransitivity|auto| |].
  - intros i Hi H. destruct (vs_new1 i Hi H); auto.
  - intros E. destruct (prefix_same _ _ _ vs_errors0 vs_errors1 E) as [E1 E2]. rewrite vs_severity1, vs_severity0; done.
Qed.

Lemma vstep_weaken n (P Q : Z -> Prop) v v' : (forall i, P i -> Q i) -> vstep n P v v' -> vstep n Q v v'.
Proof. intros H []. split; auto. intros i Hi Hm. destruct (vs_new0 i Hi Hm); auto. Qed.

Lemma vstep_same_errs n P v v' w : vstep n P v v' -> vstep n P v' w -> errs w = errs v -> errs v' = errs v /\ errs w = errs v'.
Proof.
  intros H1 H2 E. eapply prefix_same; [apply H1|apply H2|done].
Qed.

Lemma push_error_spec n P i t c v : zlen i <= 32 ->
  exists v', push_error i t c v = Ok v' /\ vstep n P v v' /\ errs v' <> errs v.
Proof.
  intros Hi. unfold push_error, error_string. rewrite (proj2 (Z.leb_le _ _)) by done. rewrite ok_bind.
  eexists. split; [done|]. split.
  - split; cbn; auto. by apply prefix_app_r.
  - unfold errs; cbn. intros E. rewrite <- app_nil_r in E. by apply app_inv_head in E.
Qed.

Lemma push_fatal_spec n P i t c v : zlen i <= 32 ->
  exists v', push_fatal i t c v = Ok v' /\ vstep n P v v' /\ errs v' <> errs v.
Proof.
  intros Hi. unfold push_fatal. destruct (push_error_spec n P i t c v Hi) as (v' & -> & [] & He).
  rewrite ok_bind. eexists. split; [done|]. split; [split; auto; by intros ?|done].
Qed.

Lemma set_tag_spec n (P : Z -> Prop) i v : tags_ok n (tagscratch_ v) -> 0 <= i < n -> P i ->
  exists v', set_tag i v = Ok v' /\ vstep n P v v' /\ errs v' = errs v /\ marked v' i = true.
Proof.
  intros Ht Hi Hp. unfold set_tag. destruct (ts_set_spec n i _ Ht ltac:(lia)) as (t' & -> & Ht' & Hb).
  rewrite ok_bind. eexists. split; [done|]. split_and!; [split|done|].
  - done.
  - done.
  - intros j Hj. unfold marked. cbn. rewrite Hb by done. by case_decide.
  - intros j Hj. unfold marked. cbn. rewrite Hb by done. case_decide; [subst; by right|by left].
  - done.
  - unfold marked. cbn. rewrite Hb by lia. by rewrite decide_True.
Qed.

(** ** Repeating groups *)

(** The tags of the fields of the group of [f], nested groups included. *)
Inductive grp_tag : FieldSchema -> Z -> Prop :=
  | grp_here f fields x : group_schema f = Some fields -> x ∈ fields -> grp_tag f (fs_tag x)
  | grp_nested f fields x t : group_schema f = Some fields -> x ∈ fields -> grp_tag x t -> grp_tag f t.

(** No entry is checked with [is_double_type]. *)
Fixpoint plain (f : FieldSchema) : bool :=
  match f with
  | mk_schema _ FLOAT _ _ | mk_schema _ DOUBLE _ _ => false
  | mk_schema _ _ _ None => true
  | mk_schema _ _ _ (Some fields) => forallb plain fields
  end.

Lemma validate_type_total f s : plain f = true -> exists b, validate_type_ s (fs_type f) = Ok b.
Proof. destruct f as [t [] p g]; cbn; try done; eauto. Qed.

Lemma plain_fields f fields : plain f = true -> group_schema f = Some fields -> Forall (fun x => plain x = true) fields.
Proof.
  destruct f as [t ty p g]; cbn. intros Hp ->. apply forallb_Forall. by destruct ty.
Qed.

Section GroupLaws.
Context (message : GenericMessage) (P : Z -> Prop).
Abbreviation n := (zlen message).
Hypothesis Hn : n < 2 ^ 30.

(** Fields from position [i] on whose tag satisfies [T] may be marked. *)
Definition allows (T : Z -> Prop) (i : Z) : Prop :=
  forall j f, i <= j -> znth message j = Some f -> T (tag f) -> P j.

Lemma allows_mono (T T' : Z -> Prop) i i' : allows T i -> i <= i' -> (forall t, T' t -> T t) -> allows T' i'.
Proof using. intros H Hi HT j f Hj Hf Ht. apply (H j f); [lia|done|auto]. Qed.

Definition entry_tag (fields : list FieldSchema) (t : Z) : Prop :=
  exists x, x ∈ fields /\ (t = fs_tag x \/ grp_tag x t).

(** What the recursive call promises. *)
Definition nested_ok (d : Z) (nested : Z -> FieldSchema -> Z -> Validator -> Res (Z * Validator))
    (x : FieldSchema) : Prop :=
  forall cnt i v, 0 <= i <= n -> tags_ok n (tagscratch_ v) -> allows (grp_tag x) i ->
  exists i' v', nested cnt x i v = Ok (i', v') /\ vstep n P v v' /\ i <= i' <= n + d.

Lemma group_fields_spec nested d fields i count v :
  Forall (fun x => plain x = true /\ nested_ok d nested x) fields ->
  0 <= d < 2 ^ 30 -> tags_ok n (tagscratch_ v) -> 0 <= i -> allows (entry_tag fields) i ->
  exists c i' count' v', group_fields message nested fields i count v = Ok (c, i', count', v') /\
    vstep n P v v' /\ i <= i' <= Z.max i (n + d + 1) /\ (i' = i -> count' = count) /\
    (n <= i -> fields <> [] -> c = false).
Proof using Hn.
  intros Hf Hd. revert i count v. induction Hf as [|x fields [Hp Hx] _ IH]; intros i count v Ht Hi Ha; cbn [group_fields].
  { eexists _, _, _, _. split; [done|]. split_and!; [done|lia|lia|done|done]. }
  assert (Ha' : forall i', i <= i' -> allows (entry_tag fields) i').
  { intros i' Hi'. eapply allows_mono; [exact Ha|done|]. intros t (y & ? & ?). exists y. split; [by constructor|done]. }
  assert (Herr : forall i' t c v', i <= i' <= Z.max i (n + d + 1) -> vstep n P v v' -> (i' = i -> True) ->
    exists w, push_error [] t c v' = Ok w /\ vstep n P v w).
  { intros i' t c v' _ Hv _. destruct (push_error_spec n P [] t c v') as (w & -> & Hw & _); [done|].
    exists w. split; [done|by transitivity v']. }
  destruct (Z.leb_spec n i).
  { destruct (Herr i (fs_tag x) IncorrectNumInGroupCount v) as (w & -> & Hw); [lia|done|done|]. rewrite ok_bind.
    eexists _, _, _, _. split; [done|]. split_and!; [done|lia|lia|done|done]. }
  destruct (znth_is_Some message i) as [f Ef]; [lia|]. rewrite Ef.
  destruct (Z.eqb_spec (tag f) (fs_tag x)) as [Et|Et]; cbn [negb].
  2:{ case_bool_decide.
      - destruct (Herr i (fs_tag x) RequiredTagMissing v) as (w & -> & Hw); [lia|done|done|]. rewrite ok_bind.
        eexists _, _, _, _. split; [done|]. split_and!; [done|lia|lia|done|lia].
      - destruct (IH i count v Ht Hi (Ha' i ltac:(lia))) as (c & i' & count' & v' & -> & Hv & Hi' & Hc & _).
        eexists _, _, _, _. split; [done|]. split_and!; [done|lia|lia|done|lia]. }
  destruct (has_occured count (tag f)).
  { eexists _, _, _, _. split; [done|]. split_and!; [done|lia|lia|done|lia]. }
  destruct (set_tag_spec n P i v Ht ltac:(lia)) as (v1 & -> & Hv1 & _ & _).
  { apply (Ha i f); [lia|done|]. exists x. split; [constructor|by left]. }
  rewrite ok_bind. pose proof (vs_tags _ _ _ _ Hv1 Ht) as Ht1. rewrite (i32_small (i + 1)) by lia.
  case_bool_decide as Eg.
  - destruct (parse_int (value f)) as [cnt|].
    + destruct (Hx cnt (i + 1) v1) as (i2 & v2 & -> & Hv2 & Hi2); [lia|done| |].
      { eapply allows_mono; [exact Ha|lia|]. intros t Hg. exists x. split; [constructor|by right]. }
      rewrite ok_bind. rewrite (i32_small (i2 + 1)) by lia.
      destruct (IH (i2 + 1) (increment_tag_count (tag f) count) v2) as (c & i' & count' & v' & -> & Hv & Hi' & Hc & _);
        [by apply Hv2|lia|apply Ha'; lia|].
      eexists _, _, _, _. split; [done|]. split_and!; [|lia|lia|lia|lia]. transitivity v1; [done|by transitivity v2].
    + destruct (Herr (i + 1) (fs_tag x) IncorrectDataFormatForValue v1) as (w & -> & Hw); [lia|done|done|]. rewrite ok_bind.
      eexists _, _, _, _. split; [done|]. split_and!; [done|lia|lia|lia|lia].
  - destruct (validate_type_total x (value f) Hp) as [[] ->]; rewrite ok_bind; cbn [negb].
    + destruct (IH (i + 1) (increment_tag_count (tag f) count) v1) as (c & i' & count' & v' & -> & Hv & Hi' & Hc & _);
        [done|lia|apply Ha'; lia|].
      eexists _, _, _, _. split; [done|]. split_and!; [by transitivity v1|lia|lia|lia|lia].
    + destruct (Herr i (fs_tag x) IncorrectDataFormatForValue v1) as (w & -> & Hw); [lia|done|done|]. rewrite ok_bind.
      eexists _, _, _, _. split; [done|]. split_and!; [done|lia|lia|done|lia].
Qed.

Lemma reset_none count : atleast_one_occurence (reset_counts count) = false.
Proof using. induction count as [|[t c] count IH]; [done|]. exact IH. Qed.

(** The loop over the entries ends: an entry that does not fail uses up a field. *)
Lemma group_loop_spec nested d fuel g fields k cnt i count v :
  Forall (fun x => plain x = true /\ nested_ok d nested x) fields -> fields <> [] ->
  0 <= d < 2 ^ 30 -> tags_ok n (tagscratch_ v) -> 0 <= i -> allows (entry_tag fields) i ->
  (1 < fuel)%nat -> n - i + 1 < Z.of_nat fuel ->
  exists i' v', group_loop message nested fuel g fields k cnt i count v = Ok (i', v') /\
    vstep n P v v' /\ i <= i' <= Z.max i (n + d + 1).
Proof using Hn.
  intros Hf Hne Hd. revert k i count v. induction fuel as [|fuel IH]; intros k i count v Ht Hi Ha H1 Hfuel; [lia|].
  cbn [group_loop]. destruct (k <? cnt); [|eexists _, _; split; [done|]; split_and!; [done|lia|lia]].
  destruct (group_fields_spec nested d fields i (reset_counts count) v Hf Hd Ht Hi Ha)
    as (c & i' & count' & v' & -> & Hv & Hi' & Hc & Hend). rewrite ok_bind.
  destruct c; [|eexists _, _; split; [done|]; split_and!; [done|lia|lia]].
  destruct (atleast_one_occurence count') eqn:Eo.
  - assert (i' <> i) by (intros E; rewrite (Hc E), reset_none in Eo; done).
    assert (i < n) by (destruct (Z.lt_ge_cases i n); [done|discriminate (Hend ltac:(lia) Hne)]).
    destruct (IH (k + 1) i' count' v') as (i2 & v2 & -> & Hv2 & Hi2); [by apply Hv|lia| |lia|lia|].
    { eapply allows_mono; [exact Ha|lia|done]. }
    eexists _, _. split; [done|]. split_and!; [by transitivity v'|lia|lia].
  - destruct (push_error_spec n P [] (fs_tag g) IncorrectNumInGroupCount v') as (w & -> & Hw & _); [done|].
    rewrite ok_bind. eexists _, _. split; [done|]. split_and!; [by transitivity v'|lia|lia].
Qed.

Lemma group_depth_fields f fields x : group_schema f = Some fields -> x ∈ fields ->
  (group_depth x < group_depth f)%nat.
Proof using.
  destruct f as [t ty p g]; cbn. intros -> Hx. enough (group_depth x <= list_max (map group_depth fields))%nat by lia.
  pose proof (proj1 (list_max_le (map group_depth fields) _) (le_n _)) as H.
  rewrite List.Forall_forall in H. apply H, in_map. by apply list_elem_of_In.
Qed.

Lemma validate_groups_spec depth x : (group_depth x <= depth)%nat -> Z.of_nat depth < 2 ^ 30 -> plain x = true ->
  nested_ok (Z.of_nat depth) (validate_groups_ depth message) x.
Proof using Hn.
  revert x. induction depth as [|depth IH]; intros x Hd Hb Hp cnt i v Hi Ht Ha; cbn [validate_groups_];
    (destruct (cnt =? 0); [eexists _, _; split; [done|]; split_and!; [done|lia|lia]|]);
    destruct (group_schema x) as [fields|] eqn:Eg.
  1: { destruct x as [? ? ? []]; cbn in *; [lia|done]. }
  1,3: destruct (push_error_spec n P (B "Missing group schema") (fs_tag x) Other v) as (w & -> & Hw & _);
    [by vm_compute|]; rewrite ok_bind; eexists _, _; split; [done|]; split_and!; [done|lia|lia].
  destruct (Z.eqb_spec (zlen fields) 0) as [|Hne0].
  { destruct (push_error_spec n P (B "Missing group schema entry") (fs_tag x) Other v) as (w & -> & Hw & _);
      [by vm_compute|]. rewrite ok_bind. eexists _, _. split; [done|]. split_and!; [done|lia|lia]. }
  destruct (kMaxGroupCount <? zlen fields).
  { destruct (push_error_spec n P (B "Unsupported group size") (fs_tag x) Other v) as (w & -> & Hw & _);
      [by vm_compute|]. rewrite ok_bind. eexists _, _. split; [done|]. split_and!; [done|lia|lia]. }
  pose proof (plain_fields x fields Hp Eg) as Hpf. rewrite Forall_forall in Hpf.
  destruct (group_loop_spec (validate_groups_ depth message) (Z.of_nat depth) (S (S (length message))) x fields 0 cnt i
    ((fun f => (fs_tag f, 0)) <$> fields) v) as (i' & v' & -> & Hv & Hi').
  - apply Forall_forall. intros y Hy. split; [by apply Hpf|].
    apply IH; [|lia|by apply Hpf]. pose proof (group_depth_fields x fields y Eg Hy). lia.
  - by intros ->.
  - lia.
  - done.
  - lia.
  - eapply allows_mono; [exact Ha|done|]. intros t (y & Hy & [->|Hg]); [by eapply grp_here|by eapply grp_nested].
  - lia.
  - unfold zlen in *. lia.
  - eexists _, _. split; [done|]. split_and!; [done|lia|lia].
Qed.
End GroupLaws.

(** ** Fields *)

Lemma find_tag_Some t msg i f : find_tag t msg = Some (i, f) ->
  0 <= i < zlen msg /\ znth msg i = Some f /\ tag f = t /\
  forall j g, 0 <= j < i -> znth msg j = Some g -> tag g <> t.
Proof.
  unfold find_tag. intros ([k g] & Hp & [= -> ->])%fmap_Some. cbn in *.
  apply list_find_Some in Hp as (Hk & Ht & Hb). pose proof (lookup_lt_Some _ _ _ Hk).
  assert (Hz : forall j : nat, znth msg (Z.of_nat j) = msg !! j).
  { intros j. unfold znth. by rewrite (proj2 (Z.ltb_ge _ _)), Nat2Z.id by lia. }
  split_and!; [lia|unfold zlen; lia|by rewrite Hz|done|].
  intros j g' Hj. rewrite <- (Z2Nat.id j), Hz by lia. intros Hg. eapply Hb; [exact Hg|lia].
Qed.

Lemma find_tag_None t msg : find_tag t msg = None <-> t ∉ (tag <$> msg).
Proof.
  unfold find_tag. rewrite fmap_None, list_find_None, list_elem_of_fmap, Forall_forall.
  split; [intros H (f & -> & Hf); by apply (H f Hf)|intros H f Hf <-; eauto].
Qed.

Lemma find_tag_NoDup msg i f : NoDup (tag <$> msg) -> znth msg i = Some f -> find_tag (tag f) msg = Some (i, f).
Proof.
  intros Hnd Hf. destruct (find_tag (tag f) msg) as [[j g]|] eqn:E.
  - apply find_tag_Some in E as (Hj & Hg & Et & _). pose proof (znth_Some_lt _ _ _ Hf).
    assert (Hl : forall k h, 0 <= k -> znth msg k = Some h -> (tag <$> msg) !! Z.to_nat k = Some (tag h)).
    { intros k h Hk. unfold znth. rewrite (proj2 (Z.ltb_ge _ _)) by lia. intros E. by rewrite list_lookup_fmap, E. }
    assert (Z.to_nat j = Z.to_nat i).
    { eapply NoDup_lookup; [exact Hnd|apply Hl; [lia|done]|]. rewrite Et. apply Hl; [lia|done]. }
    assert (j = i) as -> by lia. congruence.
  - apply find_tag_None in E. exfalso. apply E, list_elem_of_fmap. exists f. split; [done|by eapply znth_elem].
Qed.

(** Field [i] of the message is accounted for by the entries [schema]: it is the first field
    with the tag of an entry, or it follows the count field of a group and has a tag of that
    group. *)
Definition known (msg : GenericMessage) (schema : list FieldSchema) (i : Z) : Prop :=
  exists f sf, znth msg i = Some f /\ sf ∈ schema /\
    (find_tag (fs_tag sf) msg = Some (i, f) \/
     exists j g, find_tag (fs_tag sf) msg = Some (j, g) /\ j < i /\ fs_type sf = GROUP /\ grp_tag sf (tag f)).

(** The message satisfies a schema entry. *)
Definition field_valid (msg : GenericMessage) (sf : FieldSchema) : Prop :=
  match find_tag (fs_tag sf) msg with
  | Some (_, f) =>
      if bool_decide (fs_type sf = GROUP) then is_Some (parse_int (value f))
      else validate_type_ (value f) (fs_type sf) = Ok true
  | None => fs_presence sf <> REQUIRED
  end.

Definition entry_ok (sf : FieldSchema) : Prop := plain sf = true /\ Z.of_nat (group_depth sf) < 2 ^ 30.

Lemma known_cons msg sf schema i : known msg schema i -> known msg (sf :: schema) i.
Proof. intros (f & x & ? & ? & ?). exists f, x. split_and!; [done|by constructor|done]. Qed.

Section FieldLaws.
Context (message : GenericMessage).
Abbreviation n := (zlen message).
Hypothesis Hn : n < 2 ^ 30.

Lemma validate_fields_spec schema v : Forall entry_ok schema -> tags_ok n (tagscratch_ v) ->
  exists v', validate_fields_ message schema v = Ok v' /\ vstep n (known message schema) v v' /\
    (errs v' = errs v -> Forall (field_valid message) schema).
Proof using Hn.
  intros Hs. revert v. induction Hs as [|sf schema [Hp Hd] _ IH]; intros v Ht; cbn [validate_fields_].
  { exists v. split_and!; [done|done|constructor]. }
  set (K := known message (sf :: schema)).
  assert (Hrest : forall v1, tags_ok n (tagscratch_ v) -> vstep n K v v1 -> (errs v1 = errs v -> field_valid message sf) ->
    exists v', validate_fields_ message schema v1 = Ok v' /\ vstep n K v v' /\
      (errs v' = errs v -> Forall (field_valid message) (sf :: schema))).
  { intros v1 _ H1 Hv. destruct (IH v1 (vs_tags _ _ _ _ H1 Ht)) as (v' & -> & H2 & Hf).
    apply (vstep_weaken _ _ K) in H2; [|intros; by apply known_cons].
    exists v'. split_and!; [done|by transitivity v1|]. intros E.
    destruct (vstep_same_errs _ _ _ _ _ H1 H2 E) as [E1 E2]. constructor; [by apply Hv|by apply Hf]. }
  assert (Herr : forall t c v1, vstep n K v v1 -> exists v', push_error [] t c v1 = Ok v' /\ vstep n K v v' /\
      (errs v' = errs v -> Forall (field_valid message) (sf :: schema))).
  { intros t c v1 H1. destruct (push_error_spec n K [] t c v1) as (w & -> & Hw & Hne); [done|].
    exists w. split_and!; [done|by transitivity v1|]. intros E.
    destruct (vstep_same_errs _ _ _ _ _ H1 Hw E) as [E1 E2]. done. }
  unfold field_valid in Hrest. destruct (find_tag (fs_tag sf) message) as [[i f]|] eqn:Ef.
  - destruct (find_tag_Some _ _ _ _ Ef) as (Hi & Hf & Et & _).
    destruct (set_tag_spec n K i v Ht Hi) as (v1 & -> & H1 & E1 & _).
    { exists f, sf. split_and!; [done|constructor|by left]. }
    rewrite ok_bind. pose proof (vs_tags _ _ _ _ H1 Ht) as Ht1.
    case_bool_decide as Eg.
    + destruct (parse_int (value f)) as [cnt|] eqn:Ec; [|by apply Herr].
      rewrite (i32_small i), (i32_small (i + 1)) by lia.
      destruct (validate_groups_spec message K Hn (group_depth sf) sf (le_n _) Hd Hp cnt (i + 1) v1)
        as (i' & v2 & -> & H2 & _); [lia|done| |].
      { intros j g Hj Hg Htg. exists g, sf. split_and!; [done|constructor|right]. exists i, f. split_and!; [done|lia|done|done]. }
      rewrite ok_bind. apply Hrest; [done|by transitivity v1|]. intros _. by eexists.
    + destruct (validate_type_total sf (value f) Hp) as [[] E]; rewrite E, ok_bind; cbn [negb]; [|by apply Herr].
      by apply Hrest.
  - case_bool_decide as Er; [by apply Herr|]. by apply Hrest.
Qed.

(** Without groups, an entry list that is satisfied adds no error and marks its fields. *)
Lemma validate_fields_accept schema v : Forall entry_ok schema -> tags_ok n (tagscratch_ v) ->
  Forall (fun sf => field_valid message sf /\ (fs_type sf = GROUP -> find_tag (fs_tag sf) message = None)) schema ->
  exists v', validate_fields_ message schema v = Ok v' /\ vstep n (known message schema) v v' /\ errs v' = errs v /\
    forall sf i f, sf ∈ schema -> find_tag (fs_tag sf) message = Some (i, f) -> marked v' i = true.
Proof using Hn.
  intros Hs Ht Hf. destruct (validate_fields_spec schema v Hs Ht) as (w & Ew & Hw & _).
  enough (exists v', validate_fields_ message schema v = Ok v' /\ errs v' = errs v /\
    forall sf i f, sf ∈ schema -> find_tag (fs_tag sf) message = Some (i, f) -> marked v' i = true) as (v' & E & He & Hm).
  { rewrite Ew in E. injection E as <-. exists w. done. }
  clear w Ew Hw. revert v Ht. induction Hs as [|sf schema [Hp Hd] Hs IH]; intros v Ht; cbn [validate_fields_].
  { exists v. split_and!; [done|done|]. by intros ? ? ? ?%elem_of_nil. }
  apply Forall_cons in Hf as [[Hv Hg] Hf].
  assert (Hrest : forall v1, tags_ok n (tagscratch_ v1) -> errs v1 = errs v ->
    (forall i f, find_tag (fs_tag sf) message = Some (i, f) -> marked v1 i = true) ->
    exists v', validate_fields_ message schema v1 = Ok v' /\ errs v' = errs v /\
      forall x i f, x ∈ sf :: schema -> find_tag (fs_tag x) message = Some (i, f) -> marked v' i = true).
  { intros v1 Ht1 E1 Hm1. destruct (IH Hf v1 Ht1) as (v' & E' & He & Hm).
    destruct (validate_fields_spec schema v1 Hs Ht1) as (w & Ew & Hw & _). rewrite E' in Ew. injection Ew as <-.
    exists v'. split_and!; [done|congruence|]. intros x i f [->|Hx]%elem_of_cons Hx2; [|by eapply Hm].
    apply (vs_keep _ _ _ _ Hw); [apply find_tag_Some in Hx2; lia|by eapply Hm1]. }
  unfold field_valid in Hv. destruct (find_tag (fs_tag sf) message) as [[i f]|] eqn:Ef.
  - destruct (find_tag_Some _ _ _ _ Ef) as (Hi & _).
    destruct (set_tag_spec n (fun _ => True) i v Ht Hi I) as (v1 & -> & H1 & E1 & Hm1). rewrite ok_bind.
    case_bool_decide as Eg; [by specialize (Hg Eg)|]. rewrite Hv, ok_bind. cbn [negb].
    apply Hrest; [by apply H1|done|]. by intros j g [= <- <-].
  - case_bool_decide; [done|]. by apply Hrest.
Qed.
End FieldLaws.

(** ** Messages *)

(** The schema of a message type with the header and the trailer. *)
Definition full_schema (s : MessageSchema) : list FieldSchema :=
  StandardHeaderSchema ++ Schema.body s ++ TrailerSchema.

Lemma entry_ok_dec sf : (plain sf && (Z.of_nat (group_depth sf) <? 2 ^ 30)) = true -> entry_ok sf.
Proof. intros [? ?%Z.ltb_lt]%andb_true_iff. done. Qed.

Lemma entries_ok l : forallb (fun sf => plain sf && (Z.of_nat (group_depth sf) <? 2 ^ 30)) l = true -> Forall entry_ok l.
Proof. rewrite forallb_Forall. intros H. eapply Forall_impl; [exact H|]. intros sf. apply entry_ok_dec. Qed.

Lemma header_entries_ok : Forall entry_ok StandardHeaderSchema.
Proof. by apply entries_ok. Qed.
Lemma trailer_entries_ok : Forall entry_ok TrailerSchema.
Proof. by apply entries_ok. Qed.
Lemma body_entries_ok t s : Schema.get t = Ok (Some s) -> Forall entry_ok (Schema.body s) /\ msg_type s = t.
Proof.
  rewrite get_find.
  destruct (list_find (fun s => msg_type s = t) message_schemas) as [[k s']|] eqn:Ef; [|done].
  intros [= ->]. apply list_find_Some in Ef as (Hk & Ht & _). split; [|done].
  assert (Ha : Forall (fun s => Forall entry_ok (Schema.body s)) message_schemas)
    by (repeat (constructor; [by apply entries_ok|]); constructor).
  rewrite Forall_lookup in Ha. by eapply Ha.
Qed.

(** The header conditions: the version, the types of the first fields, the sequence number
    and the two CompIDs. *)
Record header_valid (m : ValidMessage) (t : bytes) (params : SessionParameters) : Prop := {
  hv_version : exists f, znth (message_ m) 0 = Some f /\ value f = DEFAULT_FIX_VERSION;
  hv_length : exists f, znth (message_ m) 1 = Some f /\ is_int_type (value f) = true;
  hv_type : exists f, znth (message_ m) 2 = Some f /\ value f = t;
  hv_seq : exists s, slot m MsgSeqNumSlot = Some s /\ is_int_type s = true;
  hv_sender : slot m SenderCompIDSlot = Some (target_comp_id params);
  hv_target : slot m TargetCompIDSlot = Some (sender_comp_id params)
}.

Lemma validate_header_valid m t params v : header_valid m t params ->
  validate_header_ m t params v = validate_fields_ (message_ m) StandardHeaderSchema v.
Proof.
  intros [(f0 & E0 & H0) (f1 & E1 & H1) (f2 & E2 & H2) (s & Es & Hs) Hsnd Htgt].
  unfold validate_header_, header_value. pose proof (znth_Some_lt _ _ _ E2).
  rewrite (proj2 (Z.ltb_ge _ _)), E0, E1, E2, !ok_bind by lia. cbn [validate_type_]. rewrite !ok_bind, H0, H2, H1, Es.
  cbn [validate_type_]. rewrite !ok_bind, Hs, Hsnd, Htgt. rewrite !bool_decide_true by done. done.
Qed.

Lemma validate_header_spec m t params v : zlen (message_ m) < 2 ^ 30 -> tags_ok (zlen (message_ m)) (tagscratch_ v) ->
  exists v', validate_header_ m t params v = Ok v' /\
    vstep (zlen (message_ m)) (known (message_ m) StandardHeaderSchema) v v' /\
    (errs v' = errs v -> header_valid m t params /\ Forall (field_valid (message_ m)) StandardHeaderSchema).
Proof.
  intros Hn Ht. set (K := known (message_ m) StandardHeaderSchema).
  assert (Hfatal : forall i tg c, zlen i <= 32 -> exists v', push_fatal i tg c v = Ok v' /\ vstep (zlen (message_ m)) K v v' /\
    (errs v' = errs v -> header_valid m t params /\ Forall (field_valid (message_ m)) StandardHeaderSchema)).
  { intros i tg c Hi. destruct (push_fatal_spec (zlen (message_ m)) K i tg c v Hi) as (w & -> & ? & ?). by exists w. }
  assert (Herr : forall tg c, exists v', push_error [] tg c v = Ok v' /\ vstep (zlen (message_ m)) K v v' /\
    (errs v' = errs v -> header_valid m t params /\ Forall (field_valid (message_ m)) StandardHeaderSchema)).
  { intros tg c. destruct (push_error_spec (zlen (message_ m)) K [] tg c v) as (w & -> & ? & ?); [done|]. by exists w. }
  unfold validate_header_, header_value. destruct (Z.ltb_spec (zlen (message_ m)) 3); [by apply Hfatal|].
  destruct (znth_is_Some (message_ m) 0) as [f0 E0]; [lia|].
  destruct (znth_is_Some (message_ m) 1) as [f1 E1]; [lia|].
  destruct (znth_is_Some (message_ m) 2) as [f2 E2]; [lia|].
  rewrite E0, E1, E2, !ok_bind. cbn [validate_type_]. rewrite !ok_bind. cbn [negb orb].
  destruct (bool_decide (value f0 = DEFAULT_FIX_VERSION)) eqn:B0; cbn [negb]; [|by apply Hfatal].
  destruct (is_int_type (value f1)) eqn:B1; cbn [negb]; [|by apply Herr].
  destruct (bool_decide (value f2 = t)) eqn:B2; cbn [negb]; [|by apply Herr].
  destruct (slot m MsgSeqNumSlot) as [s|] eqn:Es; rewrite ok_bind; cbn [negb]; [|by apply Hfatal].
  destruct (is_int_type s) eqn:B3; cbn [negb]; [|by apply Hfatal].
  destruct (bool_decide (slot m SenderCompIDSlot = _)) eqn:B4; cbn [negb]; [|by apply Hfatal].
  destruct (bool_decide (slot m TargetCompIDSlot = _)) eqn:B5; cbn [negb]; [|by apply Hfatal].
  destruct (validate_fields_spec (message_ m) Hn StandardHeaderSchema v header_entries_ok Ht) as (v' & -> & Hv & Hf).
  exists v'. split_and!; [done|done|]. intros E. split; [|by apply Hf].
  apply bool_decide_eq_true in B0, B2, B4, B5. split; eauto.
Qed.

(** What an accepted message satisfies. *)
Record accepted (m : ValidMessage) (params : SessionParameters) (t : bytes) (s : MessageSchema) : Prop := {
  ac_type : slot m MsgTypeSlot = Some t;
  ac_schema : Schema.get t = Ok (Some s);
  ac_header : header_valid m t params;
  ac_fields : Forall (field_valid (message_ m)) (full_schema s);
  ac_known : forall i, 0 <= i < zlen (message_ m) -> known (message_ m) (full_schema s) i
}.

Lemma known_app msg s1 s2 i : known msg s1 i \/ known msg s2 i -> known msg (s1 ++ s2) i.
Proof. intros [(f & x & ? & ? & ?)|(f & x & ? & ? & ?)]; exists f, x; rewrite elem_of_app; auto. Qed.

Lemma validate_message_spec m params v : zlen (message_ m) < 2 ^ 30 ->
  exists v', validate_message m params v = Ok v' /\ (errs v' = [] -> exists t s, accepted m params t s).
Proof.
  intros Hn. unfold validate_message. set (n := zlen (message_ m)) in *. pose proof (zlen_nonneg (message_ m)) as Hn0.
  destruct (ensure_clear_spec n (tagscratch_ v) Hn0) as [Ht Hb].
  set (v0 := mk_validator _ _). change (ts_clear (ensure_bits n (tagscratch_ v))) with (tagscratch_ v0) in Ht, Hb.
  assert (Herr : forall tg c v1, exists v', push_error [] tg c v1 = Ok v' /\ (errs v' = [] -> exists t s, accepted m params t s)).
  { intros tg c v1. unfold push_error, error_string. cbn. eexists. split; [done|]. unfold errs; cbn.
    by intros [_ ?]%app_eq_nil. }
  destruct (slot m MsgTypeSlot) as [t|] eqn:Est; [|apply Herr].
  destruct (Schema.get t) as [[s|]|] eqn:Eg; [..|by rewrite get_find in Eg]; rewrite ok_bind; [|apply Herr].
  destruct (body_entries_ok t s Eg) as [Hbody _].
  destruct (validate_header_spec m t params v0 Hn Ht) as (v1 & -> & H1 & Hf1). rewrite ok_bind.
  destruct (validate_fields_spec (message_ m) Hn (Schema.body s) v1 Hbody (vs_tags _ _ _ _ H1 Ht)) as (v2 & -> & H2 & Hf2).
  pose proof (vs_tags _ _ _ _ H2 (vs_tags _ _ _ _ H1 Ht)) as Ht2. rewrite ok_bind. unfold validate_trailer_.
  destruct (validate_fields_spec (message_ m) Hn TrailerSchema v2 trailer_entries_ok Ht2) as (v3 & -> & H3 & Hf3).
  rewrite ok_bind. set (K := known (message_ m) (full_schema s)).
  assert (W1 : vstep n K v0 v1) by (eapply vstep_weaken; [|exact H1]; intros; apply known_app; by left).
  assert (W2 : vstep n K v1 v2) by (eapply vstep_weaken; [|exact H2]; intros; apply known_app; right; apply known_app; by left).
  assert (W3 : vstep n K v2 v3) by (eapply vstep_weaken; [|exact H3]; intros; apply known_app; right; apply known_app; by right).
  destruct (errors (results_ v3)) eqn:Ee; [|exists v3; split; [done|]; unfold errs; by rewrite Ee].
  destruct (ts_full_spec n (tagscratch_ v3) (vs_tags _ _ _ _ H3 Ht2) Hn0) as (b & -> & Hfull). rewrite ok_bind.
  destruct b; cbn [negb]; [|apply Herr]. exists v3. split; [done|]. intros E3. exists t, s.
  assert (W12 : vstep n K v0 v2) by (by transitivity v1).
  destruct (vstep_same_errs _ _ _ _ _ W12 W3 E3) as [E02 E23].
  destruct (vstep_same_errs _ _ _ _ _ W1 W2 E02) as [E01 E12].
  destruct (Hf1 E01) as [Hh Hfh]. split; [done|done|done| |].
  - unfold full_schema. rewrite !Forall_app. split_and!; [done|by apply Hf2|by apply Hf3].
  - intros i Hi. assert (W : vstep n K v0 v3) by (by transitivity v2).
    destruct (vs_new _ _ _ _ W i ltac:(lia) (proj1 Hfull eq_refl i Hi)) as [Hm|Hk]; [|done].
    unfold marked in Hm. by rewrite Hb in Hm.
Qed.

(** What is validated without an error is of a registered type, however long it is. *)
Lemma validated m params v v' : validate_message m params v = Ok v' -> errors (results_ v') = [] ->
  exists t s, slot m MsgTypeSlot = Some t /\ Schema.get t = Ok (Some s) /\ (zlen (message_ m) < 2 ^ 30 -> accepted m params t s).
Proof.
  intros E He. assert (H : exists t s, slot m MsgTypeSlot = Some t /\ Schema.get t = Ok (Some s)).
  { assert (Herr : forall tg c v1, push_error [] tg c v1 <> Ok v').
    { intros tg c v1. unfold push_error, error_string. cbn. intros [= <-]. cbn in He. destruct (errors (results_ v1)); discriminate He. }
    unfold validate_message in E. cbv zeta in E. destruct (slot m MsgTypeSlot) as [t|]; [|destruct (Herr _ _ _ E)].
    destruct (Schema.get t) as [[s|]|] eqn:Eg; cbn [mbind res_bind] in E; [by exists t, s|destruct (Herr _ _ _ E)|done]. }
  destruct H as (t & s & Ht & Hs). exists t, s. split_and!; [done|done|]. intros Hn.
  destruct (validate_message_spec m params v Hn) as (w & Ew & Hw). rewrite E in Ew. injection Ew as <-.
  destruct (Hw He) as (t' & s' & A). pose proof (ac_type _ _ _ _ A). pose proof (ac_schema _ _ _ _ A). congruence.
Qed.

(** C23: the validator is total and sound.  On every message of fewer than 2^30 fields it
    returns, without leaving the message or its bit set, whatever the bit set held before; the
    repeating-group loop ends even when the announced count is huge.  If there is no error, the
    message has a registered type, the supported version,
    an integer sequence number and the CompIDs of the session (swapped); each required
    field of the header, the type and the trailer is present and each present one has the
    format of its type; and every field of the message is accounted for: it is the first
    with the tag of a schema entry, or a member of a repeating group after its count, so
    unknown and duplicated fields are rejected. *)
Theorem validator_sound m params v : zlen (message_ m) < 2 ^ 30 ->
  exists v', validate_message m params v = Ok v' /\ (errors (results_ v') = [] -> exists t s, accepted m params t s).
Proof. exact (validate_message_spec m params v). Qed.

(** A message without repeating groups that satisfies its schema. *)
Record conforms (m : ValidMessage) (params : SessionParameters) (t : bytes) (s : MessageSchema) : Prop := {
  cf_type : slot m MsgTypeSlot = Some t;
  cf_schema : Schema.get t = Ok (Some s);
  cf_header : header_valid m t params;
  cf_nodup : NoDup (tag <$> message_ m);
  cf_fields : Forall (fun sf => field_valid (message_ m) sf /\
                (fs_type sf = GROUP -> find_tag (fs_tag sf) (message_ m) = None)) (full_schema s);
  cf_known : Forall (fun f => tag f ∈ (fs_tag <$> full_schema s)) (message_ m)
}.

(** Conforming messages are accepted. *)
Lemma conforms_accepted m params v t s : zlen (message_ m) < 2 ^ 30 -> conforms m params t s ->
  exists v', validate_message m params v = Ok v' /\ errors (results_ v') = [] /\ severity (results_ v') = Moderate.
Proof.
  intros Hn [Hty Hsc Hh Hnd Hf Hk]. unfold validate_message. set (n := zlen (message_ m)) in *.
  pose proof (zlen_nonneg (message_ m)) as Hn0.
  destruct (ensure_clear_spec n (tagscratch_ v) Hn0) as [Ht _].
  set (v0 := mk_validator _ _). change (ts_clear (ensure_bits n (tagscratch_ v))) with (tagscratch_ v0) in Ht.
  rewrite Hty, Hsc, ok_bind, validate_header_valid by done. destruct (body_entries_ok t s Hsc) as [Hbody _].
  unfold full_schema in Hf. rewrite !Forall_app in Hf. destruct Hf as (Hf1 & Hf2 & Hf3).
  destruct (validate_fields_accept (message_ m) Hn _ v0 header_entries_ok Ht Hf1) as (v1 & -> & H1 & E1 & M1).
  rewrite ok_bind. pose proof (vs_tags _ _ _ _ H1 Ht) as Ht1.
  destruct (validate_fields_accept (message_ m) Hn _ v1 Hbody Ht1 Hf2) as (v2 & -> & H2 & E2 & M2).
  rewrite ok_bind. pose proof (vs_tags _ _ _ _ H2 Ht1) as Ht2. unfold validate_trailer_.
  destruct (validate_fields_accept (message_ m) Hn _ v2 trailer_entries_ok Ht2 Hf3) as (v3 & -> & H3 & E3 & M3).
  rewrite ok_bind. assert (Ee : errors (results_ v3) = []) by (change (errs v3 = []); by rewrite E3, E2, E1).
  rewrite Ee. destruct (ts_full_spec n (tagscratch_ v3) (vs_tags _ _ _ _ H3 Ht2) Hn0) as (b & -> & Hb). rewrite ok_bind.
  assert (Hsev : severity (results_ v3) = Moderate)
    by (rewrite (vs_severity _ _ _ _ H3 E3), (vs_severity _ _ _ _ H2 E2), (vs_severity _ _ _ _ H1 E1); done).
  assert (b = true) as ->; [|by exists v3].
  apply Hb. intros i Hi. destruct (znth_is_Some (message_ m) i Hi) as [f Ef].
  pose proof (find_tag_NoDup _ _ _ Hnd Ef) as Eft. rewrite Forall_forall in Hk.
  specialize (Hk f (znth_elem _ _ _ Ef)). apply list_elem_of_fmap in Hk as (sf & Et & Hsf). rewrite Et in Eft.
  unfold full_schema in Hsf. rewrite !elem_of_app in Hsf.
  change (marked v3 i = true). destruct Hsf as [Hsf|[Hsf|Hsf]].
  - apply (vs_keep _ _ _ _ H3), (vs_keep _ _ _ _ H2); [lia..|]. by eapply M1.
  - apply (vs_keep _ _ _ _ H3); [lia|]. by eapply M2.
  - by eapply M3.
Qed.

(** No field announces a repeating group. *)
Definition group_free (msg : GenericMessage) : Prop :=
  Forall (fun f => forall s, s ∈ message_schemas -> forall sf, sf ∈ full_schema s -> fs_type sf = GROUP -> tag f <> fs_tag sf) msg.

Lemma get_registered t s : Schema.get t = Ok (Some s) -> s ∈ message_schemas.
Proof.
  rewrite get_find. destruct (list_find (fun s => msg_type s = t) message_schemas) as [[k s']|] eqn:Ef; [|done].
  intros [= ->]. apply list_find_Some in Ef as (Hk & _). by eapply list_elem_of_lookup_2.
Qed.

Lemma group_free_none m params t s sf : accepted m params t s -> group_free (message_ m) -> sf ∈ full_schema s ->
  fs_type sf = GROUP -> find_tag (fs_tag sf) (message_ m) = None.
Proof.
  intros [_ Hs _ _ _] Hg Hsf Hty. apply find_tag_None. rewrite list_elem_of_fmap. intros (f & E & Hf).
  unfold group_free in Hg. rewrite Forall_forall in Hg.
  by apply (Hg f Hf s (get_registered t s Hs) sf Hsf Hty).
Qed.

Lemma accepted_conforms m params t s : accepted m params t s -> group_free (message_ m) -> conforms m params t s.
Proof.
  intros A Hg. pose proof (group_free_none m params t s) as Hnone. destruct (A) as [Ht Hs Hh Hf Hk].
  assert (Hfirst : forall i f, znth (message_ m) i = Some f ->
    find_tag (tag f) (message_ m) = Some (i, f) /\ tag f ∈ (fs_tag <$> full_schema s)).
  { intros i f Ef. destruct (Hk i (znth_Some_lt _ _ _ Ef)) as (g & sf & Eg & Hsf & Hc).
    rewrite Ef in Eg. injection Eg as <-. destruct Hc as [Hc|(j & g & Hj & _ & Hty & _)].
    - destruct (find_tag_Some _ _ _ _ Hc) as (_ & _ & Et & _). rewrite Et. split; [done|]. apply list_elem_of_fmap. by exists sf.
    - by rewrite (Hnone sf A Hg Hsf Hty) in Hj. }
  split; [done|done|done| | |].
  - apply NoDup_alt. intros i j x Hi Hj. rewrite list_lookup_fmap in Hi, Hj.
    apply fmap_Some in Hi as (f & Hi & ->). apply fmap_Some in Hj as (g & Hj & Eg).
    assert (Hz : forall k h, message_ m !! k = Some h -> znth (message_ m) (Z.of_nat k) = Some h).
    { intros k h. unfold znth. by rewrite (proj2 (Z.ltb_ge _ _)), Nat2Z.id by lia. }
    destruct (Hfirst _ _ (Hz _ _ Hi)) as [E1 _], (Hfirst _ _ (Hz _ _ Hj)) as [E2 _].
    rewrite Eg, E2 in E1. injection E1 as E1 _. lia.
  - rewrite Forall_forall in Hf |- *. intros sf Hsf. split; [by apply Hf|]. by apply Hnone.
  - apply Forall_forall. intros f (i & Hi)%list_elem_of_lookup. eapply (Hfirst (Z.of_nat i)).
    unfold znth. by rewrite (proj2 (Z.ltb_ge _ _)), Nat2Z.id by lia.
Qed.

(** C22: without repeating groups the validator decides exactly: it reports no error if and
    only if the message has a registered type and a valid header, its tags are distinct and
    known to the header, the type or the trailer, every required field is present, and every
    field has the format of its type. *)
Theorem validator_exact m params v : zlen (message_ m) < 2 ^ 30 -> group_free (message_ m) ->
  (exists v', validate_message m params v = Ok v' /\ errors (results_ v') = []) <->
  exists t s, conforms m params t s.
Proof.
  intros Hn Hg. split.
  - intros (v' & E & He). destruct (validate_message_spec m params v Hn) as (w & Ew & Hw).
    rewrite E in Ew. injection Ew as <-. destruct (Hw He) as (t & s & A). exists t, s. by apply accepted_conforms.
  - intros (t & s & C). destruct (conforms_accepted m params v t s Hn C) as (v' & E & He & _). by exists v'.
Qed.

Definition demo_params : SessionParameters :=
  mk_params (B "0") (B "FIX.4.4") (B "US") (B "THEM") 30 0 false true.

Definition demo_message : ValidMessage := make_valid_message_view
  [mk_field 8 (B "FIX.4.4"); mk_field 9 (B "40"); mk_field 35 (B "0"); mk_field 34 (B "7");
   mk_field 49 (B "THEM"); mk_field 56 (B "US"); mk_field 52 (B "Now"); mk_field 10 (B "123")].

Example validator_sound_witness :
  exists v', validate_message demo_message demo_params validator_new = Ok v' /\
    (errors (results_ v') = [] -> exists t s, accepted demo_message demo_params t s).
Proof. apply (validator_sound demo_message demo_params validator_new). by vm_compute. Defined.
Example demo_message_valid : match validate_message demo_message demo_params validator_new with Ok v => errors (results_ v) = [] | Err _ => False end.
Proof. by vm_compute. Qed.

Example validator_exact_witness :
  (exists v', validate_message demo_message demo_params validator_new = Ok v' /\ errors (results_ v') = []) <->
  exists t s, conforms demo_message demo_params t s.
Proof.
  apply (validator_exact demo_message demo_params validator_new); [by vm_compute|].
  apply Forall_forall. intros f Hf s Hs sf Hsf Hty.
  assert (Ha : Forall (fun s => Forall (fun sf => fs_type sf = GROUP -> fs_tag sf = 384 \/ fs_tag sf = 627) (full_schema s)) message_schemas)
    by (repeat (constructor; [repeat (constructor; [by auto|]); constructor|]); constructor).
  rewrite Forall_forall in Ha. specialize (Ha s Hs). rewrite Forall_forall in Ha. specialize (Ha sf Hsf Hty).
  assert (Hb : Forall (fun f => tag f <> 384 /\ tag f <> 627) (message_ demo_message))
    by (repeat (constructor; [done|]); constructor).
  rewrite Forall_forall in Hb. destruct (Hb f Hf). destruct Ha; congruence.
Defined.
