(* ===== verification/MessageStore.v ===== *)
(** [Fix::MessageStore] and [Fix::ResendStream] (include/fix/core/MessageStore.hpp,
    src/MessageStore.cpp): the outbound messages kept for resending, in one blob with an
    index entry per message, and the stream of actions that answers a resend request. *)
From Stdlib Require Import Strings.Byte.
From S2P Require Import Prelude.
From S2P Require Import Text.
From S2P Require Import Message.
From S2P Require Import Parser.

Record MsgIndex : Set := mk_index {
  off : Z;
  len : Z;
  seq : Z;
  off_34 : Z;
  off_52 : Z;
  off_43 : Z;
  off_122 : Z;
  len_34 : Z;
  len_43 : Z;
  len_122 : Z;
  len_52 : Z;
  mi_type : bytes;
  msg_size : Z
}.

(** [MsgIndex idx{}] with the offset and length set. *)
Definition fresh_index (o l : Z) : MsgIndex :=
  mk_index o l 0 (-1) (-1) (-1) (-1) 0 0 0 0 [x00; x00] 1.

Definition get_msg_type (i : MsgIndex) : bytes := ztake (msg_size i) (mi_type i).

(** The branches on the tag of one field; [o] is the offset of its value. *)
Definition patch_point (tag value : bytes) (o : Z) (i : MsgIndex) : Res MsgIndex :=
  let l := u16 (zlen value) in
  if bool_decide (tag = B "34") then
    let r := from_chars 32 value in
    check! errc_is_ok (fc_ec r) in
    Ok (mk_index (off i) (len i) (fc_or 0 r) (i32 o) (off_52 i) (off_43 i) (off_122 i)
                 l (len_43 i) (len_122 i) (len_52 i) (mi_type i) (msg_size i))
  else if bool_decide (tag = B "52") then
    Ok (mk_index (off i) (len i) (seq i) (off_34 i) (i32 o) (off_43 i) (off_122 i)
                 (len_34 i) (len_43 i) (len_122 i) l (mi_type i) (msg_size i))
  else if bool_decide (tag = B "43") then
    Ok (mk_index (off i) (len i) (seq i) (off_34 i) (off_52 i) (i32 o) (off_122 i)
                 (len_34 i) l (len_122 i) (len_52 i) (mi_type i) (msg_size i))
  else if bool_decide (tag = B "122") then
    Ok (mk_index (off i) (len i) (seq i) (off_34 i) (off_52 i) (off_43 i) (i32 o)
                 (len_34 i) (len_43 i) l (len_52 i) (mi_type i) (msg_size i))
  else if bool_decide (tag = B "35") then
    let n := u8 (Z.min (zlen value) 2) in
    Ok (mk_index (off i) (len i) (seq i) (off_34 i) (off_52 i) (off_43 i) (off_122 i)
                 (len_34 i) (len_43 i) (len_122 i) (len_52 i) (blit 0 (ztake n value) (mi_type i)) n)
  else Ok i.

Fixpoint index_loop (fuel : nat) (wire : bytes) (pos : Z) (i : MsgIndex) : Res MsgIndex :=
  match fuel with
  | O => Err OutOfFuel
  | S fuel' =>
      if pos <? zlen wire then
        match find [x3d] wire pos with
        | None => Err AssertFailed
        | Some eq_pos =>
            match find [SOH] wire (eq_pos + 1) with
            | None => Err AssertFailed
            | Some soh_pos =>
                let tag := zsub pos (eq_pos - pos) wire in
                let value := zsub (eq_pos + 1) (soh_pos - eq_pos - 1) wire in
                if bool_decide (tag = B "10") then Ok i
                else
                  let! i := patch_point tag value (eq_pos + 1) i in
                  index_loop fuel' wire (soh_pos + 1) i
            end
        end
      else Ok i
  end.

Definition create_message_index (wire : bytes) (o : Z) : Res MsgIndex :=
  index_loop (S (length wire)) wire 0 (fresh_index o (u32 (zlen wire))).

(** ** The store *)

Definition blob_buffer_start_size : Z := 8 * 1024 * 1024.
Definition min_blob_buffer_grow_size : Z := 4 * 1024 * 1024.

(** [blob_buffer_] is the written prefix of the block of [blob_buffer_size_] bytes. *)
Record MessageStore : Type := mk_store {
  outbound_index_ : list MsgIndex;
  blob_buffer_ : bytes;
  blob_buffer_size_ : Z;
  blob_buffer_used_ : Z
}.

Definition message_store_new : MessageStore := mk_store [] [] blob_buffer_start_size 0.

Definition grow_blob_buffer_ (additional_size : Z) (s : MessageStore) : MessageStore :=
  let new_size := u64 (blob_buffer_size_ s + Z.max min_blob_buffer_grow_size additional_size) in
  mk_store (outbound_index_ s) (ztake (blob_buffer_used_ s) (blob_buffer_ s)) (u32 new_size) (blob_buffer_used_ s).

Definition store_outbound_message (wire : bytes) (s : MessageStore) : Res MessageStore :=
  let s := if blob_buffer_size_ s <? u64 (blob_buffer_used_ s + zlen wire)
           then grow_blob_buffer_ (u64 (zlen wire + blob_buffer_used_ s - blob_buffer_size_ s)) s else s in
  let blob := blit (blob_buffer_used_ s) wire (blob_buffer_ s) in
  let! msg_index := create_message_index wire (blob_buffer_used_ s) in
  check! seq msg_index =? zlen (outbound_index_ s) + 1 in
  Ok (mk_store (outbound_index_ s ++ [msg_index]) blob (blob_buffer_size_ s) (u32 (blob_buffer_used_ s + zlen wire))).

Definition all_messages (s : MessageStore) : bytes := ztake (blob_buffer_used_ s) (blob_buffer_ s).

Definition get_message_index (seq_num : Z) (s : MessageStore) : Res MsgIndex :=
  check! (0 <? seq_num) && (seq_num <=? zlen (outbound_index_ s)) in
  match znth (outbound_index_ s) (seq_num - 1) with
  | None => Err OutOfBounds
  | Some i => Ok i
  end.

Definition get_message_wire (i : MsgIndex) (s : MessageStore) : bytes := zsub (off i) (len i) (blob_buffer_ s).

(** ** Resending *)

Record ResendAction : Set := mk_action { begin_seq_no : Z; end_seq_no : Z; gap_fill : bool }.

Record ResendStream : Type := mk_stream {
  rs_index : list MsgIndex;
  current_index_ : Z;
  end_seq_no_ : Z
}.

Definition get_resend_stream (b e : Z) (s : MessageStore) : ResendStream :=
  mk_stream (outbound_index_ s) (u32 b) (u32 e).

Definition no_resend (msg_type : bytes) : bool :=
  match msg_type with
  | [c] => existsb (Byte.eqb c) [x30; x41; x32; x31; x33; x34; x35]
  | _ => false
  end.

Definition has_next (r : ResendStream) : bool := current_index_ r <=? end_seq_no_ r.

(** The [while] of [next]: skips messages that are not resent. *)
Fixpoint skip_loop (fuel : nat) (r : ResendStream) (gap : bool) : Res (ResendStream * bool) :=
  match fuel with
  | O => Err OutOfFuel
  | S fuel' =>
      if current_index_ r <=? end_seq_no_ r then
        match znth (rs_index r) (u32 (current_index_ r - 1)) with
        | None => Err OutOfBounds
        | Some i =>
            if no_resend (get_msg_type i)
            then skip_loop fuel' (mk_stream (rs_index r) (u32 (current_index_ r + 1)) (end_seq_no_ r)) true
            else Ok (r, gap)
        end
      else Ok (r, gap)
  end.

Definition next (r : ResendStream) : Res (ResendAction * ResendStream) :=
  let start := current_index_ r in
  let! '(r, gap) := skip_loop (S (S (length (rs_index r)))) r false in
  let end_ := if (gap : bool) then u32 (current_index_ r - 1) else current_index_ r in
  let r := if gap then r else mk_stream (rs_index r) (u32 (current_index_ r + 1)) (end_seq_no_ r) in
  Ok (mk_action start end_ gap, r).

(** [while (stream.has_next()) { auto action = stream.next(); ... }]. *)
Fixpoint resend_actions (fuel : nat) (r : ResendStream) : Res (list ResendAction) :=
  match fuel with
  | O => Err OutOfFuel
  | S fuel' =>
      if has_next r then
        let! '(a, r') := next r in
        let! l := resend_actions fuel' r' in Ok (a :: l)
      else Ok []
  end.

(** ** The index of a message *)

(** The fields of a message and its checksum on the wire. *)
Definition wire_of (fs : GenericMessage) (ck : bytes) : bytes := fields_wire fs ++ B "10=" ++ ck ++ [SOH].

Fixpoint index_fields (pos : Z) (fs : GenericMessage) (i : MsgIndex) : Res MsgIndex :=
  match fs with
  | [] => Ok i
  | f :: fs' =>
      let! i := patch_point (to_dec (tag f)) (value f) (pos + zlen (to_dec (tag f)) + 1) i in
      index_fields (pos + zlen (field_wire f)) fs' i
  end.

Lemma to_dec_inj n m : 0 <= n < 10 ^ 20 -> 0 <= m < 10 ^ 20 -> to_dec n = to_dec m -> n = m.
Proof. intros Hn Hm E. rewrite <- (to_dec_val n Hn), <- (to_dec_val m Hm). by rewrite E. Qed.

Lemma tag_is n k : 0 <= n < 10 ^ 20 -> 0 <= k < 10 ^ 20 ->
  bool_decide (to_dec n = to_dec k) = (n =? k).
Proof.
  intros Hn Hk. destruct (Z.eqb_spec n k) as [->|Hne]; [by apply bool_decide_true|].
  apply bool_decide_false. intros E. by apply Hne, to_dec_inj.
Qed.

(** The scan of one field, at position [zlen pre]. *)
Lemma index_loop_field fuel wire pre t v s i : wire = pre ++ t ++ [x3d] ++ v ++ [SOH] ++ s ->
  x3d ∉ t -> SOH ∉ v ->
  index_loop (S fuel) wire (zlen pre) i =
  if bool_decide (t = B "10") then Ok i
  else let! i := patch_point t v (zlen pre + zlen t + 1) i in
       index_loop fuel wire (zlen pre + zlen t + zlen v + 2) i.
Proof.
  intros E Ht Hv. pose proof (zlen_nonneg pre). pose proof (zlen_nonneg t). pose proof (zlen_nonneg v).
  assert (F1 : find [x3d] wire (zlen pre) = Some (zlen pre + zlen t)) by (rewrite E; by apply find_char_app).
  assert (E2 : wire = (pre ++ t ++ [x3d]) ++ v ++ SOH :: s) by (rewrite E, <- !app_assoc; done).
  assert (H2 : zlen pre + zlen t + 1 = zlen (pre ++ t ++ [x3d])) by (rewrite !zlen_app; change (zlen [_]) with 1; lia).
  assert (F2 : find [SOH] wire (zlen pre + zlen t + 1) = Some (zlen pre + zlen t + 1 + zlen v))
    by (rewrite H2, E2; by apply find_char_app).
  assert (Z1 : zsub (zlen pre) (zlen pre + zlen t - zlen pre) wire = t).
  { replace (zlen pre + zlen t - zlen pre) with (zlen t) by lia. rewrite E. apply zsub_mid. }
  assert (Z2 : zsub (zlen pre + zlen t + 1) (zlen pre + zlen t + 1 + zlen v - (zlen pre + zlen t) - 1) wire = v).
  { replace (zlen pre + zlen t + 1 + zlen v - (zlen pre + zlen t) - 1) with (zlen v) by lia.
    rewrite H2, E2. apply zsub_mid. }
  assert (Hl : zlen pre < zlen wire) by (rewrite E, !zlen_app; change (zlen [_]) with 1; pose proof (zlen_nonneg s); lia).
  cbn [index_loop]. rewrite (proj2 (Z.ltb_lt _ _)), F1, F2 by done. cbv zeta. rewrite Z1, Z2.
  case_bool_decide; [done|].
  by replace (zlen pre + zlen t + 1 + zlen v + 1) with (zlen pre + zlen t + zlen v + 2) by lia.
Qed.

Lemma index_loop_fields fuel wire pre fs ck i : wire = pre ++ wire_of fs ck -> SOH ∉ ck ->
  Forall (fun f => 0 <= tag f < 10 ^ 20 /\ tag f <> 10 /\ SOH ∉ value f) fs -> (length fs < fuel)%nat ->
  index_loop fuel wire (zlen pre) i = index_fields (zlen pre) fs i.
Proof.
  intros E Hck Hf. revert fuel pre i E. induction Hf as [|f fs (Ht & Hne & Hv) _ IH]; intros fuel pre i E Hfuel;
    (destruct fuel as [|fuel]; [cbn in Hfuel; lia|]).
  - rewrite (index_loop_field fuel wire pre (B "10") ck [] i); [done|by rewrite E|apply (bool_decide_unpack _); by vm_compute|done].
  - assert (Hd : all_digits (to_dec (tag f))) by (by apply to_dec_digits).
    rewrite (index_loop_field fuel wire pre (to_dec (tag f)) (value f) (wire_of fs ck) i).
    + change (B "10") with (to_dec 10). rewrite tag_is by lia. rewrite (proj2 (Z.eqb_neq _ _)) by done.
      cbn [index_fields]. destruct (patch_point _ _ _ i) as [i'|]; cbn; [|done].
      assert (H2 : zlen pre + zlen (to_dec (tag f)) + zlen (value f) + 2 = zlen (pre ++ field_wire f))
        by (rewrite zlen_app, field_wire_length; lia).
      rewrite H2. rewrite (IH fuel (pre ++ field_wire f) i'); [by rewrite zlen_app| |cbn in Hfuel; lia].
      rewrite E. unfold wire_of. rewrite fields_wire_cons. by rewrite <- !app_assoc.
    + rewrite E. unfold wire_of. rewrite fields_wire_cons. unfold field_wire. by rewrite <- !app_assoc.
    + by apply equal_notin_digits.
    + done.
Qed.

Lemma create_message_index_spec fs ck o : SOH ∉ ck ->
  Forall (fun f => 0 <= tag f < 10 ^ 20 /\ tag f <> 10 /\ SOH ∉ value f) fs ->
  create_message_index (wire_of fs ck) o = index_fields 0 fs (fresh_index o (u32 (zlen (wire_of fs ck)))).
Proof.
  intros Hck Hf. unfold create_message_index. apply (index_loop_fields _ _ [] fs ck); [done|done|done|].
  enough (length fs <= length (fields_wire fs))%nat.
  { unfold wire_of. rewrite length_app. lia. }
  clear. induction fs as [|f fs IH]; [done|]. rewrite fields_wire_cons, length_app.
  unfold field_wire. rewrite !length_app. cbn. lia.
Qed.

(** Where the patch point of tag [k] (34, 52, 43 or 122) is: offset and length. *)
Definition point (k : Z) (i : MsgIndex) : Z * Z :=
  if k =? 34 then (off_34 i, len_34 i)
  else if k =? 52 then (off_52 i, len_52 i)
  else if k =? 43 then (off_43 i, len_43 i)
  else (off_122 i, len_122 i).
Definition patch_tag (k : Z) : Prop := k = 34 \/ k = 52 \/ k = 43 \/ k = 122.

(** [patch_point] on a tag written by [to_chars]. *)
Lemma patch_point_dec n v o i : 0 <= n < 10 ^ 20 ->
  patch_point (to_dec n) v o i =
  if n =? 34 then
    check! errc_is_ok (fc_ec (from_chars 32 v)) in
    Ok (mk_index (off i) (len i) (fc_or 0 (from_chars 32 v)) (i32 o) (off_52 i) (off_43 i) (off_122 i)
                 (u16 (zlen v)) (len_43 i) (len_122 i) (len_52 i) (mi_type i) (msg_size i))
  else if n =? 52 then
    Ok (mk_index (off i) (len i) (seq i) (off_34 i) (i32 o) (off_43 i) (off_122 i)
                 (len_34 i) (len_43 i) (len_122 i) (u16 (zlen v)) (mi_type i) (msg_size i))
  else if n =? 43 then
    Ok (mk_index (off i) (len i) (seq i) (off_34 i) (off_52 i) (i32 o) (off_122 i)
                 (len_34 i) (u16 (zlen v)) (len_122 i) (len_52 i) (mi_type i) (msg_size i))
  else if n =? 122 then
    Ok (mk_index (off i) (len i) (seq i) (off_34 i) (off_52 i) (off_43 i) (i32 o)
                 (len_34 i) (len_43 i) (u16 (zlen v)) (len_52 i) (mi_type i) (msg_size i))
  else if n =? 35 then
    Ok (mk_index (off i) (len i) (seq i) (off_34 i) (off_52 i) (off_43 i) (off_122 i)
                 (len_34 i) (len_43 i) (len_122 i) (len_52 i)
                 (blit 0 (ztake (u8 (Z.min (zlen v) 2)) v) (mi_type i)) (u8 (Z.min (zlen v) 2)))
  else Ok i.
Proof.
  intros Hn. unfold patch_point. change (B "34") with (to_dec 34). change (B "52") with (to_dec 52).
  change (B "43") with (to_dec 43). change (B "122") with (to_dec 122). change (B "35") with (to_dec 35).
  rewrite !tag_is by lia. done.
Qed.

Lemma type_text v i n (H : n = u8 (Z.min (zlen v) 2)) a b c d e f g h j k l :
  get_msg_type (mk_index a b c d e f g h j k l (blit 0 (ztake n v) (mi_type i)) n) = ztake 2 v.
Proof.
  pose proof (zlen_nonneg v). rewrite u8_small in H by lia. subst n. unfold get_msg_type, blit. cbn. rewrite ztake_0. cbn [app].
  rewrite ztake_app_l by (rewrite zlen_ztake; lia). rewrite ztake_ztake by lia.
  destruct (Z.min_spec (zlen v) 2) as [[? ->]|[? ->]]; [|done]. by rewrite !ztake_all by lia.
Qed.

Lemma patch_point_keeps n v o i i' : 0 <= n < 10 ^ 20 -> patch_point (to_dec n) v o i = Ok i' ->
  off i' = off i /\ len i' = len i /\ (n <> 34 -> seq i' = seq i) /\
  (n <> 35 -> get_msg_type i' = get_msg_type i) /\
  (n = 35 -> get_msg_type i' = ztake 2 v) /\ (n = 34 -> seq i' = fc_or 0 (from_chars 32 v)) /\
  (forall k, patch_tag k -> point k i' = if n =? k then (i32 o, u16 (zlen v)) else point k i).
Proof.
  intros Hn. rewrite patch_point_dec by done. unfold patch_tag.
  destruct (Z.eqb_spec n 34) as [->|]; [destruct (errc_is_ok _); [|done]|].
  { intros [= <-]. split_and!; [done..|]. by intros k [->|[->|[->| ->]]]. }
  destruct (Z.eqb_spec n 52) as [->|]; [intros [= <-]; split_and!; [done..|]; by intros k [->|[->|[->| ->]]]|].
  destruct (Z.eqb_spec n 43) as [->|]; [intros [= <-]; split_and!; [done..|]; by intros k [->|[->|[->| ->]]]|].
  destruct (Z.eqb_spec n 122) as [->|]; [intros [= <-]; split_and!; [done..|]; by intros k [->|[->|[->| ->]]]|].
  assert (Hk : forall k, k = 34 \/ k = 52 \/ k = 43 \/ k = 122 -> (n =? k) = false) by (intros k Hk; apply Z.eqb_neq; lia).
  destruct (Z.eqb_spec n 35) as [->|]; intros [= <-].
  - split_and!; [done..| |done|intros k Hk2; by rewrite Hk]. intros _. by apply type_text.
  - split_and!; [done..|intros k Hk2; by rewrite Hk].
Qed.

Definition index_field_ok (f : GenericField) : Prop :=
  0 <= tag f < 10 ^ 20 /\ tag f <> 10 /\ SOH ∉ value f.

Lemma index_fields_app pos l1 l2 i :
  index_fields pos (l1 ++ l2) i =
  let! i' := index_fields pos l1 i in index_fields (pos + zlen (fields_wire l1)) l2 i'.
Proof.
  revert pos i. induction l1 as [|f l1 IH]; intros pos i; cbn [app index_fields].
  - rewrite ok_bind. change (zlen (fields_wire [])) with 0. by rewrite Z.add_0_r.
  - destruct (patch_point _ _ _ i) as [i'|]; [rewrite !ok_bind|done]. rewrite IH, fields_wire_cons, zlen_app.
    by rewrite Z.add_assoc.
Qed.

Lemma index_fields_keeps pos fs i i' : Forall index_field_ok fs -> index_fields pos fs i = Ok i' ->
  off i' = off i /\ len i' = len i /\ (34 ∉ (tag <$> fs) -> seq i' = seq i) /\
  (35 ∉ (tag <$> fs) -> get_msg_type i' = get_msg_type i) /\
  (forall k, patch_tag k -> k ∉ (tag <$> fs) -> point k i' = point k i).
Proof.
  intros Hf. revert pos i. induction Hf as [|f fs (Ht & _) _ IH]; intros pos i; cbn [index_fields fmap list_fmap].
  { by intros [= <-]. }
  intros (i1 & E1 & E2)%bind_ok. apply patch_point_keeps in E1 as (Ho & Hl & Hs & Hty & _ & _ & Hp); [|done].
  destruct (IH _ _ E2) as (Ho' & Hl' & Hs' & Hty' & Hp').
  split_and!; [congruence|congruence|rewrite not_elem_of_cons..|].
  - intros [? ?]. rewrite Hs', Hs; congruence.
  - intros [? ?]. rewrite Hty', Hty; congruence.
  - intros k Hk. rewrite not_elem_of_cons. intros [? ?]. rewrite Hp', Hp by done.
    destruct (Z.eqb_spec (tag f) k); congruence.
Qed.

Lemma index_fields_total pos fs i : Forall index_field_ok fs ->
  Forall (fun f => tag f = 34 -> fc_ec (from_chars 32 (value f)) = errc_ok) fs ->
  exists i', index_fields pos fs i = Ok i'.
Proof.
  intros Hf. revert pos i. induction Hf as [|f fs (Ht & _) _ IH]; intros pos i H34; cbn [index_fields]; [eauto|].
  apply Forall_cons in H34 as [H1 H2]. rewrite patch_point_dec by done.
  destruct (Z.eqb_spec (tag f) 34) as [E|]; [rewrite H1 by done; cbn; by apply IH|].
  repeat case_match; rewrite ok_bind; by apply IH.
Qed.

(** The patch point of a field that occurs once is the place of its value on the wire. *)
Lemma index_fields_at pos l1 f l2 i i' : Forall index_field_ok (l1 ++ f :: l2) ->
  tag f ∉ (tag <$> l2) -> index_fields pos (l1 ++ f :: l2) i = Ok i' ->
  (tag f = 34 -> seq i' = fc_or 0 (from_chars 32 (value f))) /\
  (tag f = 35 -> get_msg_type i' = ztake 2 (value f)) /\
  (patch_tag (tag f) -> point (tag f) i' =
     (i32 (pos + zlen (fields_wire l1) + zlen (to_dec (tag f)) + 1), u16 (zlen (value f)))).
Proof.
  intros Hf Hnd. apply Forall_app in Hf as [Hf1 Hf2]. apply Forall_cons in Hf2 as [(Ht & _) Hf2].
  rewrite index_fields_app. intros (i1 & _ & E)%bind_ok. cbn [index_fields] in E.
  apply bind_ok in E as (i2 & E1 & E2). apply patch_point_keeps in E1 as (_ & _ & _ & _ & Hty & Hs & Hp); [|done].
  destruct (index_fields_keeps _ _ _ _ Hf2 E2) as (_ & _ & Hs' & Hty' & Hp'). split_and!.
  - intros Et. rewrite Hs' by (by rewrite <- Et). by apply Hs.
  - intros Et. rewrite Hty' by (by rewrite <- Et). by apply Hty.
  - intros Hk. rewrite Hp', Hp, Z.eqb_refl by done. done.
Qed.

(** A message as the engine writes it: distinct tags, one of them the sequence number [k]. *)
Record stored_message (k : Z) (fs : GenericMessage) (ck : bytes) : Prop := {
  sm_fields : Forall index_field_ok fs;
  sm_ck : SOH ∉ ck;
  sm_nodup : NoDup (tag <$> fs);
  sm_seq : mk_field 34 (to_dec k) ∈ fs;
  sm_size : zlen (wire_of fs ck) < 2 ^ 31
}.

Lemma elem_split {A} (x : A) l : x ∈ l -> exists l1 l2, l = l1 ++ x :: l2.
Proof. intros [l1 [l2 ->]]%list_elem_of_split. eauto. Qed.

Lemma nodup_tail (l1 : GenericMessage) f l2 : NoDup (tag <$> (l1 ++ f :: l2)) -> tag f ∉ (tag <$> l2).
Proof. rewrite fmap_app, NoDup_app. cbn. rewrite NoDup_cons. tauto. Qed.

(** Its index: the right place, length and sequence number, and the message type. *)
Lemma stored_index k fs ck o : stored_message k fs ck -> 0 <= k < 2 ^ 32 ->
  exists i, create_message_index (wire_of fs ck) o = Ok i /\ off i = o /\ len i = zlen (wire_of fs ck) /\ seq i = k /\
    (forall v, mk_field 35 v ∈ fs -> get_msg_type i = ztake 2 v).
Proof.
  intros [Hf Hck Hnd Hs Hl] Hk. rewrite create_message_index_spec by done.
  assert (Hdec : from_chars 32 (to_dec k) = mk_fc (Some k) (zlen (to_dec k)) errc_ok).
  { rewrite <- (app_nil_r (to_dec k)) at 1. apply from_chars_to_dec; [lia|lia|done]. }
  assert (Huniq : forall f v, f ∈ fs -> mk_field (tag f) v ∈ fs -> value f = v).
  { intros f v (l1 & l2 & ->)%elem_split Hv. pose proof (nodup_tail _ _ _ Hnd) as Ht.
    rewrite fmap_app, NoDup_app in Hnd. destruct Hnd as (_ & Hd & _).
    apply elem_of_app in Hv as [Hv|[<-|Hv]%elem_of_cons]; [exfalso|done|exfalso].
    - apply (Hd (tag f)); [apply list_elem_of_fmap; by eexists (mk_field (tag f) v)|]. cbn. by constructor.
    - apply Ht, list_elem_of_fmap. by eexists (mk_field (tag f) v). }
  destruct (index_fields_total 0 fs (fresh_index o (u32 (zlen (wire_of fs ck)))) Hf) as [i Ei].
  { apply Forall_forall. intros f Hin Et. rewrite (Huniq f (to_dec k) Hin) by (by rewrite Et). by rewrite Hdec. }
  exists i. split; [done|]. destruct (index_fields_keeps _ _ _ _ Hf Ei) as (Ho & Hlen & _).
  pose proof (zlen_nonneg (wire_of fs ck)). cbn in Ho, Hlen. rewrite u32_small in Hlen by lia.
  split_and!; [done|done| |].
  - destruct (elem_split _ _ Hs) as (l1 & l2 & ->).
    destruct (index_fields_at _ _ _ _ _ _ Hf (nodup_tail _ _ _ Hnd) Ei) as (Hseq & _). cbn in Hseq.
    rewrite Hseq by done. by rewrite Hdec.
  - intros v (l1 & l2 & ->)%elem_split.
    destruct (index_fields_at _ _ _ _ _ _ Hf (nodup_tail _ _ _ Hnd) Ei) as (_ & Hty & _). by apply Hty.
Qed.

(** The patch point of a given occurrence. *)
Lemma stored_point k l1 t v l2 ck o i : stored_message k (l1 ++ mk_field t v :: l2) ck -> patch_tag t ->
  create_message_index (wire_of (l1 ++ mk_field t v :: l2) ck) o = Ok i ->
  point t i = (zlen (fields_wire l1) + zlen (to_dec t) + 1, u16 (zlen v)).
Proof.
  intros [Hf Hck Hnd _ Hl] Ht. rewrite create_message_index_spec by done. intros Ei.
  destruct (index_fields_at _ _ _ _ _ _ Hf (nodup_tail _ _ _ Hnd) Ei) as (_ & _ & Hpt). cbn [tag value] in Hpt.
  rewrite Hpt by done. f_equal. apply i32_small.
  assert (zlen (fields_wire l1) + zlen (to_dec t) + 1 <= zlen (wire_of (l1 ++ mk_field t v :: l2) ck)).
  { unfold wire_of. rewrite !zlen_app. unfold fields_wire at 2. rewrite fmap_app, concat_app. fold (fields_wire l1).
    fold (fields_wire (mk_field t v :: l2)). rewrite fields_wire_cons, !zlen_app, field_wire_length. cbn [tag value]. zlia. }
  pose proof (zlen_nonneg (fields_wire l1)). pose proof (zlen_nonneg (to_dec t)). lia.
Qed.

Lemma stored_absent k fs ck o i t : stored_message k fs ck -> patch_tag t -> t ∉ (tag <$> fs) ->
  create_message_index (wire_of fs ck) o = Ok i -> fst (point t i) = -1.
Proof.
  intros [Hf Hck Hnd _ Hl] Ht Hin. rewrite create_message_index_spec by done. intros Ei.
  destruct (index_fields_keeps _ _ _ _ Hf Ei) as (_ & _ & _ & _ & Hp). rewrite Hp by done.
  by destruct Ht as [->|[->|[->| ->]]].
Qed.


(** ** Storing and reading back *)

Fixpoint store_all (wires : list bytes) (s : MessageStore) : Res MessageStore :=
  match wires with
  | [] => Ok s
  | w :: ws => let! s' := store_outbound_message w s in store_all ws s'
  end.

(** The store holds the messages [wires], in order. *)
Record store_inv (s : MessageStore) (wires : list bytes) : Prop := {
  si_used : blob_buffer_used_ s = zlen (concat wires);
  si_blob : all_messages s = concat wires;
  si_room : blob_buffer_used_ s <= zlen (blob_buffer_ s) <= blob_buffer_size_ s;
  si_size : blob_buffer_size_ s <= Z.max blob_buffer_start_size (blob_buffer_used_ s + min_blob_buffer_grow_size);
  si_index : Forall2 (fun i w => len i = zlen w) (outbound_index_ s) wires;
  si_offsets : forall k i, outbound_index_ s !! k = Some i -> off i = zlen (concat (take k wires)) /\ seq i = Z.of_nat k + 1;
  si_created : forall k i, outbound_index_ s !! k = Some i ->
    exists w, wires !! k = Some w /\ create_message_index w (off i) = Ok i
}.

Lemma message_store_new_inv : store_inv message_store_new [].
Proof. by split. Qed.

(** Room is made for the message, and the bytes stored so far are kept. *)
Lemma grow_for_spec s (wires : list bytes) (w : bytes) : store_inv s wires -> zlen (concat wires) + zlen w < 2 ^ 31 ->
  let s1 := if blob_buffer_size_ s <? u64 (blob_buffer_used_ s + zlen w)
            then grow_blob_buffer_ (u64 (zlen w + blob_buffer_used_ s - blob_buffer_size_ s)) s else s in
  outbound_index_ s1 = outbound_index_ s /\ blob_buffer_used_ s1 = blob_buffer_used_ s /\
  ztake (blob_buffer_used_ s) (blob_buffer_ s1) = concat wires /\
  blob_buffer_used_ s <= zlen (blob_buffer_ s1) <= blob_buffer_size_ s1 /\
  blob_buffer_used_ s + zlen w <= blob_buffer_size_ s1 /\
  blob_buffer_size_ s1 <= Z.max blob_buffer_start_size (blob_buffer_used_ s + zlen w + min_blob_buffer_grow_size).
Proof.
  intros [Hu Hb Hr Hs _ _ _] Hl s1. unfold all_messages in Hb. unfold blob_buffer_start_size, min_blob_buffer_grow_size in *.
  pose proof (zlen_nonneg (concat wires)). pose proof (zlen_nonneg w).
  subst s1. rewrite (u64_small (blob_buffer_used_ s + zlen w)) by lia.
  destruct (Z.ltb_spec (blob_buffer_size_ s) (blob_buffer_used_ s + zlen w)).
  - unfold grow_blob_buffer_. cbn. unfold min_blob_buffer_grow_size.
    rewrite (u64_small (zlen w + blob_buffer_used_ s - blob_buffer_size_ s)) by lia.
    rewrite u64_small by lia. rewrite u32_small by lia. rewrite ztake_ztake by lia.
    rewrite zlen_ztake by lia. split_and!; (done || lia).
  - split_and!; (done || lia).
Qed.

Lemma store_outbound_spec s wires fs ck : store_inv s wires ->
  stored_message (zlen wires + 1) fs ck -> zlen (concat wires) + zlen (wire_of fs ck) < 2 ^ 31 ->
  zlen wires + 1 < 2 ^ 32 ->
  exists s', store_outbound_message (wire_of fs ck) s = Ok s' /\ store_inv s' (wires ++ [wire_of fs ck]).
Proof.
  intros I M Hl Hk. set (w := wire_of fs ck) in *. destruct (grow_for_spec s wires w I Hl) as (Ei & Eu & Eb & Er & Ew & Es).
  destruct I as [Hu Hb Hr Hs Hi Ho Hcr]. unfold store_outbound_message. set (s1 := if _ <? _ then _ else _) in *.
  rewrite Ei, Eu. pose proof (zlen_nonneg wires). pose proof (zlen_nonneg (concat wires)). pose proof (zlen_nonneg w).
  destruct (stored_index _ fs ck (blob_buffer_used_ s) M ltac:(lia)) as (i & Eix & Hoff & Hlen & Hseq & _).
  fold w in Eix, Hlen. rewrite Eix, ok_bind. assert (Hlen2 : zlen (outbound_index_ s) = zlen wires) by (unfold zlen; by rewrite (Forall2_length _ _ _ Hi)).
  rewrite Hseq, Hlen2, Z.eqb_refl. eexists. split; [done|].
  rewrite u32_small by lia.
  assert (Hc : zlen (concat (wires ++ [w])) = zlen (concat wires) + zlen w) by (rewrite concat_app; cbn; rewrite app_nil_r; zlia).
  split; cbn.
  - lia.
  - unfold all_messages. cbn. rewrite blit_app by lia. rewrite Eb, concat_app. cbn. by rewrite app_nil_r.
  - rewrite zlen_blit by lia. lia.
  - lia.
  - apply Forall2_app; [done|]. by constructor.
  - intros k j Hj. assert (Hlw : length (outbound_index_ s) = length wires) by (unfold zlen in Hlen2; lia).
    destruct (decide (k < length wires)%nat).
    + rewrite lookup_app_l in Hj by lia. rewrite take_app_le by lia. by apply Ho.
    + apply lookup_app_Some in Hj as [Hj%lookup_lt_Some|[_ Hj]]; [lia|].
      apply list_lookup_singleton_Some in Hj as [Hj <-]. assert (k = length wires) as -> by lia.
      rewrite take_app_length. unfold zlen in *. split; [congruence|lia].
  - intros k j Hj. assert (Hlw : length (outbound_index_ s) = length wires) by (unfold zlen in Hlen2; lia).
    apply lookup_app_Some in Hj as [Hj|[Hk' Hj]].
    + destruct (Hcr k j Hj) as (w' & Hw' & Ec). exists w'. split; [by apply lookup_app_l_Some|done].
    + apply list_lookup_singleton_Some in Hj as [Hj <-]. exists w. assert (k = length wires) as -> by lia.
      rewrite lookup_app_r, Nat.sub_diag by lia. split; [done|]. rewrite Hoff. exact Eix.
Qed.

(** Messages numbered from [k] on. *)
Fixpoint numbered (k : Z) (msgs : list (GenericMessage * bytes)) : Prop :=
  match msgs with
  | [] => True
  | (fs, ck) :: msgs' => stored_message k fs ck /\ numbered (k + 1) msgs'
  end.

Definition wires_of (msgs : list (GenericMessage * bytes)) : list bytes := (fun '(fs, ck) => wire_of fs ck) <$> msgs.

Lemma store_all_spec msgs s wires : store_inv s wires -> numbered (zlen wires + 1) msgs ->
  zlen (concat wires) + zlen (concat (wires_of msgs)) < 2 ^ 31 -> zlen wires + zlen msgs < 2 ^ 32 ->
  exists s', store_all (wires_of msgs) s = Ok s' /\ store_inv s' (wires ++ wires_of msgs).
Proof.
  revert s wires. induction msgs as [|[fs ck] msgs IH]; intros s wires I Hn Hl Hk.
  { exists s. by rewrite app_nil_r. }
  cbn in Hn. destruct Hn as [Hm Hn]. change (wires_of ((fs, ck) :: msgs)) with (wire_of fs ck :: wires_of msgs) in *. cbn [store_all].
  cbn [concat] in Hl. rewrite zlen_app in Hl. rewrite zlen_cons in Hk.
  pose proof (zlen_nonneg (concat (wires_of msgs))). pose proof (zlen_nonneg msgs).
  destruct (store_outbound_spec s wires fs ck I Hm) as (s1 & -> & I1); [lia|lia|]. rewrite ok_bind.
  destruct (IH s1 (wires ++ [wire_of fs ck]) I1) as (s' & -> & I').
  - rewrite zlen_app. exact Hn.
  - rewrite concat_app. cbn. rewrite app_nil_r. zlia.
  - rewrite zlen_app. change (zlen [_]) with 1. lia.
  - exists s'. by rewrite <- app_assoc in I'.
Qed.

Lemma store_inv_read s wires k w : store_inv s wires -> wires !! k = Some w ->
  exists i, get_message_index (Z.of_nat k + 1) s = Ok i /\ seq i = Z.of_nat k + 1 /\ get_message_wire i s = w /\
            znth (outbound_index_ s) (Z.of_nat k) = Some i /\ create_message_index w (off i) = Ok i.
Proof.
  intros [Hu Hb Hr Hs Hi Ho Hcr] Hw. pose proof (lookup_lt_Some _ _ _ Hw).
  destruct (Forall2_lookup_r _ _ _ _ _ Hi Hw) as (i & Hik & Hlen). destruct (Ho k i Hik) as [Hoff Hseq].
  pose proof (Forall2_length _ _ _ Hi) as Hll.
  exists i. split_and!; [|done| | |].
  - unfold get_message_index. rewrite (proj2 (Z.ltb_lt _ _)), (proj2 (Z.leb_le _ _)) by (unfold zlen; lia). cbn [andb].
    unfold znth. rewrite (proj2 (Z.ltb_ge _ _)) by lia. replace (Z.to_nat (Z.of_nat k + 1 - 1)) with k by lia. by rewrite Hik.
  - unfold get_message_wire. rewrite Hoff, Hlen. unfold all_messages in Hb.
    rewrite <- (ztake_zdrop (blob_buffer_used_ s) (blob_buffer_ s)), Hb.
    rewrite <- (take_drop_middle wires k w Hw), concat_app. cbn [concat].
    rewrite (take_drop_middle wires k w Hw). rewrite <- !app_assoc. apply zsub_mid.
  - unfold znth. rewrite (proj2 (Z.ltb_ge _ _)) by lia. by rewrite Nat2Z.id.
  - destruct (Hcr k i Hik) as (w' & Hw' & Ec). assert (w' = w) as -> by congruence. done.
Qed.

(** C24: the outbound store is exact: after any run of messages numbered 1, 2, 3, ... (well-formed
    texts in which no tag occurs twice, of at most 2 GiB in total) every one of them can be looked up by its sequence number, and the
    bytes read back are the bytes stored, also across growths of the blob; no assertion
    of the store fails. *)
Theorem store_roundtrip msgs : numbered 1 msgs -> zlen (concat (wires_of msgs)) < 2 ^ 31 -> zlen msgs < 2 ^ 31 ->
  exists s, store_all (wires_of msgs) message_store_new = Ok s /\
    forall k w, wires_of msgs !! k = Some w ->
      exists i, get_message_index (Z.of_nat k + 1) s = Ok i /\ seq i = Z.of_nat k + 1 /\ get_message_wire i s = w.
Proof.
  intros Hn Hl Hk. destruct (store_all_spec msgs message_store_new [] message_store_new_inv Hn) as (s & E & I).
  - change (zlen (concat [])) with 0. lia.
  - change (zlen []) with 0. lia.
  - exists s. split; [done|]. intros k w Hw. destruct (store_inv_read s _ k w I Hw) as (i & E1 & E2 & E3 & _). by exists i.
Qed.

(** ** The resend stream covers the request exactly *)

Section Resend.
Context (idx : list MsgIndex).

Definition skipped (q : Z) : Prop := exists i, znth idx (q - 1) = Some i /\ no_resend (get_msg_type i) = true.
Definition resent (q : Z) : Prop := exists i, znth idx (q - 1) = Some i /\ no_resend (get_msg_type i) = false.

(** [tiles b e acts]: the actions cover [b .. e] in order and without overlap; a gap fill is
    a maximal run of messages that are not resent, the others are single messages. *)
Inductive tiles : Z -> Z -> list ResendAction -> Prop :=
  | tiles_nil b e : e < b -> tiles b e []
  | tiles_gap b e x acts : b <= x <= e -> (forall q, b <= q <= x -> skipped q) ->
      (x = e \/ resent (x + 1)) -> tiles (x + 1) e acts -> tiles b e (mk_action b x true :: acts)
  | tiles_one b e acts : b <= e -> resent b -> tiles (b + 1) e acts -> tiles b e (mk_action b b false :: acts).

Lemma skip_loop_spec fuel c e gap : 1 <= c -> e <= zlen idx -> e < 2 ^ 32 - 1 -> c <= e + 1 ->
  e - c + 1 < Z.of_nat fuel ->
  exists c', skip_loop fuel (mk_stream idx c e) gap = Ok (mk_stream idx c' e, gap || (c <? c')) /\
    c <= c' <= e + 1 /\ (forall q, c <= q < c' -> skipped q) /\ (c' = e + 1 \/ resent c').
Proof using.
  intros Hc He Hm Hce. revert c gap Hc Hce. induction fuel as [|fuel IH]; intros c gap Hc Hce Hf; [lia|].
  cbn [skip_loop current_index_ end_seq_no_ rs_index].
  destruct (Z.leb_spec c e).
  - rewrite u32_small by lia. destruct (znth_is_Some idx (c - 1)) as [i Ei]; [lia|]. rewrite Ei.
    destruct (no_resend (get_msg_type i)) eqn:En.
    + rewrite u32_small by lia. destruct (IH (c + 1) true) as (c' & -> & Hc' & Hs & Hr); [lia|lia|lia|].
      exists c'. split_and!; [|lia|lia| |done].
      * rewrite (proj2 (Z.ltb_lt c c')) by lia. by rewrite orb_true_r.
      * intros q Hq. destruct (Z.eq_dec q c) as [->|]; [by exists i|apply Hs; lia].
    + exists c. split_and!; [|lia|lia|lia|right; by exists i]. rewrite Z.ltb_irrefl. by rewrite orb_false_r.
  - exists c. split_and!; [|lia|lia|lia|left; lia]. rewrite Z.ltb_irrefl. by rewrite orb_false_r.
Qed.

Lemma next_spec c e : 1 <= c <= e -> e <= zlen idx -> e < 2 ^ 32 - 1 ->
  exists a c', next (mk_stream idx c e) = Ok (a, mk_stream idx c' e) /\ c < c' <= e + 1 /\
    forall acts, tiles c' e acts -> tiles c e (a :: acts).
Proof using.
  intros Hc He Hm. unfold next. cbn [current_index_ rs_index].
  destruct (skip_loop_spec (S (S (length idx))) c e false) as (c' & -> & Hc' & Hs & Hr); [lia|lia|lia|lia|unfold zlen in *; lia|].
  rewrite ok_bind. cbn [orb current_index_ end_seq_no_ rs_index]. destruct (Z.ltb_spec c c').
  - rewrite u32_small by lia. eexists _, c'. split; [done|]. split; [lia|]. intros acts Ht.
    apply tiles_gap; [lia| | |by replace (c' - 1 + 1) with c' by lia].
    + intros q Hq. apply Hs. lia.
    + destruct Hr as [->|Hr]; [left; lia|right]. by replace (c' - 1 + 1) with c' by lia.
  - assert (c' = c) as -> by lia. rewrite u32_small by lia. eexists _, (c + 1). split; [done|]. split; [lia|].
    intros acts Ht. apply tiles_one; [lia| |done]. destruct Hr as [?|Hr]; [lia|done].
Qed.

Lemma resend_actions_spec fuel c e : 1 <= c <= e + 1 -> e <= zlen idx -> e < 2 ^ 32 - 1 ->
  e - c + 1 < Z.of_nat fuel ->
  exists acts, resend_actions fuel (mk_stream idx c e) = Ok acts /\ tiles c e acts.
Proof using.
  revert c. induction fuel as [|fuel IH]; intros c Hc He Hm Hf; [lia|].
  cbn [resend_actions]. unfold has_next. cbn [current_index_ end_seq_no_]. destruct (Z.leb_spec c e).
  - destruct (next_spec c e) as (a & c' & -> & Hc' & Ht); [lia|lia|lia|]. rewrite ok_bind.
    destruct (IH c') as (acts & -> & Ha); [lia|lia|lia|lia|]. exists (a :: acts). split; [done|]. by apply Ht.
  - exists []. split; [done|]. constructor. lia.
Qed.
End Resend.

(** C25: a resend request for [b .. e] within the stored messages is answered exactly: the
    stream ends, and its actions cover every number of the range once and in order, each
    application message by itself and each maximal run of administrative messages by one
    gap fill. *)
Theorem resend_stream_exact s b e : 1 <= b <= e + 1 -> e <= zlen (outbound_index_ s) -> e < 2 ^ 32 - 1 ->
  exists acts, resend_actions (S (S (length (outbound_index_ s)))) (get_resend_stream b e s) = Ok acts /\
               tiles (outbound_index_ s) b e acts.
Proof.
  intros Hb He Hm. unfold get_resend_stream. rewrite !u32_small by lia.
  apply resend_actions_spec; [lia|lia|lia|unfold zlen in *; lia].
Qed.

(** A request that begins at 0 (or whose BeginSeqNo is 0 modulo 2^32) makes the stream
    read the index entry at position -1: [next] needs the caller to reject it. *)
Lemma resend_from_zero_faults s b e : u32 b = 0 -> 0 <= e < 2 ^ 32 -> zlen (outbound_index_ s) < 2 ^ 32 - 1 ->
  next (get_resend_stream b e s) = Err OutOfBounds.
Proof.
  intros Hb He Hl. unfold get_resend_stream, next. rewrite Hb, (u32_small e) by lia.
  cbn [current_index_ rs_index skip_loop end_seq_no_]. rewrite (proj2 (Z.leb_le _ _)) by lia.
  change (u32 (0 - 1)) with (2 ^ 32 - 1). by rewrite znth_None by lia.
Qed.

Definition demo_stored (k : Z) (type : bytes) : GenericMessage * bytes :=
  ([mk_field 8 (B "FIX.4.4"); mk_field 9 (B "20"); mk_field 35 type; mk_field 34 (to_dec k); mk_field 52 (B "Now")], B "123").


Definition demo_store : MessageStore :=
  mk_store [mk_index 0 10 1 (-1) (-1) (-1) (-1) 0 0 0 0 (B "0") 1;
            mk_index 10 10 2 (-1) (-1) (-1) (-1) 0 0 0 0 (B "D") 1] [] 100 20.

Example store_roundtrip_witness :
  exists s, store_all (wires_of [demo_stored 1 (B "0"); demo_stored 2 (B "cu")]) message_store_new = Ok s /\
    forall k w, wires_of [demo_stored 1 (B "0"); demo_stored 2 (B "cu")] !! k = Some w ->
      exists i, get_message_index (Z.of_nat k + 1) s = Ok i /\ seq i = Z.of_nat k + 1 /\ get_message_wire i s = w.
Proof.
  apply (store_roundtrip [demo_stored 1 (B "0"); demo_stored 2 (B "cu")]); [|by vm_compute|by vm_compute].
  cbn [numbered demo_stored]. split_and!; [split..|done].
  1,6: repeat (constructor; [split; [by vm_compute|split; [by vm_compute|apply (bool_decide_unpack _); by vm_compute]]|]); constructor.
  all: first [by vm_compute|apply (bool_decide_unpack _); by vm_compute].
Defined.

Example resend_stream_exact_witness :
  exists acts, resend_actions 4 (get_resend_stream 1 2 demo_store) = Ok acts /\ tiles (outbound_index_ demo_store) 1 2 acts.
Proof. apply (resend_stream_exact demo_store 1 2); [lia|by vm_compute|lia]. Defined.

Example resend_from_zero_faults_witness : next (get_resend_stream 0 2 demo_store) = Err OutOfBounds.
Proof. apply (resend_from_zero_faults demo_store 0 2); [done|lia|by vm_compute]. Defined.
