(* ===== verification/Factory.v ===== *)
(** [Fix::FactoryScratch], [Fix::MessageFactory], [Fix::SeqProvider] and the clock concept
    (include/fix/core/MessageFactory.hpp, SeqProvider.hpp, Clock.hpp, src/FactoryScratch.cpp,
    src/Clock.cpp): outbound messages written into one growing byte block, with the body
    length patched in and the checksum appended. *)
From Stdlib Require Import Strings.Byte.
From S2P Require Import Prelude.
From S2P Require Import Text.
From S2P Require Import Message.
From S2P Require Import Parser.
From S2P Require Import Schema.
From S2P Require Import Validator.
From S2P Require Import MessageStore.
From S2P Require Import Framer.

(** ** Sequence numbers *)

Record SeqProvider : Set := mk_seq { incoming_seq_number_ : Z; outgoing_seq_number_ : Z }.
Definition seq_provider_new : SeqProvider := mk_seq 1 1.
Definition next_in (s : SeqProvider) : Z := incoming_seq_number_ s.
Definition next_out (s : SeqProvider) : Z := outgoing_seq_number_ s.
Definition update_in (n : Z) (s : SeqProvider) : SeqProvider := mk_seq (u64 n) (outgoing_seq_number_ s).
Definition update_out (n : Z) (s : SeqProvider) : SeqProvider := mk_seq (incoming_seq_number_ s) (u64 n).
Definition seq_reset (s : SeqProvider) : SeqProvider := mk_seq 1 1.
Definition initiator_reset (s : SeqProvider) : SeqProvider := mk_seq 1 1.
Definition acceptor_reset (s : SeqProvider) : SeqProvider := mk_seq 2 1.

(** ** The clock *)

(** The concept [ClockLike]. *)
Class ClockLike (T : Type) := { now_fix : T -> bytes; now : T -> Z }.

(** [Fix::Clock]. *)
Inductive Clock : Set := clock.
#[export] Instance clock_like : ClockLike Clock := { now_fix _ := B "Now"; now _ := 0 }.

(** ** [FactoryScratch] *)

Definition min_grow_size : Z := 1024.

(** [buffer] is the written prefix of the block of [buffer_size] bytes. *)
Record FactoryScratch : Type := mk_scratch {
  buffer : bytes;
  buffer_size : Z;
  position : Z;
  body_length_offset : Z;
  body_length_digit_size : Z;
  checksum_offset : Z
}.

Definition scratch_new : FactoryScratch := mk_scratch [] (64 * 1024) 0 0 10 0.

Definition reset (s : FactoryScratch) : FactoryScratch :=
  mk_scratch (buffer s) (buffer_size s) 0 0 10 0.

Definition grow (extra : Z) (s : FactoryScratch) : FactoryScratch :=
  mk_scratch (ztake (position s) (buffer s)) (u64 (buffer_size s + extra)) (position s)
             (body_length_offset s) (body_length_digit_size s) (checksum_offset s).

(** [memcpy] at [position], which advances. *)
Definition write (sv : bytes) (s : FactoryScratch) : FactoryScratch :=
  mk_scratch (blit (position s) sv (buffer s)) (buffer_size s) (u64 (position s + zlen sv))
             (body_length_offset s) (body_length_digit_size s) (checksum_offset s).

Definition add_string (sv : bytes) (s : FactoryScratch) : FactoryScratch :=
  let s := if buffer_size s <? u64 (position s + zlen sv)
           then grow (Z.max (u64 (position s + zlen sv - buffer_size s)) min_grow_size) s else s in
  write sv s.

Definition add_char (c : byte) (s : FactoryScratch) : FactoryScratch :=
  let s := if buffer_size s <? u64 (position s + 1) then grow min_grow_size s else s in
  write [c] s.

Definition add_int (value : Z) (s : FactoryScratch) : FactoryScratch := add_string (to_chars value) s.
Definition add_equal_sign (s : FactoryScratch) : FactoryScratch := add_char x3d s.
Definition add_soh (s : FactoryScratch) : FactoryScratch := add_char SOH s.

(** The two overloads of [add_field]. *)
Definition add_field (tag : Z) (value : bytes) (s : FactoryScratch) : FactoryScratch :=
  add_soh (add_string value (add_equal_sign (add_int tag s))).
Definition add_field_int (tag value : Z) (s : FactoryScratch) : FactoryScratch :=
  add_soh (add_int value (add_equal_sign (add_int tag s))).

(** [body_length_offset = position]. *)
Definition mark_body_length (s : FactoryScratch) : FactoryScratch :=
  mk_scratch (buffer s) (buffer_size s) (position s) (position s) (body_length_digit_size s) (checksum_offset s).

Definition add_body_length_placeholder (s : FactoryScratch) : FactoryScratch :=
  let s := mark_body_length (add_equal_sign (add_int 9 s)) in
  add_soh (Nat.iter (Z.to_nat (body_length_digit_size s)) (add_char x30) s).

Definition compute_body_length (s : FactoryScratch) : Z :=
  u64 (position s - (body_length_offset s + body_length_digit_size s + 1)).

Definition compute_checksum (s : FactoryScratch) : Z := byte_sum (ztake (checksum_offset s) (buffer s)) mod 256.

(** [checksum_offset = position]. *)
Definition mark_checksum (s : FactoryScratch) : FactoryScratch :=
  mk_scratch (buffer s) (buffer_size s) (position s) (body_length_offset s) (body_length_digit_size s) (position s).

Definition insert_checksum (s : FactoryScratch) : FactoryScratch :=
  let s := mark_checksum s in
  let digits := to_dec (compute_checksum s) in
  let s := add_equal_sign (add_string (B "10") s) in
  let s := if zlen digits <? 3 then Nat.iter (Z.to_nat (3 - zlen digits)) (add_char x30) s else s in
  add_soh (add_string digits s).

Definition insert_body_length (s : FactoryScratch) : FactoryScratch :=
  let digits := to_dec (compute_body_length s) in
  let len := zlen digits in
  let tail := body_length_offset s + body_length_digit_size s in
  let b := blit (body_length_offset s) digits (buffer s) in
  let b := blit (body_length_offset s + len) (zsub tail (position s - tail) b) b in
  mk_scratch b (buffer_size s) (u64 (position s - (body_length_digit_size s - len)))
             (body_length_offset s) len (checksum_offset s).

Definition edit_window (offset length : Z) (new_data : bytes) (s : FactoryScratch) : Res FactoryScratch :=
  check! zlen new_data =? length in
  check! u64 (offset + length) <=? position s in
  Ok (mk_scratch (blit offset new_data (buffer s)) (buffer_size s) (position s)
                 (body_length_offset s) (body_length_digit_size s) (checksum_offset s)).

Definition get_buffer_view (s : FactoryScratch) : bytes := ztake (position s) (buffer s).

(** ** [MessageFactory]

    The factory and the session share the sequence provider. *)

Record MessageFactory : Type := mk_factory { scratch_ : FactoryScratch; seq_provider_ : SeqProvider }.

Definition factory_new : MessageFactory := mk_factory scratch_new seq_provider_new.

Section Factory.
Context `{ClockLike T} (clock_ : T) (params_ : SessionParameters).
Implicit Types (f : MessageFactory).

Definition on_scratch (g : FactoryScratch -> FactoryScratch) f : MessageFactory :=
  mk_factory (g (scratch_ f)) (seq_provider_ f).

Definition stamp_header_ (type : bytes) f : MessageFactory :=
  let s := scratch_ f in
  let s := add_field 8 (fix_version params_) s in
  let s := add_body_length_placeholder s in
  let s := add_field 35 type s in
  let s := add_field_int 34 (i64 (next_out (seq_provider_ f))) s in
  let s := add_field 49 (sender_comp_id params_) s in
  let s := add_field 56 (target_comp_id params_) s in
  let s := add_field 52 (now_fix clock_) s in
  mk_factory s (update_out (next_out (seq_provider_ f) + 1) (seq_provider_ f)).

Definition stamp_trailer_ (s : FactoryScratch) : FactoryScratch := insert_checksum (insert_body_length s).

(** [scratch_.reset(); stamp_header_(type); ...; stamp_trailer_(); return view]. *)
Definition message (type : bytes) (fields : FactoryScratch -> FactoryScratch) f : bytes * MessageFactory :=
  let f := on_scratch reset f in
  let f := stamp_header_ type f in
  let f := on_scratch fields f in
  let f := on_scratch stamp_trailer_ f in
  (get_buffer_view (scratch_ f), f).

Definition logon (heartbeat_override : Z) (echo_reset : bool) f :=
  message (B "A") (fun s =>
    let s := add_field_int 98 (encrypt_method params_) s in
    let s := add_field 141 (if echo_reset then B "Y" else B "N") s in
    add_field_int 108 heartbeat_override s) f.

Definition heart_beat (test_req_id : bytes) f :=
  message (B "0") (fun s => if zlen test_req_id =? 0 then s else add_field 112 test_req_id s) f.

Definition test_request (id : bytes) f := message (B "1") (add_field 112 id) f.

Definition resend_request (begin_seq_no end_seq_no : Z) f :=
  message (B "2") (fun s => add_field_int 16 (i64 end_seq_no) (add_field_int 7 (i64 begin_seq_no) s)) f.

Definition sequence_reset (newSeqNo : Z) (gapfill : bool) f :=
  message (B "4") (fun s =>
    let s := if gapfill then add_field 123 (B "Y") s else s in
    add_field_int 36 (i64 newSeqNo) s) f.

Definition sequence_reset_gap_fill (msgSeqNum newSeqNo : Z) f : bytes * MessageFactory :=
  let s := reset (scratch_ f) in
  let s := add_field 8 (fix_version params_) s in
  let s := add_body_length_placeholder s in
  let s := add_field 35 (B "4") s in
  let s := add_field_int 34 (i64 msgSeqNum) s in
  let s := add_field 49 (sender_comp_id params_) s in
  let s := add_field 56 (target_comp_id params_) s in
  let s := add_field 52 (now_fix clock_) s in
  let s := add_field 123 (B "Y") s in
  let s := add_field_int 36 (i64 newSeqNo) s in
  let s := add_field 43 (B "Y") s in
  let s := add_field 122 (now_fix clock_) s in
  let s := stamp_trailer_ s in
  (get_buffer_view s, mk_factory s (seq_provider_ f)).

Definition logout (text : bytes) f :=
  message (B "5") (fun s => if zlen text =? 0 then s else add_field 58 text s) f.

Definition reject (ref_seq_num reason tag : Z) (text : bytes) f :=
  message (B "3") (fun s =>
    let s := add_field_int 45 (i64 ref_seq_num) s in
    let s := if tag =? 0 then s else add_field_int 371 tag s in
    let s := add_field_int 373 reason s in
    if zlen text =? 0 then s else add_field 58 text s) f.

Definition custom_message (payload : bytes) f := message (B "cu") (add_field 9250 payload) f.

Definition from_app (msg : GenericMessage) (msg_type : MsgType) f :=
  message (msg_type_view msg_type)
    (fun s => fold_left (fun s field => add_field (tag field) (value field) s) msg s) f.

(** The portion of the wire between the BodyLength field and the checksum, and its offset. *)
Definition get_msg_body_offset (wire : bytes) : Res Z :=
  match find (B "9=") wire 0 with
  | None => Err OutOfBounds
  | Some b => match find [SOH] wire b with None => Err OutOfBounds | Some e => Ok (e + 1) end
  end.

Definition get_msg_body (wire : bytes) : Res bytes :=
  let! b := get_msg_body_offset wire in
  match rfind (B "10=") wire with
  | None => Err OutOfBounds
  | Some e => Ok (zsub b (e - b) wire)
  end.

Definition regenerate_message (original_wire : bytes) (msg_index : MsgIndex) f : Res (bytes * MessageFactory) :=
  let s := reset (scratch_ f) in
  let s := add_field 8 (fix_version params_) s in
  let s := add_body_length_placeholder s in
  let position_after_body_length := position s in
  let! body := get_msg_body original_wire in
  let! body_offset := get_msg_body_offset original_wire in
  let s := add_string body s in
  let place o := u64 (position_after_body_length + o - body_offset) in
  let! s := if off_43 msg_index =? -1 then Ok (add_field 43 (B "Y") s)
            else edit_window (place (off_43 msg_index)) (len_43 msg_index) (B "Y") s in
  let! sending_time := substr (off_52 msg_index) (len_52 msg_index) original_wire in
  let! s := if off_122 msg_index =? -1 then Ok (add_field 122 sending_time s)
            else edit_window (place (off_122 msg_index)) (len_122 msg_index) sending_time s in
  let! s := edit_window (place (off_52 msg_index)) (len_52 msg_index) (now_fix clock_) s in
  let s := stamp_trailer_ s in
  Ok (get_buffer_view s, mk_factory s (seq_provider_ f)).
End Factory.

(** ** The scratch buffer appends *)

Definition view := get_buffer_view.

(** What has been written fits in the block. *)
Record scratch_wf (s : FactoryScratch) : Prop := {
  sw_position : 0 <= position s <= zlen (buffer s);
  sw_buffer : zlen (buffer s) <= buffer_size s;
  sw_size : 64 * 1024 <= buffer_size s < 2 ^ 61 + 2 ^ 12
}.

Lemma scratch_new_wf : scratch_wf scratch_new.
Proof. split; cbn; zlia. Qed.

Lemma view_length s : scratch_wf s -> zlen (view s) = position s.
Proof. intros []. apply zlen_ztake. lia. Qed.

(** [g] appends [out] to the text and leaves the BodyLength window alone. *)
Definition emits (g : FactoryScratch -> FactoryScratch) (out : bytes) : Prop :=
  forall s, scratch_wf s -> position s + zlen out < 2 ^ 61 ->
  scratch_wf (g s) /\ view (g s) = view s ++ out /\
  body_length_offset (g s) = body_length_offset s /\
  body_length_digit_size (g s) = body_length_digit_size s.

Lemma emits_id : emits id [].
Proof. intros s W _. by rewrite app_nil_r. Qed.

Lemma emits_comp g h a b : emits g a -> emits h b -> emits (fun s => h (g s)) (a ++ b).
Proof.
  intros Hg Hh s W Hl. rewrite zlen_app in Hl. pose proof (zlen_nonneg b).
  destruct (Hg s W ltac:(lia)) as (W1 & E1 & O1 & D1).
  assert (position (g s) = position s + zlen a) by (rewrite <- (view_length _ W1), E1, zlen_app, view_length by done; done).
  destruct (Hh (g s) W1 ltac:(lia)) as (W2 & E2 & O2 & D2).
  split_and!; [done| |congruence|congruence]. by rewrite E2, E1, app_assoc.
Qed.

Lemma emits_eq g a b : emits g a -> a = b -> emits g b.
Proof. by intros ? <-. Qed.

Lemma write_emits s sv : 0 <= position s <= zlen (buffer s) -> zlen (buffer s) <= buffer_size s ->
  64 * 1024 <= buffer_size s < 2 ^ 61 + 2 ^ 12 -> position s + zlen sv <= buffer_size s ->
  scratch_wf (write sv s) /\ view (write sv s) = view s ++ sv.
Proof.
  intros Hp Hb Hs Hl. pose proof (zlen_nonneg sv). unfold write. rewrite u64_small by lia. split.
  - split; cbn; [rewrite zlen_blit by lia; lia|rewrite zlen_blit by lia; lia|lia].
  - unfold view, get_buffer_view. cbn. by rewrite blit_app by lia.
Qed.

Lemma grow_view extra s : scratch_wf s -> view (grow extra s) = view s.
Proof. intros []. unfold view, get_buffer_view, grow. cbn. by rewrite ztake_ztake by lia. Qed.

Lemma add_string_emits sv : emits (add_string sv) sv.
Proof.
  intros s W Hl. pose proof (zlen_nonneg sv). destruct (W) as [Hp Hb Hs]. unfold add_string.
  rewrite (u64_small (position s + zlen sv)) by lia.
  destruct (Z.ltb_spec (buffer_size s) (position s + zlen sv)).
  - rewrite (u64_small (position s + zlen sv - buffer_size s)) by lia. unfold min_grow_size.
    set (extra := Z.max _ _). assert (Hx : position s + zlen sv <= buffer_size s + extra <= 2 ^ 61 + 1024) by lia.
    destruct (write_emits (grow extra s) sv) as [W' E']; [unfold grow; cbn; rewrite ?zlen_ztake, ?u64_small by lia; lia..|].
    rewrite E', grow_view by done. done.
  - destruct (write_emits s sv) as [W' E']; [lia..|]. done.
Qed.

Lemma add_char_emits c : emits (add_char c) [c].
Proof.
  intros s W Hl. change (zlen [c]) with 1 in Hl. destruct (W) as [Hp Hb Hs]. unfold add_char.
  rewrite (u64_small (position s + 1)) by lia. destruct (Z.ltb_spec (buffer_size s) (position s + 1)).
  - unfold min_grow_size.
    destruct (write_emits (grow 1024 s) [c]) as [W' E'];
      [unfold grow; cbn; rewrite ?zlen_ztake, ?u64_small by lia; change (zlen [c]) with 1; lia..|].
    rewrite E', grow_view by done. done.
  - destruct (write_emits s [c]) as [W' E']; [lia..|change (zlen [c]) with 1; lia|]. done.
Qed.

(** From here on only [emits] is used. *)
#[global] Opaque add_string add_char.

Create HintDb factory.
#[export] Hint Resolve emits_id add_string_emits add_char_emits : factory.

Lemma add_int_emits v : emits (add_int v) (to_chars v).
Proof. apply add_string_emits. Qed.

Lemma iter_char_emits k c : emits (Nat.iter k (add_char c)) (replicate k c).
Proof.
  induction k as [|k IH]; [apply emits_id|].
  eapply emits_eq; [apply (emits_comp _ _ _ _ IH (add_char_emits c))|].
  by rewrite <- replicate_cons_app.
Qed.

Lemma to_chars_nonneg n : 0 <= n -> to_chars n = to_dec n.
Proof. intros. unfold to_chars. by rewrite (proj2 (Z.ltb_ge _ _)) by lia. Qed.

(** [add_field] writes the field in its wire form. *)
Lemma add_field_emits t v : 0 <= t -> emits (add_field t v) (field_wire (mk_field t v)).
Proof.
  intros Ht. unfold add_field, add_soh, add_equal_sign.
  eapply emits_eq.
  - apply emits_comp; [apply emits_comp; [apply emits_comp; [apply add_int_emits|apply add_char_emits]|apply add_string_emits]|apply add_char_emits].
  - unfold field_wire. cbn [tag value]. by rewrite to_chars_nonneg, <- !app_assoc.
Qed.

Lemma add_field_int_emits t v : 0 <= t -> emits (add_field_int t v) (field_wire (mk_field t (to_chars v))).
Proof. exact (add_field_emits t (to_chars v)). Qed.

Lemma emits_field g l t v : 0 <= t -> emits g (fields_wire l) ->
  emits (fun s => add_field t v (g s)) (fields_wire (l ++ [mk_field t v])).
Proof.
  intros Ht Hg. eapply emits_eq; [apply (emits_comp _ _ _ _ Hg (add_field_emits t v Ht))|].
  unfold fields_wire. rewrite fmap_app, concat_app. cbn. by rewrite app_nil_r.
Qed.

Lemma emits_field_int g l t v : 0 <= t -> emits g (fields_wire l) ->
  emits (fun s => add_field_int t v (g s)) (fields_wire (l ++ [mk_field t (to_chars v)])).
Proof. exact (emits_field g l t (to_chars v)). Qed.

(** ** Building a message *)

(** A complete message with the given version and body. *)
Definition frame_wire (version body : bytes) : bytes :=
  let head := field_wire (mk_field 8 version) ++ field_wire (mk_field 9 (to_dec (zlen body))) ++ body in
  head ++ B "10=" ++ checksum_text (byte_sum head mod 256) ++ [SOH].

Lemma reset_wf s : scratch_wf s -> scratch_wf (reset s) /\ view (reset s) = [].
Proof. intros []. split; [split; cbn; zlia|done]. Qed.

Lemma mark_body_length_spec b : scratch_wf b ->
  scratch_wf (mark_body_length b) /\ view (mark_body_length b) = view b /\ position (mark_body_length b) = position b /\
  body_length_offset (mark_body_length b) = position b /\
  body_length_digit_size (mark_body_length b) = body_length_digit_size b.
Proof. intros [A1 A2 A3]. split_and!; [split; [exact A1|exact A2|exact A3]|done..]. Qed.

Lemma placeholder_emits a : scratch_wf a -> position a + 13 < 2 ^ 61 -> body_length_digit_size a = 10 ->
  scratch_wf (add_body_length_placeholder a) /\
  view (add_body_length_placeholder a) = view a ++ B "9=" ++ replicate 10 x30 ++ [SOH] /\
  body_length_offset (add_body_length_placeholder a) = position a + 2 /\
  body_length_digit_size (add_body_length_placeholder a) = 10.
Proof.
  intros W Hp D. unfold add_body_length_placeholder. cbv zeta.
  destruct (emits_comp _ _ _ _ (add_int_emits 9) (add_char_emits x3d) a W) as (Wb & Eb & _ & Db).
  { change (zlen (to_chars 9 ++ [x3d])) with 2. lia. }
  fold (add_equal_sign (add_int 9 a)) in Wb, Eb, Db.
  generalize dependent (add_equal_sign (add_int 9 a)). intros b Wb Eb Db.
  assert (Hpb : position b = position a + 2).
  { rewrite <- (view_length _ Wb), Eb, zlen_app, view_length by done. by change (zlen (to_chars 9 ++ [x3d])) with 2. }
  destruct (mark_body_length_spec b Wb) as (Wc & Ec & Pc & Oc & Dc).
  generalize dependent (mark_body_length b). intros c Wc Ec Pc Oc Dc.
  rewrite Dc, Db, D. change (Z.to_nat 10) with 10%nat.
  destruct (emits_comp _ _ _ _ (iter_char_emits 10 x30) (add_char_emits SOH) c Wc) as (W4 & E4 & O4 & D4).
  { change (zlen (replicate 10 x30 ++ [SOH])) with 11. lia. }
  fold (add_soh (Nat.iter 10 (add_char x30) c)) in W4, E4, O4, D4.
  split_and!; [exact W4| |congruence|congruence].
  rewrite E4, Ec, Eb. change (B "9=") with (to_chars 9 ++ [x3d]). by rewrite <- !app_assoc.
Qed.

(** After the version field and the placeholder. *)
Lemma placeholder_spec version s : scratch_wf s -> zlen version < 2 ^ 60 ->
  let s1 := add_body_length_placeholder (add_field 8 version (reset s)) in
  let pre := field_wire (mk_field 8 version) ++ B "9=" in
  scratch_wf s1 /\ view s1 = pre ++ replicate 10 x30 ++ [SOH] /\
  body_length_offset s1 = zlen pre /\ body_length_digit_size s1 = 10.
Proof.
  intros W Hl. cbv zeta. destruct (reset_wf s W) as [W0 E0].
  assert (Hp8 : zlen (field_wire (mk_field 8 version)) = zlen version + 3).
  { rewrite field_wire_length. cbn [tag value]. change (zlen (to_dec 8)) with 1. lia. }
  assert (D0 : body_length_digit_size (reset s) = 10) by done. assert (P0 : position (reset s) = 0) by done.
  destruct (add_field_emits 8 version ltac:(lia) (reset s) W0) as (W1 & E1 & _ & D1); [lia|].
  generalize dependent (add_field 8 version (reset s)). intros a W1 E1 D1. rewrite E0 in E1. cbn [app] in E1.
  assert (Hpa : position a = zlen version + 3) by (by rewrite <- (view_length _ W1), E1).
  destruct (placeholder_emits a W1) as (W2 & E2 & O2 & D2); [lia|congruence|].
  split_and!; [exact W2| | |exact D2].
  - by rewrite E2, E1, <- !app_assoc.
  - rewrite O2, zlen_app. change (zlen (B "9=")) with 2. lia.
Qed.

(** The digits replace the placeholder and the body moves up to them. *)
Lemma insert_body_length_spec s pre body : scratch_wf s -> view s = pre ++ replicate 10 x30 ++ [SOH] ++ body ->
  body_length_offset s = zlen pre -> body_length_digit_size s = 10 -> zlen body < 10 ^ 10 -> zlen pre < 2 ^ 60 ->
  scratch_wf (insert_body_length s) /\
  view (insert_body_length s) = pre ++ to_dec (zlen body) ++ [SOH] ++ body.
Proof.
  intros W Ev Eo Ed Hb Hpre. pose proof (view_length s W) as Hp. rewrite Ev, !zlen_app in Hp.
  change (zlen (replicate 10 x30)) with 10 in Hp. change (zlen [SOH]) with 1 in Hp.
  pose proof (zlen_nonneg body). pose proof (zlen_nonneg pre). destruct (W) as [Wp Wb Ws].
  unfold insert_body_length, compute_body_length. cbv zeta. rewrite Eo, Ed.
  replace (position s - (zlen pre + 10 + 1)) with (zlen body) by lia. rewrite u64_small by lia.
  assert (H20 : 0 <= zlen body < 10 ^ 20) by lia.
  pose proof (to_dec_length _ H20 10 ltac:(lia) ltac:(lia)) as Hd. set (d := to_dec (zlen body)) in *.
  rewrite u64_small by lia.
  unfold view, get_buffer_view in Ev.
  assert (Ebuf : buffer s = pre ++ replicate 10 x30 ++ ([SOH] ++ body) ++ zdrop (position s) (buffer s)).
  { rewrite <- (ztake_zdrop (position s) (buffer s)) at 1. by rewrite Ev, <- !app_assoc. }
  set (junk := zdrop (position s) (buffer s)) in *.
  assert (Eb1 : blit (zlen pre) d (buffer s) = pre ++ d ++ zdrop (zlen d) (replicate 10 x30) ++ ([SOH] ++ body) ++ junk).
  { unfold blit. rewrite Ebuf at 1 2. rewrite ztake_app_exact, zdrop_app_r by lia.
    replace (zlen pre + zlen d - zlen pre) with (zlen d) by lia.
    rewrite zdrop_app_l; [done|]. change (zlen (replicate 10 x30)) with 10. lia. }
  rewrite Eb1.
  assert (Esub : zsub (zlen pre + 10) (position s - (zlen pre + 10))
      (pre ++ d ++ zdrop (zlen d) (replicate 10 x30) ++ ([SOH] ++ body) ++ junk) = [SOH] ++ body).
  { replace (pre ++ d ++ zdrop (zlen d) (replicate 10 x30) ++ ([SOH] ++ body) ++ junk) with
      ((pre ++ d ++ zdrop (zlen d) (replicate 10 x30)) ++ ([SOH] ++ body) ++ junk) by (by rewrite <- !app_assoc).
    assert (El : zlen (pre ++ d ++ zdrop (zlen d) (replicate 10 x30)) = zlen pre + 10).
    { rewrite !zlen_app, zlen_zdrop; change (zlen (replicate 10 x30)) with 10; lia. }
    rewrite <- El. replace (position s - zlen (pre ++ d ++ zdrop (zlen d) (replicate 10 x30))) with (zlen ([SOH] ++ body))
      by (rewrite El, zlen_app; change (zlen [SOH]) with 1; lia).
    apply zsub_mid. }
  rewrite Esub. set (b1 := pre ++ d ++ zdrop (zlen d) (replicate 10 x30) ++ ([SOH] ++ body) ++ junk) in *.
  assert (Hlb1 : zlen b1 = zlen (buffer s)) by (rewrite <- Eb1, zlen_blit; lia).
  assert (Hsb : zlen ([SOH] ++ body) = 1 + zlen body) by (rewrite zlen_app; done).
  split.
  - split; cbn [position buffer buffer_size]; rewrite ?zlen_blit by lia; lia.
  - unfold view, get_buffer_view. cbn [position buffer].
    replace (position s - (10 - zlen d)) with (zlen pre + zlen d + zlen ([SOH] ++ body)) by lia.
    rewrite blit_app by lia. unfold b1. rewrite (app_assoc pre d).
    replace (zlen pre + zlen d) with (zlen (pre ++ d)) by (by rewrite zlen_app).
    by rewrite ztake_app_exact, <- app_assoc.
Qed.

(** The text [insert_checksum] adds for the checksum [n]. *)
Lemma checksum_emits n : emits (fun s => add_soh (add_string (to_dec n)
    (if zlen (to_dec n) <? 3 then Nat.iter (Z.to_nat (3 - zlen (to_dec n))) (add_char x30) (add_equal_sign (add_string (B "10") s))
     else add_equal_sign (add_string (B "10") s)))) (B "10=" ++ checksum_text n ++ [SOH]).
Proof.
  assert (H10 : emits (fun s => add_equal_sign (add_string (B "10") s)) (B "10=")).
  { eapply emits_eq; [apply (emits_comp _ _ _ _ (add_string_emits (B "10")) (add_char_emits x3d))|done]. }
  unfold checksum_text. destruct (zlen (to_dec n) <? 3); eapply emits_eq.
  - exact (emits_comp _ _ _ _ (emits_comp _ _ _ _ (emits_comp _ _ _ _ H10 (iter_char_emits _ x30))
             (add_string_emits (to_dec n))) (add_char_emits SOH)).
  - by rewrite <- !app_assoc.
  - exact (emits_comp _ _ _ _ (emits_comp _ _ _ _ H10 (add_string_emits (to_dec n))) (add_char_emits SOH)).
  - by rewrite <- !app_assoc.
Qed.

Lemma insert_checksum_spec s : scratch_wf s -> position s < 2 ^ 60 ->
  scratch_wf (insert_checksum s) /\
  view (insert_checksum s) = view s ++ B "10=" ++ checksum_text (byte_sum (view s) mod 256) ++ [SOH].
Proof.
  intros W Hp. unfold insert_checksum. cbv zeta.
  assert (Wc : scratch_wf (mark_checksum s)) by (destruct W as [A1 A2 A3]; split; [exact A1|exact A2|exact A3]).
  assert (Hc : compute_checksum (mark_checksum s) = byte_sum (view s) mod 256) by done.
  assert (Hv : view (mark_checksum s) = view s) by done. assert (Hpos : position (mark_checksum s) = position s) by done.
  rewrite Hc. set (n := byte_sum (view s) mod 256).
  pose proof (Z.mod_pos_bound (byte_sum (view s)) 256 ltac:(lia)).
  destruct (checksum_text_spec n ltac:(unfold n; lia)) as (_ & Hl & _).
  generalize dependent (mark_checksum s). intros c Wc _ Hv Hpos.
  destruct (checksum_emits n c Wc) as (W' & E' & _).
  { rewrite !zlen_app, Hl. change (zlen (B "10=")) with 3. change (zlen [SOH]) with 1. lia. }
  rewrite Hv in E'. split; [exact W'|exact E'].
Qed.

(** The trailer completes a buffer that holds the version, the placeholder and the body. *)
Lemma stamp_trailer_spec version body s : scratch_wf s ->
  view s = (field_wire (mk_field 8 version) ++ B "9=") ++ replicate 10 x30 ++ [SOH] ++ body ->
  body_length_offset s = zlen (field_wire (mk_field 8 version) ++ B "9=") -> body_length_digit_size s = 10 ->
  zlen version < 2 ^ 59 -> zlen body < 10 ^ 10 ->
  get_buffer_view (stamp_trailer_ s) = frame_wire version body /\ scratch_wf (stamp_trailer_ s).
Proof.
  intros W E O D Hv Hb. set (pre := field_wire (mk_field 8 version) ++ B "9=") in *.
  assert (Hpre : zlen pre = zlen version + 5).
  { unfold pre. rewrite zlen_app, field_wire_length. cbn [tag value]. change (zlen (to_dec 8)) with 1. change (zlen (B "9=")) with 2. lia. }
  pose proof (zlen_nonneg version). pose proof (zlen_nonneg body).
  destruct (insert_body_length_spec s pre body W E O D Hb ltac:(lia)) as [W3 E3].
  assert (H20 : 0 <= zlen body < 10 ^ 20) by lia. pose proof (to_dec_length _ H20 10 ltac:(lia) ltac:(lia)).
  destruct (insert_checksum_spec (insert_body_length s) W3) as [W4 E4].
  { rewrite <- view_length, E3, !zlen_app by done. change (zlen [SOH]) with 1. lia. }
  unfold stamp_trailer_. split; [|done]. fold view. rewrite E4, E3. unfold frame_wire, pre.
  assert (E9 : (field_wire (mk_field 8 version) ++ B "9=") ++ to_dec (zlen body) ++ [SOH] ++ body =
    field_wire (mk_field 8 version) ++ field_wire (mk_field 9 (to_dec (zlen body))) ++ body).
  { unfold field_wire at 3. cbn [tag value]. change (to_dec 9) with (B "9"). by rewrite <- !app_assoc. }
  by rewrite E9.
Qed.

(** Every message is built alike: whatever appends the body, the finished buffer holds the
    version, the decimal length of the body, the body and the three-digit checksum of
    everything before it; the block is never overrun. *)
Lemma build_wire version body g s : emits g body -> scratch_wf s -> zlen version < 2 ^ 59 -> zlen body < 10 ^ 10 ->
  let s' := stamp_trailer_ (g (add_body_length_placeholder (add_field 8 version (reset s)))) in
  get_buffer_view s' = frame_wire version body /\ scratch_wf s'.
Proof.
  intros Hg W Hv Hb. destruct (placeholder_spec version s W ltac:(lia)) as (W1 & E1 & O1 & D1). cbv zeta in *.
  generalize dependent (add_body_length_placeholder (add_field 8 version (reset s))). intros s1 W1 E1 O1 D1.
  assert (Hp1 : position s1 < 2 ^ 60).
  { rewrite <- view_length, E1, !zlen_app, field_wire_length by done. cbn [tag value]. change (zlen (to_dec 8)) with 1.
    change (zlen (B "9=")) with 2. change (zlen (replicate 10 x30)) with 10. change (zlen [SOH]) with 1. lia. }
  destruct (Hg s1 W1 ltac:(lia)) as (W2 & E2 & O2 & D2).
  apply stamp_trailer_spec; [done| |congruence|congruence|done|done]. by rewrite E2, E1, <- !app_assoc.
Qed.

(** ** Every kind of outbound message *)

Inductive Outbound : Set :=
  | OLogon (heartbeat_override : Z) (echo_reset : bool)
  | OHeartbeat (test_req_id : bytes)
  | OTestRequest (id : bytes)
  | OResendRequest (begin_seq_no end_seq_no : Z)
  | OSequenceReset (newSeqNo : Z) (gapfill : bool)
  | OLogout (text : bytes)
  | OReject (ref_seq_num reason tag : Z) (text : bytes)
  | OCustom (payload : bytes)
  | OApp (msg : GenericMessage) (type : MsgType).

Definition opt_field (t : Z) (v : bytes) : GenericMessage := if zlen v =? 0 then [] else [mk_field t v].

Section Outbound.
Context `{ClockLike T} (clock_ : T) (params_ : SessionParameters).

(** The operation of the factory. *)
Definition build (m : Outbound) (f : MessageFactory) : bytes * MessageFactory :=
  match m with
  | OLogon h r => logon clock_ params_ h r f
  | OHeartbeat id => heart_beat clock_ params_ id f
  | OTestRequest id => test_request clock_ params_ id f
  | OResendRequest b e => resend_request clock_ params_ b e f
  | OSequenceReset n g => sequence_reset clock_ params_ n g f
  | OLogout t => logout clock_ params_ t f
  | OReject r c t s => reject clock_ params_ r c t s f
  | OCustom p => custom_message clock_ params_ p f
  | OApp msg ty => from_app clock_ params_ msg ty f
  end.

Definition type_of (m : Outbound) : bytes :=
  match m with
  | OLogon _ _ => B "A" | OHeartbeat _ => B "0" | OTestRequest _ => B "1" | OResendRequest _ _ => B "2"
  | OSequenceReset _ _ => B "4" | OLogout _ => B "5" | OReject _ _ _ _ => B "3" | OCustom _ => B "cu"
  | OApp _ ty => msg_type_view ty
  end.

(** The fields after the header, in order. *)
Definition fields_of (m : Outbound) : GenericMessage :=
  match m with
  | OLogon h r => [mk_field 98 (to_chars (encrypt_method params_));
                   mk_field 141 (if r then B "Y" else B "N"); mk_field 108 (to_chars h)]
  | OHeartbeat id => opt_field 112 id
  | OTestRequest id => [mk_field 112 id]
  | OResendRequest b e => [mk_field 7 (to_chars (i64 b)); mk_field 16 (to_chars (i64 e))]
  | OSequenceReset n g => (if g then [mk_field 123 (B "Y")] else []) ++ [mk_field 36 (to_chars (i64 n))]
  | OLogout t => opt_field 58 t
  | OReject r c t s => [mk_field 45 (to_chars (i64 r))] ++ (if t =? 0 then [] else [mk_field 371 (to_chars t)]) ++
                       [mk_field 373 (to_chars c)] ++ opt_field 58 s
  | OCustom p => [mk_field 9250 p]
  | OApp msg _ => msg
  end.

Definition header_fields (type : bytes) (seq : Z) : GenericMessage :=
  [mk_field 35 type; mk_field 34 (to_chars (i64 seq)); mk_field 49 (sender_comp_id params_);
   mk_field 56 (target_comp_id params_); mk_field 52 (now_fix clock_)].

(** Everything between the BodyLength field and the checksum. *)
Definition outbound_body (m : Outbound) (seq : Z) : GenericMessage := header_fields (type_of m) seq ++ fields_of m.

Definition app_tags_ok (m : Outbound) : Prop :=
  match m with OApp msg _ => Forall (fun fld => 0 <= tag fld) msg | _ => True end.

(** What the operation appends after the header. *)
Lemma fold_fields_emits msg g l : Forall (fun fld => 0 <= tag fld) msg -> emits g (fields_wire l) ->
  emits (fun s => fold_left (fun s fld => add_field (tag fld) (value fld) s) msg (g s)) (fields_wire (l ++ msg)).
Proof using.
  intros Hm. revert g l. induction Hm as [|fld msg Ht _ IH]; intros g l Hg; cbn [fold_left].
  - by rewrite app_nil_r.
  - rewrite cons_middle, app_assoc. destruct fld as [t v]; cbn [tag value] in *.
    apply (IH (fun s => add_field t v (g s))). by apply emits_field.
Qed.

Definition extend (m : Outbound) : FactoryScratch -> FactoryScratch :=
  match m with
  | OLogon h r => fun s => add_field_int 108 h (add_field 141 (if r then B "Y" else B "N") (add_field_int 98 (encrypt_method params_) s))
  | OHeartbeat id => fun s => if zlen id =? 0 then s else add_field 112 id s
  | OTestRequest id => add_field 112 id
  | OResendRequest b e => fun s => add_field_int 16 (i64 e) (add_field_int 7 (i64 b) s)
  | OSequenceReset n g => fun s => add_field_int 36 (i64 n) (if g then add_field 123 (B "Y") s else s)
  | OLogout t => fun s => if zlen t =? 0 then s else add_field 58 t s
  | OReject r c t x => fun s =>
      let s := add_field_int 45 (i64 r) s in
      let s := if t =? 0 then s else add_field_int 371 t s in
      let s := add_field_int 373 c s in
      if zlen x =? 0 then s else add_field 58 x s
  | OCustom p => add_field 9250 p
  | OApp msg _ => fun s => fold_left (fun s fld => add_field (tag fld) (value fld) s) msg s
  end.

Lemma emits_opt t v g l : 0 <= t -> emits g (fields_wire l) ->
  emits (fun s => if zlen v =? 0 then g s else add_field t v (g s)) (fields_wire (l ++ opt_field t v)).
Proof using.
  intros Ht Hg. unfold opt_field. destruct (zlen v =? 0); [by rewrite app_nil_r|by apply emits_field].
Qed.

Lemma extend_emits m g l : app_tags_ok m -> emits g (fields_wire l) ->
  emits (fun s => extend m (g s)) (fields_wire (l ++ fields_of m)).
Proof using.
  intros Ha Hg. destruct m as [h r|id|id|b e|n gp|t|r c t x|p|msg ty]; cbn [extend fields_of].
  - rewrite (cons_middle (mk_field 98 _)), app_assoc, (cons_middle (mk_field 141 _)), app_assoc.
    apply (emits_field_int (fun s => add_field 141 _ _)); [lia|].
    apply (emits_field (fun s => add_field_int 98 _ _)); [lia|]. by apply emits_field_int.
  - by apply emits_opt.
  - by apply (emits_field g).
  - rewrite (cons_middle (mk_field 7 _)), app_assoc.
    apply (emits_field_int (fun s => add_field_int 7 _ _)); [lia|]. by apply emits_field_int.
  - rewrite app_assoc. apply (emits_field_int (fun s => if gp then _ else _)); [lia|].
    destruct gp; [by apply emits_field|by rewrite app_nil_r].
  - by apply emits_opt.
  - rewrite !app_assoc. apply (emits_opt 58 x (fun s => add_field_int 373 _ _)); [lia|].
    apply (emits_field_int (fun s => if t =? 0 then _ else _)); [lia|].
    destruct (t =? 0); [rewrite app_nil_r; by apply emits_field_int|].
    apply (emits_field_int (fun s => add_field_int 45 _ _)); [lia|]. by apply emits_field_int.
  - by apply (emits_field g).
  - by apply fold_fields_emits.
Qed.

Lemma header_emits type seq :
  emits (fun s => add_field 52 (now_fix clock_) (add_field 56 (target_comp_id params_) (add_field 49 (sender_comp_id params_)
           (add_field_int 34 (i64 seq) (add_field 35 type s))))) (fields_wire (header_fields type seq)).
Proof using.
  unfold header_fields.
  apply (emits_field _ [_; _; _; _]); [lia|]. apply (emits_field _ [_; _; _]); [lia|].
  apply (emits_field _ [_; _]); [lia|]. apply (emits_field_int _ [_]); [lia|].
  apply (emits_field id []); [lia|]. apply emits_id.
Qed.

Lemma build_unfold m f :
  build m f =
  let s := stamp_trailer_ (extend m (add_field 52 (now_fix clock_) (add_field 56 (target_comp_id params_)
             (add_field 49 (sender_comp_id params_) (add_field_int 34 (i64 (next_out (seq_provider_ f))) (add_field 35 (type_of m)
               (add_body_length_placeholder (add_field 8 (fix_version params_) (reset (scratch_ f)))))))))) in
  (get_buffer_view s, mk_factory s (update_out (next_out (seq_provider_ f) + 1) (seq_provider_ f))).
Proof using. by destruct m. Qed.

Lemma outbound_wire m f : scratch_wf (scratch_ f) -> app_tags_ok m -> zlen (fix_version params_) < 2 ^ 59 ->
  zlen (fields_wire (outbound_body m (next_out (seq_provider_ f)))) < 10 ^ 10 ->
  fst (build m f) = frame_wire (fix_version params_) (fields_wire (outbound_body m (next_out (seq_provider_ f)))) /\
  scratch_wf (scratch_ (snd (build m f))).
Proof using.
  intros W Ha Hv Hl. rewrite build_unfold. cbv zeta.
  set (body := outbound_body m (next_out (seq_provider_ f))) in *.
  pose proof (extend_emits m _ _ Ha (header_emits (type_of m) (next_out (seq_provider_ f)))) as He.
  destruct (build_wire (fix_version params_) (fields_wire body) _ (scratch_ f) He W Hv Hl) as [E W'].
  cbv beta zeta in E, W'. split; [exact E|exact W'].
Qed.

(** C29: the operations of the factory: the wire they return is the version, the body length,
    the header with the next sequence number and the session's CompIDs, the fields of the
    message, and the checksum; the outgoing sequence number advances by one and the incoming
    one is unchanged. *)
Theorem factory_build m f : scratch_wf (scratch_ f) -> app_tags_ok m -> zlen (fix_version params_) < 2 ^ 59 ->
  zlen (fields_wire (outbound_body m (next_out (seq_provider_ f)))) < 10 ^ 10 ->
  0 <= next_out (seq_provider_ f) < 2 ^ 64 - 1 ->
  exists f', build m f = (frame_wire (fix_version params_) (fields_wire (outbound_body m (next_out (seq_provider_ f)))), f') /\
    scratch_wf (scratch_ f') /\ next_out (seq_provider_ f') = next_out (seq_provider_ f) + 1 /\
    next_in (seq_provider_ f') = next_in (seq_provider_ f).
Proof using.
  intros W Ha Hv Hl Hq. destruct (outbound_wire m f W Ha Hv Hl) as [E W'].
  exists (snd (build m f)). rewrite <- E. split; [by destruct (build m f)|]. split; [done|].
  rewrite build_unfold. split; [|done]. cbn. apply u64_small. lia.
Qed.

(** The gap fill used in a resend: the given sequence number, PossDup, and no number used up. *)
Lemma gap_fill_build n k f : scratch_wf (scratch_ f) -> zlen (fix_version params_) < 2 ^ 59 ->
  let body := header_fields (B "4") n ++
    [mk_field 123 (B "Y"); mk_field 36 (to_chars (i64 k)); mk_field 43 (B "Y"); mk_field 122 (now_fix clock_)] in
  zlen (fields_wire body) < 10 ^ 10 ->
  exists f', sequence_reset_gap_fill clock_ params_ n k f = (frame_wire (fix_version params_) (fields_wire body), f') /\
    scratch_wf (scratch_ f') /\ seq_provider_ f' = seq_provider_ f.
Proof using.
  intros W Hv body Hl. unfold sequence_reset_gap_fill. cbv zeta.
  assert (He : emits (fun s => add_field 122 (now_fix clock_) (add_field 43 (B "Y") (add_field_int 36 (i64 k) (add_field 123 (B "Y")
     (add_field 52 (now_fix clock_) (add_field 56 (target_comp_id params_) (add_field 49 (sender_comp_id params_)
           (add_field_int 34 (i64 n) (add_field 35 (B "4") s))))))))) (fields_wire body)).
  { subst body. unfold header_fields. cbn [app].
    apply (emits_field _ [_; _; _; _; _; _; _; _]); [lia|]. apply (emits_field _ [_; _; _; _; _; _; _]); [lia|].
    apply (emits_field_int _ [_; _; _; _; _; _]); [lia|]. apply (emits_field _ [_; _; _; _; _]); [lia|].
    apply header_emits. }
  destruct (build_wire (fix_version params_) (fields_wire body) _ (scratch_ f) He W Hv Hl) as [E W'].
  cbv beta zeta in E, W'. eexists. split; [by rewrite E|]. split; [exact W'|done].
Qed.
End Outbound.

(** ** What the receiver makes of it *)

(** Integers on the wire. *)
Lemma to_chars_int v : - 10 ^ 20 < v < 10 ^ 20 -> value_text (to_chars v) /\ is_int_type (to_chars v) = true.
Proof.
  intros Hv. unfold to_chars. destruct (Z.ltb_spec v 0).
  - assert (H20 : 0 <= - v < 10 ^ 20) by lia. pose proof (to_dec_digits _ H20) as Hd.
    pose proof (to_dec_nonempty _ H20) as Hne. split; [split; [done|]|].
    + apply not_elem_of_cons. split; [done|]. by apply not_digit_notin.
    + unfold is_int_type, first_num_idx. change (is_sign x2d) with true.
      assert (0 < zlen (to_dec (- v))) by (destruct (to_dec (- v)); [done|zlia]).
      rewrite (proj2 (Z.leb_gt _ _)) by zlia. change (zdrop 1 (x2d :: to_dec (- v))) with (to_dec (- v)).
      by apply forallb_Forall.
  - assert (H20 : 0 <= v < 10 ^ 20) by lia. pose proof (to_dec_digits _ H20) as Hd.
    pose proof (to_dec_nonempty _ H20) as Hne. split; [split; [done|by apply not_digit_notin]|by apply is_int_type_digits].
Qed.

Lemma i64_range z : - 2 ^ 63 <= i64 z < 2 ^ 63.
Proof. unfold i64. pose proof (Z.mod_pos_bound (z + 2 ^ 63) (2 ^ 64) ltac:(lia)). lia. Qed.

(** A complete message over the fields [fs]. *)
Lemma frame_wire_fields version fs :
  let all := mk_field 8 version :: mk_field 9 (to_dec (zlen (fields_wire fs))) :: fs in
  frame_wire version (fields_wire fs) = wire_of all (checksum_text (byte_sum (fields_wire all) mod 256)).
Proof. intros all. unfold frame_wire, wire_of. subst all. by rewrite !fields_wire_cons. Qed.

(** The framer recognises it. *)
Lemma frame_wire_is_frame body : zlen body <= MAX_MESSAGE_SIZE -> is_frame (frame_wire (B "FIX.4.4") body).
Proof.
  intros Hl. pose proof (zlen_nonneg body). assert (H20 : 0 <= zlen body < 10 ^ 20) by (unfold MAX_MESSAGE_SIZE in *; lia).
  unfold frame_wire. set (head := field_wire (mk_field 8 _) ++ _ ++ body).
  pose proof (Z.mod_pos_bound (byte_sum head) 256 ltac:(lia)).
  destruct (checksum_text_spec (byte_sum head mod 256) ltac:(lia)) as (_ & Hck & _).
  exists (to_dec (zlen body)), (body ++ B "10=" ++ checksum_text (byte_sum head mod 256) ++ [SOH]). split_and!.
  - unfold head at 1. unfold frame_header, field_wire. cbn [tag value].
    change (to_dec 8 ++ [x3d] ++ B "FIX.4.4" ++ [SOH]) with Fix_First_Field. change (B "9=") with (to_dec 9 ++ [x3d]).
    by rewrite <- !app_assoc.
  - split_and!; [by apply to_dec_digits|by apply to_dec_nonempty|by rewrite to_dec_val].
  - rewrite !zlen_app, Hck, to_dec_val by done. change (zlen (B "10=")) with 3. change (zlen [SOH]) with 1. lia.
Qed.

(** The parser reads its fields back. *)
Lemma frame_wire_parse version fs : value_text version -> Forall field_ok fs -> zlen (fields_wire fs) < 10 ^ 10 ->
  exists ck, parse (frame_wire version (fields_wire fs)) =
    Ok ((mk_field 8 version :: mk_field 9 (to_dec (zlen (fields_wire fs))) :: fs) ++ [mk_field 10 ck], []) /\
    all_digits ck /\ ck <> [].
Proof.
  intros Hv Hf Hl. pose proof (zlen_nonneg (fields_wire fs)).
  assert (H20 : 0 <= zlen (fields_wire fs) < 10 ^ 20) by lia. rewrite frame_wire_fields. cbv zeta.
  set (all := mk_field 8 version :: mk_field 9 _ :: fs).
  assert (Ha : Forall field_ok all).
  { constructor; [split; [cbn; lia|done]|]. constructor; [|done]. split; [cbn; lia|]. split; cbn [value].
    - by apply to_dec_nonempty.
    - apply not_digit_notin; [by apply to_dec_digits|done]. }
  pose proof (Z.mod_pos_bound (byte_sum (fields_wire all)) 256 ltac:(lia)).
  destruct (checksum_text_spec (byte_sum (fields_wire all) mod 256) ltac:(lia)) as (Hd & Hlen & _).
  exists (checksum_text (byte_sum (fields_wire all) mod 256)). split_and!; [|done|by intros E; rewrite E in Hlen].
  by apply parse_wire.
Qed.

(** The session's own texts can be sent. *)
Record session_text (params : SessionParameters) (now_text : bytes) : Prop := {
  st_version : fix_version params = DEFAULT_FIX_VERSION;
  st_sender : value_text (sender_comp_id params);
  st_target : value_text (target_comp_id params);
  st_now : value_text now_text
}.

(** The other side of the session. *)
Definition peer_params (p : SessionParameters) : SessionParameters :=
  mk_params (no_resend_messages_types p) (fix_version p) (target_comp_id p) (sender_comp_id p) (heart_beat_int p)
            (encrypt_method p) (initiator_reset_on_logon p) (acceptor_reset_on_logon p).

(** Arguments an operation can be called with; [int] and [uint32_t] have 32 bits. *)
Definition sendable (m : Outbound) : Prop :=
  match m with
  | OLogon h _ => - 2 ^ 31 <= h < 2 ^ 31
  | OHeartbeat id => SOH ∉ id
  | OTestRequest id => value_text id
  | OResendRequest _ _ => True
  | OSequenceReset _ _ => True
  | OLogout t => SOH ∉ t
  | OReject _ c t x => 0 <= c < 2 ^ 32 /\ 0 <= t < 2 ^ 32 /\ SOH ∉ x
  | OCustom p => value_text p
  | OApp msg ty => Forall field_ok msg /\ value_text (msg_type_view ty)
  end.

Lemma opt_field_ok t v : 0 <= t < 10 ^ 7 -> SOH ∉ v -> Forall field_ok (opt_field t v).
Proof.
  intros Ht Hv. unfold opt_field. destruct (Z.eqb_spec (zlen v) 0); [constructor|].
  constructor; [|constructor]. split; [done|]. split; cbn [value]; [by intros ->|done].
Qed.

Lemma int_field_ok t v : 0 <= t < 10 ^ 7 -> - 10 ^ 20 < v < 10 ^ 20 -> field_ok (mk_field t (to_chars v)).
Proof. intros Ht Hv. split; [done|]. by apply to_chars_int. Qed.

Lemma yes_ok : value_text (B "Y") /\ value_text (B "N").
Proof. split; (split; [done|apply (bool_decide_unpack _); by vm_compute]). Qed.

Section Receiver.
Context `{ClockLike T} (clock_ : T) (params_ : SessionParameters).
Hypothesis Htext : session_text params_ (now_fix clock_).
Hypothesis Henc : - 2 ^ 31 <= encrypt_method params_ < 2 ^ 31.

Lemma outbound_fields_ok m seq : sendable m -> Forall field_ok (outbound_body clock_ params_ m seq).
Proof using Htext Henc.
  intros Hs. destruct Htext as [_ Hsnd Htgt Hnow]. pose proof (i64_range seq).
  assert (Hty : value_text (type_of m)).
  { destruct m; try (split; [done|apply (bool_decide_unpack _); by vm_compute]). apply Hs. }
  unfold outbound_body. apply Forall_app. split.
  - unfold header_fields. repeat (constructor; [first [by split|apply int_field_ok; lia]|]). constructor.
  - destruct yes_ok as [Hy Hn].
    destruct m as [h r|id|id|b e|n gp|t|r c t x|p|msg ty]; cbn [fields_of sendable] in *.
    + constructor; [apply int_field_ok; lia|]. constructor; [split; [cbn; lia|by destruct r]|].
      constructor; [apply int_field_ok; lia|constructor].
    + by apply opt_field_ok.
    + constructor; [by split|constructor].
    + pose proof (i64_range b). pose proof (i64_range e).
      constructor; [apply int_field_ok; lia|]. constructor; [apply int_field_ok; lia|constructor].
    + pose proof (i64_range n). apply Forall_app. split; [|constructor; [apply int_field_ok; lia|constructor]].
      destruct gp; [constructor; [by split|constructor]|constructor].
    + by apply opt_field_ok.
    + pose proof (i64_range r). destruct Hs as (Hc & Ht & Hx). rewrite !Forall_app. split_and!.
      * constructor; [apply int_field_ok; lia|constructor].
      * destruct (t =? 0); [constructor|]. constructor; [apply int_field_ok; lia|constructor].
      * constructor; [apply int_field_ok; lia|constructor].
      * by apply opt_field_ok.
    + constructor; [by split|constructor].
    + apply Hs.
Qed.
End Receiver.

(** *** The validator of the other side accepts it *)

(** A received message: the header, the fields of the type and the checksum. *)
Definition received (v9 type v34 sender target time : bytes) (extra : GenericMessage) (ck : bytes) : GenericMessage :=
  [mk_field 8 DEFAULT_FIX_VERSION; mk_field 9 v9; mk_field 35 type; mk_field 34 v34; mk_field 49 sender;
   mk_field 56 target; mk_field 52 time] ++ extra ++ [mk_field 10 ck].

(** Evaluates the searches for tags, whose values stay variables. *)
Ltac eval_find_tag :=
  repeat match goal with
  | |- context [find_tag ?k ?m] =>
      let r := eval vm_compute in (find_tag k m) in change (find_tag k m) with r
  end.

Ltac solve_entry :=
  split; [unfold field_valid; eval_find_tag; cbn; try done; f_equal; assumption | eval_find_tag; done].

Ltac solve_conforms :=
  split;
  [ rewrite slot_spec; reflexivity
  | by vm_compute
  | split; [eexists; split; reflexivity | eexists; split; [reflexivity|assumption] | eexists; split; reflexivity
           | eexists; rewrite slot_spec; split; [reflexivity|assumption] | by rewrite slot_spec | by rewrite slot_spec]
  | apply (bool_decide_unpack _); by vm_compute
  | unfold full_schema; cbn [app Schema.body]; repeat (constructor; [solve_entry|]); constructor
  | repeat (constructor; [apply (bool_decide_unpack _); by vm_compute|]); constructor ].

Section Conforms.
Context (params : SessionParameters) (v9 v34 time ck : bytes).
Hypothesis H9 : is_int_type v9 = true.
Hypothesis H34 : is_int_type v34 = true.
Hypothesis Hck : is_int_type ck = true.

Definition rcv (type : bytes) (extra : GenericMessage) : ValidMessage :=
  make_valid_message_view (received v9 type v34 (sender_comp_id params) (target_comp_id params) time extra ck).
Definition schema_for (t : bytes) (s : list FieldSchema) : MessageSchema := mk_message_schema t s.

Lemma logon_conforms a b h : is_int_type a = true -> is_boolean_type b = true -> is_int_type h = true ->
  conforms (rcv (B "A") [mk_field 98 a; mk_field 141 b; mk_field 108 h]) (peer_params params) (B "A") (schema_for (B "A") LogonSchema).
Proof using All. intros. unfold rcv. solve_conforms. Qed.

Lemma heartbeat_conforms id : conforms (rcv (B "0") [mk_field 112 id]) (peer_params params) (B "0") (schema_for (B "0") HeartbeatSchema).
Proof using All. unfold rcv. solve_conforms. Qed.
Lemma heartbeat_conforms_plain : conforms (rcv (B "0") []) (peer_params params) (B "0") (schema_for (B "0") HeartbeatSchema).
Proof using All. unfold rcv. solve_conforms. Qed.
Lemma test_request_conforms id : conforms (rcv (B "1") [mk_field 112 id]) (peer_params params) (B "1") (schema_for (B "1") TestRequestSchema).
Proof using All. unfold rcv. solve_conforms. Qed.
Lemma resend_request_conforms b e : is_int_type b = true -> is_int_type e = true ->
  conforms (rcv (B "2") [mk_field 7 b; mk_field 16 e]) (peer_params params) (B "2") (schema_for (B "2") ResendRequestSchema).
Proof using All. intros. unfold rcv. solve_conforms. Qed.
Lemma sequence_reset_conforms n : is_int_type n = true ->
  conforms (rcv (B "4") [mk_field 36 n]) (peer_params params) (B "4") (schema_for (B "4") SequenceResetSchema).
Proof using All. intros. unfold rcv. solve_conforms. Qed.
Lemma sequence_reset_conforms_gap n : is_int_type n = true ->
  conforms (rcv (B "4") [mk_field 123 (B "Y"); mk_field 36 n]) (peer_params params) (B "4") (schema_for (B "4") SequenceResetSchema).
Proof using All. intros. unfold rcv. solve_conforms. Qed.
Lemma logout_conforms t : conforms (rcv (B "5") [mk_field 58 t]) (peer_params params) (B "5") (schema_for (B "5") LogoutSchema).
Proof using All. unfold rcv. solve_conforms. Qed.
Lemma logout_conforms_plain : conforms (rcv (B "5") []) (peer_params params) (B "5") (schema_for (B "5") LogoutSchema).
Proof using All. unfold rcv. solve_conforms. Qed.
Lemma custom_conforms p : conforms (rcv (B "cu") [mk_field 9250 p]) (peer_params params) (B "cu") (schema_for (B "cu") CustomSchema).
Proof using All. unfold rcv. solve_conforms. Qed.

Lemma reject_conforms r c (t x : option bytes) : is_int_type r = true -> is_int_type c = true ->
  (forall v, t = Some v -> is_int_type v = true) ->
  conforms (rcv (B "3") ([mk_field 45 r] ++ match t with Some v => [mk_field 371 v] | None => [] end ++
                         [mk_field 373 c] ++ match x with Some v => [mk_field 58 v] | None => [] end))
           (peer_params params) (B "3") (schema_for (B "3") RejectSchema).
Proof using All.
  intros Hr Hc Ht. destruct t as [t|]; [specialize (Ht t eq_refl)|clear Ht]; destruct x as [x|]; cbn [app]; unfold rcv; solve_conforms.
Qed.
End Conforms.

(** Administrative messages and the custom message have a schema. *)
Definition admin (m : Outbound) : Prop := match m with OApp _ _ => False | _ => True end.

Lemma opt_field_cases t v : (opt_field t v = [] \/ opt_field t v = [mk_field t v]).
Proof. unfold opt_field. destruct (zlen v =? 0); auto. Qed.

Section PeerAccepts.
Context `{ClockLike T} (clock_ : T) (params_ : SessionParameters).
Hypothesis Htext : session_text params_ (now_fix clock_).
Hypothesis Henc : - 2 ^ 31 <= encrypt_method params_ < 2 ^ 31.

Lemma outbound_conforms m seq v9 ck : admin m -> sendable m -> is_int_type v9 = true -> is_int_type ck = true ->
  exists s, conforms
    (make_valid_message_view ((mk_field 8 DEFAULT_FIX_VERSION :: mk_field 9 v9 :: outbound_body clock_ params_ m seq) ++ [mk_field 10 ck]))
    (peer_params params_) (type_of m) s.
Proof using Henc.
  intros Ha Hs H9 Hck. pose proof (i64_range seq).
  assert (H34 : is_int_type (to_chars (i64 seq)) = true) by (apply to_chars_int; lia).
  assert (Hint : forall v, - 10 ^ 20 < v < 10 ^ 20 -> is_int_type (to_chars v) = true) by (intros; by apply to_chars_int).
  destruct m as [h r|id|id|b e|n gp|t|r c t x|p|msg ty]; cbn [type_of sendable] in *; [..|done].
  - eexists. apply (logon_conforms params_ v9 _ (now_fix clock_) ck H9 H34 Hck); [apply Hint; lia|by destruct r|apply Hint; lia].
  - unfold outbound_body. cbn [fields_of]. destruct (opt_field_cases 112 id) as [-> | ->]; eexists;
      [by apply (heartbeat_conforms_plain params_ v9 _ (now_fix clock_) ck)|by apply (heartbeat_conforms params_ v9 _ (now_fix clock_) ck)].
  - eexists. by apply (test_request_conforms params_ v9 _ (now_fix clock_) ck).
  - pose proof (i64_range b). pose proof (i64_range e). eexists.
    apply (resend_request_conforms params_ v9 _ (now_fix clock_) ck H9 H34 Hck); apply Hint; lia.
  - pose proof (i64_range n). destruct gp; eexists;
      [apply (sequence_reset_conforms_gap params_ v9 _ (now_fix clock_) ck H9 H34 Hck)
      |apply (sequence_reset_conforms params_ v9 _ (now_fix clock_) ck H9 H34 Hck)]; apply Hint; lia.
  - unfold outbound_body. cbn [fields_of]. destruct (opt_field_cases 58 t) as [-> | ->]; eexists;
      [by apply (logout_conforms_plain params_ v9 _ (now_fix clock_) ck)|by apply (logout_conforms params_ v9 _ (now_fix clock_) ck)].
  - pose proof (i64_range r). destruct Hs as (Hc & Ht & _).
    pose proof (reject_conforms params_ v9 _ (now_fix clock_) ck H9 H34 Hck (to_chars (i64 r)) (to_chars c)
      (if t =? 0 then None else Some (to_chars t)) (if zlen x =? 0 then None else Some x)) as P.
    unfold outbound_body. cbn [fields_of]. unfold opt_field. eexists.
    destruct (t =? 0), (zlen x =? 0); (apply P; [apply Hint; lia|apply Hint; lia|intros v [= <-]; apply Hint; lia || done]).
  - eexists. by apply (custom_conforms params_ v9 _ (now_fix clock_) ck).
Qed.

(** The other side reads a message back: its fields, its schema, its sequence number. *)
Lemma wire_read_back type q extra : let body := header_fields clock_ params_ type q ++ extra in
  let fs v9 ck := (mk_field 8 DEFAULT_FIX_VERSION :: mk_field 9 v9 :: body) ++ [mk_field 10 ck] in
  Forall field_ok body -> 0 <= q < 2 ^ 63 -> zlen (fields_wire body) < 10 ^ 10 ->
  (forall v9 ck, is_int_type v9 = true -> is_int_type ck = true -> exists s, conforms (make_valid_message_view (fs v9 ck)) (peer_params params_) type s) ->
  exists ck, let vm := make_valid_message_view (fs (to_dec (zlen (fields_wire body))) ck) in
    parse (frame_wire DEFAULT_FIX_VERSION (fields_wire body)) = Ok (message_ vm, []) /\
    (exists s, conforms vm (peer_params params_) type s) /\
    has_msg_seq_num (header_cache_ vm) = true /\ msg_seq_num (header_cache_ vm) = q.
Proof using.
  intros body fs Hok Hq Hl10 Hcf.
  destruct (frame_wire_parse DEFAULT_FIX_VERSION body) as (ck & Ep & Hck & Hckn);
    [split; [done|apply (bool_decide_unpack _); by vm_compute]|done|done|].
  assert (H20 : 0 <= zlen (fields_wire body) < 10 ^ 20) by (pose proof (zlen_nonneg (fields_wire body)); lia).
  set (v9 := to_dec (zlen (fields_wire body))) in *.
  destruct (Hcf v9 ck) as [s Hc]; [apply is_int_type_digits; [by apply to_dec_digits|by apply to_dec_nonempty]|by apply is_int_type_digits|].
  exists ck. cbv zeta. split; [exact Ep|]. split; [by exists s|].
  assert (Et : to_chars (i64 q) = to_dec q) by (rewrite i64_small, to_chars_nonneg by lia; done).
  destruct (seq_spec [mk_field 8 DEFAULT_FIX_VERSION; mk_field 9 v9; mk_field 35 type]
    (to_dec q) ([mk_field 49 (sender_comp_id params_); mk_field 56 (target_comp_id params_); mk_field 52 (now_fix clock_)] ++
                extra ++ [mk_field 10 ck])) as [Hhas Hnum].
  { apply (bool_decide_unpack _). by vm_compute. }
  { pose proof (cf_nodup _ _ _ _ Hc) as Hnd. revert Hnd. unfold make_valid_message_view, fs, body, header_fields.
    cbn [message_ app fmap list_fmap tag]. rewrite !NoDup_cons. intros (_ & _ & _ & Hx & _). exact Hx. }
  replace (_ ++ mk_field 34 (to_dec q) :: _) with (fs v9 ck) in Hhas, Hnum
    by (unfold fs, body, header_fields; rewrite Et; done).
  assert (Hc34 : fc_complete (to_dec q) (from_chars 64 (to_dec q)) = true).
  { destruct (proj2 (from_chars_ok_iff 64 (to_dec q) q ltac:(lia))) as [Hx _]; [|done].
    split_and!; [by apply to_dec_nonempty; lia|by apply to_dec_digits; lia|by apply to_dec_val; lia|lia]. }
  rewrite Hc34 in Hhas. split; [done|]. rewrite Hnum by done. apply to_dec_val. lia.
Qed.

Lemma outbound_read_back m q : admin m -> sendable m -> 0 <= q < 2 ^ 63 ->
  zlen (fields_wire (outbound_body clock_ params_ m q)) < 10 ^ 10 ->
  exists ck, let fs := (mk_field 8 DEFAULT_FIX_VERSION :: mk_field 9 (to_dec (zlen (fields_wire (outbound_body clock_ params_ m q))))
                        :: outbound_body clock_ params_ m q) ++ [mk_field 10 ck] in
    parse (frame_wire DEFAULT_FIX_VERSION (fields_wire (outbound_body clock_ params_ m q))) = Ok (fs, []) /\
    (exists s, conforms (make_valid_message_view fs) (peer_params params_) (type_of m) s) /\
    has_msg_seq_num (header_cache_ (make_valid_message_view fs)) = true /\
    msg_seq_num (header_cache_ (make_valid_message_view fs)) = q.
Proof using Htext Henc.
  intros Ha Hs Hq Hl10. apply (wire_read_back (type_of m) q (fields_of params_ m)); [by apply outbound_fields_ok|done|done|].
  intros v9 ck H9 Hck. by apply outbound_conforms.
Qed.

(** C16: what one engine builds the other accepts: for every administrative or custom message
    with sendable arguments, the bytes the factory returns are one frame for the framer, the
    parser reads exactly the fields that were written, in order and without an error, and
    the validator of a session with the CompIDs swapped reports no error; the sequence
    number in the header cache is the one that was sent. *)
Theorem peer_accepts m f v : scratch_wf (scratch_ f) -> admin m -> sendable m ->
  0 <= next_out (seq_provider_ f) < 2 ^ 63 ->
  zlen (fields_wire (outbound_body clock_ params_ m (next_out (seq_provider_ f)))) <= MAX_MESSAGE_SIZE ->
  zlen (fields_of params_ m) < 2 ^ 20 ->
  let wire := fst (build clock_ params_ m f) in
  is_frame wire /\
  exists fs ck v', parse wire = Ok (fs, []) /\
    fs = (mk_field 8 DEFAULT_FIX_VERSION :: mk_field 9 (to_dec (zlen (fields_wire (outbound_body clock_ params_ m (next_out (seq_provider_ f))))))
          :: outbound_body clock_ params_ m (next_out (seq_provider_ f))) ++ [mk_field 10 ck] /\
    validate_message (make_valid_message_view fs) (peer_params params_) v = Ok v' /\ errors (results_ v') = [] /\
    has_msg_seq_num (header_cache_ (make_valid_message_view fs)) = true /\
    msg_seq_num (header_cache_ (make_valid_message_view fs)) = next_out (seq_provider_ f).
Proof using Htext Henc.
  intros W Ha Hs Hq Hl Hn. cbv zeta. set (q := next_out (seq_provider_ f)) in *. pose proof (st_version _ _ Htext) as Ever.
  assert (Hl10 : zlen (fields_wire (outbound_body clock_ params_ m q)) < 10 ^ 10) by (unfold MAX_MESSAGE_SIZE in *; lia).
  destruct (outbound_wire clock_ params_ m f W) as [E _]; [by destruct m|by rewrite Ever|done|].
  fold q in E. rewrite Ever in E. rewrite E. split; [by apply frame_wire_is_frame|].
  destruct (outbound_read_back m q Ha Hs Hq Hl10) as (ck & Ep & (s & Hc) & Hhas & Hnum). cbv zeta in Ep, Hc, Hhas, Hnum.
  set (fs := (mk_field 8 _ :: _) ++ [mk_field 10 ck]) in *.
  destruct (conforms_accepted (make_valid_message_view fs) (peer_params params_) v (type_of m) s) as (v' & Ev & He & _).
  { unfold make_valid_message_view, fs, outbound_body. cbn [message_]. rewrite zlen_app, !zlen_cons, zlen_app.
    change (zlen (header_fields clock_ params_ (type_of m) q)) with 5. change (zlen []) with 0. lia. }
  { exact Hc. }
  exists fs, ck, v'. split_and!; done.
Qed.
End PeerAccepts.

Example factory_build_witness :
  exists f', build clock demo_params (OHeartbeat []) factory_new =
      (frame_wire (B "FIX.4.4") (fields_wire (outbound_body clock demo_params (OHeartbeat []) 1)), f') /\
    scratch_wf (scratch_ f') /\ next_out (seq_provider_ f') = 2 /\ next_in (seq_provider_ f') = 1.
Proof.
  apply (factory_build clock demo_params (OHeartbeat []) factory_new);
    [apply scratch_new_wf|done|by vm_compute|by vm_compute|by vm_compute].
Defined.

Lemma demo_session_text : session_text demo_params (now_fix clock).
Proof. split; [done|..]; (split; [done|apply (bool_decide_unpack _); by vm_compute]). Qed.

Example peer_accepts_witness :
  is_frame (fst (build clock demo_params (OTestRequest (B "ping")) factory_new)).
Proof.
  apply (peer_accepts clock demo_params demo_session_text ltac:(by vm_compute) (OTestRequest (B "ping")) factory_new validator_new).
  - apply scratch_new_wf.
  - done.
  - split; [done|apply (bool_decide_unpack _); by vm_compute].
  - by vm_compute.
  - by vm_compute.
  - by vm_compute.
Defined.

(** ** Regenerating a stored message *)

Lemma edit_window_spec s a x b new : scratch_wf s -> view s = a ++ x ++ b -> zlen new = zlen x -> zlen (view s) < 2 ^ 61 ->
  exists s', edit_window (zlen a) (zlen x) new s = Ok s' /\ scratch_wf s' /\ view s' = a ++ new ++ b /\
    body_length_offset s' = body_length_offset s /\ body_length_digit_size s' = body_length_digit_size s.
Proof.
  intros W Ev Hn Hl. pose proof (view_length s W) as Hp. destruct (W) as [Wp Wb Ws].
  rewrite Ev, !zlen_app in Hp. pose proof (zlen_nonneg a). pose proof (zlen_nonneg x). pose proof (zlen_nonneg b).
  rewrite view_length in Hl by done. unfold edit_window. rewrite Hn, Z.eqb_refl, u64_small by lia.
  rewrite (proj2 (Z.leb_le _ _)) by lia. eexists. split; [done|].
  assert (Hlb : zlen (blit (zlen a) new (buffer s)) = zlen (buffer s)) by (rewrite zlen_blit; lia).
  split_and!; [split; cbn [position buffer buffer_size]; rewrite ?Hlb; lia| |done|done].
  unfold view, get_buffer_view in *. cbn [position buffer].
  assert (Eb : buffer s = a ++ x ++ b ++ zdrop (position s) (buffer s)).
  { rewrite <- (ztake_zdrop (position s) (buffer s)) at 1. by rewrite Ev, <- !app_assoc. }
  unfold blit. rewrite Eb at 1 2. rewrite ztake_app_exact, Hn.
  rewrite (app_assoc a x). replace (zlen a + zlen x) with (zlen (a ++ x)) by (by rewrite zlen_app). rewrite zdrop_app_exact.
  rewrite (app_assoc new b), (app_assoc a). replace (position s) with (zlen (a ++ new ++ b)) at 1 by (rewrite !zlen_app; lia).
  apply ztake_app_exact.
Qed.

Lemma field_wire_eq t v : field_wire (mk_field t v) = to_dec t ++ [x3d] ++ v ++ [SOH].
Proof. done. Qed.

Lemma fields_wire_app l1 l2 : fields_wire (l1 ++ l2) = fields_wire l1 ++ fields_wire l2.
Proof. unfold fields_wire. by rewrite fmap_app, concat_app. Qed.

Lemma find_body_length t : find (B "9=") (Fix_First_Field ++ B "9=" ++ t) 0 = Some 10.
Proof.
  unfold find. rewrite (proj2 (Z.leb_le _ _)) by (rewrite zlen_app; pose proof (zlen_nonneg (B "9=" ++ t)); change (zlen Fix_First_Field) with 10; lia).
  rewrite zdrop_0. reflexivity.
Qed.

(** The body of a stored message and its offset. *)
Lemma stored_body d body ck : all_digits d -> all_digits ck ->
  let wire := wire_of (mk_field 8 DEFAULT_FIX_VERSION :: mk_field 9 d :: body) ck in
  get_msg_body_offset wire = Ok (13 + zlen d) /\ get_msg_body wire = Ok (fields_wire body) /\
  zlen (fields_wire [mk_field 8 DEFAULT_FIX_VERSION; mk_field 9 d]) = 13 + zlen d.
Proof.
  intros Hd Hck wire.
  assert (Ew : wire = Fix_First_Field ++ B "9=" ++ d ++ SOH :: (fields_wire body ++ B "10=" ++ ck ++ [SOH])).
  { unfold wire, wire_of. rewrite !fields_wire_cons. unfold field_wire. cbn [tag value]. change (to_dec 9) with (B "9").
    rewrite <- !app_assoc. done. }
  assert (Eo : get_msg_body_offset wire = Ok (13 + zlen d)).
  { unfold get_msg_body_offset. rewrite Ew, find_body_length.
    replace (Fix_First_Field ++ B "9=" ++ d ++ SOH :: (fields_wire body ++ B "10=" ++ ck ++ [SOH])) with
      (Fix_First_Field ++ (B "9=" ++ d) ++ SOH :: (fields_wire body ++ B "10=" ++ ck ++ [SOH])) by (by rewrite <- !app_assoc).
    change 10 with (zlen Fix_First_Field). rewrite find_char_app.
    - rewrite zlen_app. f_equal. change (zlen Fix_First_Field) with 10. change (zlen (B "9=")) with 2. lia.
    - assert (H9 : SOH ∉ B "9=") by (apply (bool_decide_unpack _); by vm_compute).
      rewrite elem_of_app. intros [Hin|Hin]; [done|by apply (not_digit_notin SOH d)]. }
  assert (Hl2 : zlen (fields_wire [mk_field 8 DEFAULT_FIX_VERSION; mk_field 9 d]) = 13 + zlen d).
  { rewrite !fields_wire_cons, !zlen_app, !field_wire_length. cbn [tag value]. change (zlen (to_dec 8)) with 1.
    change (zlen (to_dec 9)) with 1. change (zlen DEFAULT_FIX_VERSION) with 7. change (zlen (fields_wire [])) with 0. lia. }
  split_and!; [done| |done].
  unfold get_msg_body. rewrite Eo, ok_bind. unfold wire, wire_of. rewrite rfind_checksum by done.
  change (mk_field 8 DEFAULT_FIX_VERSION :: mk_field 9 d :: body) with ([mk_field 8 DEFAULT_FIX_VERSION; mk_field 9 d] ++ body).
  rewrite fields_wire_app, zlen_app, Hl2. replace (13 + zlen d + zlen (fields_wire body) - (13 + zlen d)) with (zlen (fields_wire body)) by lia.
  rewrite <- Hl2, <- app_assoc. by rewrite zsub_mid.
Qed.

(** The patch point of a field is its value. *)
Lemma stored_value l1 t v l2 ck :
  zsub (zlen (fields_wire l1) + zlen (to_dec t) + 1) (zlen v) (wire_of (l1 ++ mk_field t v :: l2) ck) = v.
Proof.
  unfold wire_of. rewrite fields_wire_app, fields_wire_cons, field_wire_eq.
  replace ((fields_wire l1 ++ (to_dec t ++ [x3d] ++ v ++ [SOH]) ++ fields_wire l2) ++ B "10=" ++ ck ++ [SOH])
    with ((fields_wire l1 ++ to_dec t ++ [x3d]) ++ v ++ [SOH] ++ fields_wire l2 ++ B "10=" ++ ck ++ [SOH]) by (by rewrite <- !app_assoc).
  replace (zlen (fields_wire l1) + zlen (to_dec t) + 1) with (zlen (fields_wire l1 ++ to_dec t ++ [x3d]))
    by (rewrite !zlen_app; change (zlen [x3d]) with 1; lia).
  apply zsub_mid.
Qed.

Section Regenerate.
Context `{ClockLike T} (clock_ : T) (params_ : SessionParameters).

(** Resending a stored message. *)
(** What the index says of a stored message without the fields of a resent one. *)
Lemma stored_times k l1 t l2 d ck o i :
  let body := l1 ++ mk_field 52 t :: l2 in let fs := mk_field 8 DEFAULT_FIX_VERSION :: mk_field 9 d :: body in
  stored_message k fs ck -> all_digits d -> all_digits ck -> 43 ∉ (tag <$> fs) -> 122 ∉ (tag <$> fs) ->
  create_message_index (wire_of fs ck) o = Ok i -> zlen t < 2 ^ 16 ->
  off_43 i = -1 /\ off_122 i = -1 /\ off_52 i = 13 + zlen d + zlen (fields_wire l1) + 3 /\ len_52 i = zlen t /\
  zsub (off_52 i) (len_52 i) (wire_of fs ck) = t /\ zlen (fields_wire body) < 2 ^ 31 /\ 0 <= off_52 i <= zlen (wire_of fs ck).
Proof using.
  intros body fs Hst Hd Hck H43 H122 Ei Ht16. destruct (stored_body d body ck Hd Hck) as (_ & _ & Hl2).
  pose proof (stored_absent _ _ _ _ _ 43 Hst ltac:(unfold patch_tag; tauto) H43 Ei) as P43.
  pose proof (stored_absent _ _ _ _ _ 122 Hst ltac:(unfold patch_tag; tauto) H122 Ei) as P122.
  change fs with ((mk_field 8 DEFAULT_FIX_VERSION :: mk_field 9 d :: l1) ++ mk_field 52 t :: l2) in Hst, Ei.
  pose proof (stored_point _ _ 52 t l2 _ _ _ Hst ltac:(unfold patch_tag; tauto) Ei) as P52.
  change ((mk_field 8 DEFAULT_FIX_VERSION :: mk_field 9 d :: l1) ++ mk_field 52 t :: l2) with fs in *.
  pose proof (zlen_nonneg t). rewrite u16_small in P52 by lia.
  change (mk_field 8 DEFAULT_FIX_VERSION :: mk_field 9 d :: l1) with ([mk_field 8 DEFAULT_FIX_VERSION; mk_field 9 d] ++ l1) in P52.
  rewrite fields_wire_app, zlen_app, Hl2 in P52. change (zlen (to_dec 52)) with 2 in P52.
  cbn in P43, P122. injection P52 as P52 L52. pose proof (zlen_nonneg d). pose proof (zlen_nonneg (fields_wire l1)).
  split_and!; [done|done|lia|done| | |lia|].
  - rewrite P52, L52. replace (13 + zlen d + zlen (fields_wire l1)) with
      (zlen (fields_wire ([mk_field 8 DEFAULT_FIX_VERSION; mk_field 9 d] ++ l1))) by (rewrite fields_wire_app, zlen_app; lia).
    exact (stored_value ([mk_field 8 DEFAULT_FIX_VERSION; mk_field 9 d] ++ l1) 52 t l2 ck).
  - pose proof (sm_size _ _ _ Hst) as Hs. unfold wire_of, fs in Hs. rewrite !fields_wire_cons, !zlen_app in Hs.
    pose proof (zlen_nonneg (field_wire (mk_field 8 DEFAULT_FIX_VERSION))). pose proof (zlen_nonneg (field_wire (mk_field 9 d))).
    pose proof (zlen_nonneg (B "10=")). pose proof (zlen_nonneg ck). pose proof (zlen_nonneg [SOH]). lia.
  - unfold wire_of, fs, body. change (mk_field 8 DEFAULT_FIX_VERSION :: mk_field 9 d :: l1 ++ mk_field 52 t :: l2) with
      ([mk_field 8 DEFAULT_FIX_VERSION; mk_field 9 d] ++ l1 ++ mk_field 52 t :: l2).
    rewrite !fields_wire_app, (fields_wire_cons (mk_field 52 t)), !zlen_app, field_wire_length, Hl2. cbn [tag value]. change (zlen (to_dec 52)) with 2.
    zlen_pos. lia.
Qed.

(** The sending time behind the text [p] is replaced. *)
Lemma edit_sending_time p l1 t l2 x now s : scratch_wf s -> view s = p ++ fields_wire (l1 ++ mk_field 52 t :: l2) ++ x ->
  zlen now = zlen t -> zlen (view s) < 2 ^ 61 ->
  exists s', edit_window (zlen p + zlen (fields_wire l1) + 3) (zlen t) now s = Ok s' /\ scratch_wf s' /\
    view s' = p ++ fields_wire (l1 ++ mk_field 52 now :: l2) ++ x /\
    body_length_offset s' = body_length_offset s /\ body_length_digit_size s' = body_length_digit_size s.
Proof using.
  intros W E Hn Hl. set (a := p ++ fields_wire l1 ++ to_dec 52 ++ [x3d]). set (z := [SOH] ++ fields_wire l2 ++ x).
  assert (Ea : forall v, p ++ fields_wire (l1 ++ mk_field 52 v :: l2) ++ x = a ++ v ++ z).
  { intros v. unfold a, z. rewrite fields_wire_app, fields_wire_cons, (field_wire_eq 52). by rewrite <- !app_assoc. }
  assert (Hz : zlen a = zlen p + zlen (fields_wire l1) + 3)
    by (unfold a; rewrite !zlen_app; change (zlen (to_dec 52)) with 2; change (zlen [x3d]) with 1; lia).
  rewrite Ea in E. rewrite Ea, <- Hz. by apply edit_window_spec.
Qed.

Lemma regenerate_spec k l1 t l2 d ck o i f :
  let fs := mk_field 8 DEFAULT_FIX_VERSION :: mk_field 9 d :: l1 ++ mk_field 52 t :: l2 in
  stored_message k fs ck -> all_digits d -> all_digits ck -> 43 ∉ (tag <$> fs) -> 122 ∉ (tag <$> fs) ->
  create_message_index (wire_of fs ck) o = Ok i -> zlen t < 2 ^ 16 -> zlen (now_fix clock_) = zlen t ->
  fix_version params_ = DEFAULT_FIX_VERSION -> scratch_wf (scratch_ f) ->
  exists f', regenerate_message clock_ params_ (wire_of fs ck) i f =
      Ok (frame_wire DEFAULT_FIX_VERSION
            (fields_wire ((l1 ++ mk_field 52 (now_fix clock_) :: l2) ++ [mk_field 43 (B "Y"); mk_field 122 t])), f') /\
    scratch_wf (scratch_ f') /\ seq_provider_ f' = seq_provider_ f.
Proof using.
  intros fs Hst Hd Hck H43 H122 Ei Ht16 Hnow Hver W.
  set (body := l1 ++ mk_field 52 t :: l2) in *.
  destruct (stored_times k l1 t l2 d ck o i Hst Hd Hck H43 H122 Ei Ht16) as (P43 & P122 & P52 & L52 & Etime & Hfsl & Hin).
  destruct (stored_body d body ck Hd Hck) as (Eoff & Ebody & _). fold body fs in Eoff, Ebody, Etime, Hfsl.
  destruct (placeholder_spec DEFAULT_FIX_VERSION (scratch_ f) W) as (W1 & E1 & O1 & D1); [by vm_compute|].
  unfold regenerate_message. rewrite Hver. cbv zeta in W1, E1, O1, D1 |- *.
  generalize dependent (add_body_length_placeholder (add_field 8 DEFAULT_FIX_VERSION (reset (scratch_ f)))).
  intros s1 W1 E1 O1 D1. set (pre := field_wire (mk_field 8 DEFAULT_FIX_VERSION) ++ B "9=") in *.
  assert (Hp1 : position s1 = 23) by (rewrite <- view_length by done; by rewrite E1).
  rewrite Ebody, Eoff, !ok_bind, P43, P122. cbn [Z.eqb Pos.eqb]. rewrite ok_bind, substr_ok, !ok_bind, Etime by exact Hin.
  pose proof (emits_field _ _ 122 t ltac:(lia) (emits_field _ _ 43 (B "Y") ltac:(lia) (add_string_emits (fields_wire body)))) as He.
  set (extra := [mk_field 43 (B "Y"); mk_field 122 t]).
  replace ((body ++ [mk_field 43 (B "Y")]) ++ [mk_field 122 t]) with (body ++ extra) in He by (by rewrite <- app_assoc).
  assert (Hext : zlen (fields_wire extra) <= 2 ^ 16 + 20).
  { unfold extra. rewrite !fields_wire_cons, !zlen_app, !field_wire_length. cbn [tag value]. change (zlen (to_dec 43)) with 2.
    change (zlen (to_dec 122)) with 3. change (zlen (B "Y")) with 1. change (zlen (fields_wire [])) with 0. lia. }
  destruct (He s1 W1) as (W4 & E4 & O4 & D4); [rewrite fields_wire_app, zlen_app; lia|]. cbv beta in *.
  generalize dependent (add_field 122 t (add_field 43 (B "Y") (add_string (fields_wire body) s1))). intros s4 W4 E4 O4 D4.
  pose proof (zlen_nonneg (fields_wire l1)). pose proof (zlen_nonneg d).
  assert (zlen (fields_wire l1) <= zlen (fields_wire body)) by (unfold body; rewrite fields_wire_app, zlen_app; pose proof (zlen_nonneg (fields_wire (mk_field 52 t :: l2))); lia).
  assert (Hl1 : zlen (view s1) = 23) by (by rewrite E1).
  rewrite fields_wire_app in E4. destruct (edit_sending_time (view s1) l1 t l2 (fields_wire extra) (now_fix clock_) s4 W4 E4 Hnow)
    as (s5 & Ee & W5 & E5 & O5 & D5); [rewrite E4, !zlen_app; lia|].
  replace (u64 (position s1 + off_52 i - (13 + zlen d))) with (zlen (view s1) + zlen (fields_wire l1) + 3) by (rewrite P52, Hp1, u64_small; lia).
  rewrite L52, Ee, ok_bind. set (body' := (l1 ++ mk_field 52 (now_fix clock_) :: l2) ++ extra).
  assert (Hb' : zlen (fields_wire body') = zlen (fields_wire (body ++ extra))).
  { unfold body', body. rewrite !fields_wire_app, !fields_wire_cons, !zlen_app, !field_wire_length. cbn [tag value]. lia. }
  destruct (stamp_trailer_spec DEFAULT_FIX_VERSION (fields_wire body') s5 W5) as [Ef Wf].
  - rewrite E5, E1. unfold body'. fold pre. rewrite (fields_wire_app _ extra). by rewrite <- !app_assoc.
  - fold pre. congruence.
  - congruence.
  - by vm_compute.
  - rewrite Hb', fields_wire_app, zlen_app. lia.
  - rewrite Ef. eexists. split; [done|]. split; [exact Wf|done].
Qed.

(** C28: a stored message that is resent, one that has neither PossDupFlag nor OrigSendingTime
    and whose SendingTime is as long as the current one, is the original with PossDupFlag=Y added, the
    original SendingTime moved to OrigSendingTime and the current time as SendingTime, with
    the body length and the checksum of the new text; every other field, the sequence
    number included, is unchanged, and no sequence number is used up. *)
Theorem regenerate_exact k l1 t l2 d ck o i f :
  let fs := mk_field 8 DEFAULT_FIX_VERSION :: mk_field 9 d :: l1 ++ mk_field 52 t :: l2 in
  stored_message k fs ck -> all_digits d -> all_digits ck -> 43 ∉ (tag <$> fs) -> 122 ∉ (tag <$> fs) ->
  create_message_index (wire_of fs ck) o = Ok i -> zlen t < 2 ^ 16 -> zlen (now_fix clock_) = zlen t ->
  fix_version params_ = DEFAULT_FIX_VERSION -> scratch_wf (scratch_ f) ->
  exists f', regenerate_message clock_ params_ (wire_of fs ck) i f =
      Ok (frame_wire DEFAULT_FIX_VERSION
            (fields_wire ((l1 ++ mk_field 52 (now_fix clock_) :: l2) ++ [mk_field 43 (B "Y"); mk_field 122 t])), f') /\
    scratch_wf (scratch_ f') /\ seq_provider_ f' = seq_provider_ f.
Proof using. exact (regenerate_spec k l1 t l2 d ck o i f). Qed.
End Regenerate.

Definition demo_l1 : GenericMessage := [mk_field 35 (B "cu"); mk_field 34 (B "3")].
Definition demo_l2 : GenericMessage := [mk_field 9250 (B "x")].
Definition demo_original : GenericMessage :=
  mk_field 8 DEFAULT_FIX_VERSION :: mk_field 9 (B "25") :: demo_l1 ++ mk_field 52 (B "Old") :: demo_l2.

Definition demo_index : MsgIndex :=
  match create_message_index (wire_of demo_original (B "001")) 0 with Ok i => i | Err _ => fresh_index 0 0 end.

Lemma demo_original_stored : stored_message 3 demo_original (B "001").
Proof.
  split; [|apply (bool_decide_unpack _); by vm_compute..|by vm_compute].
  repeat (constructor; [split; [by vm_compute|split; [by vm_compute|apply (bool_decide_unpack _); by vm_compute]]|]). constructor.
Qed.

Lemma demo_original_absent : (43 ∉ (tag <$> demo_original)) /\ 122 ∉ (tag <$> demo_original).
Proof. split; apply (bool_decide_unpack _); by vm_compute. Qed.

Lemma demo_digits : all_digits (B "25") /\ all_digits (B "001").
Proof. split; by repeat constructor. Qed.

Lemma demo_index_ok : create_message_index (wire_of demo_original (B "001")) 0 = Ok demo_index.
Proof. by vm_compute. Qed.

Example regenerate_exact_witness :
  exists f', regenerate_message clock demo_params (wire_of demo_original (B "001")) demo_index factory_new =
      Ok (frame_wire DEFAULT_FIX_VERSION
            (fields_wire ((demo_l1 ++ mk_field 52 (now_fix clock) :: demo_l2) ++ [mk_field 43 (B "Y"); mk_field 122 (B "Old")])), f') /\
    scratch_wf (scratch_ f') /\ seq_provider_ f' = seq_provider_ factory_new.
Proof.
  exact (regenerate_exact clock demo_params 3 demo_l1 (B "Old") demo_l2 (B "25") (B "001") 0 demo_index factory_new
           demo_original_stored (proj1 demo_digits) (proj2 demo_digits) (proj1 demo_original_absent)
           (proj2 demo_original_absent) demo_index_ok eq_refl eq_refl eq_refl scratch_new_wf).
Defined.
