(* ===== verification/RecoveryCache.v ===== *)
(** [Fix::RecoveryCache] (include/fix/core/RecoveryCache.hpp, src/RecoveryCache.cpp): the
    messages received ahead of a gap, kept until the gap is filled.

    A window of 512 sequence numbers from [base_offset_]; the slot of a number holds the
    bounds of its message in one growable buffer.  The buffer only ever appends, and starts
    over when the last message is consumed.  The abstraction is a finite map from sequence
    numbers to message bytes; the refinement theorem runs any sequence of operations on both. *)
From stdpp Require Import gmap.
From S2P Require Import Prelude.

Definition initial_capacity : Z := 1024 * 64.
Definition min_capacity_growth : Z := 1024 * 32.
Definition window : Z := 512.

Record MessageBounds : Set := mk_bounds { offset : Z; size : Z }.
#[export] Instance message_bounds_eq_dec : EqDecision MessageBounds.
Proof. solve_decision. Defined.

Definition KEmpty : MessageBounds := mk_bounds 0 0.

(** [data_] is the written prefix of the block of [buff_capacity_] bytes. *)
Record RecoveryCache : Type := mk_cache {
  slots_ : list MessageBounds;
  base_offset_ : Z;
  data_ : bytes;
  buff_capacity_ : Z;
  buff_size_ : Z;
  size_ : Z
}.

Definition grow_buffer (extra_capacity : Z) (c : RecoveryCache) : RecoveryCache :=
  let new_capacity := u64 (buff_capacity_ c + extra_capacity) in
  mk_cache (slots_ c) (base_offset_ c) (ztake (buff_size_ c) (data_ c)) new_capacity (buff_size_ c) (size_ c).

Definition empty_slots : list MessageBounds := replicate (Z.to_nat window) KEmpty.

Definition recovery_cache_new : RecoveryCache :=
  grow_buffer initial_capacity (mk_cache empty_slots 0 [] 0 0 0).

Definition reset (c : RecoveryCache) : RecoveryCache :=
  mk_cache empty_slots 0 (data_ c) (buff_capacity_ c) 0 0.
Definition clear (c : RecoveryCache) : RecoveryCache := reset c.
Definition start (seqnum : Z) (c : RecoveryCache) : RecoveryCache :=
  let c := reset c in
  mk_cache (slots_ c) seqnum (data_ c) (buff_capacity_ c) (buff_size_ c) (size_ c).

Definition empty (c : RecoveryCache) : bool := size_ c =? 0.
Definition in_window (seqnum : Z) (c : RecoveryCache) : bool :=
  if seqnum <? base_offset_ c then false else u64 (seqnum - base_offset_ c) <? window.
Definition slot_index (seqnum : Z) (c : RecoveryCache) : Res Z :=
  check! in_window seqnum c in Ok (u16 (u64 (seqnum - base_offset_ c))).
(** [slots_[slot_index(seqnum)]]. *)
Definition slot_at (seqnum : Z) (c : RecoveryCache) : Res MessageBounds :=
  let! i := slot_index seqnum c in
  match znth (slots_ c) i with None => Err OutOfBounds | Some b => Ok b end.
Definition contains (seqnum : Z) (c : RecoveryCache) : Res bool :=
  if in_window seqnum c then
    let! b := slot_at seqnum c in Ok (negb (bool_decide (b = KEmpty)))
  else Ok false.
Definition set_slot (seqnum : Z) (b : MessageBounds) (c : RecoveryCache) : Res RecoveryCache :=
  let! i := slot_index seqnum c in
  if i <? zlen (slots_ c)
  then Ok (mk_cache (zset i b (slots_ c)) (base_offset_ c) (data_ c) (buff_capacity_ c) (buff_size_ c) (size_ c))
  else Err OutOfBounds.

Definition insert_message (msg_wire : bytes) (c : RecoveryCache) : Res (MessageBounds * RecoveryCache) :=
  check! 0 <? zlen msg_wire in
  let need := u64 (buff_size_ c + zlen msg_wire) in
  let c := if buff_capacity_ c <? need
           then grow_buffer (Z.max (u64 (need - buff_capacity_ c)) min_capacity_growth) c else c in
  let o := buff_size_ c in
  Ok (mk_bounds o (zlen msg_wire),
      mk_cache (slots_ c) (base_offset_ c) (blit (buff_size_ c) msg_wire (data_ c)) (buff_capacity_ c)
               (u64 (buff_size_ c + zlen msg_wire)) (size_ c)).

Definition insert (seqnum : Z) (msg_wire : bytes) (c : RecoveryCache) : Res RecoveryCache :=
  check! in_window seqnum c in
  let! present := contains seqnum c in
  check! negb present in
  let! '(bounds, c) := insert_message msg_wire c in
  let! c := set_slot seqnum bounds c in
  Ok (mk_cache (slots_ c) (base_offset_ c) (data_ c) (buff_capacity_ c) (buff_size_ c) (u16 (size_ c + 1))).

Definition get (seqnum : Z) (c : RecoveryCache) : Res bytes :=
  let! present := contains seqnum c in
  check! (present : bool) in
  let! b := slot_at seqnum c in
  Ok (zsub (offset b) (size b) (data_ c)).

Definition consume (seqnum : Z) (c : RecoveryCache) : Res RecoveryCache :=
  let! present := contains seqnum c in
  check! (present : bool) in
  let! c := set_slot seqnum KEmpty c in
  let n := u16 (size_ c - 1) in
  Ok (mk_cache (slots_ c) (base_offset_ c) (data_ c) (buff_capacity_ c)
               (if n =? 0 then 0 else buff_size_ c) n).

(** ** The abstract cache: a base and a map from sequence numbers to messages *)

Record CacheSpec : Type := mk_spec { sp_base : Z; sp_map : gmap Z bytes }.

Definition sp_in_window (n : Z) (s : CacheSpec) : bool := (sp_base s <=? n) && (n <? sp_base s + window).

Inductive rc_op : Set :=
  | RStart (n : Z)
  | RClear
  | RInsert (n : Z) (w : bytes)
  | RConsume (n : Z)
  | RGet (n : Z)
  | RContains (n : Z)
  | REmpty.
Inductive rc_out : Set := ODone | OBytes (w : bytes) | OBool (b : bool).

Definition cache_step (op : rc_op) (c : RecoveryCache) : Res (rc_out * RecoveryCache) :=
  match op with
  | RStart n => Ok (ODone, start n c)
  | RClear => Ok (ODone, clear c)
  | RInsert n w => let! c := insert n w c in Ok (ODone, c)
  | RConsume n => let! c := consume n c in Ok (ODone, c)
  | RGet n => let! w := get n c in Ok (OBytes w, c)
  | RContains n => let! b := contains n c in Ok (OBool b, c)
  | REmpty => Ok (OBool (empty c), c)
  end.

Definition spec_step (op : rc_op) (s : CacheSpec) : Res (rc_out * CacheSpec) :=
  match op with
  | RStart n => Ok (ODone, mk_spec n ∅)
  | RClear => Ok (ODone, mk_spec 0 ∅)
  | RInsert n w =>
      if sp_in_window n s && bool_decide (sp_map s !! n = None) && bool_decide (w <> [])
      then Ok (ODone, mk_spec (sp_base s) (<[n := w]> (sp_map s)))
      else Err AssertFailed
  | RConsume n =>
      match sp_map s !! n with
      | Some _ => Ok (ODone, mk_spec (sp_base s) (delete n (sp_map s)))
      | None => Err AssertFailed
      end
  | RGet n => match sp_map s !! n with Some w => Ok (OBytes w, s) | None => Err AssertFailed end
  | RContains n => Ok (OBool (bool_decide (is_Some (sp_map s !! n))), s)
  | REmpty => Ok (OBool (bool_decide (sp_map s = ∅)), s)
  end.

Fixpoint run_ops {S : Type} (step : rc_op -> S -> Res (rc_out * S)) (ops : list rc_op) (s : S)
  : Res (list rc_out * S) :=
  match ops with
  | [] => Ok ([], s)
  | op :: ops' =>
      let! '(o, s) := step op s in
      let! '(os, s) := run_ops step ops' s in Ok (o :: os, s)
  end.

(** ** Invariant and abstraction relation *)

(** What slot [n - base] says about the message of number [n]. *)
Definition slot_agrees (c : RecoveryCache) (n : Z) (b : MessageBounds) (o : option bytes) : Prop :=
  match o with
  | None => b = KEmpty
  | Some w => w <> [] /\ size b = zlen w /\ 0 <= offset b /\ offset b + size b <= buff_size_ c /\
              zsub (offset b) (size b) (data_ c) = w
  end.

Record represents (c : RecoveryCache) (s : CacheSpec) : Prop := {
  rp_base : base_offset_ c = sp_base s;
  rp_base_range : 0 <= sp_base s < 2 ^ 64;
  rp_slots : zlen (slots_ c) = window;
  rp_dom : forall n, is_Some (sp_map s !! n) -> sp_base s <= n < sp_base s + window;
  rp_agrees : forall i, 0 <= i < window -> exists b, znth (slots_ c) i = Some b /\
                slot_agrees c (sp_base s + i) b (sp_map s !! (sp_base s + i));
  rp_size : size_ c = Z.of_nat (base.size (sp_map s));
  rp_used : 0 <= buff_size_ c <= zlen (data_ c);
  rp_data : zlen (data_ c) <= buff_capacity_ c
}.

Definition seq_ok (n : Z) : Prop := 0 <= n < 2 ^ 64.

(** A map on the window has at most 512 entries. *)
Lemma window_bound (m : gmap Z bytes) base :
  (forall n, is_Some (m !! n) -> base <= n < base + window) -> Z.of_nat (base.size m) <= window.
Proof.
  intros H. rewrite <- size_dom.
  assert (Hs : dom m ⊆ list_to_set (C := gset Z) (seqZ base window)).
  { intros n [x Hx]%elem_of_dom. apply elem_of_list_to_set, elem_of_seqZ. apply H. eauto. }
  apply subseteq_size in Hs. rewrite size_list_to_set in Hs by apply NoDup_seqZ.
  rewrite length_seqZ in Hs. unfold window in *. lia.
Qed.

Lemma in_window_spec n c s : represents c s -> seq_ok n -> in_window n c = sp_in_window n s.
Proof.
  intros R Hn. unfold seq_ok in *. pose proof (rp_base_range _ _ R). unfold in_window, sp_in_window. rewrite (rp_base _ _ R).
  case_Z; [by rewrite (proj2 (Z.leb_gt _ _))|]. rewrite u64_small, (proj2 (Z.leb_le _ _)) by lia. cbn.
  unfold window. apply eq_true_iff_eq. rewrite !Z.ltb_lt. lia.
Qed.

Lemma slot_index_spec n c s : represents c s -> seq_ok n -> sp_in_window n s = true ->
  slot_index n c = Ok (n - sp_base s) /\ 0 <= n - sp_base s < window.
Proof.
  intros R Hn Hw. pose proof (in_window_spec n c s R Hn) as E. unfold slot_index. rewrite E, Hw, (rp_base _ _ R).
  unfold sp_in_window, seq_ok in *. pose proof (rp_base_range _ _ R). apply andb_true_iff in Hw as [H1%Z.leb_le H2%Z.ltb_lt].
  unfold window in *. word_simpl. split; [done|lia].
Qed.

Lemma slot_at_spec n c s : represents c s -> seq_ok n -> sp_in_window n s = true ->
  exists b, slot_at n c = Ok b /\ slot_agrees c n b (sp_map s !! n).
Proof.
  intros R Hn Hw. destruct (slot_index_spec n c s R Hn Hw) as [E Hi].
  destruct (rp_agrees _ _ R _ Hi) as (b & Hb & Ha). exists b. unfold slot_at. rewrite E, ok_bind, Hb.
  split; [done|]. by replace (sp_base s + (n - sp_base s)) with n in Ha by lia.
Qed.

Lemma out_of_window n c s : represents c s -> sp_in_window n s = false -> sp_map s !! n = None.
Proof.
  intros R Hw. destruct (sp_map s !! n) eqn:E; [|done]. exfalso.
  destruct (rp_dom _ _ R n ltac:(eauto)). unfold sp_in_window in Hw.
  rewrite (proj2 (Z.leb_le _ _)), (proj2 (Z.ltb_lt _ _)) in Hw by lia. done.
Qed.

Lemma contains_spec n c s : represents c s -> seq_ok n ->
  contains n c = Ok (bool_decide (is_Some (sp_map s !! n))).
Proof.
  intros R Hn. unfold contains. rewrite (in_window_spec n c s R Hn).
  destruct (sp_in_window n s) eqn:Hw.
  - destruct (slot_at_spec n c s R Hn Hw) as (b & -> & Ha). rewrite ok_bind. f_equal.
    destruct (sp_map s !! n) as [w|]; cbn [slot_agrees] in Ha.
    + destruct Ha as (Hw0 & Hsz & _). rewrite (bool_decide_true (is_Some _)) by eauto.
      rewrite bool_decide_false; [done|]. intros ->. cbn in Hsz. destruct w; [done|]. zlia.
    + subst b. rewrite bool_decide_true by done. rewrite bool_decide_false; [done|]. by intros [].
  - rewrite (out_of_window n c s R Hw). rewrite bool_decide_false; [done|]. by intros [].
Qed.

Lemma get_spec n c s : represents c s -> seq_ok n ->
  get n c = match sp_map s !! n with Some w => Ok w | None => Err AssertFailed end.
Proof.
  intros R Hn. unfold get. rewrite (contains_spec n c s R Hn), ok_bind.
  destruct (sp_map s !! n) as [w|] eqn:E.
  - rewrite bool_decide_true by eauto. destruct (sp_in_window n s) eqn:Hw.
    + destruct (slot_at_spec n c s R Hn Hw) as (b & -> & Ha). rewrite E in Ha. rewrite ok_bind. f_equal. apply Ha.
    + by rewrite (out_of_window n c s R Hw) in E.
  - rewrite bool_decide_false; [done|]. by intros [].
Qed.

Lemma reset_represents c s n : represents c s -> seq_ok n -> represents (start n c) (mk_spec n ∅).
Proof.
  intros R Hn. destruct (rp_used _ _ R), R. split; cbn; try done.
  - by intros k [? ?].
  - intros i Hi. exists KEmpty. split; [|by rewrite lookup_empty].
    unfold znth, empty_slots. rewrite (proj2 (Z.ltb_ge _ _)) by lia. apply lookup_replicate. split; [done|]. lia.
  - lia.
Qed.

Lemma clear_start c : clear c = start 0 c.
Proof. done. Qed.

(** Writing a slot of the window, when the other slots keep their messages. *)
Lemma update_represents c c' s m' n b : represents c s -> seq_ok n -> sp_in_window n s = true ->
  slots_ c' = zset (n - sp_base s) b (slots_ c) -> base_offset_ c' = base_offset_ c ->
  (forall k, k <> n -> m' !! k = sp_map s !! k) ->
  slot_agrees c' n b (m' !! n) ->
  (forall k b o, k <> n -> sp_map s !! k = o -> slot_agrees c k b o -> slot_agrees c' k b o) ->
  size_ c' = Z.of_nat (base.size m') ->
  0 <= buff_size_ c' <= zlen (data_ c') -> zlen (data_ c') <= buff_capacity_ c' ->
  represents c' (mk_spec (sp_base s) m').
Proof.
  intros R Hn Hw Hs Hb Hm Ha Hk Hsz Hu Hc. destruct (slot_index_spec n c s R Hn Hw) as [_ Hi].
  split; cbn [sp_base sp_map]; [by rewrite Hb; apply R|apply R|rewrite Hs, zlen_zset; apply R| | |done|done|done].
  - intros k Hk'. destruct (decide (k = n)) as [->|]; [lia|]. rewrite Hm in Hk' by done. by apply R.
  - intros i Hi'. destruct (decide (sp_base s + i = n)) as [E|Hne].
    + exists b. rewrite E, Hs. replace i with (n - sp_base s) by lia.
      split; [|done]. apply znth_zset_eq. by rewrite (rp_slots _ _ R).
    + destruct (rp_agrees _ _ R i Hi') as (b' & Eb & Ha'). exists b'. rewrite Hs, znth_zset_ne, Hm by lia. split; [done|]. by eapply Hk.
Qed.

Lemma set_slot_spec n b c s : represents c s -> seq_ok n -> sp_in_window n s = true ->
  forall c', slots_ c' = slots_ c -> base_offset_ c' = base_offset_ c ->
  set_slot n b c' = Ok (mk_cache (zset (n - sp_base s) b (slots_ c)) (base_offset_ c) (data_ c')
                                 (buff_capacity_ c') (buff_size_ c') (size_ c')).
Proof.
  intros R Hn Hw c' Hs Hb. destruct (slot_index_spec n c s R Hn Hw) as [E Hi].
  unfold set_slot, slot_index, in_window in *. rewrite Hs, Hb. rewrite E, ok_bind, (rp_slots _ _ R).
  rewrite (proj2 (Z.ltb_lt _ _)) by lia. done.
Qed.

(** ** Each operation follows the abstract one *)

Lemma insert_message_spec w c s : represents c s -> w <> [] -> buff_capacity_ c + zlen w + min_capacity_growth < 2 ^ 62 ->
  exists c', insert_message w c = Ok (mk_bounds (buff_size_ c) (zlen w), c') /\
    slots_ c' = slots_ c /\ base_offset_ c' = base_offset_ c /\ size_ c' = size_ c /\
    ztake (buff_size_ c') (data_ c') = ztake (buff_size_ c) (data_ c) ++ w /\
    buff_size_ c' = buff_size_ c + zlen w /\ buff_size_ c' <= zlen (data_ c') <= buff_capacity_ c' /\
    buff_capacity_ c' <= buff_capacity_ c + zlen w + min_capacity_growth.
Proof.
  intros R Hw Hc. pose proof (rp_used _ _ R). pose proof (rp_data _ _ R).
  assert (0 < zlen w) by (destruct w; [done|zlia]). unfold insert_message. unfold min_capacity_growth in *.
  rewrite (proj2 (Z.ltb_lt _ _)) by done. cbv zeta. rewrite (u64_small (buff_size_ c + _)) by lia.
  case_Z.
  - eexists. split; [reflexivity|]. cbn. rewrite (u64_small (_ - _)) by lia. unfold min_capacity_growth.
    rewrite !u64_small by lia.
    assert (zlen (ztake (buff_size_ c) (data_ c)) = buff_size_ c) by (by apply zlen_ztake).
    split_and!; try done; rewrite ?blit_app, ?zlen_blit by lia; try lia. by rewrite ztake_ztake by lia.
  - eexists. split; [reflexivity|]. cbn. rewrite !u64_small by lia.
    split_and!; try done; rewrite ?blit_app, ?zlen_blit by lia; try lia. done.
Qed.

(** A message of the used part of the buffer is still there after an append. *)
Lemma slot_agrees_append c c' w k b o :
  ztake (buff_size_ c') (data_ c') = ztake (buff_size_ c) (data_ c) ++ w ->
  buff_size_ c' = buff_size_ c + zlen w -> 0 <= buff_size_ c <= zlen (data_ c) ->
  slot_agrees c k b o -> slot_agrees c' k b o.
Proof.
  intros Ht Hs Hu. destruct o as [v|]; [|done]. cbn. intros (Hv & Hsz & Ho & Hb & Hd).
  pose proof (zlen_nonneg v). pose proof (zlen_nonneg w).
  assert (E : forall (d : bytes) n, n <= zlen d -> offset b + size b <= n -> zsub (offset b) (size b) d = zsub (offset b) (size b) (ztake n d)).
  { intros d n Hn Hle. unfold zsub. rewrite zdrop_ztake, ztake_ztake by lia. done. }
  assert (Hl : buff_size_ c' <= zlen (data_ c')).
  { apply (f_equal zlen) in Ht. rewrite zlen_app, (zlen_ztake (buff_size_ c)) in Ht by lia.
    unfold ztake, zlen in Ht |- *. rewrite length_take in Ht. unfold zlen in *. lia. }
  split_and!; [done|done|done|lia|].
  rewrite <- Hd, (E (data_ c') (buff_size_ c')), Ht, (E (data_ c) (buff_size_ c)) by lia.
  apply zsub_app_l; [lia|lia|]. rewrite zlen_ztake; lia.
Qed.

Lemma insert_refines n w c s : represents c s -> seq_ok n ->
  buff_capacity_ c + zlen w + min_capacity_growth < 2 ^ 62 ->
  match insert n w c with
  | Ok c' => spec_step (RInsert n w) s = Ok (ODone, mk_spec (sp_base s) (<[n := w]> (sp_map s))) /\
             represents c' (mk_spec (sp_base s) (<[n := w]> (sp_map s))) /\
             buff_capacity_ c' <= buff_capacity_ c + zlen w + min_capacity_growth
  | Err f => spec_step (RInsert n w) s = Err f
  end.
Proof.
  intros R Hn Hc. unfold insert. cbn [spec_step]. rewrite (in_window_spec n c s R Hn).
  destruct (sp_in_window n s) eqn:Hw; [|done]. rewrite (contains_spec n c s R Hn), ok_bind.
  destruct (sp_map s !! n) eqn:E; [rewrite bool_decide_true by eauto; rewrite bool_decide_false by done; done|].
  rewrite (bool_decide_false (is_Some _)) by (by intros []). rewrite (bool_decide_true (None = None)) by done. cbn [negb andb].
  destruct w as [|x w']; [done|]. set (w := x :: w') in *.
  destruct (insert_message_spec w c s R ltac:(done) Hc) as (c1 & -> & Hs & Hb & Hsz & Ht & Hu & Hd & Hcap).
  cbn [mbind res_bind]. rewrite (set_slot_spec n _ c s R Hn Hw c1 Hs Hb), ok_bind.
  rewrite bool_decide_true by done.
  assert (H1 : Z.of_nat (base.size (<[n := w]> (sp_map s))) = size_ c + 1)
    by (rewrite map_size_insert_None, (rp_size _ _ R) by done; lia).
  pose proof (window_bound (sp_map s) _ (rp_dom _ _ R)). pose proof (rp_size _ _ R). unfold window in *.
  pose proof (rp_used _ _ R). assert (0 < zlen w) by (subst w; zlia).
  split; [done|]. split; [|cbn; lia].
  apply (update_represents c _ s _ n (mk_bounds (buff_size_ c) (zlen w))); cbn; try done.
  - intros k Hk. by rewrite lookup_insert_ne.
  - rewrite lookup_insert_eq. cbn. split_and!; [done|done|lia|lia|].
    assert (E2 : zsub (buff_size_ c) (zlen w) (data_ c1) = zsub (buff_size_ c) (zlen w) (ztake (buff_size_ c1) (data_ c1)))
      by (unfold zsub; rewrite zdrop_ztake, ztake_ztake by lia; done).
    rewrite E2, Ht. pose proof (zsub_mid (ztake (buff_size_ c) (data_ c)) w []) as Z.
    rewrite app_nil_r, zlen_ztake in Z by lia. done.
  - intros k b o _ _ Ha. by eapply slot_agrees_append in Ha.
  - rewrite H1, Hsz. apply u16_small. lia.
  - lia.
  - lia.
Qed.

Lemma consume_refines n c s : represents c s -> seq_ok n ->
  match consume n c with
  | Ok c' => spec_step (RConsume n) s = Ok (ODone, mk_spec (sp_base s) (delete n (sp_map s))) /\
             represents c' (mk_spec (sp_base s) (delete n (sp_map s))) /\ buff_capacity_ c' = buff_capacity_ c
  | Err f => spec_step (RConsume n) s = Err f
  end.
Proof.
  intros R Hn. unfold consume. cbn [spec_step]. rewrite (contains_spec n c s R Hn), ok_bind.
  destruct (sp_map s !! n) as [w|] eqn:E; [|rewrite bool_decide_false; [done|by intros []]].
  rewrite bool_decide_true by eauto.
  destruct (sp_in_window n s) eqn:Hw; [|by rewrite (out_of_window n c s R Hw) in E].
  rewrite (set_slot_spec n _ c s R Hn Hw c) by done. rewrite ok_bind. split; [done|]. cbn [size_ slots_ data_ base_offset_ buff_capacity_ buff_size_].
  assert (H1 : size_ c = Z.of_nat (S (base.size (delete n (sp_map s)))))
    by (rewrite (rp_size _ _ R), <- (insert_delete_id (sp_map s) n w) at 1; rewrite ?map_size_insert_None; by rewrite ?lookup_delete_eq).
  pose proof (window_bound (sp_map s) _ (rp_dom _ _ R)). pose proof (rp_size _ _ R). unfold window in *.
  pose proof (rp_used _ _ R). pose proof (rp_data _ _ R). rewrite (u16_small (_ - _)) by lia.
  split; [|done]. apply (update_represents c _ s _ n KEmpty); cbn [size_ slots_ data_ base_offset_ buff_capacity_ buff_size_]; try done.
  - intros k Hk. by rewrite lookup_delete_ne.
  - by rewrite lookup_delete_eq.
  - intros k b o Hk Ho. destruct (Z.eqb_spec (size_ c - 1) 0); [|done].
    assert (delete n (sp_map s) = ∅) as Hemp by (apply map_size_empty_inv; lia).
    enough (o = None) as ->; [done|]. by rewrite <- Ho, <- (lookup_delete_ne (sp_map s) n k), Hemp by done.
  - lia.
  - case_Z; lia.
Qed.

Definition rc_cost (op : rc_op) : Z :=
  match op with RInsert _ w => zlen w + min_capacity_growth | _ => 0 end.
Definition rc_op_ok (op : rc_op) : Prop :=
  match op with
  | RStart n | RInsert n _ | RConsume n | RGet n | RContains n => seq_ok n
  | RClear | REmpty => True
  end.
Fixpoint rc_total (ops : list rc_op) : Z :=
  match ops with [] => 0 | op :: ops' => rc_cost op + rc_total ops' end.

Lemma rc_total_nonneg ops : 0 <= rc_total ops.
Proof.
  induction ops as [|op ops IH]; cbn; [lia|]. destruct op as [| |n w| | | |]; cbn; unfold min_capacity_growth; try lia.
  pose proof (zlen_nonneg w). lia.
Qed.

Lemma cache_step_refines op c s : represents c s -> rc_op_ok op -> buff_capacity_ c + rc_cost op < 2 ^ 62 ->
  match cache_step op c with
  | Ok (o, c') => exists s', spec_step op s = Ok (o, s') /\ represents c' s' /\
                             buff_capacity_ c' <= buff_capacity_ c + rc_cost op
  | Err f => spec_step op s = Err f
  end.
Proof.
  intros R Hop Hc. destruct op as [n| |n w|n|n|n|]; cbn [cache_step rc_op_ok rc_cost] in *.
  - exists (mk_spec n ∅). split_and!; [done|by eapply reset_represents|cbn; lia].
  - exists (mk_spec 0 ∅). split_and!; [done| |cbn; lia]. rewrite clear_start. by eapply reset_represents.
  - pose proof (insert_refines n w c s R Hop ltac:(lia)) as I. destruct (insert n w c) as [c'|]; cbn [mbind res_bind]; [|done].
    destruct I as (-> & R' & Hcap). eexists. split_and!; [done|done|lia].
  - pose proof (consume_refines n c s R Hop) as I. destruct (consume n c) as [c'|]; cbn [mbind res_bind]; [|done].
    destruct I as (-> & R' & Hcap). eexists. split_and!; [done|done|lia].
  - rewrite (get_spec n c s R Hop). cbn [spec_step]. destruct (sp_map s !! n); cbn [mbind res_bind]; [|done].
    eexists. split_and!; [done|done|lia].
  - rewrite (contains_spec n c s R Hop), ok_bind. exists s. split_and!; [done|done|lia].
  - exists s. cbn [spec_step]. split_and!; [|done|lia]. do 3 f_equal. unfold empty. rewrite (rp_size _ _ R).
    destruct (decide (sp_map s = ∅)) as [->|Hne].
    + by rewrite bool_decide_true.
    + rewrite bool_decide_false by done. symmetry. apply Z.eqb_neq. intros E. apply Hne, map_size_empty_inv. lia.
Qed.

Lemma new_represents : represents recovery_cache_new (mk_spec 0 ∅).
Proof.
  split; cbn [sp_base sp_map]; try by vm_compute.
  - by intros n [? ?].
  - intros i Hi. exists KEmpty. split; [|by rewrite lookup_empty].
    unfold znth. rewrite (proj2 (Z.ltb_ge _ _)) by lia. apply lookup_replicate. unfold window in *. split; [done|lia].
Qed.

(** C30: the recovery cache is a finite map on a window of 512 sequence numbers.  Any sequence
    of starts, inserts, lookups, consumes and clears on a fresh cache gives the results that the
    map gives, failed assertions included (a number outside the window, one already present or
    absent, an empty message); so a message is returned byte for byte until it is consumed,
    whatever is inserted, consumed or reallocated in between, and the bytes in use stay inside
    the allocated block. *)
Theorem recovery_cache_refines_map ops : Forall rc_op_ok ops -> rc_total ops < 2 ^ 61 ->
  match run_ops cache_step ops recovery_cache_new with
  | Ok (os, c) => (exists s, run_ops spec_step ops (mk_spec 0 ∅) = Ok (os, s) /\
                             size_ c = Z.of_nat (base.size (sp_map s))) /\
                  buff_size_ c <= buff_capacity_ c
  | Err f => run_ops spec_step ops (mk_spec 0 ∅) = Err f
  end.
Proof.
  intros Hops Ht. assert (Hc : buff_capacity_ recovery_cache_new + rc_total ops < 2 ^ 62)
    by (change (buff_capacity_ recovery_cache_new) with 65536; lia). clear Ht.
  generalize new_represents. generalize dependent recovery_cache_new. generalize (mk_spec 0 ∅).
  induction Hops as [|op ops Hop _ IH]; intros s c Hc R; cbn [run_ops rc_total] in *.
  - destruct (rp_used _ _ R). pose proof (rp_data _ _ R). split; [|lia]. exists s. split; [done|apply R].
  - pose proof (rc_total_nonneg ops). pose proof (cache_step_refines op c s R Hop ltac:(lia)) as S.
    destruct (cache_step op c) as [[o c']|]; cbn [mbind res_bind]; [|by rewrite S].
    destruct S as (s' & -> & R' & Hcap). cbn [mbind res_bind].
    specialize (IH s' c' ltac:(lia) R'). destruct (run_ops cache_step ops c') as [[os c2]|]; cbn [mbind res_bind].
    + destruct IH as [(s2 & -> & Hs2) Hb]. split; [|done]. exists s2. done.
    + by rewrite IH.
Qed.

Definition rc_demo : list rc_op :=
  [RStart 5; RInsert 7 (B "8=seven"); RInsert 6 (B "8=six"); RContains 5; RGet 7; RConsume 6; RGet 7; RConsume 7; REmpty].

Example recovery_cache_refines_map_witness :
  match run_ops cache_step rc_demo recovery_cache_new with
  | Ok (os, c) => (exists s, run_ops spec_step rc_demo (mk_spec 0 ∅) = Ok (os, s) /\
                             size_ c = Z.of_nat (base.size (sp_map s))) /\
                  buff_size_ c <= buff_capacity_ c
  | Err f => run_ops spec_step rc_demo (mk_spec 0 ∅) = Err f
  end.
Proof.
  apply (recovery_cache_refines_map rc_demo).
  - repeat constructor; unfold rc_op_ok, seq_ok; lia.
  - by vm_compute.
Defined.
