(* ===== verification/Arena.v ===== *)
(** [Fix::Arena], [Fix::ArenaHandle] (include/fix/core/Arena.hpp, src/Arena.cpp) and
    [Fix::WireWriter] (src/WireWriter.cpp): the memory outgoing messages are kept in until the
    transport has taken them.

    An arena is 16 blocks of 8 KiB in one allocation, with the list of free blocks threaded
    through the first four bytes of each free block; larger messages, and those that find no
    free block, go to the heap.  The model keeps the bytes of the arena and of the live heap
    blocks, so a handle that outlived its block, or two handles on one block, would be seen
    by a write through one of them.  The initial contents of the arena ([operator new] does
    not set them) are a parameter. *)
From stdpp Require Import gmap.
From Stdlib Require Import Strings.Byte.
From S2P Require Import Prelude.
From S2P Require Import Text.

Definition block_size : Z := 8 * 1024.
Definition block_count : Z := 16.
Definition end_ : Z := 4294967295.

Inductive MemSourceType : Set := SrcArena | SrcHeap | SrcNone.
#[export] Instance mem_source_eq_dec : EqDecision MemSourceType.
Proof. solve_decision. Defined.

(** A data pointer: null, [start + offset] in the arena, or the start of a heap block. *)
Inductive Ptr : Set := Null | InArena (o : Z) | OnHeap (id : Z).
#[export] Instance ptr_eq_dec : EqDecision Ptr.
Proof. solve_decision. Defined.

Record ArenaHandle : Set := mk_handle {
  arena_ : bool;
  data_ptr_ : Ptr;
  cap_ : Z;
  index : Z;
  source_type_ : MemSourceType
}.

Record Arena : Type := mk_arena { start : bytes; free_index : Z }.
(** Live heap blocks, by allocation number. *)
Record Heap : Type := mk_heap { blocks : gmap Z bytes; next_id : Z }.

(** ** The free list *)

(** A [uint32_t] in memory. *)
Definition le32 (v : Z) : bytes := [byte_of v; byte_of (v / 2 ^ 8); byte_of (v / 2 ^ 16); byte_of (v / 2 ^ 24)].
Definition le32_val (s : bytes) : Z :=
  match s with
  | [a; b; c; d] => bval a + 2 ^ 8 * bval b + 2 ^ 16 * bval c + 2 ^ 24 * bval d
  | _ => 0
  end.

Definition block_pointer (i : Z) : Z := u64 (i * block_size).

Definition write_next (idx next : Z) (a : Arena) : Res Arena :=
  let ptr := block_pointer idx in
  if ptr + 4 <=? zlen (start a) then Ok (mk_arena (blit ptr (le32 next) (start a)) (free_index a))
  else Err OutOfBounds.

Definition read_next (idx : Z) (a : Arena) : Res Z :=
  let ptr := block_pointer idx in
  if ptr + 4 <=? zlen (start a) then Ok (le32_val (zsub ptr 4 (start a))) else Err OutOfBounds.

(** [for (i = first; i < block_count; ++i) write_next(i, i + 1)]. *)
Fixpoint thread_blocks (n : nat) (i : Z) (a : Arena) : Res Arena :=
  match n with
  | O => Ok a
  | S n' => let! a := write_next i (u32 (i + 1)) a in thread_blocks n' (i + 1) a
  end.

Definition arena_new (init : bytes) : Res Arena :=
  let! a := thread_blocks (Z.to_nat block_count) 0 (mk_arena init 0) in
  write_next (block_count - 1) end_ a.

Definition release (idx : Z) (a : Arena) : Res Arena :=
  let! a := write_next idx (free_index a) a in
  Ok (mk_arena (start a) idx).

(** ** Allocation and handles *)

Definition allocate_heap (size : Z) (h : Heap) : ArenaHandle * Heap :=
  (mk_handle false (OnHeap (next_id h)) size end_ SrcHeap,
   mk_heap (<[next_id h := replicate (Z.to_nat size) x00]> (blocks h)) (next_id h + 1)).

Definition allocate_arena (a : Arena) : Res (ArenaHandle * Arena) :=
  let allocated_index := free_index a in
  let! n := read_next allocated_index a in
  Ok (mk_handle true (InArena (block_pointer allocated_index)) block_size allocated_index SrcArena,
      mk_arena (start a) n).

Definition allocate (size : Z) (a : Arena) (h : Heap) : Res (ArenaHandle * Arena * Heap) :=
  if (block_size <? size) || (free_index a =? end_) then
    let '(hd, h) := allocate_heap size h in Ok (hd, a, h)
  else
    let! '(hd, a) := allocate_arena a in Ok (hd, a, h).

(** [::operator delete(ptr)]: the pointer must be that of a live block. *)
Definition heap_delete (p : Ptr) (h : Heap) : Res Heap :=
  match p with
  | OnHeap id => if bool_decide (is_Some (blocks h !! id)) then Ok (mk_heap (delete id (blocks h)) (next_id h)) else Err OutOfBounds
  | _ => Err OutOfBounds
  end.

(** [~ArenaHandle]. *)
Definition destroy (hd : ArenaHandle) (a : Arena) (h : Heap) : Res (Arena * Heap) :=
  if bool_decide (source_type_ hd = SrcHeap) && negb (bool_decide (data_ptr_ hd = Null)) then
    let! h := heap_delete (data_ptr_ hd) h in Ok (a, h)
  else if bool_decide (source_type_ hd = SrcArena) && arena_ hd then
    let! a := release (index hd) a in Ok (a, h)
  else Ok (a, h).

Definition moved_from : ArenaHandle := mk_handle false Null 0 end_ SrcNone.

(** [ArenaHandle(ArenaHandle&& other)]: the new handle and what is left of [other]. *)
Definition move_ctor (other : ArenaHandle) : ArenaHandle * ArenaHandle :=
  (mk_handle (arena_ other) (data_ptr_ other) (cap_ other) (index other) (source_type_ other), moved_from).

(** [dst = std::move(src)] for two different handles. *)
Definition move_assign (dst src : ArenaHandle) (a : Arena) (h : Heap) : Res (ArenaHandle * ArenaHandle * Arena * Heap) :=
  let! a := (if bool_decide (source_type_ dst = SrcArena) && arena_ dst then release (index dst) a else Ok a) in
  let! h := (if bool_decide (source_type_ dst = SrcHeap) && negb (bool_decide (data_ptr_ dst = Null))
             then heap_delete (data_ptr_ dst) h else Ok h) in
  Ok (mk_handle (arena_ src) (data_ptr_ src) (cap_ src) (index src) (source_type_ src), moved_from, a, h).

(** ** Memory through a handle *)

(** [memcpy(data() + o, s, n)]. *)
Definition poke (p : Ptr) (o : Z) (s : bytes) (a : Arena) (h : Heap) : Res (Arena * Heap) :=
  match p with
  | Null => Err NullDeref
  | InArena q =>
      if q + o + zlen s <=? zlen (start a)
      then Ok (mk_arena (blit (q + o) s (start a)) (free_index a), h) else Err OutOfBounds
  | OnHeap id =>
      match blocks h !! id with
      | None => Err OutOfBounds
      | Some blk =>
          if o + zlen s <=? zlen blk then Ok (a, mk_heap (<[id := blit o s blk]> (blocks h)) (next_id h))
          else Err OutOfBounds
      end
  end.

(** The [n] bytes at [data()]. *)
Definition peek (p : Ptr) (n : Z) (a : Arena) (h : Heap) : Res bytes :=
  match p with
  | Null => Err NullDeref
  | InArena q => if q + n <=? zlen (start a) then Ok (zsub q n (start a)) else Err OutOfBounds
  | OnHeap id =>
      match blocks h !! id with
      | None => Err OutOfBounds
      | Some blk => if n <=? zlen blk then Ok (ztake n blk) else Err OutOfBounds
      end
  end.

(** ** [WireWriter] *)

Record WireWriter : Set := mk_writer { handle_ : ArenaHandle; size_ : Z }.

(** [WireWriter(ArenaHandle&& handle)]. *)
Definition writer_new (hd : ArenaHandle) : WireWriter := mk_writer (move_ctor hd).1 0.

Definition append (s : bytes) (w : WireWriter) (a : Arena) (h : Heap) : Res (WireWriter * Arena * Heap) :=
  let! '(a, h) := poke (data_ptr_ (handle_ w)) (size_ w) s a h in
  Ok (mk_writer (handle_ w) (u64 (size_ w + zlen s)), a, h).
Definition append_char (c : byte) w a h := append [c] w a h.
Definition append_eq w a h := append_char x3d w a h.
Definition append_soh w a h := append_char SOH w a h.
Definition append_int (value : Z) w a h := append (if value <? 0 then x2d :: to_dec (- value) else to_dec value) w a h.

Definition from_arena (msg_wire : bytes) (a : Arena) (h : Heap) : Res (WireWriter * Arena * Heap) :=
  let! '(hd, a, h) := allocate (zlen msg_wire) a h in
  append msg_wire (writer_new hd) a h.

Definition view (w : WireWriter) (a : Arena) (h : Heap) : Res bytes := peek (data_ptr_ (handle_ w)) (size_ w) a h.

(** ** A program that uses an arena

    The variables of type [ArenaHandle] of a program, [None] once destroyed, and what it does
    with them. *)

Record World : Type := mk_world {
  w_arena : Arena;
  w_heap : Heap;
  w_handles : list (option ArenaHandle)
}.

Definition world_new (init : bytes) : Res World :=
  let! a := arena_new init in Ok (mk_world a (mk_heap ∅ 0) []).

Inductive arena_op : Set :=
  | OpAlloc (size : Z)
  | OpDestroy (i : nat)
  | OpMoveCtor (i : nat)
  | OpMoveAssign (i j : nat)
  | OpWrite (i : nat) (o : Z) (s : bytes).

(** The handle of variable [i], when it is alive. *)
Definition var (i : nat) (w : World) : option ArenaHandle := mjoin (w_handles w !! i).

(** What the language asks of the program: it uses variables that are alive, moves between
    different ones, and writes within the capacity of the handle. *)
Definition op_ok (op : arena_op) (w : World) : bool :=
  match op with
  | OpAlloc n => (0 <=? n) && (n <? 2 ^ 64)
  | OpDestroy i | OpMoveCtor i => bool_decide (is_Some (var i w))
  | OpMoveAssign i j => negb (Nat.eqb i j) && bool_decide (is_Some (var i w)) && bool_decide (is_Some (var j w))
  | OpWrite i o s => match var i w with
                     | Some hd => (0 <=? o) && (o + zlen s <=? cap_ hd) && negb (bool_decide (data_ptr_ hd = Null))
                     | None => false
                     end
  end.

Definition arena_step (op : arena_op) (w : World) : Res World :=
  let '(mk_world a h hs) := w in
  match op with
  | OpAlloc n =>
      let! '(hd, a, h) := allocate n a h in Ok (mk_world a h (hs ++ [Some hd]))
  | OpDestroy i =>
      match var i w with
      | None => Err OutOfBounds
      | Some hd => let! '(a, h) := destroy hd a h in Ok (mk_world a h (<[i := None]> hs))
      end
  | OpMoveCtor i =>
      match var i w with
      | None => Err OutOfBounds
      | Some hd => let '(nw, old) := move_ctor hd in Ok (mk_world a h (<[i := Some old]> hs ++ [Some nw]))
      end
  | OpMoveAssign i j =>
      match var i w, var j w with
      | Some dst, Some src =>
          let! '(d, s, a, h) := move_assign dst src a h in
          Ok (mk_world a h (<[j := Some s]> (<[i := Some d]> hs)))
      | _, _ => Err OutOfBounds
      end
  | OpWrite i o s =>
      match var i w with
      | None => Err OutOfBounds
      | Some hd => let! '(a, h) := poke (data_ptr_ hd) o s a h in Ok (mk_world a h hs)
      end
  end.

(** A run; an operation the language does not allow is left out. *)
Fixpoint arena_run (ops : list arena_op) (w : World) : Res World :=
  match ops with
  | [] => Ok w
  | op :: ops' => if op_ok op w then let! w := arena_step op w in arena_run ops' w else arena_run ops' w
  end.

(** ** Invariant

    Free blocks, and the blocks of the live handles, are the 16 arena blocks and the live
    heap blocks, each exactly once. *)

Definition arena_bytes : Z := block_size * block_count.
Definition blk (k : Z) : Ptr := InArena (k * block_size).

Fixpoint chain (a : Arena) (i : Z) (fl : list Z) : Prop :=
  match fl with
  | [] => i = end_
  | k :: fl' => i = k /\ 0 <= k < block_count /\ exists n, read_next k a = Ok n /\ chain a n fl'
  end.

Definition own (o : option ArenaHandle) : list Ptr :=
  match o with
  | Some hd => if bool_decide (data_ptr_ hd = Null) then [] else [data_ptr_ hd]
  | None => []
  end.
Definition owned (hs : list (option ArenaHandle)) : list Ptr := hs ≫= own.
Definition all_blocks (h : Heap) : list Ptr :=
  (blk <$> seqZ 0 block_count) ++ (OnHeap <$> elements (dom (blocks h))).

Definition handle_wf (h : Heap) (hd : ArenaHandle) : Prop :=
  match source_type_ hd with
  | SrcArena => arena_ hd = true /\ data_ptr_ hd = blk (index hd) /\ cap_ hd = block_size /\ 0 <= index hd < block_count
  | SrcHeap => arena_ hd = false /\ exists id b, data_ptr_ hd = OnHeap id /\ blocks h !! id = Some b /\ zlen b = cap_ hd
  | SrcNone => arena_ hd = false /\ data_ptr_ hd = Null /\ cap_ hd = 0
  end.

Record arena_inv (w : World) (fl : list Z) : Prop := {
  ai_chain : chain (w_arena w) (free_index (w_arena w)) fl;
  ai_size : zlen (start (w_arena w)) = arena_bytes;
  ai_perm : (blk <$> fl) ++ owned (w_handles w) ≡ₚ all_blocks (w_heap w);
  ai_wf : forall hd, Some hd ∈ w_handles w -> handle_wf (w_heap w) hd;
  ai_fresh : forall id, is_Some (blocks (w_heap w) !! id) -> id < next_id (w_heap w)
}.

Lemma le32_roundtrip v : 0 <= v < 2 ^ 32 -> le32_val (le32 v) = v.
Proof. intros Hv. unfold le32, le32_val. rewrite !bval_byte_of. Z.to_euclidean_division_equations. lia. Qed.

Lemma block_pointer_spec k : 0 <= k < block_count -> block_pointer k = k * block_size.
Proof. intros. unfold block_pointer, block_count, block_size in *. apply u64_small. lia. Qed.

#[local] Ltac arena_lia := unfold arena_bytes, block_count, block_size, end_ in *; lia.

Lemma read_next_spec k a : zlen (start a) = arena_bytes -> 0 <= k < block_count ->
  read_next k a = Ok (le32_val (zsub (k * block_size) 4 (start a))).
Proof.
  intros Hl Hk. unfold read_next. rewrite block_pointer_spec by done.
  rewrite (proj2 (Z.leb_le _ _)); [done|]. arena_lia.
Qed.

Lemma write_next_spec k n a : zlen (start a) = arena_bytes -> 0 <= k < block_count -> 0 <= n < 2 ^ 32 ->
  exists a', write_next k n a = Ok a' /\ zlen (start a') = arena_bytes /\ free_index a' = free_index a /\
    read_next k a' = Ok n /\ (forall j, 0 <= j < block_count -> j <> k -> read_next j a' = read_next j a) /\
    (forall i m, 0 <= i -> 0 <= m -> i + m <= arena_bytes -> i + m <= k * block_size \/ (k + 1) * block_size <= i ->
      zsub i m (start a') = zsub i m (start a)).
Proof.
  intros Hl Hk Hn. assert (L4 : zlen (le32 n) = 4) by done.
  unfold write_next. rewrite block_pointer_spec by done. rewrite (proj2 (Z.leb_le _ _)) by arena_lia.
  eexists. split; [done|]. cbn [start free_index].
  assert (L' : zlen (blit (k * block_size) (le32 n) (start a)) = arena_bytes) by (rewrite zlen_blit; arena_lia).
  assert (F : forall i m, 0 <= i -> 0 <= m -> i + m <= arena_bytes -> i + m <= k * block_size \/ (k + 1) * block_size <= i ->
      zsub i m (blit (k * block_size) (le32 n) (start a)) = zsub i m (start a)).
  { intros i m Hi Hm Hle Hd. apply zsub_blit_disjoint; arena_lia. }
  split_and!; [done|done| | |done].
  - rewrite read_next_spec by done. cbn [start]. rewrite <- L4, zsub_blit_same, le32_roundtrip; [done|lia|arena_lia|arena_lia].
  - intros j Hj Hne. rewrite !read_next_spec by done. cbn [start]. rewrite F; [done|arena_lia..].
Qed.

Lemma chain_ext a a' i fl : (forall k, k ∈ fl -> read_next k a' = read_next k a) -> chain a i fl -> chain a' i fl.
Proof.
  revert i. induction fl as [|k fl IH]; intros i Hr; [done|]. cbn. intros (-> & Hk & n & Hn & Hc).
  split; [done|]. split; [done|]. exists n. rewrite Hr by (by left). split; [done|]. apply IH; [|done]. intros j Hj. apply Hr. by right.
Qed.

Lemma chain_range a i fl : chain a i fl -> Forall (fun k => 0 <= k < block_count) fl.
Proof. revert i. induction fl as [|k fl IH]; intros i; [done|]. cbn. intros (_ & Hk & n & _ & Hc). constructor; eauto. Qed.

(** The constructor threads every block. *)
Lemma thread_blocks_spec n i a : zlen (start a) = arena_bytes -> 0 <= i -> i + Z.of_nat n <= block_count ->
  exists a', thread_blocks n i a = Ok a' /\ zlen (start a') = arena_bytes /\ free_index a' = free_index a /\
    (forall j, i <= j < i + Z.of_nat n -> read_next j a' = Ok (j + 1)) /\
    (forall j, 0 <= j < i -> read_next j a' = read_next j a).
Proof.
  revert i a. induction n as [|n IH]; intros i a Hl Hi Hn.
  - exists a. split_and!; [done|done|done|lia|done].
  - cbn [thread_blocks]. rewrite u32_small by arena_lia.
    destruct (write_next_spec i (i + 1) a) as (a1 & -> & L1 & F1 & R1 & O1 & _); [done|lia|arena_lia|]. rewrite ok_bind.
    destruct (IH (i + 1) a1) as (a2 & -> & L2 & F2 & R2 & O2); [done|lia|lia|].
    exists a2. split_and!; [done|done|congruence| |].
    + intros j Hj. destruct (decide (j = i)) as [->|]; [rewrite O2 by lia; done|apply R2; lia].
    + intros j Hj. rewrite O2 by lia. apply O1; arena_lia.
Qed.

Lemma chain_seq a n i : (forall j, i <= j < i + Z.of_nat n -> 0 <= j < block_count) -> 0 <= i ->
  (forall j, i <= j < i + Z.of_nat n - 1 -> read_next j a = Ok (j + 1)) ->
  read_next (i + Z.of_nat n - 1) a = Ok end_ -> (0 < n)%nat -> chain a i (seqZ i (Z.of_nat n)).
Proof.
  revert i. induction n as [|n IH]; intros i Hr Hi Hn He Hp; [lia|]. rewrite seqZ_cons by lia.
  replace (Z.pred (Z.of_nat (S n))) with (Z.of_nat n) by lia. cbn [chain]. split_and!; [done|apply Hr; lia|apply Hr; lia|].
  destruct n as [|n].
  - exists end_. split; [|done]. rewrite <- He. f_equal. lia.
  - exists (i + 1). split; [apply Hn; lia|]. replace (Z.succ i) with (i + 1) by lia.
    apply IH; [intros j Hj; apply Hr; lia|lia|intros j Hj; apply Hn; lia| |lia].
    rewrite <- He. f_equal. lia.
Qed.

Lemma world_new_inv init : zlen init = arena_bytes ->
  exists w, world_new init = Ok w /\ arena_inv w (seqZ 0 block_count) /\ w_handles w = [].
Proof.
  intros Hl. unfold world_new, arena_new.
  destruct (thread_blocks_spec (Z.to_nat block_count) 0 (mk_arena init 0)) as (a1 & -> & L1 & F1 & R1 & _);
    [done|lia|arena_lia|]. rewrite ok_bind.
  destruct (write_next_spec (block_count - 1) end_ a1) as (a2 & -> & L2 & F2 & R2 & O2 & _); [done|arena_lia|arena_lia|].
  rewrite ok_bind. eexists. split; [done|]. split; [|done]. cbn [free_index] in F1. split; cbn [w_arena w_heap w_handles].
  - rewrite F2, F1. apply (chain_seq a2 16 0); [arena_lia|lia| |exact R2|lia].
    intros j Hj. rewrite O2 by arena_lia. apply R1. arena_lia.
  - done.
  - unfold all_blocks. cbn. rewrite dom_empty_L, elements_empty. done.
  - intros hd Hh. by apply not_elem_of_nil in Hh.
  - intros id [? Hid]. cbn in Hid. by rewrite lookup_empty in Hid.
Qed.

(** ** Preservation *)

Lemma owned_insert hs i o o' : hs !! i = Some o -> own o ++ owned (<[i := o']> hs) ≡ₚ own o' ++ owned hs.
Proof.
  intros Hi. unfold owned. rewrite insert_take_drop by (by eapply lookup_lt_Some).
  rewrite <- (take_drop_middle hs i o Hi) at 3. rewrite !bind_app. cbn [mbind list_bind]. fold owned.
  rewrite !(Permutation_app_comm (take i hs ≫= own)), <- !app_assoc, !(app_assoc (own _) (own _)).
  apply Permutation_app_tail. apply Permutation_app_comm.
Qed.

Lemma owned_snoc hs o : owned (hs ++ [o]) = owned hs ++ own o.
Proof. unfold owned. rewrite bind_app. cbn. by rewrite app_nil_r. Qed.

Lemma var_lookup i w hd : var i w = Some hd <-> w_handles w !! i = Some (Some hd).
Proof. unfold var. destruct (w_handles w !! i) as [[?|]|]; cbn; split; intros; simplify_eq; done. Qed.

Lemma elem_of_snoc_inv {A} (x y : A) (l : list A) : x ∈ l ++ [y] -> x ∈ l \/ x = y.
Proof. intros [H|H]%elem_of_app; [by left|]. apply list_elem_of_singleton in H. by right. Qed.

Lemma elem_of_insert_inv {A} (x y : A) (i : nat) (l : list A) : x ∈ <[i := y]> l -> x ∈ l \/ x = y.
Proof.
  intros [j Hj]%list_elem_of_lookup. apply list_lookup_insert_Some in Hj as [(_ & -> & _)|[_ Hj]]; [by right|].
  left. apply list_elem_of_lookup. eauto.
Qed.

Lemma moved_from_wf h : handle_wf h moved_from.
Proof. done. Qed.

Lemma handle_wf_heap h h' hd : (forall id b, blocks h !! id = Some b -> data_ptr_ hd = OnHeap id ->
    exists b', blocks h' !! id = Some b' /\ zlen b' = zlen b) -> handle_wf h hd -> handle_wf h' hd.
Proof.
  intros Hb. unfold handle_wf. destruct (source_type_ hd); [done| |done].
  intros (Ha & id & b & Hp & Hl & Hz). split; [done|]. destruct (Hb id b Hl Hp) as (b' & Hl' & Hz').
  exists id, b'. split_and!; [done|done|congruence].
Qed.

(** The handles may change as long as they own the same blocks. *)
Lemma inv_handles a h hs hs' fl : arena_inv (mk_world a h hs) fl -> owned hs' ≡ₚ owned hs ->
  (forall hd, Some hd ∈ hs' -> handle_wf h hd) -> arena_inv (mk_world a h hs') fl.
Proof. intros [Hc Hs Hp Hw Hf] Ho Hw'. split; try done. cbn [w_handles]. by rewrite Ho. Qed.

Lemma all_blocks_NoDup h : NoDup (all_blocks h).
Proof.
  unfold all_blocks. apply NoDup_app. split_and!.
  - apply NoDup_fmap_2_strong; [|apply NoDup_seqZ]. intros i j _ _ [= E]. unfold block_size in E. lia.
  - intros p (k & -> & _)%list_elem_of_fmap (id & [=] & _)%list_elem_of_fmap.
  - apply NoDup_fmap_2; [congruence|apply NoDup_elements].
Qed.

Lemma inv_NoDup w fl : arena_inv w fl -> NoDup ((blk <$> fl) ++ owned (w_handles w)).
Proof. intros I. rewrite (ai_perm _ _ I). apply all_blocks_NoDup. Qed.

(** The block of a handle is not free and is not that of another handle. *)
Lemma handle_not_free w fl i hd : arena_inv w fl -> var i w = Some hd -> data_ptr_ hd <> Null ->
  data_ptr_ hd ∉ blk <$> fl.
Proof.
  intros I Hv Hn Hin. destruct (proj1 (NoDup_app _ _) (inv_NoDup w fl I)) as (_ & Hd & _).
  apply (Hd _ Hin). unfold owned. apply list_elem_of_bind. exists (Some hd). split.
  - cbn. rewrite bool_decide_false by done. by left.
  - apply list_elem_of_lookup. exists i. by apply var_lookup.
Qed.

Lemma handles_disjoint w fl i j hi hj : arena_inv w fl -> var i w = Some hi -> var j w = Some hj -> i <> j ->
  data_ptr_ hi <> Null -> data_ptr_ hi <> data_ptr_ hj.
Proof.
  intros I Hi Hj Hne Hn E. destruct (proj1 (NoDup_app _ _) (inv_NoDup w fl I)) as (_ & _ & Hd).
  apply var_lookup in Hi, Hj. pose proof (owned_insert (w_handles w) i _ None Hi) as P. cbn [own app] in P.
  rewrite bool_decide_false in P by done. rewrite <- P in Hd. cbn in Hd. apply NoDup_cons in Hd as [Hd _]. apply Hd.
  unfold owned. apply list_elem_of_bind. exists (Some hj). split.
  - cbn. rewrite bool_decide_false by congruence. rewrite E. by left.
  - apply list_elem_of_lookup. exists j. by rewrite list_lookup_insert_ne.
Qed.

Lemma dom_insert_fresh h (b : bytes) : (forall id, is_Some (blocks h !! id) -> id < next_id h) ->
  elements (dom (<[next_id h := b]> (blocks h))) ≡ₚ next_id h :: elements (dom (blocks h)).
Proof.
  intros Hf. rewrite dom_insert_L. apply elements_union_singleton. intros Hd%elem_of_dom. apply Hf in Hd. lia.
Qed.

Lemma alloc_heap_inv n w fl : arena_inv w fl -> 0 <= n ->
  arena_inv (mk_world (w_arena w) (allocate_heap n (w_heap w)).2 (w_handles w ++ [Some (allocate_heap n (w_heap w)).1])) fl /\
  (forall id b, blocks (w_heap w) !! id = Some b -> blocks (allocate_heap n (w_heap w)).2 !! id = Some b).
Proof.
  intros [Hc Hs Hp Hw Hf] Hn.
  assert (Hk : forall id b, blocks (w_heap w) !! id = Some b -> blocks (allocate_heap n (w_heap w)).2 !! id = Some b).
  { intros id b Hid. cbn. rewrite lookup_insert_ne; [done|]. intros <-. specialize (Hf _ ltac:(eauto)). lia. }
  split; [|done]. split; cbn [w_arena w_heap w_handles]; [done|done| | |].
  - unfold all_blocks. cbn [allocate_heap fst snd blocks]. rewrite owned_snoc, dom_insert_fresh by done. cbn [own data_ptr_].
    rewrite bool_decide_false by done. cbn [fmap list_fmap]. rewrite (app_assoc (blk <$> fl)), Hp. unfold all_blocks.
    rewrite <- app_assoc. apply Permutation_app_head. by rewrite Permutation_app_comm.
  - intros hd [Hh|[= ->]]%elem_of_snoc_inv.
    + eapply handle_wf_heap; [|by apply Hw]. intros id b Hb' _. exists b. split; [by apply Hk|done].
    + split; [done|]. eexists _, _. cbn. rewrite lookup_insert_eq. split_and!; [done|done|rewrite zlen_replicate; lia].
  - cbn [allocate_heap snd next_id blocks]. intros id [<-|[_ Hid]]%lookup_insert_is_Some; [lia|]. specialize (Hf id Hid). lia.
Qed.

Lemma alloc_arena_inv w k fl : arena_inv w (k :: fl) ->
  exists a, allocate_arena (w_arena w) = Ok (mk_handle true (blk k) block_size k SrcArena, a) /\
    start a = start (w_arena w) /\
    arena_inv (mk_world a (w_heap w) (w_handles w ++ [Some (mk_handle true (blk k) block_size k SrcArena)])) fl.
Proof.
  intros [(Ek & Hk & m & Hm & Hc) Hs Hp Hw Hf]. unfold allocate_arena. rewrite Ek, Hm, ok_bind.
  rewrite block_pointer_spec by done. eexists. split; [done|]. split; [done|].
  split; cbn [w_arena w_heap w_handles free_index start]; [|done| | |done].
  - eapply chain_ext; [|exact Hc]. done.
  - rewrite owned_snoc, <- Hp. cbn [fmap list_fmap app own data_ptr_]. rewrite bool_decide_false by done.
    by rewrite app_assoc, Permutation_app_comm.
  - intros hd [Hh|[= ->]]%elem_of_snoc_inv; [by apply Hw|done].
Qed.

Lemma alloc_inv n w fl : arena_inv w fl -> 0 <= n ->
  exists hd a h fl', allocate n (w_arena w) (w_heap w) = Ok (hd, a, h) /\
    arena_inv (mk_world a h (w_handles w ++ [Some hd])) fl' /\ start a = start (w_arena w) /\
    (forall id b, blocks (w_heap w) !! id = Some b -> blocks h !! id = Some b) /\ n <= cap_ hd /\
    data_ptr_ hd <> Null /\
    source_type_ hd = (if (n <=? block_size) && (0 <? zlen fl) then SrcArena else SrcHeap) /\
    zlen fl' = (if (n <=? block_size) && (0 <? zlen fl) then zlen fl - 1 else zlen fl).
Proof.
  intros I Hn. destruct (alloc_heap_inv n w fl I Hn) as [Ih Hh].
  assert (Hend : (block_size <? n) || (free_index (w_arena w) =? end_) = negb ((n <=? block_size) && (0 <? zlen fl))).
  { rewrite negb_andb, <- Z.ltb_antisym. f_equal. pose proof (ai_chain _ _ I) as Hc. destruct fl as [|k fl]; cbn in Hc; [by rewrite Hc|].
    destruct Hc as (-> & Hk & _). pose proof (zlen_nonneg fl). rewrite zlen_cons, (proj2 (Z.ltb_lt 0 _)) by lia.
    apply Z.eqb_neq. arena_lia. }
  unfold allocate. rewrite Hend. destruct ((n <=? block_size) && (0 <? zlen fl)) eqn:E; cbn [negb].
  - apply andb_true_iff in E as [E1%Z.leb_le E2]. destruct fl as [|k fl]; [done|].
    destruct (alloc_arena_inv w k fl I) as (a & -> & Hs & Ia). rewrite ok_bind.
    eexists _, _, _, fl. split; [done|]. split_and!; [done|done|done|done|done|done|rewrite zlen_cons; lia].
  - destruct (allocate_heap n (w_heap w)) as [hd h] eqn:Ea. cbn [fst snd] in *. injection Ea as <- <-.
    eexists _, _, _, fl. split; [done|]. split_and!; done || (cbn; lia).
Qed.

Lemma release_inv k w fl : arena_inv w fl -> 0 <= k < block_count -> k ∉ fl ->
  exists a, release k (w_arena w) = Ok a /\ chain a (free_index a) (k :: fl) /\ zlen (start a) = arena_bytes /\
    (forall i m, 0 <= i -> 0 <= m -> i + m <= arena_bytes -> i + m <= k * block_size \/ (k + 1) * block_size <= i ->
      zsub i m (start a) = zsub i m (start (w_arena w))).
Proof.
  intros I Hk Hnf. pose proof (ai_chain _ _ I) as Hc. assert (Hr : 0 <= free_index (w_arena w) < 2 ^ 32).
  { destruct fl as [|j fl]; cbn in Hc; [rewrite Hc; arena_lia|]. destruct Hc as (-> & Hj & _). arena_lia. }
  destruct (write_next_spec k (free_index (w_arena w)) (w_arena w) (ai_size _ _ I) Hk Hr) as (a & E & L & F & R & O & Z).
  unfold release. rewrite E, ok_bind. eexists. split; [done|]. cbn [start free_index]. split_and!; [|done|exact Z].
  cbn [chain]. split; [done|]. split; [done|]. exists (free_index (w_arena w)). split; [exact R|].
  eapply chain_ext; [|exact Hc]. intros j Hj. pose proof (chain_range _ _ _ Hc) as Hall. rewrite Forall_forall in Hall.
  apply O; [by apply Hall|]. by intros ->.
Qed.

(** Destroying a handle gives its block back. *)
Lemma destroy_inv i hd w fl : arena_inv w fl -> var i w = Some hd ->
  exists a h fl', destroy hd (w_arena w) (w_heap w) = Ok (a, h) /\
    arena_inv (mk_world a h (<[i := None]> (w_handles w))) fl' /\
    (forall j n, 0 <= n <= block_size -> 0 <= j < block_count -> blk j <> data_ptr_ hd ->
       zsub (j * block_size) n (start a) = zsub (j * block_size) n (start (w_arena w))) /\
    (forall id, OnHeap id <> data_ptr_ hd -> blocks h !! id = blocks (w_heap w) !! id).
Proof.
  intros I Hv. pose proof (proj1 (var_lookup _ _ _) Hv) as Hl. pose proof (owned_insert _ _ _ None Hl) as P. cbn [own app] in P.
  assert (Hw : handle_wf (w_heap w) hd) by (apply (ai_wf _ _ I), list_elem_of_lookup; eauto).
  assert (Hwf : forall x, Some x ∈ <[i := None]> (w_handles w) -> handle_wf (w_heap w) x)
    by (intros x [Hx|[=]]%elem_of_insert_inv; by apply (ai_wf _ _ I)).
  unfold destroy, handle_wf in *. destruct hd as [ar p cap ix src]. cbn [source_type_ data_ptr_ arena_ index cap_] in *.
  destruct src; rewrite ?bool_decide_true, ?(bool_decide_false (_ = SrcHeap)), ?(bool_decide_false (_ = SrcArena)) by done; cbn [andb].
  - destruct Hw as (-> & -> & -> & Hr). pose proof (handle_not_free _ _ _ _ I Hv ltac:(done)) as Hnf. cbn [data_ptr_] in Hnf.
    destruct (release_inv ix w fl I Hr) as (a & -> & Hc & Hs & Hz).
    { intros Hin. apply Hnf, list_elem_of_fmap. eauto. }
    rewrite ok_bind. eexists a, _, (ix :: fl). split; [done|]. rewrite bool_decide_false in P by done. split_and!; [|..|done].
    + destruct I as [_ _ Hp _ Hf]. split; cbn [w_arena w_heap w_handles]; [done|done| |done|done].
      rewrite <- Hp, <- P. cbn [fmap list_fmap app]. by rewrite Permutation_middle.
    + intros j n Hn Hj Hne. assert (j <> ix) by (by intros ->). apply Hz; arena_lia.
  - destruct Hw as (-> & id & b & -> & Hb & Hcap). rewrite !(bool_decide_false (OnHeap id = Null)) in * by done. cbn [negb].
    unfold heap_delete. rewrite bool_decide_true by eauto. rewrite ok_bind. eexists _, _, fl. split; [done|].
    destruct (I) as [Hc Hs Hp Hw' Hf]. split_and!; [|done|].
    + split; cbn [w_arena w_heap w_handles blocks next_id]; [done|done| | |].
      * apply (Permutation_cons_inv (a := OnHeap id)). rewrite Permutation_middle, P, Hp. unfold all_blocks. cbn [blocks].
        rewrite (Permutation_middle (blk <$> _)). apply Permutation_app_head. rewrite <- fmap_cons.
        apply fmap_Permutation. rewrite <- elements_union_singleton by (rewrite dom_delete_L; apply not_elem_of_difference; right; by apply elem_of_singleton).
        f_equiv. rewrite dom_delete_L. rewrite <- union_difference_singleton_L; [done|]. apply elem_of_dom. eauto.
      * intros x Hx. eapply handle_wf_heap; [|by apply Hwf]. intros id' b' Hb' Hp'. exists b'. split; [|done]. cbn.
        rewrite lookup_delete_ne; [done|]. intros <-.
        apply list_elem_of_lookup in Hx as [j Hj]. apply list_lookup_insert_Some in Hj as [(_ & [=] & _)|[Hij Hj]].
        apply (handles_disjoint w fl i j _ x I Hv); [by apply var_lookup|done|done|by cbn].
      * intros id' Hid. apply Hf. cbn in Hid. rewrite lookup_delete_is_Some in Hid. by destruct Hid.
    + intros id' Hne. cbn. apply lookup_delete_ne. congruence.
  - destruct Hw as (-> & -> & ->). eexists _, _, fl. split; [done|]. split_and!; [|done|done].
    rewrite bool_decide_true in P by done. apply (inv_handles _ _ (w_handles w)); [by destruct w|done|done].
Qed.

(** ** Refinement: handles are independent buffers

    What a variable holds: nothing (destroyed), nothing (moved from), or a buffer of its own.
    [Wild] would be a handle whose memory is not live. *)

Inductive cell : Set := Dead | Moved | Buf (b : bytes) | Wild.

Definition cell_of (a : Arena) (h : Heap) (o : option ArenaHandle) : cell :=
  match o with
  | None => Dead
  | Some hd =>
      if bool_decide (data_ptr_ hd = Null) then Moved
      else match peek (data_ptr_ hd) (cap_ hd) a h with Ok b => Buf b | Err _ => Wild end
  end.
Definition cells (w : World) : list cell := cell_of (w_arena w) (w_heap w) <$> w_handles w.

(** The operations on buffers that are values.  A new buffer has unspecified contents. *)
Inductive buffer_step : arena_op -> list cell -> list cell -> Prop :=
  | buf_alloc n b cs : n <= zlen b -> buffer_step (OpAlloc n) cs (cs ++ [Buf b])
  | buf_destroy i cs : buffer_step (OpDestroy i) cs (<[i := Dead]> cs)
  | buf_move_ctor i c cs : cs !! i = Some c -> buffer_step (OpMoveCtor i) cs (<[i := Moved]> cs ++ [c])
  | buf_move_assign i j c cs : cs !! j = Some c -> i <> j ->
      buffer_step (OpMoveAssign i j) cs (<[j := Moved]> (<[i := c]> cs))
  | buf_write i o s b cs : cs !! i = Some (Buf b) -> 0 <= o -> o + zlen s <= zlen b ->
      buffer_step (OpWrite i o s) cs (<[i := Buf (blit o s b)]> cs).

Definition alive (o : option cell) : bool :=
  match o with Some Moved | Some (Buf _) => true | _ => false end.
Definition buffer_ok (op : arena_op) (cs : list cell) : bool :=
  match op with
  | OpAlloc n => (0 <=? n) && (n <? 2 ^ 64)
  | OpDestroy i | OpMoveCtor i => alive (cs !! i)
  | OpMoveAssign i j => negb (Nat.eqb i j) && alive (cs !! i) && alive (cs !! j)
  | OpWrite i o s => match cs !! i with
                     | Some (Buf b) => (0 <=? o) && (o + zlen s <=? zlen b)
                     | _ => false
                     end
  end.

Inductive buffer_run : list arena_op -> list cell -> list cell -> Prop :=
  | br_nil cs : buffer_run [] cs cs
  | br_step op ops cs cs' cs'' : buffer_ok op cs = true -> buffer_step op cs cs' -> buffer_run ops cs' cs'' ->
      buffer_run (op :: ops) cs cs''
  | br_skip op ops cs cs' : buffer_ok op cs = false -> buffer_run ops cs cs' -> buffer_run (op :: ops) cs cs'.

Lemma cells_frame (i : nat) (c : cell) a h a' h' (hs : list (option ArenaHandle)) :
  (forall j hd, j <> i -> hs !! j = Some (Some hd) -> cell_of a' h' (Some hd) = cell_of a h (Some hd)) ->
  <[i := c]> (cell_of a' h' <$> hs) = <[i := c]> (cell_of a h <$> hs).
Proof.
  intros Hf. apply list_eq. intros j. destruct (decide (i = j)) as [->|Hne].
  - destruct (decide (j < length hs)%nat).
    + rewrite !list_lookup_insert_eq by (by rewrite length_fmap). done.
    + rewrite !lookup_ge_None_2; [done|rewrite length_insert, length_fmap; lia..].
  - rewrite !list_lookup_insert_ne by done. rewrite !list_lookup_fmap.
    destruct (hs !! j) as [[hd|]|] eqn:E; cbn [fmap option_fmap option_map]; [|done|done]. f_equal. by apply (Hf j).
Qed.

(** Memory of a live handle, when its arena block and its heap block are as before. *)
Lemma cell_of_same a h a' h' hd : handle_wf h hd -> zlen (start a) = arena_bytes -> zlen (start a') = arena_bytes ->
  (forall k, 0 <= k < block_count -> data_ptr_ hd = blk k -> zsub (k * block_size) block_size (start a') = zsub (k * block_size) block_size (start a)) ->
  (forall id, data_ptr_ hd = OnHeap id -> blocks h' !! id = blocks h !! id) ->
  cell_of a' h' (Some hd) = cell_of a h (Some hd).
Proof.
  intros Hw Ha Ha' Hb Hh. unfold cell_of. case_bool_decide; [done|].
  unfold handle_wf in Hw. destruct (source_type_ hd).
  - destruct Hw as (_ & E & Ec & Hr). rewrite E, Ec. unfold blk, peek. rewrite Ha, Ha'. case_Z; [|done]. by rewrite Hb.
  - destruct Hw as (_ & id & b & E & El & Ez). rewrite E. cbn. by rewrite Hh.
  - by destruct Hw as (_ & ? & _).
Qed.

Lemma wf_of w fl i hd : arena_inv w fl -> var i w = Some hd -> handle_wf (w_heap w) hd.
Proof. intros I Hv%var_lookup. apply (ai_wf _ _ I), list_elem_of_lookup. eauto. Qed.

(** A live handle shows a buffer of its capacity. *)
Lemma cell_buffer w fl hd : arena_inv w fl -> handle_wf (w_heap w) hd -> data_ptr_ hd <> Null ->
  exists b, cell_of (w_arena w) (w_heap w) (Some hd) = Buf b /\ zlen b = cap_ hd /\
            peek (data_ptr_ hd) (cap_ hd) (w_arena w) (w_heap w) = Ok b.
Proof.
  intros I Hw Hn. unfold cell_of. rewrite bool_decide_false by done. unfold handle_wf in Hw. destruct (source_type_ hd).
  - destruct Hw as (_ & -> & -> & Hr). unfold blk, peek. rewrite (ai_size _ _ I), (proj2 (Z.leb_le _ _)) by arena_lia.
    eexists. split_and!; [done| |done]. rewrite zlen_zsub; [done|arena_lia|arena_lia|]. rewrite (ai_size _ _ I). arena_lia.
  - destruct Hw as (_ & id & b & -> & Hb & Hz). unfold peek. rewrite Hb, <- Hz, (proj2 (Z.leb_le _ _)), ztake_all by lia. eauto.
  - by destruct Hw as (_ & ? & _).
Qed.

Lemma cells_lookup w i hd : var i w = Some hd -> cells w !! i = Some (cell_of (w_arena w) (w_heap w) (Some hd)).
Proof. intros Hv%var_lookup. unfold cells. by rewrite list_lookup_fmap, Hv. Qed.

(** Writing through a handle changes its own bytes and no one else's. *)
Lemma poke_spec i hd o s w fl : arena_inv w fl -> var i w = Some hd -> data_ptr_ hd <> Null -> 0 <= o ->
  o + zlen s <= cap_ hd ->
  exists a h b, poke (data_ptr_ hd) o s (w_arena w) (w_heap w) = Ok (a, h) /\ arena_inv (mk_world a h (w_handles w)) fl /\
    cell_of (w_arena w) (w_heap w) (Some hd) = Buf b /\ o + zlen s <= zlen b /\
    cells (mk_world a h (w_handles w)) = <[i := Buf (blit o s b)]> (cells w).
Proof.
  intros I Hv Hn Ho Hs. pose proof (wf_of _ _ _ _ I Hv) as Hw. pose proof (zlen_nonneg s) as Hs0.
  destruct (cell_buffer w fl hd I Hw Hn) as (b & Hc & Hb & Hp).
  enough (exists a h, poke (data_ptr_ hd) o s (w_arena w) (w_heap w) = Ok (a, h) /\ arena_inv (mk_world a h (w_handles w)) fl /\
    cell_of a h (Some hd) = Buf (blit o s b) /\
    forall j hj, j <> i -> var j w = Some hj -> cell_of a h (Some hj) = cell_of (w_arena w) (w_heap w) (Some hj)) as (a & h & E & I' & Hi & Hf).
  { exists a, h, b. split_and!; [done|done|done|lia|]. unfold cells. cbn [w_arena w_heap w_handles].
    rewrite <- (cells_frame i _ _ _ a h); [|intros j hj Hne Hj; apply (Hf j); [done|by apply var_lookup]].
    symmetry. apply list_insert_id. rewrite list_lookup_fmap, (proj1 (var_lookup _ _ _) Hv). cbn. by f_equal. }
  pose proof (ai_size _ _ I) as La. pose proof Hw as Hw0. unfold handle_wf in Hw. destruct (source_type_ hd); [| |by destruct Hw as (_ & ? & _)].
  - destruct Hw as (_ & E & Ec & Hr). rewrite E, Ec in *. unfold poke, blk. rewrite La, (proj2 (Z.leb_le _ _)) by arena_lia.
    set (a := mk_arena _ _). assert (La' : zlen (start a) = arena_bytes) by (cbn; rewrite zlen_blit; arena_lia).
    assert (F : forall k n, 0 <= k < block_count -> k <> index hd -> 0 <= n <= block_size ->
      zsub (k * block_size) n (start a) = zsub (k * block_size) n (start (w_arena w))).
    { intros k n Hk Hne Hn'. cbn. apply zsub_blit_disjoint; arena_lia. }
    exists a, (w_heap w). split; [done|]. split_and!.
    + destruct (I) as [Hch _ Hpm Hwf Hfr]. split; cbn [w_arena w_heap w_handles]; [|done|done|done|done].
      eapply chain_ext; [|exact Hch]. intros k Hk. pose proof (chain_range _ _ _ Hch) as Hall. rewrite Forall_forall in Hall.
      rewrite !read_next_spec by auto. rewrite F; [done|by apply Hall| |arena_lia].
      intros ->. apply (handle_not_free _ _ _ _ I Hv); rewrite E; [done|]. apply list_elem_of_fmap. eauto.
    + unfold cell_of. rewrite E, Ec, bool_decide_false by done. unfold peek, blk in Hp |- *. rewrite La', (proj2 (Z.leb_le _ _)) by arena_lia.
      rewrite La, (proj2 (Z.leb_le _ _)) in Hp by arena_lia. injection Hp as <-. f_equal. cbn. by apply zsub_blit_inside; arena_lia.
    + intros j hj Hne Hj. apply cell_of_same; [by eapply wf_of|done|done| |done]. intros k Hk Ek. apply F; [done| |arena_lia].
      intros ->. by apply (handles_disjoint _ _ _ _ _ _ I Hj Hv); rewrite ?Ek, ?E.
  - destruct Hw as (_ & id & b' & E & Eb & Ez). rewrite E in *. unfold poke. rewrite Eb, (proj2 (Z.leb_le _ _)) by lia.
    assert (b' = b) as -> by (unfold peek in Hp; rewrite Eb, <- Ez, (proj2 (Z.leb_le _ _)), ztake_all in Hp by lia; congruence).
    assert (Lb : zlen (blit o s b) = zlen b) by (rewrite zlen_blit; lia).
    eexists _, _. split; [done|]. split_and!.
    + destruct I as [Hch Hsz Hpm Hwf Hfr]. split; cbn [w_arena w_heap w_handles blocks next_id]; [done|done| | |].
      * rewrite Hpm. unfold all_blocks. cbn [blocks]. by rewrite dom_insert_lookup_L by eauto.
      * intros x Hx. eapply handle_wf_heap; [|by apply Hwf]. intros id' b' Hb' _. cbn. destruct (decide (id = id')) as [<-|].
        -- rewrite lookup_insert_eq. exists (blit o s b). split; [done|]. congruence.
        -- rewrite lookup_insert_ne by done. eauto.
      * intros id' [<-|[_ Hid]]%lookup_insert_is_Some; apply Hfr; eauto.
    + unfold cell_of. rewrite E, bool_decide_false by done. unfold peek. cbn [blocks]. rewrite lookup_insert_eq.
      rewrite (proj2 (Z.leb_le _ _)), ztake_all by lia. done.
    + intros j hj Hne Hj. apply cell_of_same; [by eapply wf_of|done|done|done|]. intros id' Ek. cbn. apply lookup_insert_ne.
      intros <-. by apply (handles_disjoint _ _ _ _ _ _ I Hj Hv); rewrite ?Ek, ?E.
Qed.

Lemma alloc_cells hd a h w fl fl' : arena_inv w fl -> arena_inv (mk_world a h (w_handles w ++ [Some hd])) fl' ->
  start a = start (w_arena w) -> (forall id b, blocks (w_heap w) !! id = Some b -> blocks h !! id = Some b) ->
  data_ptr_ hd <> Null ->
  exists b, cells (mk_world a h (w_handles w ++ [Some hd])) = cells w ++ [Buf b] /\ zlen b = cap_ hd.
Proof.
  intros I I' Hs Hh Hn.
  assert (Hw : handle_wf h hd) by (apply (ai_wf _ _ I'); apply elem_of_app; right; by left).
  destruct (cell_buffer _ _ hd I' Hw Hn) as (b & Hc & Hz & _). cbn [w_arena w_heap] in Hc. exists b. split; [|done].
  unfold cells. cbn [w_arena w_heap w_handles]. rewrite fmap_app. cbn [fmap list_fmap]. rewrite Hc. f_equal.
  apply list_fmap_ext. intros j [hj|] Hj; [|done]. apply cell_of_same.
  - apply (ai_wf _ _ I), list_elem_of_lookup. eauto.
  - apply I.
  - apply (ai_size _ _ I').
  - intros k _ _. by rewrite Hs.
  - intros id Ep. pose proof (ai_wf _ _ I hj ltac:(apply list_elem_of_lookup; eauto)) as Hwj. unfold handle_wf, blk in Hwj.
    destruct (source_type_ hj); [by destruct Hwj as (_ & ? & _); congruence| |by destruct Hwj as (_ & ? & _); congruence].
    destruct Hwj as (_ & id' & b' & E' & Hb' & _). assert (id' = id) as -> by congruence. rewrite Hb'. by apply Hh.
Qed.

Lemma destroy_cells i hd w fl : arena_inv w fl -> var i w = Some hd ->
  exists a h fl', destroy hd (w_arena w) (w_heap w) = Ok (a, h) /\
    arena_inv (mk_world a h (<[i := None]> (w_handles w))) fl' /\
    forall c, <[i := c]> (cell_of a h <$> w_handles w) = <[i := c]> (cells w).
Proof.
  intros I Hv. destruct (destroy_inv i hd w fl I Hv) as (a & h & fl' & E & I' & Hz & Hb).
  exists a, h, fl'. split; [done|]. split; [done|]. intros c. apply cells_frame. intros j hj Hne Hj%var_lookup.
  apply cell_of_same; [by eapply wf_of|apply I|apply (ai_size _ _ I')| |].
  - intros k Hk Ek. apply Hz; [arena_lia|done|]. rewrite <- Ek.
    apply (handles_disjoint _ _ _ _ _ _ I Hj Hv); [done|]. by rewrite Ek.
  - intros id Ek. apply Hb. rewrite <- Ek. apply (handles_disjoint _ _ _ _ _ _ I Hj Hv); [done|]. by rewrite Ek.
Qed.

Lemma move_assign_destroy dst src a h :
  move_assign dst src a h = let! '(a, h) := destroy dst a h in Ok (src, moved_from, a, h).
Proof.
  unfold move_assign, destroy. destruct dst as [ar p c ix []], src; cbn [source_type_ arena_ data_ptr_ index].
  - rewrite (bool_decide_false (SrcArena = SrcHeap)), (bool_decide_true (SrcArena = SrcArena)) by done. cbn [andb].
    destruct ar; [|done]. by destruct (release ix a).
  - rewrite (bool_decide_false (SrcHeap = SrcArena)), (bool_decide_true (SrcHeap = SrcHeap)) by done. cbn [andb].
    rewrite ok_bind. destruct (negb _); [|done]. by destruct (heap_delete p h).
  - done.
Qed.

Lemma owned_move_ctor hs i hd : hs !! i = Some (Some hd) -> owned (<[i := Some moved_from]> hs ++ [Some hd]) ≡ₚ owned hs.
Proof.
  intros Hi. rewrite owned_snoc. pose proof (owned_insert hs i _ (Some moved_from) Hi) as P.
  cbn [own moved_from data_ptr_] in P. rewrite (bool_decide_true (Null = Null)) in P by done. cbn [app] in P.
  rewrite Permutation_app_comm. exact P.
Qed.

Lemma owned_move_assign hs i j src o : hs !! i = Some o -> hs !! j = Some (Some src) -> i <> j ->
  owned (<[j := Some moved_from]> (<[i := Some src]> hs)) ≡ₚ owned (<[i := None]> hs).
Proof.
  intros Hi Hj Hne.
  pose proof (owned_insert (<[i := Some src]> hs) j (Some src) (Some moved_from) ltac:(by rewrite list_lookup_insert_ne)) as P.
  pose proof (owned_insert (<[i := None]> hs) i None (Some src) ltac:(apply list_lookup_insert_eq; by eapply lookup_lt_Some)) as Q.
  rewrite list_insert_insert_eq in Q. cbn [own moved_from data_ptr_] in P. rewrite (bool_decide_true (Null = Null)) in P by done.
  cbn [app] in P. cbn [own app] in Q. rewrite Q in P. by eapply Permutation_app_inv_l.
Qed.

Lemma move_assign_refines i j dst src w fl : arena_inv w fl -> var i w = Some dst -> var j w = Some src -> i <> j ->
  exists w' fl', arena_step (OpMoveAssign i j) w = Ok w' /\ arena_inv w' fl' /\ buffer_step (OpMoveAssign i j) (cells w) (cells w').
Proof.
  intros I Hi Hj Hne. destruct (destroy_cells i dst w fl I Hi) as (a' & h' & fl' & E & I' & Hc).
  pose proof (proj1 (var_lookup _ _ _) Hi) as Hli. pose proof (proj1 (var_lookup _ _ _) Hj) as Hlj.
  exists (mk_world a' h' (<[j := Some moved_from]> (<[i := Some src]> (w_handles w)))), fl'. split; [|split].
  - destruct w as [a h hs]. cbn [arena_step]. rewrite Hi, Hj, move_assign_destroy. cbn [w_arena w_heap w_handles] in *. by rewrite E.
  - eapply inv_handles; [exact I'|by eapply owned_move_assign|].
    assert (Hsrc : Some src ∈ <[i := None]> (w_handles w))
      by (apply list_elem_of_lookup; exists j; by rewrite list_lookup_insert_ne).
    intros x [Hx|[= ->]]%elem_of_insert_inv; [|apply moved_from_wf].
    apply list_elem_of_lookup in Hx as [k Hk]. apply list_lookup_insert_Some in Hk as [(_ & [= <-] & _)|[Hki Hk]].
    + by apply (ai_wf _ _ I').
    + apply (ai_wf _ _ I'). apply list_elem_of_lookup. exists k. cbn [w_handles]. by rewrite list_lookup_insert_ne.
  - unfold cells at 2. cbn [w_arena w_heap w_handles]. rewrite !list_fmap_insert, Hc.
    replace (cell_of a' h' (Some moved_from)) with Moved by done. constructor; [|done].
    assert (Ej : <[i := Moved]> (cell_of a' h' <$> w_handles w) !! j = Some (cell_of a' h' (Some src)))
      by (rewrite list_lookup_insert_ne, list_lookup_fmap, Hlj by done; done).
    rewrite Hc, list_lookup_insert_ne in Ej by done. done.
Qed.

Lemma arena_step_refines op w fl : arena_inv w fl -> op_ok op w = true ->
  exists w' fl', arena_step op w = Ok w' /\ arena_inv w' fl' /\ buffer_step op (cells w) (cells w').
Proof.
  destruct w as [a h hs] eqn:Ew. rewrite <- Ew. intros I Hop. destruct op as [n|i|i|i j|i o s]; cbn [op_ok] in Hop.
  - apply andb_true_iff in Hop as [Hn%Z.leb_le _].
    destruct (alloc_inv n w fl I Hn) as (hd & a' & h' & fl' & E & I' & Hs & Hh & Hc & Hnn & _).
    destruct (alloc_cells _ _ _ _ _ _ I I' Hs Hh Hnn) as (b & Hb & Hz).
    exists (mk_world a' h' (w_handles w ++ [Some hd])), fl'. rewrite Hb. split; [|split; [done|constructor; lia]].
    subst w. cbn [arena_step w_arena w_heap w_handles] in *. by rewrite E.
  - apply bool_decide_eq_true in Hop as [hd Hv]. destruct (destroy_cells i hd w fl I Hv) as (a' & h' & fl' & E & I' & Hc).
    exists (mk_world a' h' (<[i := None]> (w_handles w))), fl'. split; [|split; [done|]].
    + subst w. cbn [arena_step]. rewrite Hv. cbn [w_arena w_heap w_handles] in *. by rewrite E.
    + unfold cells at 2. cbn [w_arena w_heap w_handles]. rewrite list_fmap_insert, Hc. constructor.
  - apply bool_decide_eq_true in Hop as [hd Hv]. pose proof (proj1 (var_lookup _ _ _) Hv) as Hl.
    exists (mk_world a h (<[i := Some moved_from]> (w_handles w) ++ [Some hd])), fl. split; [|split].
    + subst w. cbn [arena_step]. rewrite Hv. cbn. by destruct hd.
    + subst w. eapply inv_handles; [exact I|by apply owned_move_ctor|].
      intros x [[Hx|[= ->]]%elem_of_insert_inv|[= ->]]%elem_of_snoc_inv; [by apply I|apply moved_from_wf|by eapply wf_of in Hv].
    + unfold cells at 2. cbn [w_arena w_heap w_handles]. rewrite fmap_app, list_fmap_insert.
      replace (cell_of a h <$> w_handles w) with (cells w) by (by subst w). cbn [fmap list_fmap].
      replace (cell_of a h (Some moved_from)) with Moved by done. constructor. rewrite (cells_lookup w i hd Hv). by subst w.
  - apply andb_true_iff in Hop as [Hop [src Hj]%bool_decide_eq_true]. apply andb_true_iff in Hop as [Hne [dst Hi]%bool_decide_eq_true].
    apply negb_true_iff, Nat.eqb_neq in Hne. by eapply move_assign_refines.
  - destruct (var i w) as [hd|] eqn:Hv; [|done]. apply andb_true_iff in Hop as [Hop Hn]. apply andb_true_iff in Hop as [Ho%Z.leb_le Hs%Z.leb_le].
    apply negb_true_iff, bool_decide_eq_false in Hn.
    destruct (poke_spec i hd o s w fl I Hv Hn Ho Hs) as (a' & h' & b & E & I' & Hb & Hz & Hc).
    exists (mk_world a' h' (w_handles w)), fl. rewrite Hc. split; [|split; [done|]].
    + subst w. cbn [arena_step]. rewrite Hv. cbn [w_arena w_heap w_handles] in *. by rewrite E.
    + constructor; [|done|done]. by rewrite (cells_lookup w i hd Hv), Hb.
Qed.

Lemma alive_spec w fl i : arena_inv w fl -> bool_decide (is_Some (var i w)) = alive (cells w !! i).
Proof.
  intros I. unfold cells. rewrite list_lookup_fmap. unfold var. destruct (w_handles w !! i) as [[hd|]|] eqn:E; [|done|done].
  rewrite bool_decide_true by (cbn; eauto). cbn [fmap option_fmap option_map].
  destruct (decide (data_ptr_ hd = Null)) as [Hn|Hn]; [unfold cell_of; by rewrite bool_decide_true|].
  destruct (cell_buffer w fl hd I) as (b & -> & _); [|done|done]. by eapply wf_of, var_lookup.
Qed.

(** The program may do the same things with handles as with buffers. *)
Lemma op_ok_spec op w fl : arena_inv w fl -> op_ok op w = buffer_ok op (cells w).
Proof.
  intros I. destruct op as [n|i|i|i j|i o s]; cbn [op_ok buffer_ok]; [done|by eapply alive_spec..|by rewrite !(alive_spec w fl)|].
  unfold cells. rewrite list_lookup_fmap. unfold var. destruct (w_handles w !! i) as [[hd|]|] eqn:E; [|done|done].
  cbn [mjoin option_join fmap option_fmap option_map]. destruct (decide (data_ptr_ hd = Null)) as [Hn|Hn].
  - unfold cell_of. by rewrite bool_decide_true, andb_false_r.
  - destruct (cell_buffer w fl hd I) as (b & -> & -> & _); [by eapply wf_of, var_lookup|done|].
    rewrite bool_decide_false by done. by rewrite andb_true_r.
Qed.

Lemma arena_run_refines ops w fl : arena_inv w fl ->
  exists w' fl', arena_run ops w = Ok w' /\ arena_inv w' fl' /\ buffer_run ops (cells w) (cells w').
Proof.
  revert w fl. induction ops as [|op ops IH]; intros w fl I; cbn [arena_run].
  - exists w, fl. split_and!; [done|done|constructor].
  - pose proof (op_ok_spec op w fl I) as Eop. destruct (op_ok op w) eqn:Hop.
    + destruct (arena_step_refines op w fl I Hop) as (w1 & fl1 & -> & I1 & B1). rewrite ok_bind.
      destruct (IH w1 fl1 I1) as (w2 & fl2 & -> & I2 & B2). exists w2, fl2. split_and!; [done|done|by eapply br_step].
    + destruct (IH w fl I) as (w2 & fl2 & -> & I2 & B2). exists w2, fl2. split_and!; [done|done|by eapply br_skip].
Qed.

Lemma world_refines init ops : zlen init = arena_bytes ->
  exists w0 w fl, world_new init = Ok w0 /\ arena_run ops w0 = Ok w /\ arena_inv w fl /\ buffer_run ops [] (cells w).
Proof.
  intros Hl. destruct (world_new_inv init Hl) as (w0 & -> & I0 & Hh).
  destruct (arena_run_refines ops w0 _ I0) as (w & fl & E & I & B). exists w0, w, fl. split_and!; [done|done|done|].
  unfold cells in B at 1. by rewrite Hh in B.
Qed.

(** C31: handles on arena and heap memory behave as independent buffers.  Whatever the memory
    of a new arena holds, any program that allocates, moves, assigns, destroys handles and
    writes through them within their capacity runs without a fault (no double free, no access
    outside a block), and every handle shows the bytes that were written through it or moved
    into it, never those of another handle, of the free list or of a block given back. *)
Theorem arena_refines_buffers init ops : zlen init = arena_bytes ->
  exists w0 w, world_new init = Ok w0 /\ arena_run ops w0 = Ok w /\ buffer_run ops [] (cells w).
Proof. intros Hl. destruct (world_refines init ops Hl) as (w0 & w & fl & E & R & _ & Hb). eauto. Qed.

Definition arena_init : bytes := replicate (Z.to_nat arena_bytes) xff.
Definition arena_demo : list arena_op :=
  [OpAlloc 5; OpWrite 0 0 (B "8=FIX"); OpAlloc 9000; OpAlloc 3; OpWrite 2 0 (B "abc"); OpDestroy 0; OpMoveAssign 1 2; OpAlloc 1].

Example arena_refines_buffers_witness :
  exists w0 w, world_new arena_init = Ok w0 /\ arena_run arena_demo w0 = Ok w /\ buffer_run arena_demo [] (cells w).
Proof. apply (arena_refines_buffers arena_init arena_demo). apply zlen_replicate. Defined.

(** ** Which memory an allocation uses *)

Definition in_arena (p : Ptr) : bool := match p with InArena _ => true | _ => false end.
(** Arena blocks held by live handles. *)
Definition blocks_in_use (w : World) : Z := zlen (filter in_arena (owned (w_handles w))).

Lemma filter_map_all {A C} (P : C -> bool) (f : A -> C) l b : (forall x, P (f x) = b) ->
  filter P (f <$> l) = if b then f <$> l else [].
Proof.
  intros H. induction l as [|x l IH]; [by destruct b|]. rewrite fmap_cons, filter_cons.
  rewrite IH. specialize (H x). destruct (P (f x)), b; try done; by case_decide.
Qed.

Lemma blocks_accounted w fl : arena_inv w fl -> zlen fl + blocks_in_use w = block_count.
Proof.
  intros I. pose proof (f_equal Z.of_nat (Permutation_length (filter_Permutation in_arena _ _ (ai_perm _ _ I)))) as P.
  unfold all_blocks in P. rewrite !filter_app, !length_app in P.
  rewrite !(filter_map_all in_arena blk _ true), (filter_map_all in_arena OnHeap _ false), !length_fmap, length_seqZ in P by done.
  unfold blocks_in_use, zlen. cbn in P |- *. unfold block_count in *. lia.
Qed.

(** An allocation always succeeds, with at least the capacity asked for; it takes an
    arena block exactly when the request fits in 8 KiB and fewer than 16 blocks are held by
    live handles (so every block is available again once its handle is gone), and heap memory
    of exactly the requested size otherwise. *)
Lemma arena_allocate_choice init ops n w0 w : zlen init = arena_bytes -> 0 <= n ->
  world_new init = Ok w0 -> arena_run ops w0 = Ok w ->
  exists hd a h, allocate n (w_arena w) (w_heap w) = Ok (hd, a, h) /\
    n <= cap_ hd /\
    source_type_ hd = (if (n <=? block_size) && (blocks_in_use w <? block_count) then SrcArena else SrcHeap) /\
    cap_ hd = (if (n <=? block_size) && (blocks_in_use w <? block_count) then block_size else n).
Proof.
  intros Hl Hn E0 Er. destruct (world_refines init ops Hl) as (w0' & w' & fl & E0' & Er' & I & _).
  rewrite E0 in E0'. injection E0' as <-. rewrite Er in Er'. injection Er' as <-.
  destruct (alloc_inv n w fl I Hn) as (hd & a & h & fl' & E & I' & _ & _ & Hc & _ & Hsrc & _).
  pose proof (blocks_accounted w fl I) as Hb.
  assert (Ec : (0 <? zlen fl) = (blocks_in_use w <? block_count)) by (apply eq_true_iff_eq; rewrite !Z.ltb_lt; lia).
  rewrite Ec in Hsrc. exists hd, a, h. split_and!; [done|done|done|].
  unfold allocate in E. rewrite <- Ec. pose proof (ai_chain _ _ I) as Hch.
  destruct ((n <=? block_size) && (0 <? zlen fl)) eqn:En; rewrite <- Ec, En in Hsrc;
    (destruct ((block_size <? n) || (free_index (w_arena w) =? end_)); [by injection E as <- <- <-|]);
    apply bind_ok in E as ([hd' a'] & Ea & [= <- <- <-]); unfold allocate_arena in Ea;
    apply bind_ok in Ea as (m & _ & [= <- <-]); done.
Qed.

Lemma arena_init_size : zlen arena_init = arena_bytes.
Proof. apply zlen_replicate. Qed.

Example arena_allocate_choice_witness : exists w0 w hd a h,
  world_new arena_init = Ok w0 /\ arena_run arena_demo w0 = Ok w /\
  allocate 100 (w_arena w) (w_heap w) = Ok (hd, a, h) /\ 100 <= cap_ hd.
Proof.
  destruct (world_refines arena_init arena_demo arena_init_size) as (w0 & w & fl & E0 & E1 & _).
  destruct (arena_allocate_choice arena_init arena_demo 100 w0 w arena_init_size ltac:(lia) E0 E1) as (hd & a & h & E & Hc & _).
  exists w0, w, hd, a, h. split_and!; assumption.
Defined.

(** ** Queued messages *)

(** The operations that use variable [i]. *)
Definition touches (i : nat) (op : arena_op) : bool :=
  match op with
  | OpAlloc _ => false
  | OpDestroy j | OpMoveCtor j | OpWrite j _ _ => Nat.eqb i j
  | OpMoveAssign j k => Nat.eqb i j || Nat.eqb i k
  end.

Lemma buffer_step_frame i op cs cs' c : touches i op = false -> cs !! i = Some c -> buffer_step op cs cs' -> cs' !! i = Some c.
Proof.
  intros Ht Hi Hb. pose proof (lookup_lt_Some _ _ _ Hi).
  destruct Hb as [n b cs Hn|j cs|j c' cs Hj|j k c' cs Hk Hne|j o s b cs Hj Ho Hs]; cbn in Ht;
    rewrite ?orb_false_iff, ?Nat.eqb_neq in Ht.
  - by rewrite lookup_app_l.
  - by rewrite list_lookup_insert_ne.
  - rewrite lookup_app_l by (by rewrite length_insert). by rewrite list_lookup_insert_ne.
  - destruct Ht. by rewrite !list_lookup_insert_ne.
  - by rewrite list_lookup_insert_ne.
Qed.

Lemma buffer_run_frame i ops cs cs' c : forallb (fun op => negb (touches i op)) ops = true ->
  cs !! i = Some c -> buffer_run ops cs cs' -> cs' !! i = Some c.
Proof.
  intros Ht Hi Hr. induction Hr as [|op ops cs cs' cs'' _ Hs Hr IH|op ops cs cs' _ Hr IH]; [done| |];
    cbn in Ht; apply andb_true_iff in Ht as [Ht1%negb_true_iff Ht2]; apply IH; try done.
  by eapply buffer_step_frame.
Qed.

Lemma from_arena_spec msg w fl : arena_inv w fl -> zlen msg < 2 ^ 64 ->
  exists wr a h fl' b, from_arena msg (w_arena w) (w_heap w) = Ok (wr, a, h) /\ size_ wr = zlen msg /\
    arena_inv (mk_world a h (w_handles w ++ [Some (handle_ wr)])) fl' /\ data_ptr_ (handle_ wr) <> Null /\
    cells (mk_world a h (w_handles w ++ [Some (handle_ wr)])) !! length (w_handles w) = Some (Buf b) /\ ztake (zlen msg) b = msg.
Proof.
  intros I Hm. pose proof (zlen_nonneg msg).
  destruct (alloc_inv (zlen msg) w fl I ltac:(lia)) as (hd & a & h & fl1 & E & I1 & Hs & Hh & Hc & Hn & _).
  assert (Hv : var (length (w_handles w)) (mk_world a h (w_handles w ++ [Some hd])) = Some hd)
    by (apply var_lookup; cbn; by apply list_lookup_middle).
  destruct (poke_spec _ hd 0 msg _ fl1 I1 Hv Hn ltac:(lia) ltac:(lia)) as (a2 & h2 & b & Ep & I2 & Hb & Hz & Hcs).
  cbn [w_arena w_heap w_handles] in *. unfold from_arena. rewrite E. cbn [mbind res_bind]. unfold append, writer_new.
  replace (move_ctor hd).1 with hd by (by destruct hd). cbn [handle_ size_]. rewrite Ep. cbn [mbind res_bind].
  rewrite u64_small by lia. eexists _, a2, h2, fl1, (blit 0 msg b). split; [done|]. cbn [size_ handle_].
  split_and!; [done|done|done| |].
  - rewrite Hcs. apply list_lookup_insert_eq. unfold cells. rewrite length_fmap. cbn [w_handles]. rewrite length_app. cbn. lia.
  - pose proof (blit_app 0 msg b ltac:(pose proof (zlen_nonneg b); lia)) as E2. by rewrite Z.add_0_l in E2.
Qed.

(** A variable that a run does not touch keeps its handle. *)
Lemma arena_run_var i ops w w' o : arena_run ops w = Ok w' -> forallb (fun op => negb (touches i op)) ops = true ->
  w_handles w !! i = Some o -> w_handles w' !! i = Some o.
Proof.
  revert w. induction ops as [|op ops IH]; intros w; cbn [arena_run forallb]; [by intros [= ->]|].
  intros E [Ht1%negb_true_iff Ht2]%andb_true_iff Hi. destruct (op_ok op w); [|by eapply IH].
  apply bind_ok in E as (w1 & E1 & E). eapply IH; [exact E|done|]. clear E IH. pose proof (lookup_lt_Some _ _ _ Hi) as Hlt.
  destruct w as [a h hs]. cbn [w_handles] in *.
  destruct op as [n|j|j|j k|j q s]; cbn [arena_step touches] in *; rewrite ?orb_false_iff, ?Nat.eqb_neq in Ht1.
  - apply bind_ok in E1 as ([[hd a1] h1] & _ & [= <-]). cbn. by rewrite lookup_app_l.
  - destruct (var j _); [|done]. apply bind_ok in E1 as ([a1 h1] & _ & [= <-]). cbn. by rewrite list_lookup_insert_ne.
  - destruct (var j _); [|done]. injection E1 as <-. cbn. rewrite lookup_app_l by (by rewrite length_insert). by rewrite list_lookup_insert_ne.
  - destruct (var j _); [|done]. destruct (var k _); [|done]. apply bind_ok in E1 as ([[[d s] a2] h2] & _ & [= <-]). cbn.
    destruct Ht1. by rewrite !list_lookup_insert_ne.
  - destruct (var j _); [|done]. apply bind_ok in E1 as ([a1 h1] & _ & [= <-]). done.
Qed.

(** A message copied into a [WireWriter] is kept intact while the writer lives.  From any
    state a program can reach, [from_arena] succeeds and the writer shows the message; after any
    further operations on other handles (allocations, moves, destructions, writes), it still
    shows the message byte for byte. *)
Lemma wire_writer_keeps_message init ops1 ops2 msg w0 w : zlen init = arena_bytes -> zlen msg < 2 ^ 64 ->
  world_new init = Ok w0 -> arena_run ops1 w0 = Ok w ->
  forallb (fun op => negb (touches (length (w_handles w)) op)) ops2 = true ->
  exists wr a h, from_arena msg (w_arena w) (w_heap w) = Ok (wr, a, h) /\ view wr a h = Ok msg /\
    exists w2, arena_run ops2 (mk_world a h (w_handles w ++ [Some (handle_ wr)])) = Ok w2 /\
      view wr (w_arena w2) (w_heap w2) = Ok msg.
Proof.
  intros Hl Hm E0 Er Ht. destruct (world_refines init ops1 Hl) as (w0' & w' & fl & E0' & Er' & I & _).
  rewrite E0 in E0'. injection E0' as <-. rewrite Er in Er'. injection Er' as <-.
  destruct (from_arena_spec msg w fl I Hm) as (wr & a & h & fl1 & b & E & Hsz & I1 & Hn & Hc & Hb).
  assert (V : forall w3 fl3, arena_inv w3 fl3 -> w_handles w3 !! length (w_handles w) = Some (Some (handle_ wr)) ->
    cells w3 !! length (w_handles w) = Some (Buf b) -> view wr (w_arena w3) (w_heap w3) = Ok msg).
  { intros w3 fl3 I3 Hv%var_lookup Hc3. rewrite (cells_lookup _ _ _ Hv) in Hc3.
    destruct (cell_buffer w3 fl3 _ I3 (wf_of _ _ _ _ I3 Hv) Hn) as (b' & Hc' & Hz & Hp). rewrite Hc' in Hc3. injection Hc3 as ->.
    assert (Hle : zlen msg <= zlen b).
    { rewrite <- Hb. unfold ztake, zlen. rewrite length_take. lia. }
    unfold view. rewrite Hsz. destruct (data_ptr_ (handle_ wr)) as [|q|id]; [done|..]; unfold peek in Hp |- *.
    - case_Z_in Hp; [|done]. rewrite (proj2 (Z.leb_le _ _)) by lia. injection Hp as Hp. f_equal. etransitivity; [|exact Hb]. rewrite <- Hp.
      unfold zsub. by rewrite ztake_ztake by lia.
    - destruct (blocks (w_heap w3) !! id) as [blk'|]; [|done]. case_Z_in Hp; [|done]. rewrite (proj2 (Z.leb_le _ _)) by lia.
      injection Hp as Hp. f_equal. etransitivity; [|exact Hb]. rewrite <- Hp. by rewrite ztake_ztake by lia. }
  exists wr, a, h. split; [done|]. split.
  { apply (V _ _ I1); [cbn; by apply list_lookup_middle|done]. }
  destruct (arena_run_refines ops2 _ _ I1) as (w2 & fl2 & E2 & I2 & B2). exists w2. split; [done|].
  apply (V _ _ I2); [|by eapply buffer_run_frame].
  eapply arena_run_var; [exact E2|exact Ht|]. cbn. by apply list_lookup_middle.
Qed.

Example wire_writer_keeps_message_witness : exists w0 w wr a h w2,
  world_new arena_init = Ok w0 /\ arena_run arena_demo w0 = Ok w /\
  from_arena (B "8=FIX.4.4") (w_arena w) (w_heap w) = Ok (wr, a, h) /\
  arena_run [OpAlloc 7; OpDestroy 1; OpAlloc 20] (mk_world a h (w_handles w ++ [Some (handle_ wr)])) = Ok w2 /\
  view wr (w_arena w2) (w_heap w2) = Ok (B "8=FIX.4.4").
Proof.
  destruct (world_refines arena_init arena_demo arena_init_size) as (w0 & w & fl & E0 & E1 & _).
  destruct (wire_writer_keeps_message arena_init arena_demo [OpAlloc 7; OpDestroy 1; OpAlloc 20] (B "8=FIX.4.4") w0 w
    arena_init_size eq_refl E0 E1) as (wr & a & h & E & _ & w2 & E2 & V).
  - assert (L : exists n, length (w_handles w) = S (S n)).
    { assert (X : (let! w := world_new arena_init in let! w := arena_run arena_demo w in Ok (length (w_handles w))) = Ok 4%nat)
        by (vm_compute; reflexivity).
      rewrite E0, ok_bind, E1, ok_bind in X. injection X as ->. eauto. }
    destruct L as [n ->]. reflexivity.
  - exists w0, w, wr, a, h, w2. split_and!; assumption.
Defined.
