(* ===== verification/Network.v ===== *)
(** [Fix::Error] (include/fix/error/Network.hpp): which network errors are retried.

    [boost::system::error_code] is a number with a category; the constructors are the codes the
    engine names, [other_error] any other. *)
From S2P Require Import Prelude.

Inductive error_code : Set :=
  | success
  | operation_aborted | eof | would_block | try_again | timed_out
  | not_connected | connection_reset | connection_aborted | broken_pipe | network_down
  | network_unreachable | host_unreachable | bad_descriptor | connection_refused
  | address_family_not_supported | already_connected | invalid_argument
  | host_not_found_try_again | host_not_found | service_not_found | no_recovery
  | too_many_files_open | too_many_files_open_in_system | address_in_use | no_buffer_space
  | other_error (n : Z).
#[export] Instance error_code_eq_dec : EqDecision error_code.
Proof. solve_decision. Defined.

Inductive RetryClass : Set := Permanent | Transient | Canceled.
#[export] Instance retry_class_eq_dec : EqDecision RetryClass.
Proof. solve_decision. Defined.

Definition one_of (ec : error_code) (l : list error_code) : bool := bool_decide (ec ∈ l).

Definition classify_resolve_error (ec : error_code) : RetryClass :=
  if one_of ec [operation_aborted] then Canceled
  else if one_of ec [host_not_found_try_again] then Transient
  else if one_of ec [host_not_found; service_not_found; no_recovery; invalid_argument] then Permanent
  else Transient.

Definition classify_connect_error (ec : error_code) : RetryClass :=
  if one_of ec [operation_aborted] then Canceled
  else if one_of ec [connection_refused; timed_out; network_unreachable; host_unreachable; connection_reset] then Transient
  else if one_of ec [address_family_not_supported; already_connected; invalid_argument] then Permanent
  else Transient.

Definition classify_readwrite_error (ec : error_code) : RetryClass :=
  if one_of ec [operation_aborted; eof] then Canceled
  else if one_of ec [would_block; try_again; timed_out] then Transient
  else if one_of ec [not_connected; connection_reset; connection_aborted; broken_pipe; network_down;
                 network_unreachable; host_unreachable; bad_descriptor] then Permanent
  else Transient.
