(* ===== verification/Session.v ===== *)
(** [Fix::Session] (include/fix/core/Session.hpp, src/Session.cpp): the FIX session.

    A session runs on a strand: its members change only inside one handler at a time, so a
    handler is a function on the session's state and an execution is a sequence of events
    (user calls, completions of reads and writes, timers).  [boost::asio::dispatch] on the
    session's own strand runs its argument at once, so [stop], [stop_with_logout] and the like
    are called in line by the handlers.

    What a handler does to the outside (log entries, writes and reads started on the
    connection, timers, callbacks) is appended to [effects_].  A message in the write queue is
    kept by value: [Arena.v] shows that a [WireWriter] holds its message unchanged.  The
    parser context is filled afresh by every parse, so it is not kept. *)
From Stdlib Require Import Strings.Byte.
From S2P Require Import Prelude.
From S2P Require Import Text.
From S2P Require Import Network.
From S2P Require Import Message.
From S2P Require Import Parser.
From S2P Require Import Schema.
From S2P Require Import Framer.
From S2P Require Import MessageStore.
From S2P Require Import RecoveryCache.
From S2P Require Import Validator.
From S2P Require Import Factory.

Inductive SessionState : Set :=
  | AWAITING_LOGON | AWAITING_LOGOUT | LOGON_RECEIVED | LOGON_SENT | RECOVERING_RESEND | ACTIVE | DISCONNECTED.
#[export] Instance session_state_eq_dec : EqDecision SessionState.
Proof. solve_decision. Defined.

Definition to_string (st : SessionState) : bytes :=
  match st with
  | AWAITING_LOGON => B "AWAITING_LOGON"
  | AWAITING_LOGOUT => B "AWAITING_LOGOUT"
  | LOGON_RECEIVED => B "LOGON_RECEIVED"
  | LOGON_SENT => B "LOGON_SENT"
  | RECOVERING_RESEND => B "RECOVERING_RESEND"
  | ACTIVE => B "ACTIVE"
  | DISCONNECTED => B "DISCONNECTED"
  end.

Inductive StartMode : Set := NORMAL | RECONNECT.
Inductive Role : Set := INITIATOR | ACCEPTOR.
#[export] Instance role_eq_dec : EqDecision Role.
Proof. solve_decision. Defined.

Record SessionID : Set := mk_session_id { storage_index : Z; id : Z }.

(** ** Effects *)

Inductive Layer : Set := LTransport | LFix | LApp | LPeripheral.
Inductive Category : Set := CDebug | CInfo | CWarn | CError.
Record Context : Set := mk_log_context { ctx_layer : Layer; ctx_category : Category; ctx_severity : Severity }.
Definition fix_info : Context := mk_log_context LFix CInfo NA.
Definition fix_warn : Context := mk_log_context LFix CWarn Moderate.
Definition fix_error : Context := mk_log_context LFix CError High.

Inductive Timer : Set := LogonTimer | InboundTimer | HeartbeatTimer | LogoutTimer.
#[export] Instance timer_eq_dec : EqDecision Timer.
Proof. solve_decision. Defined.

(** A connection is named by a number.  [ELog] has the text of the entry and the error code
    whose message follows it.  [EHandled] marks that a message in sequence is passed to the
    code for its type; it is not an action of the program. *)
Inductive Effect : Set :=
  | ELog (ctx : Context) (text : bytes) (ec : option error_code)
  | EArm (t : Timer) (seconds : Z)
  | ECancel (t : Timer)
  | ERead (conn : Z)
  | EWrite (conn : Z) (data : bytes)
  | EClose (conn : Z)
  | EReconnect (session : SessionID)
  | EHandled (m : ValidMessage)
  | EAppSink (m : ValidMessage) (session : SessionID).

(** ** State *)

Record PendingWrite : Set := mk_pending { data : bytes; sent : Z }.

Record Session : Type := mk_session {
  recovery_cache_ : RecoveryCache;
  params_ : SessionParameters;
  write_q_ : list PendingWrite;
  conn_ : option Z;
  framer_ : Framer;
  id_ : SessionID;
  store_ : MessageStore;
  state_ : SessionState;
  msg_factory_ : MessageFactory;
  validator_ : Validator;
  test_req_id_ : Z;
  stopped_ : bool;
  write_inflight_ : bool;
  awaiting_test_request_response_ : bool;
  reconnecting_ : bool;
  role_ : Role;
  effects_ : list Effect
}.

Definition eta_session (s : Session) : Session :=
  mk_session (recovery_cache_ s) (params_ s) (write_q_ s) (conn_ s) (framer_ s) (id_ s) (store_ s) (state_ s)
    (msg_factory_ s) (validator_ s) (test_req_id_ s) (stopped_ s) (write_inflight_ s)
    (awaiting_test_request_response_ s) (reconnecting_ s) (role_ s) (effects_ s).
Definition eta_params (p : SessionParameters) : SessionParameters :=
  mk_params (no_resend_messages_types p) (fix_version p) (sender_comp_id p) (target_comp_id p) (heart_beat_int p)
    (encrypt_method p) (initiator_reset_on_logon p) (acceptor_reset_on_logon p).
#[export] Hint Extern 1 (@Updater Session _ _) => derive_updater eta_session : typeclass_instances.
#[export] Hint Extern 1 (@Updater SessionParameters _ _) => derive_updater eta_params : typeclass_instances.

Definition session_new (id : SessionID) (role : Role) (params : SessionParameters) : Session :=
  mk_session recovery_cache_new params [] None framer_new id message_store_new DISCONNECTED factory_new
    validator_new 0 false false false false role [].

Definition emit (e : Effect) (s : Session) : Session := s <| effects_ := effects_ s ++ [e] |>.
Definition log (ctx : Context) (text : bytes) (s : Session) : Session := emit (ELog ctx text None) s.
Definition seqs (s : Session) : SeqProvider := seq_provider_ (msg_factory_ s).
Definition set_seqs (p : SeqProvider) (s : Session) : Session :=
  s <| msg_factory_ := mk_factory (scratch_ (msg_factory_ s)) p |>.

Definition logon_response_timeout : Z := 10.
Definition logout_response_timeout : Z := 30.
Definition cancel_timers (s : Session) : Session :=
  emit (ECancel LogoutTimer) (emit (ECancel HeartbeatTimer) (emit (ECancel InboundTimer) (emit (ECancel LogonTimer) s))).

(** ** Stopping, reading and writing *)

Definition close_conn (s : Session) : Session :=
  match conn_ s with Some c => emit (EClose c) s | None => s end.

Definition stop_ (s : Session) : Session :=
  if stopped_ s then s
  else
    let s := s <| state_ := DISCONNECTED |> in
    let s := log fix_info (B "Session stopping") s in
    match conn_ s with
    | None => s <| stopped_ := true |> <| write_inflight_ := false |> <| write_q_ := [] |>
    | Some _ =>
        let s := s <| stopped_ := true |> in
        let s := cancel_timers s in
        let s := close_conn s in
        s <| write_inflight_ := false |> <| write_q_ := [] |>
    end.
Definition stop := stop_.

Definition do_read (s : Session) : Res Session :=
  if stopped_ s then Ok s
  else match conn_ s with None => Err NullDeref | Some c => Ok (emit (ERead c) s) end.

Definition do_write (s : Session) : Res Session :=
  match write_q_ s with
  | [] => Ok (s <| write_inflight_ := false |>)
  | front :: _ =>
      if stopped_ s then Ok s
      else match conn_ s with
           | None => Err NullDeref
           | Some c => Ok (emit (EWrite c (zdrop (sent front) (data front))) s)
           end
  end.

Definition send_bytes_ (wire : bytes) (s : Session) : Res Session :=
  let s := s <| write_q_ := write_q_ s ++ [mk_pending wire 0] |> in
  if write_inflight_ s then Ok s else do_write (s <| write_inflight_ := true |>).

Definition schedule_heartbeat_ (s : Session) : Session :=
  emit (EArm HeartbeatTimer (heart_beat_int (params_ s))) (emit (ECancel HeartbeatTimer) s).
Definition schedule_test_request_timeout_ (s : Session) : Session :=
  emit (EArm InboundTimer (heart_beat_int (params_ s))) (emit (ECancel InboundTimer) s).
Definition schedule_logon_timeout_ (s : Session) : Session := emit (EArm LogonTimer logon_response_timeout) s.

Definition established (st : SessionState) : bool :=
  bool_decide (st = ACTIVE) || bool_decide (st = RECOVERING_RESEND).

Definition send_message_ (msg_wire : bytes) (is_resend : bool) (s : Session) : Res Session :=
  if stopped_ s then Ok s
  else
    let! s := send_bytes_ msg_wire s in
    let! s := (if is_resend then Ok s
               else let! st := store_outbound_message msg_wire (store_ s) in Ok (s <| store_ := st |>)) in
    Ok (if established (state_ s) then schedule_heartbeat_ s else s).

(** ** Sends *)

(** [auto wire = msg_factory_.xxx(...); send_message_(wire)]. *)
Definition send_built (b : MessageFactory -> bytes * MessageFactory) (is_resend : bool) (s : Session) : Res Session :=
  let '(wire, f) := b (msg_factory_ s) in
  send_message_ wire is_resend (s <| msg_factory_ := f |>).

(** The interval is a [uint32_t] and the parameter of [logon] an [int]. *)
Definition send_logon (reset_seq_nums : bool) (s : Session) : Res Session :=
  send_built (logon clock (params_ s) (i32 (heart_beat_int (params_ s))) reset_seq_nums) false s.
Definition send_reject (ref_seq_num reason tag : Z) (text : bytes) (s : Session) : Res Session :=
  send_built (reject clock (params_ s) ref_seq_num reason tag text) false s.
Definition send_logout (reason : bytes) (s : Session) : Res Session :=
  send_built (logout clock (params_ s) reason) false s.
Definition send_heartbeat (testReqId : bytes) (s : Session) : Res Session :=
  send_built (heart_beat clock (params_ s) testReqId) false s.
Definition send_test_request (testReqId : bytes) (s : Session) : Res Session :=
  send_built (test_request clock (params_ s) testReqId) false s.
Definition send_resend_request (beginSeqNo endSeqNo : Z) (s : Session) : Res Session :=
  send_built (resend_request clock (params_ s) beginSeqNo endSeqNo) false s.
Definition send_custom (payload : bytes) (s : Session) : Res Session :=
  send_built (custom_message clock (params_ s) payload) false s.
Definition send_sequence_reset (newSeqNo : Z) (gapfill : bool) (s : Session) : Res Session :=
  send_built (sequence_reset clock (params_ s) newSeqNo gapfill) false s.
Definition send_sequence_reset_gap_fill (msgSeqNum newSeqNo : Z) (s : Session) : Res Session :=
  send_built (sequence_reset_gap_fill clock (params_ s) msgSeqNum newSeqNo) true s.

Definition send_from_app (message : GenericMessage) (msg_type : MsgType) (s : Session) : Res Session :=
  if stopped_ s then Ok s else send_built (from_app clock (params_ s) message msg_type) false s.

Definition stop_with_logout (reason : bytes) (s : Session) : Res Session :=
  if stopped_ s then Ok s
  else
    let! s := send_logout reason s in
    let s := log fix_info reason s in
    let s := s <| state_ := AWAITING_LOGOUT |> in
    Ok (emit (EArm LogoutTimer logout_response_timeout) s).

(** ** Life cycle *)

Definition start_normal_ (s : Session) : Res Session :=
  let s := log fix_info (B "Session started") s in
  match conn_ s with
  | None => Ok (log fix_error (B "Cannot start session without a transport connection") s)
  | Some _ =>
      let! s := do_read s in
      match role_ s with
      | INITIATOR =>
          let s := if initiator_reset_on_logon (params_ s) then set_seqs (seq_reset (seqs s)) s else s in
          let! s := send_logon (initiator_reset_on_logon (params_ s)) s in
          let s := log fix_info (B "Logon sent") s in
          let s := s <| state_ := LOGON_SENT |> in
          Ok (schedule_logon_timeout_ s)
      | ACCEPTOR =>
          let s := s <| state_ := AWAITING_LOGON |> in
          Ok (schedule_logon_timeout_ s)
      end
  end.

Definition start_after_reconnect_ (s : Session) : Res Session :=
  let s := log fix_info (B "Session reconnecting") s in
  match conn_ s with
  | None => Ok (log fix_info (B "Reconnect start called without connection") s)
  | Some _ =>
      if stopped_ s then Ok (log fix_info (B "Reconnect ignored: session is stopped") s)
      else
        let s := s <| awaiting_test_request_response_ := false |> <| reconnecting_ := false |> <| test_req_id_ := 0 |> in
        let s := s <| write_q_ := [] |> <| write_inflight_ := false |> in
        let s := s <| recovery_cache_ := RecoveryCache.clear (recovery_cache_ s) |> in
        let s := s <| framer_ := Framer.reset (framer_ s) |> in
        let! s := match role_ s with
                  | INITIATOR =>
                      let! s := send_logon false s in
                      let s := s <| state_ := LOGON_SENT |> in
                      Ok (schedule_logon_timeout_ s)
                  | ACCEPTOR =>
                      let s := s <| state_ := AWAITING_LOGON |> in
                      Ok (schedule_logon_timeout_ s)
                  end in
        do_read s
  end.

Definition start (mode : StartMode) (s : Session) : Res Session :=
  match mode with NORMAL => start_normal_ s | RECONNECT => start_after_reconnect_ s end.

Definition on_transport_down_ (s : Session) : Session :=
  if bool_decide (state_ s = DISCONNECTED) || stopped_ s then s
  else if reconnecting_ s then s
  else
    let s := s <| reconnecting_ := true |> in
    let s := emit (ELog (mk_log_context LTransport CInfo NA) (B "Transport connection lost") None) s in
    let s := (close_conn s) <| conn_ := None |> in
    let s := cancel_timers s in
    let s := s <| state_ := DISCONNECTED |> <| write_inflight_ := false |> <| write_q_ := [] |> in
    let s := s <| recovery_cache_ := RecoveryCache.clear (recovery_cache_ s) |> in
    let s := s <| framer_ := Framer.reset (framer_ s) |> in
    emit (EReconnect (id_ s)) s.

Definition set_connection (conn : option Z) (s : Session) : Session := s <| conn_ := conn |>.

Definition readable_id (s : Session) : bytes :=
  sender_comp_id (params_ s) ++ B "<->" ++ target_comp_id (params_ s) ++ B " [" ++ to_dec (id (id_ s)) ++ B "]".

(** ** Handlers *)

(** [std::find_if] for the first field with a tag. *)
Definition find_field (t : Z) (m : ValidMessage) : option bytes :=
  value <$> List.find (fun f => tag f =? t) (message_ m).
(** [assert(it != end())]. *)
Definition required_field (t : Z) (m : ValidMessage) : Res bytes :=
  match find_field t m with Some v => Ok v | None => Err AssertFailed end.

Definition validate_heartbeat_int (incoming_value : bytes) (is_initiator : bool) (s : Session) : bool * Session :=
  let incoming_hb_int := fc_or 0 (from_chars 32 incoming_value) in
  if is_initiator && negb (incoming_hb_int =? heart_beat_int (params_ s)) then (false, s)
  else if (incoming_hb_int <? 10) || (120 <? incoming_hb_int) then (false, s)
  else (true, s <| params_ := (params_ s) <| heart_beat_int := incoming_hb_int |> |>).

Definition is_app_message_type_ (msg_type : bytes) : bool :=
  negb (bool_decide (msg_type ∈ [B "0"; B "1"; B "2"; B "3"; B "4"; B "5"; B "A"])).

Definition handle_logon (message : ValidMessage) (s : Session) : Res Session :=
  let s := log fix_info (B "Logon received") s in
  let! heart_bt_int := required_field 108 message in
  let '(isvalid, s) := validate_heartbeat_int heart_bt_int (bool_decide (role_ s = INITIATOR)) s in
  if negb isvalid then stop_with_logout (B "Invalid HeartBtInt value") s
  else
    let reset_seq_nums := bool_decide (find_field 141 message = Some (B "Y")) in
    let activate (s : Session) : Session :=
      let s := emit (ECancel LogonTimer) s in
      let s := s <| state_ := ACTIVE |> in
      schedule_test_request_timeout_ (schedule_heartbeat_ s) in
    match role_ s with
    | ACCEPTOR =>
        let s := s <| state_ := LOGON_RECEIVED |> in
        if reset_seq_nums && negb (acceptor_reset_on_logon (params_ s)) then
          stop_with_logout (B "ResetSeqNumFlag=Y not allowed by configuration") s
        else
          let s := if reset_seq_nums then set_seqs (acceptor_reset (seqs s)) s else s in
          let! s := send_logon reset_seq_nums s in
          let s := log fix_info (B "Logon response sent") s in
          Ok (activate s)
    | INITIATOR =>
        if reset_seq_nums && negb (initiator_reset_on_logon (params_ s)) then
          stop_with_logout (B "ResetSeqNumFlag=Y not allowed by configuration") s
        else Ok (activate s)
    end.

Definition handle_logout (message : ValidMessage) (s : Session) : Res Session :=
  let s := log fix_info (B "Logout received") s in
  if bool_decide (state_ s = AWAITING_LOGOUT) then Ok (stop (emit (ECancel LogoutTimer) s))
  else
    let! s := send_logout (B "Logout acknowledged") s in
    Ok (stop s).

Definition handle_heartbeat (message : ValidMessage) (s : Session) : Res Session :=
  Ok (s <| awaiting_test_request_response_ := false |>).

Definition handle_test_request (message : ValidMessage) (s : Session) : Res Session :=
  let! test_req_id := required_field 112 message in
  send_heartbeat test_req_id s.

(** One turn of the loop over the resend stream. *)
Definition resend_one (action : ResendAction) (s : Session) : Res Session :=
  if gap_fill action then
    send_sequence_reset_gap_fill (begin_seq_no action) (u64 (end_seq_no action + 1)) s
  else
    let! msg_index := get_message_index (begin_seq_no action) (store_ s) in
    let! '(new_wire, f) := regenerate_message clock (params_ s) (get_message_wire msg_index (store_ s)) msg_index (msg_factory_ s) in
    send_message_ new_wire true (s <| msg_factory_ := f |>).

Fixpoint resend_loop (fuel : nat) (stream : ResendStream) (s : Session) : Res Session :=
  match fuel with
  | O => Err OutOfFuel
  | S fuel' =>
      if has_next stream then
        let! '(action, stream) := next stream in
        let! s := resend_one action s in
        resend_loop fuel' stream s
      else Ok s
  end.

Definition handle_resend_request (msg : ValidMessage) (s : Session) : Res Session :=
  let! start_seq_num := required_field 7 msg in
  let! end_seq_num := required_field 16 msg in
  let begin_seq_no := fc_or 0 (from_chars 32 start_seq_num) in
  let end_seq_no := fc_or 0 (from_chars 32 end_seq_num) in
  let end_seq_no := if (end_seq_no =? 0) || (next_out (seqs s) <=? end_seq_no)
                    then u32 (u32 (next_out (seqs s)) - 1) else end_seq_no in
  resend_loop (S (S (length (outbound_index_ (store_ s))))) (get_resend_stream begin_seq_no end_seq_no (store_ s)) s.

Definition handle_sequence_reset (msg : ValidMessage) (s : Session) : Res Session :=
  let! new_seq_no_text := required_field 36 msg in
  let gap_fill := bool_decide (find_field 123 msg = Some (B "Y")) in
  let new_seq_no := fc_or 0 (from_chars 64 new_seq_no_text) in
  if (new_seq_no <? next_in (seqs s)) && negb gap_fill then stop_with_logout (B "NewSeqNo less than expected") s
  else Ok (set_seqs (update_in new_seq_no (seqs s)) s).

Definition handle_reject (message : ValidMessage) (s : Session) : Res Session :=
  match find_field 45 message with
  | None => Err OutOfBounds
  | Some ref_seq_num =>
      let reason := B "Received Reject message" ++ B "for MsgSeqNum " ++ ref_seq_num ++
        match find_field 372 message with Some t => B " of type " ++ t | None => [] end ++
        match find_field 58 message with Some t => B ": " ++ t | None => [] end in
      Ok (log fix_warn reason s)
  end.

Definition handle_custom (message : ValidMessage) (s : Session) : Res Session :=
  let payload := B "custom_response from" ++ readable_id s in
  let rec_payload := default [] (find_field 9250 message) in
  match find (B "custom_response") rec_payload 0 with
  | Some _ => Ok s
  | None => send_custom payload s
  end.

(** The code for the type of a message in sequence. *)
Definition handle (msg_type : bytes) (msg : ValidMessage) (s : Session) : Res Session :=
  let s := emit (EHandled msg) s in
  if bool_decide (msg_type = B "A") then handle_logon msg s
  else if bool_decide (msg_type = B "5") then handle_logout msg s
  else if bool_decide (msg_type = B "0") then handle_heartbeat msg s
  else if bool_decide (msg_type = B "1") then handle_test_request msg s
  else if bool_decide (msg_type = B "2") then handle_resend_request msg s
  else if bool_decide (msg_type = B "3") then handle_reject msg s
  else if bool_decide (msg_type = B "4") then handle_sequence_reset msg s
  else if bool_decide (msg_type = B "cu") then handle_custom msg s
  else Ok (emit (EAppSink (make_valid_message (message_ msg)) (id_ s)) s).

(** ** Dispatch *)

(** [if (!recovery_cache_.contains(seq_num)) recovery_cache_.insert(seq_num, raw_msg)]. *)
Definition cache_message (seq_num : Z) (raw_msg : bytes) (s : Session) : Res Session :=
  let! present := RecoveryCache.contains seq_num (recovery_cache_ s) in
  if (present : bool) then Ok s
  else
    let! c := RecoveryCache.insert seq_num raw_msg (recovery_cache_ s) in
    Ok (s <| recovery_cache_ := c |>).

(** What the sequence number of a message decides. *)
Definition check_sequence (msg_type : bytes) (seq_num : Z) (is_dup : bool) (raw_msg : bytes) (msg : ValidMessage) (s : Session)
  : Res Session :=
  let expected := next_in (seqs s) in
  if seq_num =? expected then
    handle msg_type msg (set_seqs (update_in (seq_num + 1) (seqs s)) s)
  else if (expected <? seq_num) && bool_decide (state_ s = RECOVERING_RESEND) then
    if negb (RecoveryCache.in_window seq_num (recovery_cache_ s)) then
      stop_with_logout (B "MsgSeqNum too high during recovery") s
    else cache_message seq_num raw_msg s
  else if expected <? seq_num then
    let! s := send_resend_request expected (u64 (seq_num - 1)) s in
    let s := s <| state_ := RECOVERING_RESEND |> in
    let s := s <| recovery_cache_ := RecoveryCache.start expected (recovery_cache_ s) |> in
    cache_message seq_num raw_msg s
  else if (seq_num <? expected) && is_dup then Ok s
  else
    stop_with_logout (B "Received MsgSeqNum " ++ to_dec seq_num ++ B " but expected " ++ to_dec expected ++
                      B "Message: " ++ raw_msg) s.

Definition dispatch (message : GenericMessage) (raw_msg : bytes) (s : Session) : Res Session :=
  if stopped_ s then Ok s
  else
    let msg := make_valid_message_view message in
    let! v := validate_message msg (params_ s) (validator_ s) in
    let s := s <| validator_ := v |> in
    let results := results_ v in
    if bool_decide (severity results = Fatal) then stop_with_logout (B "Fatal validation error") s
    else
      match errors results with
      | e :: _ => send_reject (msg_seq_num (header_cache_ msg)) (validator_code (code e)) (err_tag e) (info e) s
      | [] =>
          match slot msg MsgTypeSlot with
          | None => Ok (log fix_error (B "Validator passed but required fields missing") s)
          | Some msg_type =>
              if negb (has_msg_seq_num (header_cache_ msg)) then
                Ok (log fix_error (B "Validator passed but required fields missing") s)
              else
                let s := if established (state_ s) then schedule_test_request_timeout_ s else s in
                let seq_num := msg_seq_num (header_cache_ msg) in
                let is_dup := bool_decide (slot msg PossDupFlagSlot = Some (B "Y")) in
                if negb (established (state_ s)) && is_app_message_type_ msg_type then
                  stop_with_logout (B "Cannot process app messages yet") s
                else check_sequence msg_type seq_num is_dup raw_msg msg s
          end
      end.

(** The [while] of [drain_recovery_cache_]; the result says whether it returned early. *)
Fixpoint drain_loop (fuel : nat) (s : Session) : Res (bool * Session) :=
  match fuel with
  | O => Err OutOfFuel
  | S fuel' =>
      let expected := next_in (seqs s) in
      let! present := RecoveryCache.contains expected (recovery_cache_ s) in
      if negb present then Ok (false, s)
      else
        let! raw_msg := RecoveryCache.get expected (recovery_cache_ s) in
        let! '(out_msg, out_errs) := parse raw_msg in
        match out_errs with
        | [] =>
            let! s := dispatch out_msg raw_msg s in
            let! c := RecoveryCache.consume expected (recovery_cache_ s) in
            drain_loop fuel' (s <| recovery_cache_ := c |>)
        | _ =>
            let! s := send_logout (B "Parse error during recovery") s in
            Ok (true, stop s)
        end
  end.

Definition drain_recovery_cache_ (s : Session) : Res Session :=
  if RecoveryCache.empty (recovery_cache_ s) || negb (bool_decide (state_ s = RECOVERING_RESEND)) then Ok s
  else
    let! '(returned, s) := drain_loop (S (Z.to_nat (RecoveryCache.size_ (recovery_cache_ s)))) s in
    if (returned : bool) then Ok s
    else Ok (if RecoveryCache.empty (recovery_cache_ s) then s <| state_ := ACTIVE |> else s).

Definition process_wire_message_ (msg_wire : bytes) (s : Session) : Res Session :=
  let! '(out_msg, out_errs) := parse msg_wire in
  let! s := match out_errs with
            | [] => dispatch out_msg msg_wire s
            | _ => stop_with_logout (B "Parse error") s
            end in
  drain_recovery_cache_ s.

(** ** Completion handlers *)

(** [while (framer_.has_message())]. *)
Fixpoint read_loop (fuel : nat) (s : Session) : Res Session :=
  match fuel with
  | O => Err OutOfFuel
  | S fuel' =>
      if has_message (framer_ s) then
        let! msg := get_message (framer_ s) in
        let! s := process_wire_message_ msg s in
        let! f := consume_message (framer_ s) in
        read_loop fuel' (s <| framer_ := f |>)
      else Ok s
  end.

(** A read or write error other than [operation_aborted]. *)
Definition io_failed (what : bytes) (ec : error_code) (retry : Session -> Res Session) (s : Session) : Res Session :=
  if bool_decide (classify_readwrite_error ec = Transient) then
    retry (emit (ELog (mk_log_context LTransport CWarn Moderate) what (Some ec)) s)
  else Ok (on_transport_down_ (emit (ELog (mk_log_context LTransport CError High) what (Some ec)) s)).

Definition read_handler (ec : error_code) (bytes_read : bytes) (s : Session) : Res Session :=
  if stopped_ s || bool_decide (ec = operation_aborted) then Ok s
  else if negb (bool_decide (ec = success)) then io_failed (B "Read error: ") ec do_read s
  else
    let! f := Framer.append bytes_read (framer_ s) in
    let! s := read_loop (S (Z.to_nat Completed_Capacity)) (s <| framer_ := f |>) in
    do_read s.

Definition write_handler (ec : error_code) (n : Z) (s : Session) : Res Session :=
  if stopped_ s || bool_decide (ec = operation_aborted) then Ok s
  else if negb (bool_decide (ec = success)) then io_failed (B "Write error: ") ec do_write s
  else
    match write_q_ s with
    | [] => Err OutOfBounds
    | f :: q =>
        let f := mk_pending (data f) (u64 (sent f + n)) in
        do_write (s <| write_q_ := if zlen (data f) <=? sent f then q else f :: q |>)
    end.

(** ** Timer handlers *)

(** [if (stopped_ || ec == operation_aborted) return; if (ec) { log; return; } ...]. *)
Definition on_timer (what : bytes) (ec : error_code) (expired : Session -> Res Session) (s : Session) : Res Session :=
  if stopped_ s || bool_decide (ec = operation_aborted) then Ok s
  else if negb (bool_decide (ec = success)) then Ok (log fix_error what s)
  else expired s.

Definition logout_timer_handler (ec : error_code) (s : Session) : Res Session :=
  on_timer (B "Couldnt start logout timer") ec (fun s =>
    Ok (stop (log fix_info (B "Logout timer expired, stopping session") s))) s.

Definition logon_timer_handler (expected_state : SessionState) (ec : error_code) (s : Session) : Res Session :=
  on_timer (B "Couldnt start logon timer") ec (fun s =>
    Ok (if bool_decide (state_ s = expected_state)
        then stop (log fix_error (B "Logon timer expired without receiving logon") s) else s)) s.

Definition heartbeat_timer_handler (ec : error_code) (s : Session) : Res Session :=
  on_timer (B "Couldnt start heartbeat timer") ec (fun s =>
    let! s := send_heartbeat [] s in
    Ok (schedule_heartbeat_ s)) s.

Definition inbound_timer_handler (ec : error_code) (s : Session) : Res Session :=
  on_timer (B "Couldnt start inbound timer") ec (fun s =>
    if negb (awaiting_test_request_response_ s) then
      let s := s <| awaiting_test_request_response_ := true |> in
      let testReqId := B "TESTREQ_" ++ to_dec (test_req_id_ s) in
      let s := s <| test_req_id_ := u64 (test_req_id_ s + 1) |> in
      let s := log fix_warn (B "Inbound timeout expired, sent Test Request with ID: " ++ testReqId) s in
      let! s := send_test_request testReqId s in
      Ok (schedule_test_request_timeout_ s)
    else
      let s := log fix_error (B "No response to Test Request, stopping session") s in
      stop_with_logout (B "No response to Test Request") s) s.

(** ** Executions *)

Inductive event : Set :=
  | EvStart (mode : StartMode)
  | EvStop
  | EvSetConnection (conn : option Z)
  | EvSendFromApp (message : GenericMessage) (msg_type : MsgType)
  | EvRead (ec : error_code) (data : bytes)
  | EvWrite (ec : error_code) (n : Z)
  | EvLogonTimer (expected_state : SessionState) (ec : error_code)
  | EvLogoutTimer (ec : error_code)
  | EvHeartbeatTimer (ec : error_code)
  | EvInboundTimer (ec : error_code).

Definition session_step (e : event) (s : Session) : Res Session :=
  match e with
  | EvStart mode => start mode s
  | EvStop => Ok (stop s)
  | EvSetConnection c => Ok (set_connection c s)
  | EvSendFromApp m t => send_from_app m t s
  | EvRead ec d => read_handler ec d s
  | EvWrite ec n => write_handler ec n s
  | EvLogonTimer st ec => logon_timer_handler st ec s
  | EvLogoutTimer ec => logout_timer_handler ec s
  | EvHeartbeatTimer ec => heartbeat_timer_handler ec s
  | EvInboundTimer ec => inbound_timer_handler ec s
  end.

Fixpoint session_run (es : list event) (s : Session) : Res Session :=
  match es with
  | [] => Ok s
  | e :: es' => let! s := session_step e s in session_run es' s
  end.

(** [~Session]: closes the connection. *)
Definition session_destroy (s : Session) : Session := close_conn s.
