(* ===== verification/SessionBase.v ===== *)
(** Lemmas on [Session] shared by the theorems about it: what a send does, and the invariant
    that makes it succeed (the outbound store holds the messages [1 .. next_out - 1]). *)
From Stdlib Require Import Strings.Byte.
From S2P Require Import Prelude.
From S2P Require Import Text.
From S2P Require Import Network.
From S2P Require Import Message.
From S2P Require Import Parser.
From S2P Require Import Schema.
From S2P Require Import Framer.
From S2P Require Import MessageStore.
From S2P Require Import RecoveryCache.
From S2P Require Import Validator.
From S2P Require Import Factory.
From S2P Require Import Session.

(** Computes the assignments to members. *)
Ltac session_simpl := cbn [upd recovery_cache_ params_ write_q_ conn_ framer_ id_ store_ state_ msg_factory_ validator_
  test_req_id_ stopped_ write_inflight_ awaiting_test_request_response_ reconnecting_ role_ effects_ seqs set_seqs seq_provider_ scratch_ emit log] in *.

(** ** What a send leaves alone *)

Record kept (s s' : Session) : Prop := {
  kp_cache : recovery_cache_ s' = recovery_cache_ s;
  kp_params : params_ s' = params_ s;
  kp_conn : conn_ s' = conn_ s;
  kp_framer : framer_ s' = framer_ s;
  kp_state : state_ s' = state_ s;
  kp_validator : validator_ s' = validator_ s;
  kp_stopped : stopped_ s' = stopped_ s;
  kp_role : role_ s' = role_ s;
  kp_id : id_ s' = id_ s;
  kp_test_req : test_req_id_ s' = test_req_id_ s;
  kp_next_in : next_in (seqs s') = next_in (seqs s)
}.
#[export] Instance kept_refl : Reflexive kept.
Proof. by split. Qed.
#[export] Instance kept_trans : Transitive kept.
Proof. intros x y z [] []. split; congruence. Qed.

(** Effects of sending: writes and the heartbeat timer. *)
Definition send_effect (e : Effect) : bool :=
  match e with EWrite _ _ => true | EArm HeartbeatTimer _ => true | ECancel HeartbeatTimer => true | _ => false end.

(** [s'] is [s] after effects that satisfy [P]. *)
Definition adds (P : Effect -> bool) (s s' : Session) : Prop :=
  exists l, effects_ s' = effects_ s ++ l /\ forallb P l = true.
#[export] Instance adds_refl P : Reflexive (adds P).
Proof. intros s. exists []. by rewrite app_nil_r. Qed.
#[export] Instance adds_trans P : Transitive (adds P).
Proof. intros x y z (l1 & E1 & H1) (l2 & E2 & H2). exists (l1 ++ l2). by rewrite E2, E1, app_assoc, forallb_app, H1, H2. Qed.
Lemma adds_weaken (P Q : Effect -> bool) s s' : (forall e, P e = true -> Q e = true) -> adds P s s' -> adds Q s s'.
Proof. intros H (l & E & Hl). exists l. split; [done|]. rewrite forallb_forall in *. auto. Qed.
Lemma adds_emit (P : Effect -> bool) e s : P e = true -> adds P s (emit e s).
Proof. intros H. exists [e]. split; [done|]. cbn. by rewrite H. Qed.

Create HintDb session.
#[export] Hint Resolve adds_emit : session.

Lemma to_chars_length v : - 10 ^ 20 < v < 10 ^ 20 -> zlen (to_chars v) <= 21.
Proof.
  intros Hv. unfold to_chars. case_Z.
  - rewrite zlen_cons. pose proof (to_dec_length (- v) ltac:(lia) 20 ltac:(lia) ltac:(lia)). lia.
  - pose proof (to_dec_length v ltac:(lia) 20 ltac:(lia) ltac:(lia)). lia.
Qed.

(** ** The invariant of a connected session *)

Record session_ok (s : Session) (wires : list bytes) : Prop := {
  so_scratch : scratch_wf (scratch_ (msg_factory_ s));
  so_text : session_text (params_ s) (now_fix clock);
  so_enc : - 2 ^ 31 <= encrypt_method (params_ s) < 2 ^ 31;
  so_store : store_inv (store_ s) wires;
  so_next : next_out (seqs s) = zlen wires + 1;
  so_live : stopped_ s = false;
  so_conn : is_Some (conn_ s)
}.

(** The bytes of message [m] with sequence number [q]. *)
Definition outbound_bytes (params : SessionParameters) (m : Outbound) (q : Z) : bytes :=
  frame_wire DEFAULT_FIX_VERSION (fields_wire (outbound_body clock params m q)).

Lemma send_bytes_spec w s : stopped_ s = false -> is_Some (conn_ s) ->
  exists s', send_bytes_ w s = Ok s' /\ kept s s' /\ adds send_effect s s' /\ store_ s' = store_ s /\
    msg_factory_ s' = msg_factory_ s /\ write_q_ s' = write_q_ s ++ [mk_pending w 0] /\ write_inflight_ s' = true.
Proof.
  intros Hs [c Hc]. unfold send_bytes_. session_simpl. destruct (write_inflight_ s) eqn:E.
  - eexists. split; [done|]. split_and!; try done. exists []. by rewrite app_nil_r.
  - unfold do_write. session_simpl. destruct (write_q_ s ++ [mk_pending w 0]) as [|p q] eqn:Eq; [by destruct (write_q_ s)|].
    rewrite Hs, Hc. eexists. split; [done|]. split_and!; try done. exists [EWrite c (zdrop (sent p) (data p))]. done.
Qed.

Lemma heartbeat_adds (s : Session) : adds send_effect s (if established (state_ s) then schedule_heartbeat_ s else s).
Proof.
  destruct (established (state_ s)); [|reflexivity]. unfold schedule_heartbeat_.
  etransitivity; [|by apply adds_emit]. by apply adds_emit.
Qed.

(** [send_message_] of a message the store accepts. *)
Lemma send_message_spec w s st : stopped_ s = false -> is_Some (conn_ s) -> store_outbound_message w (store_ s) = Ok st ->
  exists s', send_message_ w false s = Ok s' /\ kept s s' /\ adds send_effect s s' /\ store_ s' = st /\
    msg_factory_ s' = msg_factory_ s /\ write_q_ s' = write_q_ s ++ [mk_pending w 0].
Proof.
  intros Hs Hc Hst. unfold send_message_. rewrite Hs. destruct (send_bytes_spec w s Hs Hc) as (s1 & -> & K & A & E1 & E2 & E3 & E4).
  rewrite ok_bind, E1, Hst, !ok_bind. eexists. split; [done|].
  pose proof (heartbeat_adds (s1 <| store_ := st |>)) as Ah.
  assert (A1 : adds send_effect s (s1 <| store_ := st |>)) by (etransitivity; [exact A|]; exists []; by rewrite app_nil_r).
  split_and!; [| |by destruct (established _)..].
  - etransitivity; [exact K|]. by destruct (established _).
  - by etransitivity.
Qed.

(** A resent message is written but neither stored nor numbered. *)
Lemma resend_message_spec w s : stopped_ s = false -> is_Some (conn_ s) ->
  exists s', send_message_ w true s = Ok s' /\ kept s s' /\ adds send_effect s s' /\ store_ s' = store_ s /\
    msg_factory_ s' = msg_factory_ s /\ write_q_ s' = write_q_ s ++ [mk_pending w 0].
Proof.
  intros Hs Hc. unfold send_message_. rewrite Hs. destruct (send_bytes_spec w s Hs Hc) as (s1 & -> & K & A & E1 & E2 & E3 & E4).
  rewrite !ok_bind. eexists. split; [done|]. pose proof (heartbeat_adds s1) as Ah.
  split_and!; [| |by destruct (established _)..].
  - etransitivity; [exact K|]. by destruct (established _).
  - by etransitivity.
Qed.

(** Tags an application message may not use: the engine writes them itself. *)
Definition reserved_tags : list Z := [8; 9; 10; 34; 35; 43; 49; 52; 56; 122].
Definition app_fields_ok (m : Outbound) : Prop :=
  match m with
  | OApp msg _ => NoDup (tag <$> msg) /\ Forall (fun t => t ∉ reserved_tags) (tag <$> msg)
  | _ => True
  end.

Lemma fields_of_tags params m : app_fields_ok m ->
  NoDup (tag <$> fields_of params m) /\ Forall (fun t => t ∉ reserved_tags) (tag <$> fields_of params m).
Proof.
  intros Ha. assert (D : forall l, bool_decide (NoDup l) && bool_decide (Forall (fun t => t ∉ reserved_tags) l) = true ->
    NoDup l /\ Forall (fun t => t ∉ reserved_tags) l) by (intros l [H1%bool_decide_eq_true H2%bool_decide_eq_true]%andb_true_iff; done).
  destruct m as [h r|id|id|b e|n gp|t|r c t x|p|msg ty]; [..|exact Ha]; cbn [fields_of]; unfold opt_field;
    try destruct gp; try destruct (t =? 0); try destruct (zlen _ =? 0); by apply D.
Qed.

Lemma outbound_tags params m q : app_fields_ok m ->
  let tags := 8 :: 9 :: (tag <$> outbound_body clock params m q) in
  NoDup tags /\ (10 ∉ tags) /\ (43 ∉ tags) /\ 122 ∉ tags.
Proof.
  intros Ha tags. destruct (fields_of_tags params m Ha) as [Hnd Hr]. rewrite Forall_forall in Hr.
  assert (Et : tags = [8; 9; 35; 34; 49; 56; 52] ++ (tag <$> fields_of params m)) by (unfold tags, outbound_body; by rewrite fmap_app).
  assert (Hout : forall t, t ∈ reserved_tags -> t ∉ [8; 9; 35; 34; 49; 56; 52] -> t ∉ tags).
  { intros t Ht Hnot. rewrite Et, elem_of_app. intros [?|Hin]; [done|]. by apply (Hr t). }
  split_and!; [|apply Hout; apply (bool_decide_unpack _); by vm_compute..].
  rewrite Et. apply NoDup_app. split_and!; [apply (bool_decide_unpack _); by vm_compute| |done].
  intros t Ht Hin. apply (Hr t Hin). unfold reserved_tags.
  repeat (apply elem_of_cons in Ht as [->|Ht]; [apply (bool_decide_unpack _); by vm_compute|]). by apply not_elem_of_nil in Ht.
Qed.

(** What is sent, with its fields: it can be stored and read back. *)
Lemma outbound_stored params m q : session_text params (now_fix clock) -> - 2 ^ 31 <= encrypt_method params < 2 ^ 31 ->
  app_fields_ok m -> sendable m -> 0 <= q < 2 ^ 32 -> zlen (outbound_bytes params m q) < 2 ^ 31 ->
  exists ck, let fs := mk_field 8 DEFAULT_FIX_VERSION :: mk_field 9 (to_dec (zlen (fields_wire (outbound_body clock params m q))))
                    :: outbound_body clock params m q in
    outbound_bytes params m q = wire_of fs ck /\ stored_message q fs ck /\ all_digits ck.
Proof.
  intros Ht He Ha Hs Hq Hl. unfold outbound_bytes in *. rewrite frame_wire_fields in Hl |- *. cbv zeta in Hl |- *.
  set (body := outbound_body clock params m q) in *. set (all := mk_field 8 _ :: mk_field 9 _ :: body) in *.
  pose proof (Z.mod_pos_bound (byte_sum (fields_wire all)) 256 ltac:(lia)).
  destruct (checksum_text_spec (byte_sum (fields_wire all) mod 256) ltac:(lia)) as (Hd & Hlen & _).
  eexists. split; [done|]. split; [|done]. set (ck := checksum_text _) in *.
  assert (Hb : zlen (fields_wire body) < 2 ^ 31 /\ 0 <= zlen (fields_wire body)).
  { unfold wire_of, all in Hl. rewrite !fields_wire_cons, !zlen_app in Hl. zlen_pos. lia. }
  assert (Hdig : all_digits (to_dec (zlen (fields_wire body)))) by (apply to_dec_digits; lia).
  destruct (outbound_tags params m q Ha) as (Hnd & H10 & _). fold body in Hnd, H10.
  pose proof (outbound_fields_ok clock params Ht He m q Hs) as Hf. fold body in Hf.
  assert (Hn34 : mk_field 34 (to_dec q) ∈ all).
  { right. right. unfold body, outbound_body, header_fields. rewrite i64_small, to_chars_nonneg by lia. right. left. }
  split; [|by apply not_digit_notin|exact Hnd|done|done].
  constructor; [split; [by vm_compute|split; [done|apply (bool_decide_unpack _); by vm_compute]]|].
  constructor; [split; [by vm_compute|split; [done|by apply not_digit_notin]]|].
  apply Forall_forall. intros f Hin. rewrite Forall_forall in Hf. destruct (Hf f Hin) as [Htag [_ Hv]].
  split; [lia|]. split; [|done]. intros E10. apply H10. rewrite <- E10. right. right. apply list_elem_of_fmap. by exists f.
Qed.

(** An interval that an [int] can hold is sent as it is. *)
Lemma send_logon_small r s : - 2 ^ 31 <= heart_beat_int (params_ s) < 2 ^ 31 ->
  send_logon r s = send_built (build clock (params_ s) (OLogon (heart_beat_int (params_ s)) r)) false s.
Proof. intros H. unfold send_logon. by rewrite i32_small. Qed.

(** Sending: the message is queued and stored, its number is used up, the invariant holds again. *)
Lemma send_outbound m s wires : session_ok s wires -> app_fields_ok m -> sendable m -> zlen wires + 2 < 2 ^ 32 ->
  zlen (concat wires) + zlen (outbound_bytes (params_ s) m (zlen wires + 1)) < 2 ^ 31 ->
  exists s', send_built (build clock (params_ s) m) false s = Ok s' /\
    session_ok s' (wires ++ [outbound_bytes (params_ s) m (zlen wires + 1)]) /\ kept s s' /\ adds send_effect s s' /\
    write_q_ s' = write_q_ s ++ [mk_pending (outbound_bytes (params_ s) m (zlen wires + 1)) 0].
Proof.
  intros [Hw Ht He Hst Hn Hl Hc] Ha Hs Hk Hb. pose proof (zlen_nonneg wires). pose proof (zlen_nonneg (concat wires)).
  pose proof (st_version _ _ Ht) as Ever.
  destruct (outbound_stored (params_ s) m (zlen wires + 1) Ht He Ha Hs ltac:(lia) ltac:(lia)) as (ck & Ew & Hsm & _). cbv zeta in Ew, Hsm.
  assert (Hbody : zlen (fields_wire (outbound_body clock (params_ s) m (zlen wires + 1))) < 10 ^ 10).
  { unfold outbound_bytes, frame_wire in Hb. rewrite !zlen_app in Hb. zlen_pos. lia. }
  destruct (outbound_wire clock (params_ s) m (msg_factory_ s) Hw) as [Eb Hw']; [destruct m; try done; cbn in Hs |- *; destruct Hs as [Hs _]; by eapply Forall_impl; [exact Hs|intros f [? _]; lia]|by rewrite Ever| |].
  { change (seq_provider_ (msg_factory_ s)) with (seqs s). by rewrite Hn. }
  change (seq_provider_ (msg_factory_ s)) with (seqs s) in Eb. rewrite Hn, Ever in Eb. fold (outbound_bytes (params_ s) m (zlen wires + 1)) in Eb.
  unfold send_built. destruct (build clock (params_ s) m (msg_factory_ s)) as [w f] eqn:Ebuild. cbn [fst snd] in Eb, Hw'. subst w. cbv beta iota.
  assert (Hf : seq_provider_ f = update_out (zlen wires + 2) (seqs s)).
  { pose proof (build_unfold clock (params_ s) m (msg_factory_ s)) as Eu. rewrite Ebuild in Eu. cbv zeta in Eu. injection Eu as _ ->.
    cbn [seq_provider_]. change (seq_provider_ (msg_factory_ s)) with (seqs s). rewrite Hn. f_equal. lia. }
  destruct (store_outbound_spec (store_ s) wires _ ck Hst Hsm) as (st & Est & Ist); [by rewrite <- Ew|lia|]. rewrite <- Ew in Est, Ist.
  set (s0 := s <| msg_factory_ := f |>).
  destruct (send_message_spec (outbound_bytes (params_ s) m (zlen wires + 1)) s0 st Hl Hc Est)
    as (s' & -> & K & A & E1 & E2 & E3).
  exists s'. split; [done|]. assert (K' : kept s s').
  { destruct K. unfold seqs, s0 in *. session_simpl. split; try done. unfold seqs. rewrite kp_next_in0, Hf. done. }
  split_and!; [|done| |exact E3].
  - destruct K'. split; [by rewrite E2|by rewrite kp_params0|by rewrite kp_params0|by rewrite E1| |congruence|by rewrite kp_conn0].
    unfold seqs. rewrite E2. unfold s0. session_simpl. rewrite Hf. cbn. rewrite u64_small by lia. rewrite zlen_app. change (zlen [_]) with 1. lia.
  - destruct A as (l & El & Hl'). by exists l.
Qed.
