(* ===== verification/SessionInbound.v ===== *)
(** The inbound side of [Session]: messages are handled in sequence, each exactly once,
    however they arrive. *)
From Stdlib Require Import Strings.Byte.
From stdpp Require Import gmap.
From S2P Require Import Prelude.
From S2P Require Import Text.
From S2P Require Import Network.
From S2P Require Import Message.
From S2P Require Import Parser.
From S2P Require Import Schema.
From S2P Require Import Framer.
From S2P Require Import MessageStore.
From S2P Require Import RecoveryCache.
From S2P Require Import Validator.
From S2P Require Import Factory.
From S2P Require Import Session.
From S2P Require Import SessionBase.

(** ** Messages whose handler sends nothing *)

(** Heartbeats, rejects, and custom responses. *)
Definition quiet (t : bytes) (m : ValidMessage) : Prop :=
  t = B "0" \/ (t = B "3" /\ is_Some (find_field 45 m)) \/
  (t = B "cu" /\ is_Some (find (B "custom_response") (default [] (find_field 9250 m)) 0)).

(** [raw] is a well-formed message [m] with sequence number [q] for a session with [params]. *)
Record plain (params : SessionParameters) (q : Z) (raw : bytes) (m : ValidMessage) : Prop := {
  pl_parse : exists fs, parse raw = Ok (fs, []) /\ m = make_valid_message_view fs;
  pl_fields : zlen (message_ m) < 2 ^ 30;
  pl_conforms : exists t sc, conforms m params t sc /\ quiet t m;
  pl_has_seq : has_msg_seq_num (header_cache_ m) = true;
  pl_seq : msg_seq_num (header_cache_ m) = q;
  pl_size : zlen raw < 2 ^ 40
}.

(** The messages handled so far. *)
Definition handled_of (l : list Effect) : list ValidMessage :=
  omap (fun e => match e with EHandled m => Some m | _ => None end) l.
Definition handled (s : Session) : list ValidMessage := handled_of (effects_ s).
Definition not_handled (e : Effect) : bool := match e with EHandled _ => false | _ => true end.

Lemma handled_of_none l : forallb not_handled l = true -> handled_of l = [].
Proof. induction l as [|e l IH]; [done|]. cbn. intros [He Hl]%andb_true_iff. by destruct e; try done; apply IH. Qed.

Lemma handled_adds s s' : adds not_handled s s' -> handled s' = handled s.
Proof.
  intros (l & E & Hl). unfold handled. rewrite E. unfold handled_of at 1. rewrite omap_app. fold (handled_of (effects_ s)).
  fold (handled_of l). by rewrite (handled_of_none l Hl), app_nil_r.
Qed.

Lemma send_not_handled s s' : adds send_effect s s' -> adds not_handled s s'.
Proof. apply adds_weaken. by intros []. Qed.

(** All members but the effects, the awaiting flag and the validator's scratch space. *)
Record same (s s' : Session) : Prop := {
  sm_cache : recovery_cache_ s' = recovery_cache_ s;
  sm_params : params_ s' = params_ s;
  sm_conn : conn_ s' = conn_ s;
  sm_store : store_ s' = store_ s;
  sm_state : state_ s' = state_ s;
  sm_factory : msg_factory_ s' = msg_factory_ s;
  sm_stopped : stopped_ s' = stopped_ s;
  sm_framer : framer_ s' = framer_ s;
  sm_queue : write_q_ s' = write_q_ s;
  sm_inflight : write_inflight_ s' = write_inflight_ s;
  sm_id : id_ s' = id_ s;
  sm_role : role_ s' = role_ s;
  sm_test_req : test_req_id_ s' = test_req_id_ s
}.
#[export] Instance same_refl : Reflexive same.
Proof. by split. Qed.
#[export] Instance same_trans : Transitive same.
Proof. intros x y z [] []. split; congruence. Qed.

Lemma same_ok s s' wires : same s s' -> session_ok s wires -> session_ok s' wires.
Proof. intros [] []. split; unfold seqs in *; rewrite ?sm_params0, ?sm_conn0, ?sm_store0, ?sm_factory0, ?sm_stopped0; done. Qed.

Lemma handle_quiet t m s : quiet t m ->
  exists s', handle t m s = Ok s' /\ same s s' /\ handled s' = handled s ++ [m].
Proof.
  intros Hq. set (s1 := emit (EHandled m) s).
  assert (Hh : handled s1 = handled s ++ [m]) by (unfold handled, s1; session_simpl; unfold handled_of; by rewrite omap_app).
  enough (exists s', handle t m s = Ok s' /\ same s1 s' /\ adds not_handled s1 s') as (s' & E & S & A).
  { exists s'. split; [done|]. split; [by destruct S; split|]. by rewrite (handled_adds _ _ A). }
  unfold handle. fold s1. destruct Hq as [->|[[-> [v Hv]]|[-> [v Hv]]]].
  - eexists. split; [reflexivity|]. split; [done|]. exists []. by rewrite app_nil_r.
  - cbn -[emit s1]. unfold handle_reject. rewrite Hv. eexists. split; [reflexivity|]. split; [done|]. by apply adds_emit.
  - cbn -[emit s1]. unfold handle_custom. rewrite Hv. eexists. split; [reflexivity|]. split; reflexivity.
Qed.

(** ** Dispatching a plain message *)

Lemma established_state st : st = ACTIVE \/ st = RECOVERING_RESEND -> established st = true.
Proof. by intros [-> | ->]. Qed.

(** The inbound timer is armed again. *)
Definition inbound_timer_effect (e : Effect) : bool :=
  match e with EArm InboundTimer _ => true | ECancel InboundTimer => true | _ => false end.

(** A message of type [t] may come in state [st]. *)
Definition may_come (st : SessionState) (t : bytes) : Prop := established st = true \/ is_app_message_type_ t = false.

(** A valid message that may come: only its number remains to be checked. *)
Lemma dispatch_valid q raw m fs t sc s : conforms m (params_ s) t sc -> zlen (message_ m) < 2 ^ 30 ->
  has_msg_seq_num (header_cache_ m) = true -> msg_seq_num (header_cache_ m) = q -> m = make_valid_message_view fs ->
  stopped_ s = false -> may_come (state_ s) t ->
  exists s1 dup, dispatch fs raw s = check_sequence t q dup raw m s1 /\ same s s1 /\ adds inbound_timer_effect s s1.
Proof.
  intros Hc Hn Hh Hs Em Hl Hst. unfold dispatch. rewrite Hl. rewrite <- Em.
  destruct (conforms_accepted m (params_ s) (validator_ s) t sc Hn Hc) as (v & -> & He & Hsev). rewrite ok_bind.
  rewrite Hsev, (bool_decide_false (Moderate = Fatal)), He, (cf_type _ _ _ _ Hc), Hh by done. cbn [negb].
  session_simpl. rewrite Hs. destruct (established (state_ s)) eqn:Ees; unfold schedule_test_request_timeout_; session_simpl; rewrite Ees.
  - cbn [negb andb]. eexists _, _. split; [reflexivity|]. split; [by split|].
    exists [ECancel InboundTimer; EArm InboundTimer (heart_beat_int (params_ s))]. session_simpl. by rewrite <- app_assoc.
  - destruct Hst as [?|Hst]; [congruence|]. rewrite Hst. cbn [negb andb]. eexists _, _. split; [reflexivity|]. split; [by split|].
    exists []. session_simpl. by rewrite app_nil_r.
Qed.

Lemma dispatch_plain q raw m fs s : plain (params_ s) q raw m -> m = make_valid_message_view fs -> stopped_ s = false ->
  state_ s = ACTIVE \/ state_ s = RECOVERING_RESEND ->
  exists t s1 dup, dispatch fs raw s = check_sequence t q dup raw m s1 /\ same s s1 /\ adds not_handled s s1 /\ quiet t m.
Proof.
  intros [_ Hn (t & sc & Hc & Hq) Hh Hs _] Em Hl Hst.
  destruct (dispatch_valid q raw m fs t sc s Hc Hn Hh Hs Em Hl (or_introl (established_state _ Hst))) as (s1 & dup & E & S & A).
  exists t, s1, dup. split_and!; [exact E|exact S| |exact Hq]. revert A. apply adds_weaken. by intros [].
Qed.

(** [update_in] on the shared provider. *)
Lemma set_next_in_ok s wires n : session_ok s wires -> 0 <= n < 2 ^ 64 ->
  session_ok (set_seqs (update_in n (seqs s)) s) wires /\ next_in (seqs (set_seqs (update_in n (seqs s)) s)) = n.
Proof. intros [] Hn. split; [by split|]. unfold seqs, set_seqs. session_simpl. cbn. by apply u64_small. Qed.

(** A message in sequence is handled and the expected number advances. *)
Lemma check_in_sequence t q dup raw m s wires : quiet t m -> session_ok s wires -> next_in (seqs s) = q -> 0 <= q < 2 ^ 63 ->
  exists s', check_sequence t q dup raw m s = Ok s' /\ session_ok s' wires /\ next_in (seqs s') = q + 1 /\
    state_ s' = state_ s /\ recovery_cache_ s' = recovery_cache_ s /\ params_ s' = params_ s /\ handled s' = handled s ++ [m].
Proof.
  intros Hq I Hn Hr. unfold check_sequence. rewrite Hn, Z.eqb_refl.
  destruct (set_next_in_ok s wires (q + 1) I ltac:(lia)) as [I1 N1].
  destruct (handle_quiet t m (set_seqs (update_in (q + 1) (seqs s)) s) Hq) as (s' & -> & S & Hh).
  exists s'. split; [done|]. destruct (S). split_and!; [by eapply same_ok| |done|done|done|exact Hh].
  unfold seqs in *. by rewrite sm_factory0.
Qed.

(** Size of the request for a resend. *)
Definition request_room (params : SessionParameters) : Z :=
  256 + zlen (sender_comp_id params) + zlen (target_comp_id params).

Lemma request_size params b e q : zlen (sender_comp_id params) + zlen (target_comp_id params) < 2 ^ 30 ->
  zlen (outbound_bytes params (OResendRequest b e) q) <= request_room params.
Proof.
  intros Hr. unfold outbound_bytes, frame_wire, request_room. set (body := fields_wire _).
  pose proof (i64_range b). pose proof (i64_range e). pose proof (i64_range q).
  pose proof (to_chars_length (i64 b) ltac:(lia)). pose proof (to_chars_length (i64 e) ltac:(lia)). pose proof (to_chars_length (i64 q) ltac:(lia)).
  assert (Hb : zlen body <= 120 + zlen (sender_comp_id params) + zlen (target_comp_id params)).
  { unfold body, outbound_body, header_fields, fields_of, type_of. cbn [app]. rewrite !fields_wire_cons, !zlen_app, !field_wire_length.
    cbn [tag value]. change (zlen (fields_wire [])) with 0. change (zlen (to_dec 35)) with 2. change (zlen (to_dec 34)) with 2.
    change (zlen (to_dec 49)) with 2. change (zlen (to_dec 56)) with 2. change (zlen (to_dec 52)) with 2. change (zlen (to_dec 7)) with 1.
    change (zlen (to_dec 16)) with 2. change (zlen (B "2")) with 1. change (zlen (now_fix clock)) with 3. lia. }
  pose proof (zlen_nonneg body). pose proof (to_dec_length (zlen body) ltac:(lia) 20 ltac:(lia) ltac:(lia)).
  rewrite !zlen_app, !field_wire_length. cbn [tag value]. set (ck := byte_sum _ mod 256).
  pose proof (Z.mod_pos_bound (byte_sum (field_wire {| tag := 8; value := DEFAULT_FIX_VERSION |} ++
    field_wire {| tag := 9; value := to_dec (zlen body) |} ++ body)) 256 ltac:(lia)). fold ck in H4.
  destruct (checksum_text_spec ck ltac:(lia)) as (_ & Hck & _). rewrite Hck.
  change (zlen (to_dec 8)) with 1. change (zlen (to_dec 9)) with 1. change (zlen DEFAULT_FIX_VERSION) with 7.
  change (zlen (B "10=")) with 3. change (zlen [SOH]) with 1. lia.
Qed.

(** Room for one more message in the cache. *)
Definition cache_room (s : Session) : Prop := buff_capacity_ (recovery_cache_ s) < 2 ^ 61.

Lemma cache_message_spec q raw s sp : represents (recovery_cache_ s) sp -> seq_ok q -> sp_in_window q sp = true ->
  sp_map sp !! q = None -> raw <> [] -> zlen raw < 2 ^ 40 -> cache_room s ->
  exists c, cache_message q raw s = Ok (s <| recovery_cache_ := c |>) /\
    represents c (mk_spec (sp_base sp) (<[q := raw]> (sp_map sp))) /\
    buff_capacity_ c <= buff_capacity_ (recovery_cache_ s) + 2 ^ 41.
Proof.
  intros R Hq Hw Hm Hr Hz Hc. unfold cache_message. rewrite (contains_spec _ _ _ R Hq), Hm, ok_bind. cbn -[upd insert].
  pose proof (insert_refines q raw (recovery_cache_ s) sp R Hq ltac:(unfold cache_room, min_capacity_growth in *; lia)) as I.
  cbn [spec_step] in I. rewrite Hw, Hm, (bool_decide_true (None = None)), (bool_decide_true (raw <> [])) in I by done. cbn [andb] in I.
  destruct (insert q raw (recovery_cache_ s)) as [c|f]; [|done]. rewrite ok_bind. destruct I as (_ & R' & Hcap).
  exists c. split_and!; [done|done|]. unfold min_capacity_growth in *. lia.
Qed.

(** A first gap: a resend request, and the message is kept. *)
Lemma check_first_gap t q dup raw m s wires sp : session_ok s wires -> state_ s <> RECOVERING_RESEND -> 0 <= next_in (seqs s) ->
  next_in (seqs s) < q < next_in (seqs s) + window -> q < 2 ^ 63 -> represents (recovery_cache_ s) sp ->
  raw <> [] -> zlen raw < 2 ^ 40 -> cache_room s -> zlen wires + 2 < 2 ^ 32 ->
  zlen (sender_comp_id (params_ s)) + zlen (target_comp_id (params_ s)) < 2 ^ 30 ->
  zlen (concat wires) + request_room (params_ s) < 2 ^ 31 ->
  let w := outbound_bytes (params_ s) (OResendRequest (next_in (seqs s)) (q - 1)) (zlen wires + 1) in
  exists s', check_sequence t q dup raw m s = Ok s' /\ session_ok s' (wires ++ [w]) /\ next_in (seqs s') = next_in (seqs s) /\
    state_ s' = RECOVERING_RESEND /\ represents (recovery_cache_ s') (mk_spec (next_in (seqs s)) {[ q := raw ]}) /\
    params_ s' = params_ s /\ handled s' = handled s /\
    buff_capacity_ (recovery_cache_ s') <= buff_capacity_ (recovery_cache_ s) + 2 ^ 41 /\
    id_ s' = id_ s /\ role_ s' = role_ s /\ test_req_id_ s' = test_req_id_ s /\ write_q_ s' = write_q_ s ++ [mk_pending w 0].
Proof.
  intros I Hst Hn0 Hq Hq63 R Hr Hz Hc Hw Hid Hb w. set (n := next_in (seqs s)) in *. unfold window in *.
  unfold check_sequence. fold n. rewrite (proj2 (Z.eqb_neq _ _)), (proj2 (Z.ltb_lt _ _)) by lia.
  rewrite bool_decide_false by done. cbn [andb]. rewrite u64_small by lia.
  pose proof (request_size (params_ s) n (q - 1) (zlen wires + 1) Hid) as Hsz.
  destruct (send_outbound (OResendRequest n (q - 1)) s wires I ltac:(done) ltac:(done) Hw) as (s1 & E & I1 & K & A & Hwq); [lia|].
  change (send_resend_request n (q - 1) s) with (send_built (build clock (params_ s) (OResendRequest n (q - 1))) false s).
  rewrite E, ok_bind. fold w in I1. destruct K.
  assert (Hseq : seq_ok n) by (unfold seq_ok; lia).
  pose proof (reset_represents _ _ n R Hseq) as R1.
  set (s2 := (s1 <| state_ := RECOVERING_RESEND |>) <| recovery_cache_ := _ |>).
  assert (E2 : recovery_cache_ s2 = RecoveryCache.start n (recovery_cache_ s)) by (unfold s2; session_simpl; by rewrite kp_cache).
  destruct (cache_message_spec q raw s2 (mk_spec n ∅)) as (c & -> & Rc & Hcap).
  - by rewrite E2.
  - unfold seq_ok; lia.
  - unfold sp_in_window. cbn. rewrite (proj2 (Z.leb_le _ _)), (proj2 (Z.ltb_lt _ _)) by (unfold window; lia). done.
  - apply lookup_empty.
  - done.
  - done.
  - unfold cache_room in *. by rewrite E2.
  - exists (s2 <| recovery_cache_ := c |>). rewrite E2 in Hcap. cbn [buff_capacity_ RecoveryCache.start] in Hcap.
    split; [done|]. unfold s2. session_simpl. split_and!; [|done|done|done|done| |done|done|done|done|exact Hwq].
    + destruct I1. split; done.
    + transitivity (handled s1); [done|]. by apply handled_adds, send_not_handled.
Qed.

(** During recovery a later message is kept. *)
Lemma check_later t q dup raw m s wires sp : session_ok s wires -> state_ s = RECOVERING_RESEND -> 0 <= q < 2 ^ 63 ->
  next_in (seqs s) < q -> represents (recovery_cache_ s) sp -> sp_in_window q sp = true -> sp_map sp !! q = None ->
  raw <> [] -> zlen raw < 2 ^ 40 -> cache_room s ->
  exists s', check_sequence t q dup raw m s = Ok s' /\ session_ok s' wires /\ next_in (seqs s') = next_in (seqs s) /\
    state_ s' = RECOVERING_RESEND /\ represents (recovery_cache_ s') (mk_spec (sp_base sp) (<[q := raw]> (sp_map sp))) /\
    params_ s' = params_ s /\ handled s' = handled s /\
    buff_capacity_ (recovery_cache_ s') <= buff_capacity_ (recovery_cache_ s) + 2 ^ 41.
Proof.
  intros I Hst Hq Hn R Hw Hm Hr Hz Hc. unfold check_sequence. rewrite (proj2 (Z.eqb_neq _ _)), (proj2 (Z.ltb_lt _ _)), Hst by lia.
  rewrite bool_decide_true by done. cbn [andb]. assert (Hs : seq_ok q) by (unfold seq_ok; lia).
  rewrite (in_window_spec _ _ _ R Hs), Hw. cbn [negb].
  destruct (cache_message_spec q raw s sp R Hs Hw Hm Hr Hz Hc) as (c & -> & Rc & Hcap).
  eexists. split; [done|]. session_simpl. split_and!; try done. destruct I. by split.
Qed.

(** ** Any order of arrival *)

Section Reorder.
(** Message [q] of the counterparty: its bytes and its meaning. *)
Context (raws : Z -> bytes) (msgs : Z -> ValidMessage).

Lemma plain_nonempty params q : plain params q (raws q) (msgs q) -> raws q <> [].
Proof using. intros [(fs & E & _) _ _ _ _ _] H. by rewrite H in E. Qed.

Lemma plain_parse params q : plain params q (raws q) (msgs q) ->
  exists fs, parse (raws q) = Ok (fs, []) /\ msgs q = make_valid_message_view fs.
Proof using. by intros []. Qed.

(** Dispatching the expected message. *)
Lemma dispatch_expected q fs s wires : session_ok s wires -> plain (params_ s) q (raws q) (msgs q) -> msgs q = make_valid_message_view fs ->
  state_ s = ACTIVE \/ state_ s = RECOVERING_RESEND -> next_in (seqs s) = q -> 0 <= q < 2 ^ 63 ->
  exists s', dispatch fs (raws q) s = Ok s' /\ session_ok s' wires /\ next_in (seqs s') = q + 1 /\
    state_ s' = state_ s /\ recovery_cache_ s' = recovery_cache_ s /\ params_ s' = params_ s /\ handled s' = handled s ++ [msgs q].
Proof using.
  intros I Hp Em Hst Hn Hq. destruct (dispatch_plain q (raws q) (msgs q) fs s Hp Em (so_live _ _ I) Hst) as (t & s1 & dup & -> & S & A & Hqt).
  pose proof (same_ok _ _ _ S I) as I1. destruct (S). assert (N1 : next_in (seqs s1) = q) by (unfold seqs in *; by rewrite sm_factory0).
  destruct (check_in_sequence t q dup (raws q) (msgs q) s1 wires Hqt I1 N1 Hq) as (s' & E & I' & N' & St & Ca & Pa & Hh).
  exists s'. split_and!; [done|done|done|congruence|congruence|congruence|]. by rewrite Hh, (handled_adds _ _ A).
Qed.

Lemma drain_loop_spec fuel x y s wires sp : session_ok s wires -> state_ s = RECOVERING_RESEND -> next_in (seqs s) = x ->
  represents (recovery_cache_ s) sp -> 0 <= x <= y -> y < 2 ^ 63 ->
  (forall q, x <= q < y -> sp_map sp !! q = Some (raws q) /\ plain (params_ s) q (raws q) (msgs q)) ->
  sp_map sp !! y = None -> y - x < Z.of_nat fuel ->
  exists s' M, drain_loop fuel s = Ok (false, s') /\ session_ok s' wires /\ state_ s' = RECOVERING_RESEND /\
    next_in (seqs s') = y /\ params_ s' = params_ s /\ handled s' = handled s ++ (msgs <$> seqZ x (y - x)) /\
    represents (recovery_cache_ s') (mk_spec (sp_base sp) M) /\
    (forall q, M !! q = if (x <=? q) && (q <? y) then None else sp_map sp !! q) /\
    buff_capacity_ (recovery_cache_ s') = buff_capacity_ (recovery_cache_ s).
Proof using.
  revert x s sp. induction fuel as [|fuel IH]; intros x s sp I Hst Hn R Hx Hy Hm Hny Hf; [lia|].
  assert (Hseq : seq_ok x) by (unfold seq_ok; lia). cbn [drain_loop]. rewrite Hn, (contains_spec _ _ _ R Hseq), ok_bind.
  destruct (decide (x = y)) as [->|Hne].
  - rewrite Hny, bool_decide_false by (by intros []). cbn [negb]. exists s, (sp_map sp). split; [done|]. rewrite Z.sub_diag. cbn [seqZ fmap list_fmap].
    split_and!; try done; [by rewrite app_nil_r|by destruct sp|].
    intros q. destruct (Z.leb_spec y q), (Z.ltb_spec q y); cbn; done || lia.
  - destruct (Hm x ltac:(lia)) as [Hmx Hpx]. rewrite Hmx, bool_decide_true by eauto. cbn [negb].
    rewrite (get_spec _ _ _ R Hseq), Hmx, ok_bind. destruct (plain_parse _ _ Hpx) as (fs & -> & Em). cbn [mbind res_bind].
    destruct (dispatch_expected x fs s wires I Hpx Em ltac:(auto) Hn ltac:(lia)) as (s1 & -> & I1 & N1 & St1 & Ca1 & Pa1 & H1).
    cbn [mbind res_bind]. rewrite Ca1. pose proof (consume_refines x _ _ R Hseq) as Hc. cbn [spec_step] in Hc. rewrite Hmx in Hc.
    destruct (consume x (recovery_cache_ s)) as [c|]; [|done]. destruct Hc as (_ & R1 & Hcap). cbn [mbind res_bind].
    set (s2 := s1 <| recovery_cache_ := c |>). assert (I2 : session_ok s2 wires) by (destruct I1; by split).
    destruct (IH (x + 1) s2 (mk_spec (sp_base sp) (delete x (sp_map sp)))) as (s' & M & E & I' & St' & N' & Pa' & H' & R' & HM & Cap');
      [done|unfold s2; session_simpl; congruence|done|done|lia|lia| |cbn; by rewrite lookup_delete_ne|lia|].
    { intros q Hq. cbn [sp_map]. rewrite lookup_delete_ne by lia. unfold s2. session_simpl. rewrite Pa1. apply Hm. lia. }
    exists s', M. split; [done|]. split_and!; try done.
    + rewrite Pa'. unfold s2. session_simpl. done.
    + rewrite H'. unfold s2. change (handled (s1 <| recovery_cache_ := c |>)) with (handled s1). rewrite H1, <- app_assoc. f_equal.
      rewrite (seqZ_cons x (y - x)) by lia. cbn [fmap list_fmap app]. do 3 f_equal; lia.
    + intros q. rewrite HM. cbn [sp_map]. destruct (decide (q = x)) as [->|Hqx].
      * rewrite lookup_delete_eq. destruct (Z.leb_spec x x), (Z.ltb_spec x y), (Z.leb_spec (x + 1) x); cbn; done || lia.
      * rewrite lookup_delete_ne by done. destruct (Z.leb_spec x q), (Z.ltb_spec q y), (Z.leb_spec (x + 1) q); cbn; done || lia.
    + rewrite Cap'. unfold s2. session_simpl. done.
Qed.

Lemma run_size (M : gmap Z bytes) x y : x <= y -> (forall q, x <= q < y -> is_Some (M !! q)) -> y - x <= Z.of_nat (base.size M).
Proof using.
  intros Hxy H. rewrite <- size_dom.
  assert (Hs : list_to_set (C := gset Z) (seqZ x (y - x)) ⊆ dom M).
  { intros q Hq%elem_of_list_to_set%elem_of_seqZ. apply elem_of_dom, H. lia. }
  apply subseteq_size in Hs. rewrite size_list_to_set in Hs by apply NoDup_seqZ. rewrite length_seqZ in Hs. lia.
Qed.

(** The first number from [x] on that is not in the cache. *)
Lemma first_missing (M : gmap Z bytes) x b : (forall q, is_Some (M !! q) -> q < b) ->
  exists y, x <= y /\ M !! y = None /\ (forall q, x <= q < y -> is_Some (M !! q)).
Proof using.
  intros Hb. remember (Z.to_nat (b - x)) as n eqn:En. revert x En. induction n as [|n IH]; intros x En.
  - exists x. split_and!; [lia| |lia]. destruct (M !! x) eqn:E; [|done]. specialize (Hb x ltac:(eauto)). lia.
  - destruct (M !! x) as [w|] eqn:E; [|exists x; split_and!; [lia|done|lia]].
    destruct (IH (x + 1) ltac:(lia)) as (y & Hy & Hn & Hr). exists y. split_and!; [lia|done|].
    intros q Hq. destruct (decide (q = x)) as [->|]; [eauto|apply Hr; lia].
Qed.

Lemma empty_spec c sp : represents c sp -> RecoveryCache.empty c = bool_decide (sp_map sp = ∅).
Proof using.
  intros R. unfold RecoveryCache.empty. rewrite (rp_size _ _ R). destruct (decide (sp_map sp = ∅)) as [->|Hne].
  - by rewrite bool_decide_true.
  - rewrite bool_decide_false by done. apply Z.eqb_neq. intros E. apply Hne, map_size_empty_inv. lia.
Qed.

(** [drain_recovery_cache_] hands over everything up to the next missing number, and ends the
    recovery when nothing is left. *)
Lemma drain_spec x s wires sp : session_ok s wires -> state_ s = RECOVERING_RESEND -> next_in (seqs s) = x ->
  represents (recovery_cache_ s) sp -> sp_map sp <> ∅ -> 0 <= x -> sp_base sp + window < 2 ^ 63 -> x < 2 ^ 63 ->
  (forall q w, sp_map sp !! q = Some w -> w = raws q /\ plain (params_ s) q (raws q) (msgs q)) ->
  exists s' M y, drain_recovery_cache_ s = Ok s' /\ session_ok s' wires /\ x <= y /\ next_in (seqs s') = y /\
    sp_map sp !! y = None /\ (forall q, x <= q < y -> is_Some (sp_map sp !! q)) /\
    params_ s' = params_ s /\ handled s' = handled s ++ (msgs <$> seqZ x (y - x)) /\
    represents (recovery_cache_ s') (mk_spec (sp_base sp) M) /\
    (forall q, M !! q = if (x <=? q) && (q <? y) then None else sp_map sp !! q) /\
    state_ s' = (if bool_decide (M = ∅) then ACTIVE else RECOVERING_RESEND) /\
    buff_capacity_ (recovery_cache_ s') = buff_capacity_ (recovery_cache_ s).
Proof using.
  intros I Hst Hn R Hne Hx Hb Hx63 Hm. unfold drain_recovery_cache_. rewrite (empty_spec _ _ R), bool_decide_false, Hst, bool_decide_true by done.
  cbn [orb negb]. destruct (first_missing (sp_map sp) x (sp_base sp + window)) as (y & Hy & Hny & Hr); [intros q Hq; by apply R in Hq as []|].
  pose proof (run_size _ _ _ Hy Hr) as Hsz. pose proof (rp_size _ _ R) as Hsize.
  assert (Hy63 : y < 2 ^ 63).
  { destruct (decide (x = y)) as [<-|]; [done|]. destruct (rp_dom _ _ R (y - 1) (Hr (y - 1) ltac:(lia))). lia. }
  destruct (drain_loop_spec (S (Z.to_nat (size_ (recovery_cache_ s)))) x y s wires sp I Hst Hn R ltac:(lia) Hy63)
    as (s1 & M & -> & I1 & St1 & N1 & Pa1 & H1 & R1 & HM & Cap1); [|done|lia|].
  { intros q Hq. destruct (Hr q Hq) as [w Hw]. destruct (Hm q w Hw) as [-> Hp]. done. }
  cbn [mbind res_bind]. rewrite (empty_spec _ _ R1). cbn [sp_map].
  destruct (bool_decide (M = ∅)) eqn:EM.
  - eexists _, M, y. split; [reflexivity|]. session_simpl. split_and!; try done; [destruct I1; by split|]. by rewrite EM.
  - exists s1, M, y. split; [reflexivity|]. rewrite EM. done.
Qed.

(** What is known after the messages [R] (numbers from [k] on) have arrived: those below [n], the
    first missing one, have been handled in order; the others are in the cache. *)
Record progress (params : SessionParameters) (k : Z) (H0 : list ValidMessage) (R : list Z) (n : Z)
    (wires : list bytes) (s : Session) : Prop := {
  pg_ok : session_ok s wires;
  pg_params : params_ s = params;
  pg_next : next_in (seqs s) = n;
  pg_low : k <= n;
  pg_got : forall q, k <= q < n -> q ∈ R;
  pg_missing : n ∉ R;
  pg_handled : handled s = H0 ++ (msgs <$> seqZ k (n - k));
  pg_mode :
    (state_ s = ACTIVE /\ (forall q, q ∈ R -> q < n) /\ exists sp, represents (recovery_cache_ s) sp) \/
    (state_ s = RECOVERING_RESEND /\ (exists q, q ∈ R /\ n < q) /\
     exists b M, represents (recovery_cache_ s) (mk_spec b M) /\ k <= b <= n /\
       forall q, M !! q = if bool_decide (q ∈ R) && (n <? q) then Some (raws q) else None)
}.

Context (params : SessionParameters) (k : Z) (H0 : list ValidMessage).
Hypothesis Hk : 0 <= k < 2 ^ 62.
Hypothesis Hids : zlen (sender_comp_id params) + zlen (target_comp_id params) < 2 ^ 30.

(** After the dispatch the cache is drained. *)
Lemma progress_drain R q n wires s b M : session_ok s wires -> params_ s = params -> state_ s = RECOVERING_RESEND ->
  next_in (seqs s) = n -> k <= n -> (forall p, k <= p < n -> p ∈ R ++ [q]) ->
  handled s = H0 ++ (msgs <$> seqZ k (n - k)) -> represents (recovery_cache_ s) (mk_spec b M) -> k <= b <= n -> b < 2 ^ 62 + 1024 -> n < 2 ^ 63 ->
  (forall p, M !! p = if bool_decide (p ∈ R ++ [q]) && (n <=? p) then Some (raws p) else None) -> M <> ∅ ->
  (forall p, p ∈ R ++ [q] -> plain params p (raws p) (msgs p)) ->
  exists s' n', drain_recovery_cache_ s = Ok s' /\ progress params k H0 (R ++ [q]) n' wires s' /\
    buff_capacity_ (recovery_cache_ s') = buff_capacity_ (recovery_cache_ s).
Proof using Hk.
  intros I Hp Hst Hn Hkn Hgot Hh Hr Hb Hb62 Hn63 HM Hne Hpl.
  destruct (drain_spec n s wires (mk_spec b M) I Hst Hn Hr Hne ltac:(lia) ltac:(unfold window; cbn; lia) Hn63)
    as (s' & M' & y & E & I' & Hy & N' & Hny & Hrun & Pa & Hh' & R' & HM' & St & Cap).
  { cbn [sp_map]. intros p w. rewrite HM. destruct (bool_decide (p ∈ R ++ [q])) eqn:Ein; cbn [andb]; [|done].
    apply bool_decide_eq_true in Ein. destruct (n <=? p); [|done]. intros [= <-]. split; [done|]. rewrite Hp. by apply Hpl. }
  cbn [sp_map sp_base] in *. exists s', y. split; [done|]. split; [|done].
  assert (Hin : forall p, n <= p -> is_Some (M !! p) <-> p ∈ R ++ [q]).
  { intros p Hp'. rewrite HM, (proj2 (Z.leb_le _ _)), andb_true_r by done. destruct (bool_decide (p ∈ R ++ [q])) eqn:Ein.
    - apply bool_decide_eq_true in Ein. split; eauto.
    - apply bool_decide_eq_false in Ein. split; [by intros []|done]. }
  assert (HM2 : forall p, M' !! p = if bool_decide (p ∈ R ++ [q]) && (y <? p) then Some (raws p) else None).
  { intros p. rewrite HM'. destruct (decide (p = y)) as [->|Hpy].
    - rewrite Hny, Z.ltb_irrefl, !andb_false_r. done.
    - rewrite HM. destruct (Z.leb_spec n p), (Z.ltb_spec p y), (Z.ltb_spec y p); cbn [andb]; rewrite ?andb_true_r, ?andb_false_r; done || lia. }
  split; [done|congruence|done|lia| | | |].
  - intros p Hp'. destruct (Z.lt_ge_cases p n); [by apply Hgot; lia|]. apply Hin; [lia|]. apply Hrun. lia.
  - intros Hyin. apply (Hin y ltac:(lia)) in Hyin. rewrite Hny in Hyin. by destruct Hyin.
  - rewrite Hh', Hh, <- app_assoc, <- fmap_app. do 2 f_equal.
    replace (y - k) with ((n - k) + (y - n)) by lia. rewrite seqZ_app by lia. by replace (k + (n - k)) with n by lia.
  - destruct (bool_decide (M' = ∅)) eqn:EM.
    + apply bool_decide_eq_true in EM. left. split_and!; [done| |eauto]. intros p Hp'. destruct (Z.lt_trichotomy p y) as [?|[->|?]]; [done| |].
      * apply (Hin y ltac:(lia)) in Hp'. rewrite Hny in Hp'. by destruct Hp'.
      * specialize (HM2 p). rewrite EM, lookup_empty, bool_decide_true, (proj2 (Z.ltb_lt _ _)) in HM2 by done. done.
    + apply bool_decide_eq_false in EM. right. split_and!; [done| |].
      * apply map_choose in EM as (p & w & Hpw). exists p. rewrite HM2 in Hpw. destruct (bool_decide (p ∈ R ++ [q])) eqn:Ein; [|done].
        apply bool_decide_eq_true in Ein. destruct (Z.ltb_spec y p); [done|done].
      * exists b, M'. split_and!; [done|lia|lia|done].
Qed.

(** What one more message leads to. *)
Definition advanced (R : list Z) (q : Z) (wires : list bytes) (s : Session) (r : Res Session) : Prop :=
  exists s' n' wires', r = Ok s' /\ progress params k H0 (R ++ [q]) n' wires' s' /\
    zlen wires' <= zlen wires + 1 /\ zlen (concat wires') <= zlen (concat wires) + request_room params /\
    buff_capacity_ (recovery_cache_ s') <= buff_capacity_ (recovery_cache_ s) + 2 ^ 41.

Lemma in_snoc_ne (x q : Z) R : x <> q -> bool_decide (x ∈ R) = bool_decide (x ∈ R ++ [q]).
Proof using. intros Hne. apply bool_decide_ext. rewrite elem_of_app, list_elem_of_singleton. split; [by left|by intros [?|?]]. Qed.

(** It is the expected one. *)
Lemma progress_expected R n wires s fs : progress params k H0 R n wires s -> n < k + window -> msgs n = make_valid_message_view fs ->
  (forall p, p ∈ R ++ [n] -> plain params p (raws p) (msgs p)) ->
  advanced R n wires s (let! s := dispatch fs (raws n) s in drain_recovery_cache_ s).
Proof using Hk Hids.
  intros [I Hp Hn Hkn Hgot Hmiss Hh Hmode] Hq Em Hpl. unfold window in *.
  assert (Hst : state_ s = ACTIVE \/ state_ s = RECOVERING_RESEND) by (destruct Hmode as [(? & _)|(? & _)]; auto).
  assert (Hplq : plain params n (raws n) (msgs n)) by (apply Hpl, elem_of_app; right; by left).
  assert (Hroom0 : 0 <= request_room params) by (unfold request_room; zlia).
  destruct (dispatch_expected n fs s wires I ltac:(by rewrite Hp) Em Hst Hn ltac:(lia)) as (s1 & -> & I1 & N1 & St1 & Ca1 & Pa1 & H1).
  rewrite ok_bind. assert (Hh1 : handled s1 = H0 ++ (msgs <$> seqZ k (n + 1 - k))).
  { rewrite H1, Hh, <- app_assoc. f_equal. replace (n + 1 - k) with ((n - k) + 1) by lia. rewrite seqZ_app by lia.
    rewrite fmap_app. f_equal. replace (k + (n - k)) with n by lia. done. }
  assert (Hgot1 : forall p, k <= p < n + 1 -> p ∈ R ++ [n]).
  { intros p Hp'. apply elem_of_app. destruct (decide (p = n)) as [->|]; [right; by left|left; apply Hgot; lia]. }
  destruct Hmode as [(Ea & Hlt & sp & Rp)|(Er & (p & Hpin & Hpn) & b & M & Rp & Hbn & HM)].
  - assert (Hlt1 : forall p, p ∈ R ++ [n] -> p < n + 1)
      by (intros p [Hin|Hin]%elem_of_app; [specialize (Hlt _ Hin); lia|apply list_elem_of_singleton in Hin; lia]).
    unfold drain_recovery_cache_. rewrite St1, Ea, (bool_decide_false (ACTIVE = RECOVERING_RESEND)), orb_true_r by done.
    exists s1, (n + 1), wires. split; [done|]. rewrite Ca1. split_and!; [|lia|lia|lia].
    split; [done|congruence|done|lia|done| |done|].
    + intros Hin. specialize (Hlt1 _ Hin). lia.
    + left. split_and!; [congruence|done|exists sp; by rewrite Ca1].
  - destruct (progress_drain R n (n + 1) wires s1 b M) as (s' & n' & Ed & Pg & Cap); try done; try congruence; try lia.
    + intros x. rewrite HM. destruct (Z.ltb_spec n x), (Z.leb_spec (n + 1) x); try lia; [|by rewrite !andb_false_r].
      by rewrite !andb_true_r, (in_snoc_ne x n) by lia.
    + intros EM. specialize (HM p). rewrite EM, lookup_empty, bool_decide_true, (proj2 (Z.ltb_lt _ _)) in HM by done. done.
    + exists s', n', wires. rewrite Cap, Ca1. split_and!; [done|done|lia|lia|lia].
Qed.

(** It is the first one beyond a gap. *)
Lemma progress_gap R n q wires s t dup sp : progress params k H0 R n wires s -> q ∉ R -> n < q < k + window ->
  state_ s = ACTIVE -> (forall p, p ∈ R -> p < n) -> represents (recovery_cache_ s) sp ->
  (forall p, p ∈ R ++ [q] -> plain params p (raws p) (msgs p)) ->
  cache_room s -> zlen wires + 2 < 2 ^ 32 -> zlen (concat wires) + request_room params < 2 ^ 31 ->
  advanced R q wires s (let! s := check_sequence t q dup (raws q) (msgs q) s in drain_recovery_cache_ s).
Proof using Hk Hids.
  intros [I Hp Hn Hkn Hgot Hmiss Hh _] Hnew Hq Hst Hall Rp Hpl Hroom Hw Hb. unfold window in *.
  assert (Hplq : plain params q (raws q) (msgs q)) by (apply Hpl, elem_of_app; right; by left).
  destruct (check_first_gap t q dup (raws q) (msgs q) s wires sp) as (s2 & -> & I2 & N2 & St2 & R2 & Pa2 & H2 & Cap2 & _);
    rewrite ?Hn, ?Hp, ?Hst; unfold window; try done; try lia; [by eapply plain_nonempty|apply Hplq|].
  rewrite ok_bind. rewrite Hn in I2, N2, R2. rewrite Hp in I2.
  destruct (progress_drain R q n _ s2 n {[ q := raws q ]} I2) as (s' & n' & -> & Pg & Cap); try done; try congruence; try lia.
  - intros p Hp'. apply elem_of_app. left. by apply Hgot.
  - intros x. destruct (decide (x = q)) as [->|Hxq].
    + rewrite lookup_singleton_eq, bool_decide_true, (proj2 (Z.leb_le _ _)) by (lia || (apply elem_of_app; right; by left)). done.
    + rewrite lookup_singleton_ne, <- (in_snoc_ne x q) by done. destruct (bool_decide (x ∈ R)) eqn:Ein; [|done]. cbn [andb].
      apply bool_decide_eq_true in Ein. specialize (Hall x Ein). by rewrite (proj2 (Z.leb_gt _ _)).
  - eexists s', n', _. split; [done|]. split; [exact Pg|]. rewrite zlen_app, concat_app, zlen_app. cbn [concat]. rewrite app_nil_r.
    pose proof (request_size params n (q - 1) (zlen wires + 1) Hids). change (zlen [_]) with 1. rewrite Cap. split_and!; lia.
Qed.

(** A gap is open already. *)
Lemma progress_later R n q wires s t dup b M : progress params k H0 R n wires s -> q ∉ R -> n < q < k + window ->
  state_ s = RECOVERING_RESEND -> represents (recovery_cache_ s) (mk_spec b M) -> k <= b <= n ->
  (forall q, M !! q = if bool_decide (q ∈ R) && (n <? q) then Some (raws q) else None) ->
  (forall p, p ∈ R ++ [q] -> plain params p (raws p) (msgs p)) -> cache_room s ->
  advanced R q wires s (let! s := check_sequence t q dup (raws q) (msgs q) s in drain_recovery_cache_ s).
Proof using Hk Hids.
  intros [I Hp Hn Hkn Hgot Hmiss Hh _] Hnew Hq Hst Rp Hbn HM Hpl Hroom. unfold window in *.
  assert (Hplq : plain params q (raws q) (msgs q)) by (apply Hpl, elem_of_app; right; by left).
  assert (Hroom0 : 0 <= request_room params) by (unfold request_room; zlia).
  assert (Hxq : M !! q = None) by (rewrite HM, bool_decide_false by done; done).
  destruct (check_later t q dup (raws q) (msgs q) s wires (mk_spec b M)) as (s2 & -> & I2 & N2 & St2 & R2 & Pa2 & H2 & Cap2);
    rewrite ?Hn; try done; try lia; [|by eapply plain_nonempty|apply Hplq|].
  { unfold sp_in_window, window. cbn. rewrite (proj2 (Z.leb_le _ _)), (proj2 (Z.ltb_lt _ _)) by lia. done. }
  rewrite ok_bind. cbn [sp_base sp_map] in R2.
  destruct (progress_drain R q n wires s2 b (<[q := raws q]> M) I2) as (s' & n' & -> & Pg & Cap); try done; try congruence; try lia.
  - intros p Hp'. apply elem_of_app. left. by apply Hgot.
  - intros x. destruct (decide (x = q)) as [->|Hxq'].
    + rewrite lookup_insert_eq, bool_decide_true, (proj2 (Z.leb_le _ _)) by (lia || (apply elem_of_app; right; by left)). done.
    + rewrite lookup_insert_ne, HM, (in_snoc_ne x q) by done.
      destruct (decide (x = n)) as [->|]; [|destruct (Z.ltb_spec n x), (Z.leb_spec n x); done || lia].
      by rewrite <- in_snoc_ne, bool_decide_false by (done || lia).
  - intros EM. assert (X : (<[q := raws q]> M) !! q = None) by (by rewrite EM, lookup_empty). by rewrite lookup_insert_eq in X.
  - exists s', n', wires. rewrite Cap. split_and!; [done|done|lia|lia|lia].
Qed.

Lemma progress_same R n wires s s' : progress params k H0 R n wires s -> same s s' -> adds not_handled s s' ->
  progress params k H0 R n wires s'.
Proof using.
  intros [I Hp Hn Hkn Hgot Hmiss Hh Hmode] S A. pose proof (same_ok _ _ _ S I) as I'. destruct S. unfold seqs in *.
  split; try done; unfold seqs; rewrite ?sm_params0, ?sm_factory0, ?sm_state0, ?sm_cache0, ?(handled_adds _ _ A); done.
Qed.

(** One more message. *)
Lemma progress_step R n q wires s : progress params k H0 R n wires s -> q ∉ R -> k <= q < k + window ->
  (forall p, p ∈ R ++ [q] -> plain params p (raws p) (msgs p)) ->
  cache_room s -> zlen wires + 2 < 2 ^ 32 -> zlen (concat wires) + request_room params < 2 ^ 31 ->
  advanced R q wires s (process_wire_message_ (raws q) s).
Proof using Hk Hids.
  intros P Hnew Hq Hpl Hroom Hw Hb. destruct (P) as [I Hp Hn Hkn Hgot Hmiss Hh Hmode].
  assert (Hplq : plain params q (raws q) (msgs q)) by (apply Hpl, elem_of_app; right; by left).
  destruct (plain_parse _ _ Hplq) as (fs & Ep & Em). unfold process_wire_message_. rewrite Ep. cbn [mbind res_bind]. fold (@mbind Res res_bind).
  assert (Hqn : n <= q). { destruct (Z.lt_ge_cases q n); [|done]. destruct Hnew. apply Hgot. lia. }
  assert (Hst : state_ s = ACTIVE \/ state_ s = RECOVERING_RESEND) by (destruct Hmode as [(? & _)|(? & _)]; auto).
  destruct (decide (q = n)) as [->|Hne]; [apply progress_expected; done || lia|].
  destruct (dispatch_plain q (raws q) (msgs q) fs s ltac:(by rewrite Hp) Em (so_live _ _ I) Hst) as (t & s1 & dup & Ed & S & A & Hqt).
  pose proof (progress_same _ _ _ _ _ P S A) as P1. unfold cache_room, advanced in *.
  change (advanced R q wires s (let! s := dispatch fs (raws q) s in drain_recovery_cache_ s)). rewrite Ed. unfold advanced.
  rewrite <- (sm_cache _ _ S). destruct Hmode as [(Ea & Hall & sp & Rp)|(Er & _ & b & M & Rp & Hbn & HM)].
  - apply (progress_gap R n q wires s1 t dup sp); try done; try lia; [by rewrite (sm_state _ _ S)|by rewrite (sm_cache _ _ S)|].
    unfold cache_room. by rewrite (sm_cache _ _ S).
  - apply (progress_later R n q wires s1 t dup b M); try done; try lia; [by rewrite (sm_state _ _ S)|by rewrite (sm_cache _ _ S)|].
    unfold cache_room. by rewrite (sm_cache _ _ S).
Qed.

(** The messages of a read, one after the other. *)
Fixpoint process_all (ws : list bytes) (s : Session) : Res Session :=
  match ws with
  | [] => Ok s
  | w :: ws' => let! s := process_wire_message_ w s in process_all ws' s
  end.

Lemma progress_run qs R n wires s : progress params k H0 R n wires s -> NoDup (R ++ qs) ->
  (forall q, q ∈ R ++ qs -> k <= q < k + window /\ plain params q (raws q) (msgs q)) ->
  buff_capacity_ (recovery_cache_ s) + zlen qs * 2 ^ 41 < 2 ^ 61 -> zlen wires + zlen qs + 2 < 2 ^ 32 ->
  zlen (concat wires) + zlen qs * request_room params < 2 ^ 31 ->
  exists s' n' wires', process_all (raws <$> qs) s = Ok s' /\ progress params k H0 (R ++ qs) n' wires' s'.
Proof using Hk Hids.
  revert R n wires s. induction qs as [|q qs IH]; intros R n wires s P Hnd Hq Hcap Hw Hb.
  - exists s, n, wires. rewrite app_nil_r. done.
  - rewrite zlen_cons in *. pose proof (zlen_nonneg qs). assert (Hroom0 : 0 <= request_room params) by (unfold request_room; zlia).
    pose proof (Z.mul_nonneg_nonneg _ _ H Hroom0).
    rewrite cons_middle, app_assoc in Hnd, Hq |- *. pose proof Hnd as Hnd'. rewrite <- app_assoc, NoDup_app in Hnd'. destruct Hnd' as (_ & Hd & _).
    destruct (progress_step R n q wires s P) as (s1 & n1 & wires1 & E & P1 & Hw1 & Hb1 & Hcap1).
    + intros Hin. apply (Hd q Hin). by left.
    + apply Hq. rewrite !elem_of_app. left. right. by left.
    + intros p Hp. apply Hq. rewrite elem_of_app. by left.
    + unfold cache_room. lia.
    + lia.
    + lia.
    + cbn [fmap list_fmap process_all]. rewrite E, ok_bind. apply (IH (R ++ [q]) n1 wires1 s1); [done|done|done|lia|lia|lia].
Qed.
End Reorder.

Lemma fresh_progress raws msgs s wires sp : session_ok s wires -> state_ s = ACTIVE -> represents (recovery_cache_ s) sp ->
  progress raws msgs (params_ s) (next_in (seqs s)) (handled s) [] (next_in (seqs s)) wires s.
Proof.
  intros I Hst R. split; try done; [intros; lia|apply not_elem_of_nil|rewrite Z.sub_diag; cbn; by rewrite app_nil_r|].
  left. split_and!; [done|intros q Hq; by apply not_elem_of_nil in Hq|eauto].
Qed.

(** What a session can still take: it is connected and active, its store is in step with its
    sequence numbers, and there is room for [n] more messages in the store and the cache. *)
Record ready (s : Session) (wires : list bytes) (n : Z) : Prop := {
  rd_ok : session_ok s wires;
  rd_state : state_ s = ACTIVE;
  rd_next : 0 <= next_in (seqs s) < 2 ^ 62;
  rd_cache : exists sp, represents (recovery_cache_ s) sp;
  rd_ids : zlen (sender_comp_id (params_ s)) + zlen (target_comp_id (params_ s)) < 2 ^ 30;
  rd_cache_room : buff_capacity_ (recovery_cache_ s) + n * 2 ^ 41 < 2 ^ 61;
  rd_store_room : zlen wires + n + 2 < 2 ^ 32;
  rd_blob_room : zlen (concat wires) + n * request_room (params_ s) < 2 ^ 31
}.

(** C5: messages are handled in sequence, each exactly once, however they arrive.  The messages
    are well-formed ones that are not answered and do not touch the state of the session:
    heartbeats, rejects, and custom messages that are responses ([quiet]; what a Logon, a Logout, a
    resend request or a sequence reset does is not sequencing alone).  An active session that
    expects number [k] receives such messages numbered within [k .. k + 511], each number at most
    once but in any order, and has room for them: nothing faults; exactly the messages from [k] up
    to the first missing number [n] have been handled, in order; [n] is now expected; and the
    session is active again exactly when nothing is left over beyond [n] (it is waiting for a
    resend otherwise). *)
Theorem session_reorders raws msgs s wires qs : ready s wires (zlen qs) -> NoDup qs ->
  (forall q, q ∈ qs -> next_in (seqs s) <= q < next_in (seqs s) + window /\ plain (params_ s) q (raws q) (msgs q)) ->
  exists s' n, process_all (raws <$> qs) s = Ok s' /\ next_in (seqs s') = n /\ next_in (seqs s) <= n /\ (n ∉ qs) /\
    (forall q, next_in (seqs s) <= q < n -> q ∈ qs) /\
    handled s' = handled s ++ (msgs <$> seqZ (next_in (seqs s)) (n - next_in (seqs s))) /\
    (state_ s' = ACTIVE \/ state_ s' = RECOVERING_RESEND) /\
    (state_ s' = ACTIVE <-> forall q, q ∈ qs -> q < n).
Proof.
  intros [I Hst Hk [sp R] Hids Hcr Hsr Hbr] Hnd Hq.
  destruct (progress_run raws msgs (params_ s) (next_in (seqs s)) (handled s) Hk Hids qs [] (next_in (seqs s)) wires s)
    as (s' & n & wires' & E & [I' Hp Hn Hkn Hgot Hmiss Hh Hmode]); [by eapply fresh_progress|done|done|done|lia|done|].
  exists s', n. split_and!; try done; [destruct Hmode as [(? & _)|(? & _)]; auto|].
  destruct Hmode as [(Ea & Hall & _)|(Er & (q & Hin & Hnq) & _)]; [by split|]. split; [by rewrite Er|].
  intros Hall. specialize (Hall q Hin). lia.
Qed.

(** A gap is recovered.  When the messages [k .. k + n - 1] (at most 512 of them) have all
    arrived, in whatever order, the session has handled them in order and is active, expecting
    [k + n]: the resend protocol neither loses, repeats nor reorders a message. *)
Lemma gap_recovery raws msgs s wires n qs : ready s wires n -> 0 <= n <= window ->
  qs ≡ₚ seqZ (next_in (seqs s)) n ->
  (forall q, q ∈ qs -> plain (params_ s) q (raws q) (msgs q)) ->
  exists s', process_all (raws <$> qs) s = Ok s' /\ state_ s' = ACTIVE /\ next_in (seqs s') = next_in (seqs s) + n /\
    handled s' = handled s ++ (msgs <$> seqZ (next_in (seqs s)) n).
Proof.
  intros [I Hst Hk [sp R] Hids Hcr Hsr Hbr] Hn Hperm Hq.
  assert (Hlen : zlen qs = n) by (unfold zlen; rewrite Hperm, length_seqZ; lia).
  assert (Hmem : forall q, q ∈ qs <-> next_in (seqs s) <= q < next_in (seqs s) + n) by (intros q; by rewrite Hperm, elem_of_seqZ).
  destruct (progress_run raws msgs (params_ s) (next_in (seqs s)) (handled s) Hk Hids qs [] (next_in (seqs s)) wires s)
    as (s' & y & wires' & E & [I' Hp Hy Hky Hgot Hmiss Hh Hmode]); [by eapply fresh_progress|cbn [app]; rewrite Hperm; apply NoDup_seqZ| |lia|lia|lia|].
  { intros q Hin. cbn [app] in Hin. split; [|by apply Hq]. apply Hmem in Hin. lia. }
  cbn [app] in *. assert (y = next_in (seqs s) + n) as ->.
  { rewrite Hmem in Hmiss. destruct (Z.lt_trichotomy y (next_in (seqs s) + n)) as [?|[?|?]]; [lia|done|].
    specialize (Hgot (next_in (seqs s) + n) ltac:(lia)). apply Hmem in Hgot. lia. }
  exists s'. split_and!; [done| |done|].
  - destruct Hmode as [(Ea & _)|(_ & (q & Hin & Hlt) & _)]; [done|]. apply Hmem in Hin. lia.
  - rewrite Hh. do 3 f_equal. lia.
Qed.

(** ** Instances: heartbeats sent by another engine *)

Definition demo_peer_fields (q : Z) : GenericMessage := outbound_body clock demo_params (OHeartbeat []) q.
Definition demo_raw (q : Z) : bytes := outbound_bytes demo_params (OHeartbeat []) q.
Definition demo_msg (q : Z) : ValidMessage :=
  match parse (demo_raw q) with Ok (fs, _) => make_valid_message_view fs | Err _ => make_valid_message_view [] end.

Lemma demo_encrypt : - 2 ^ 31 <= encrypt_method demo_params < 2 ^ 31.
Proof. by vm_compute. Qed.

(** What the other engine sends is a plain message here. *)
Lemma demo_plain q : 1 <= q < 1000 -> plain (peer_params demo_params) q (demo_raw q) (demo_msg q).
Proof.
  intros Hq. assert (Hd : 1 <= zlen (to_dec q) <= 3) by (apply to_dec_length; lia).
  assert (Hl : zlen (fields_wire (demo_peer_fields q)) <= 100).
  { change (demo_peer_fields q) with (header_fields clock demo_params (B "0") q). unfold header_fields.
    rewrite !fields_wire_cons, !zlen_app, !field_wire_length. cbn [tag value]. rewrite i64_small, to_chars_nonneg by lia.
    change (zlen (fields_wire [])) with 0. change (zlen (to_dec 35)) with 2. change (zlen (to_dec 34)) with 2.
    change (zlen (to_dec 49)) with 2. change (zlen (to_dec 56)) with 2. change (zlen (to_dec 52)) with 2. change (zlen (B "0")) with 1.
    change (zlen (sender_comp_id demo_params)) with 2. change (zlen (target_comp_id demo_params)) with 4. change (zlen (now_fix clock)) with 3. lia. }
  destruct (outbound_read_back clock demo_params demo_session_text demo_encrypt (OHeartbeat []) q) as (ck & Ep & (s & Hc) & Hhas & Hnum);
    [done|apply not_elem_of_nil|lia|unfold demo_peer_fields in Hl; lia|]. cbv zeta in *.
  assert (Em : demo_msg q = make_valid_message_view ((mk_field 8 DEFAULT_FIX_VERSION :: mk_field 9 (to_dec (zlen (fields_wire (demo_peer_fields q))))
    :: demo_peer_fields q) ++ [mk_field 10 ck])) by (unfold demo_msg, demo_raw, outbound_bytes; rewrite Ep; done).
  split.
  - eexists. split; [exact Ep|exact Em].
  - rewrite Em. cbn [message_ make_valid_message_view]. by vm_compute.
  - exists (B "0"), s. rewrite Em. split; [exact Hc|by left].
  - rewrite Em. exact Hhas.
  - rewrite Em. exact Hnum.
  - pose proof (zlen_nonneg (fields_wire (demo_peer_fields q))).
    pose proof (to_dec_length (zlen (fields_wire (demo_peer_fields q))) ltac:(lia) 3 ltac:(lia) ltac:(lia)).
    unfold demo_raw, outbound_bytes, frame_wire. fold (demo_peer_fields q). rewrite !zlen_app, !field_wire_length. cbn [tag value].
    set (x := byte_sum _ mod 256). assert (0 <= x < 256) by (apply Z.mod_pos_bound; lia).
    destruct (checksum_text_spec x ltac:(lia)) as (_ & -> & _). change (zlen (to_dec 8)) with 1. change (zlen (to_dec 9)) with 1.
    change (zlen DEFAULT_FIX_VERSION) with 7. change (zlen (B "10=")) with 3. change (zlen [SOH]) with 1. lia.
Qed.

Definition demo_active : Session :=
  (session_new (mk_session_id 0 1) ACCEPTOR (peer_params demo_params)) <| conn_ := Some 7 |> <| state_ := ACTIVE |>.

Lemma demo_ready : ready demo_active [] 4.
Proof.
  split; [|done|by vm_compute|exists (mk_spec 0 ∅); apply new_represents|by vm_compute..].
  split; [apply scratch_new_wf| |by vm_compute|apply message_store_new_inv|done|done|by exists 7].
  split; [done|..]; (split; [done|apply (bool_decide_unpack _); by vm_compute]).
Qed.

Example session_reorders_witness :
  exists s' n, process_all (demo_raw <$> [3; 1; 5; 4]) demo_active = Ok s' /\ next_in (seqs s') = n /\ 1 <= n /\ (n ∉ [3; 1; 5; 4]) /\
    (forall q, 1 <= q < n -> q ∈ [3; 1; 5; 4]) /\ handled s' = handled demo_active ++ (demo_msg <$> seqZ 1 (n - 1)) /\
    (state_ s' = ACTIVE \/ state_ s' = RECOVERING_RESEND) /\
    (state_ s' = ACTIVE <-> forall q, q ∈ [3; 1; 5; 4] -> q < n).
Proof.
  apply (session_reorders demo_raw demo_msg demo_active [] [3; 1; 5; 4]).
  - apply demo_ready.
  - apply (bool_decide_unpack _). by vm_compute.
  - intros q Hq. change (next_in (seqs demo_active)) with 1. unfold window.
    enough (1 <= q < 513) by (split; [lia|apply demo_plain; lia]).
    repeat (apply elem_of_cons in Hq as [->|Hq]; [lia|]). by apply not_elem_of_nil in Hq.
Defined.

Example gap_recovery_demo :
  exists s', process_all (demo_raw <$> [4; 2; 1; 3]) demo_active = Ok s' /\ state_ s' = ACTIVE /\ next_in (seqs s') = 1 + 4 /\
    handled s' = handled demo_active ++ (demo_msg <$> seqZ 1 4).
Proof.
  apply (gap_recovery demo_raw demo_msg demo_active [] 4 [4; 2; 1; 3]).
  - apply demo_ready.
  - by vm_compute.
  - apply (bool_decide_unpack _). by vm_compute.
  - intros q Hq. apply demo_plain. repeat (apply elem_of_cons in Hq as [->|Hq]; [lia|]). by apply not_elem_of_nil in Hq.
Defined.
