(* ===== verification/SessionReads.v ===== *)
(** Reads of [Session]: however the transport cuts the stream, the session processes the
    messages that were sent, one after the other.

    The code between two reads looks at the framer and the trace only to append to the trace,
    so it respects the equivalence of sessions that forgets both ([similar]). *)
From Stdlib Require Import Strings.Byte Morphisms.
From stdpp Require Import gmap.
From S2P Require Import Prelude.
From S2P Require Import Text.
From S2P Require Import Network.
From S2P Require Import Message.
From S2P Require Import Parser.
From S2P Require Import Schema.
From S2P Require Import LinearBuffer.
From S2P Require Import Framer.
From S2P Require Import MessageStore.
From S2P Require Import RecoveryCache.
From S2P Require Import Validator.
From S2P Require Import Factory.
From S2P Require Import Session.
From S2P Require Import SessionBase.
From S2P Require Import SessionInbound.

(** ** Sessions up to their framer and their reads *)

Definition visible (l : list Effect) : list Effect :=
  List.filter (fun e => match e with ERead _ => false | _ => true end) l.

(** [s1] and [s2] agree but for their framers [f1] and [f2] and the reads in their traces; both
    have connection [c], and are stopped if [b]. *)
Record similar (f1 f2 : Framer) (c : option Z) (b : bool) (s1 s2 : Session) : Prop := {
  si_framer1 : framer_ s1 = f1;
  si_framer2 : framer_ s2 = f2;
  si_conn1 : conn_ s1 = c;
  si_conn2 : conn_ s2 = c;
  si_live : b = true -> stopped_ s1 = true;
  si_trace : visible (effects_ s1) = visible (effects_ s2);
  si_cache : recovery_cache_ s1 = recovery_cache_ s2;
  si_params : params_ s1 = params_ s2;
  si_queue : write_q_ s1 = write_q_ s2;
  si_id : id_ s1 = id_ s2;
  si_store : store_ s1 = store_ s2;
  si_state : state_ s1 = state_ s2;
  si_factory : msg_factory_ s1 = msg_factory_ s2;
  si_validator : validator_ s1 = validator_ s2;
  si_test_req : test_req_id_ s1 = test_req_id_ s2;
  si_stopped : stopped_ s1 = stopped_ s2;
  si_inflight : write_inflight_ s1 = write_inflight_ s2;
  si_awaiting : awaiting_test_request_response_ s1 = awaiting_test_request_response_ s2;
  si_reconnecting : reconnecting_ s1 = reconnecting_ s2;
  si_role : role_ s1 = role_ s2
}.

(** Results that agree. *)
Definition res_rel {A} (R : relation A) (x y : Res A) : Prop :=
  match x, y with Ok a, Ok b => R a b | Err f, Err g => f = g | _, _ => False end.

#[export] Instance bind_rel {A B} (R : relation A) (S : relation B) :
  Proper ((R ==> res_rel S) ==> res_rel R ==> res_rel S) (@mbind Res res_bind A B).
Proof. intros f g Hfg [x|e] [y|e'] H; cbn in *; try done. by apply Hfg. Qed.
#[export] Instance ok_rel {A} (R : relation A) : Proper (R ==> res_rel R) (@Ok A).
Proof. by intros x y H. Qed.
Lemma res_rel_refl {A} (x : Res A) : res_rel eq x x.
Proof. by destruct x. Qed.

Section Similar.
Context (f1 f2 : Framer) (c : option Z) (b : bool).
#[local] Notation "s1 ~ s2" := (similar f1 f2 c b s1 s2) (at level 70).
#[local] Notation "r1 ~~ r2" := (res_rel (similar f1 f2 c b) r1 r2) (at level 70).

(** Assignments of equal values. *)
Ltac sim_assign := intros H; destruct H; split; cbn; solve [assumption|congruence|auto].
Lemma set_state v s1 s2 : s1 ~ s2 -> s1 <| state_ := v |> ~ s2 <| state_ := v |>. Proof using. sim_assign. Qed.
Lemma set_stopped s1 s2 : s1 ~ s2 -> s1 <| stopped_ := true |> ~ s2 <| stopped_ := true |>. Proof using. sim_assign. Qed.
Lemma set_inflight v s1 s2 : s1 ~ s2 -> s1 <| write_inflight_ := v |> ~ s2 <| write_inflight_ := v |>. Proof using. sim_assign. Qed.
Lemma set_queue v s1 s2 : s1 ~ s2 -> s1 <| write_q_ := v |> ~ s2 <| write_q_ := v |>. Proof using. sim_assign. Qed.
Lemma set_cache v s1 s2 : s1 ~ s2 -> s1 <| recovery_cache_ := v |> ~ s2 <| recovery_cache_ := v |>. Proof using. sim_assign. Qed.
Lemma set_store v s1 s2 : s1 ~ s2 -> s1 <| store_ := v |> ~ s2 <| store_ := v |>. Proof using. sim_assign. Qed.
Lemma set_factory v s1 s2 : s1 ~ s2 -> s1 <| msg_factory_ := v |> ~ s2 <| msg_factory_ := v |>. Proof using. sim_assign. Qed.
Lemma set_validator v s1 s2 : s1 ~ s2 -> s1 <| validator_ := v |> ~ s2 <| validator_ := v |>. Proof using. sim_assign. Qed.
Lemma set_params v s1 s2 : s1 ~ s2 -> s1 <| params_ := v |> ~ s2 <| params_ := v |>. Proof using. sim_assign. Qed.
Lemma set_awaiting v s1 s2 : s1 ~ s2 -> s1 <| awaiting_test_request_response_ := v |> ~ s2 <| awaiting_test_request_response_ := v |>.
Proof using. sim_assign. Qed.
Lemma emit_sim e s1 s2 : s1 ~ s2 -> emit e s1 ~ emit e s2.
Proof using. intros []. split; try assumption. cbn. unfold visible in *. rewrite !List.filter_app. congruence. Qed.
Lemma if_sim (p : bool) x1 x2 y1 y2 : x1 ~ x2 -> y1 ~ y2 -> (if p then x1 else y1) ~ (if p then x2 else y2).
Proof using. by destruct p. Qed.
Lemma conn_sim {A} (R : relation A) (o : option Z) (x y : Z -> A) (x0 y0 : A) : (forall k, R (x k) (y k)) -> R x0 y0 ->
  R (match o with Some k => x k | None => x0 end) (match o with Some k => y k | None => y0 end).
Proof using. by destruct o. Qed.
Lemma ok_sim s1 s2 : s1 ~ s2 -> Ok s1 ~~ Ok s2.
Proof using. done. Qed.
Lemma bind_sim {A} (R : relation A) (f g : A -> Res Session) m1 m2 : res_rel R m1 m2 ->
  (forall x y, R x y -> f x ~~ g y) ->
  (let! x := m1 in f x) ~~ (let! x := m2 in g x).
Proof using. intros Hm Hf. by apply (bind_rel R (similar f1 f2 c b)). Qed.
Lemma bind_same {A} (f g : A -> Res Session) m : (forall x, f x ~~ g x) ->
  (let! x := m in f x) ~~ (let! x := m in g x).
Proof using. intros Hf. by destruct m as [x|e]; cbn. Qed.
Create HintDb sim discriminated.
#[local] Hint Constants Opaque : sim.
#[local] Hint Resolve set_state set_stopped set_inflight set_queue set_cache set_store set_factory set_validator set_params
  set_awaiting emit_sim if_sim ok_sim : sim.
Ltac sim := eauto 12 with sim.

Lemma log_sim ctx t s1 s2 : s1 ~ s2 -> log ctx t s1 ~ log ctx t s2.
Proof using. unfold log. sim. Qed.
Lemma cancel_timers_sim s1 s2 : s1 ~ s2 -> cancel_timers s1 ~ cancel_timers s2.
Proof using. unfold cancel_timers. sim. Qed.
Lemma close_conn_sim s1 s2 : s1 ~ s2 -> close_conn s1 ~ close_conn s2.
Proof using.
  intros H. unfold close_conn. rewrite (si_conn1 _ _ _ _ _ _ H), (si_conn2 _ _ _ _ _ _ H). apply conn_sim; sim.
Qed.
#[local] Hint Resolve log_sim cancel_timers_sim close_conn_sim : sim.

Lemma stop_sim s1 s2 : s1 ~ s2 -> stop_ s1 ~ stop_ s2.
Proof using.
  intros H. unfold stop_. rewrite <- (si_stopped _ _ _ _ _ _ H). destruct (stopped_ s1); [done|]. cbv zeta.
  assert (H1 : log fix_info (B "Session stopping") (s1 <| state_ := DISCONNECTED |>) ~ log fix_info (B "Session stopping") (s2 <| state_ := DISCONNECTED |>)) by sim.
  rewrite (si_conn1 _ _ _ _ _ _ H1), (si_conn2 _ _ _ _ _ _ H1).
  apply (conn_sim _ c (fun _ => _) (fun _ => _)); sim.
Qed.

(** ** Sending *)

Lemma do_write_sim s1 s2 : s1 ~ s2 -> do_write s1 ~~ do_write s2.
Proof using.
  intros H. unfold do_write. rewrite <- (si_queue _ _ _ _ _ _ H), <- (si_stopped _ _ _ _ _ _ H), (si_conn1 _ _ _ _ _ _ H), (si_conn2 _ _ _ _ _ _ H).
  destruct (write_q_ s1) as [|p q]; [sim|]. destruct (stopped_ s1); [sim|].
  apply (conn_sim (res_rel (similar f1 f2 c b)) c (fun k => Ok (emit _ s1)) (fun k => Ok (emit _ s2))); [sim|done].
Qed.
Lemma send_bytes_sim w s1 s2 : s1 ~ s2 -> send_bytes_ w s1 ~~ send_bytes_ w s2.
Proof using.
  intros H. unfold send_bytes_. rewrite <- (si_queue _ _ _ _ _ _ H). cbv zeta.
  pose proof (set_queue (write_q_ s1 ++ [mk_pending w 0]) _ _ H) as H1. rewrite <- (si_inflight _ _ _ _ _ _ H1).
  destruct (write_inflight_ _); [sim|apply do_write_sim; sim].
Qed.
Lemma schedule_heartbeat_sim s1 s2 : s1 ~ s2 -> schedule_heartbeat_ s1 ~ schedule_heartbeat_ s2.
Proof using. intros H. unfold schedule_heartbeat_. rewrite <- (si_params _ _ _ _ _ _ H). sim. Qed.
Lemma schedule_test_request_sim s1 s2 : s1 ~ s2 -> schedule_test_request_timeout_ s1 ~ schedule_test_request_timeout_ s2.
Proof using. intros H. unfold schedule_test_request_timeout_. rewrite <- (si_params _ _ _ _ _ _ H). sim. Qed.
#[local] Hint Resolve stop_sim schedule_heartbeat_sim schedule_test_request_sim : sim.

Lemma send_message_sim w r s1 s2 : s1 ~ s2 -> send_message_ w r s1 ~~ send_message_ w r s2.
Proof using.
  intros H. unfold send_message_. rewrite <- (si_stopped _ _ _ _ _ _ H). destruct (stopped_ s1); [sim|].
  apply (bind_sim (similar f1 f2 c b)); [by apply send_bytes_sim|]. clear s1 s2 H. intros s1 s2 H. apply (bind_sim (similar f1 f2 c b)).
  - destruct r; [sim|]. rewrite <- (si_store _ _ _ _ _ _ H). apply bind_same. sim.
  - clear s1 s2 H. intros s1 s2 H. rewrite <- (si_state _ _ _ _ _ _ H). sim.
Qed.
Lemma send_built_sim bd r s1 s2 : s1 ~ s2 -> send_built bd r s1 ~~ send_built bd r s2.
Proof using.
  intros H. unfold send_built. rewrite <- (si_factory _ _ _ _ _ _ H). destruct (bd (msg_factory_ s1)) as [w f]. apply send_message_sim. sim.
Qed.
(** An operation [msg_factory_.xxx(...)] followed by its send. *)
Ltac sim_send := intros H; cbv beta delta [send_logon send_reject send_logout send_heartbeat send_test_request send_resend_request
  send_custom send_sequence_reset_gap_fill]; rewrite <- (si_params _ _ _ _ _ _ H); by apply send_built_sim.
Lemma send_logon_sim r s1 s2 : s1 ~ s2 -> send_logon r s1 ~~ send_logon r s2. Proof using. sim_send. Qed.
Lemma send_reject_sim q r t x s1 s2 : s1 ~ s2 -> send_reject q r t x s1 ~~ send_reject q r t x s2. Proof using. sim_send. Qed.
Lemma send_logout_sim r s1 s2 : s1 ~ s2 -> send_logout r s1 ~~ send_logout r s2. Proof using. sim_send. Qed.
Lemma send_heartbeat_sim r s1 s2 : s1 ~ s2 -> send_heartbeat r s1 ~~ send_heartbeat r s2. Proof using. sim_send. Qed.
Lemma send_resend_request_sim x e s1 s2 : s1 ~ s2 -> send_resend_request x e s1 ~~ send_resend_request x e s2. Proof using. sim_send. Qed.
Lemma send_custom_sim p s1 s2 : s1 ~ s2 -> send_custom p s1 ~~ send_custom p s2. Proof using. sim_send. Qed.
Lemma send_gap_fill_sim q n s1 s2 : s1 ~ s2 -> send_sequence_reset_gap_fill q n s1 ~~ send_sequence_reset_gap_fill q n s2.
Proof using. sim_send. Qed.

Lemma stop_with_logout_sim r s1 s2 : s1 ~ s2 -> stop_with_logout r s1 ~~ stop_with_logout r s2.
Proof using.
  intros H. unfold stop_with_logout. rewrite <- (si_stopped _ _ _ _ _ _ H). destruct (stopped_ s1); [sim|].
  apply (bind_sim (similar f1 f2 c b)); [by apply send_logout_sim|]. intros. sim.
Qed.
#[local] Hint Resolve send_message_sim send_logon_sim send_reject_sim send_logout_sim send_heartbeat_sim send_resend_request_sim
  send_custom_sim send_gap_fill_sim stop_with_logout_sim : sim.

(** ** Handlers *)

Lemma seqs_sim s1 s2 : s1 ~ s2 -> seqs s1 = seqs s2.
Proof using. intros H. unfold seqs. by rewrite (si_factory _ _ _ _ _ _ H). Qed.
Lemma set_seqs_sim p s1 s2 : s1 ~ s2 -> set_seqs p s1 ~ set_seqs p s2.
Proof using. intros H. unfold set_seqs. rewrite (si_factory _ _ _ _ _ _ H). sim. Qed.
#[local] Hint Resolve set_seqs_sim : sim.

Lemma validate_heartbeat_sim v i s1 s2 : s1 ~ s2 ->
  exists p t1 t2, validate_heartbeat_int v i s1 = (p, t1) /\ validate_heartbeat_int v i s2 = (p, t2) /\ t1 ~ t2.
Proof using.
  intros H. unfold validate_heartbeat_int. rewrite <- (si_params _ _ _ _ _ _ H). cbv zeta.
  destruct (i && _); [eauto 6|]. destruct (_ || _); [eauto 6|]. do 3 eexists. split; [done|]. split; [done|sim].
Qed.

Lemma handle_logon_sim m s1 s2 : s1 ~ s2 -> handle_logon m s1 ~~ handle_logon m s2.
Proof using.
  intros H. unfold handle_logon. apply bind_same. intros v. cbv zeta.
  assert (H0 : log fix_info (B "Logon received") s1 ~ log fix_info (B "Logon received") s2) by sim.
  rewrite <- (si_role _ _ _ _ _ _ H0).
  destruct (validate_heartbeat_sim v (bool_decide (role_ (log fix_info (B "Logon received") s1) = INITIATOR)) _ _ H0) as (p & t1 & t2 & -> & -> & H1).
  clear s1 s2 H H0. destruct p; cbn [negb]; [|sim]. rewrite <- (si_role _ _ _ _ _ _ H1). destruct (role_ t1).
  - rewrite <- (si_params _ _ _ _ _ _ H1). destruct (_ && _); [sim|]. sim.
  - assert (H2 : t1 <| state_ := LOGON_RECEIVED |> ~ t2 <| state_ := LOGON_RECEIVED |>) by sim.
    rewrite <- (si_params _ _ _ _ _ _ H2). destruct (_ && _); [sim|].
    apply (bind_sim (similar f1 f2 c b)); [|intros; sim]. apply send_logon_sim. rewrite <- (seqs_sim _ _ H2). sim.
Qed.
Lemma handle_logout_sim m s1 s2 : s1 ~ s2 -> handle_logout m s1 ~~ handle_logout m s2.
Proof using.
  intros H. unfold handle_logout. assert (H0 : log fix_info (B "Logout received") s1 ~ log fix_info (B "Logout received") s2) by sim.
  cbv zeta. rewrite <- (si_state _ _ _ _ _ _ H0). unfold stop. case_bool_decide; [sim|].
  apply (bind_sim (similar f1 f2 c b)); [by apply send_logout_sim|]. intros. sim.
Qed.
Lemma handle_heartbeat_sim m s1 s2 : s1 ~ s2 -> handle_heartbeat m s1 ~~ handle_heartbeat m s2.
Proof using. intros H. unfold handle_heartbeat. sim. Qed.
Lemma handle_test_request_sim m s1 s2 : s1 ~ s2 -> handle_test_request m s1 ~~ handle_test_request m s2.
Proof using. intros H. unfold handle_test_request. apply bind_same. sim. Qed.
Lemma resend_one_sim a s1 s2 : s1 ~ s2 -> resend_one a s1 ~~ resend_one a s2.
Proof using.
  intros H. unfold resend_one. destruct (gap_fill a); [sim|]. rewrite <- (si_store _ _ _ _ _ _ H). apply bind_same. intros i.
  rewrite <- (si_params _ _ _ _ _ _ H), <- (si_factory _ _ _ _ _ _ H). apply bind_same. intros [w f]. sim.
Qed.
Lemma resend_loop_sim fuel st s1 s2 : s1 ~ s2 -> resend_loop fuel st s1 ~~ resend_loop fuel st s2.
Proof using.
  revert st s1 s2. induction fuel as [|fuel IH]; intros st s1 s2 H; [done|]. cbn [resend_loop]. destruct (has_next st); [|sim].
  apply bind_same. intros [a st']. apply (bind_sim (similar f1 f2 c b)); [by apply resend_one_sim|]. auto.
Qed.
Lemma handle_resend_request_sim m s1 s2 : s1 ~ s2 -> handle_resend_request m s1 ~~ handle_resend_request m s2.
Proof using.
  intros H. unfold handle_resend_request. apply bind_same. intros bt. apply bind_same. intros et.
  rewrite <- (seqs_sim _ _ H), <- (si_store _ _ _ _ _ _ H). by apply resend_loop_sim.
Qed.
Lemma handle_sequence_reset_sim m s1 s2 : s1 ~ s2 -> handle_sequence_reset m s1 ~~ handle_sequence_reset m s2.
Proof using.
  intros H. unfold handle_sequence_reset. apply bind_same. intros n. rewrite <- (seqs_sim _ _ H). destruct (_ && _); sim.
Qed.
Lemma handle_reject_sim m s1 s2 : s1 ~ s2 -> handle_reject m s1 ~~ handle_reject m s2.
Proof using. intros H. unfold handle_reject. destruct (find_field 45 m); [sim|done]. Qed.
Lemma handle_custom_sim m s1 s2 : s1 ~ s2 -> handle_custom m s1 ~~ handle_custom m s2.
Proof using.
  intros H. unfold handle_custom, readable_id. rewrite <- (si_params _ _ _ _ _ _ H), <- (si_id _ _ _ _ _ _ H). cbv zeta.
  destruct (find _ _ _); sim.
Qed.
#[local] Hint Resolve handle_logon_sim handle_logout_sim handle_heartbeat_sim handle_test_request_sim handle_resend_request_sim
  handle_sequence_reset_sim handle_reject_sim handle_custom_sim : sim.

Lemma handle_sim ty m s1 s2 : s1 ~ s2 -> handle ty m s1 ~~ handle ty m s2.
Proof using.
  intros H. unfold handle. assert (H0 : emit (EHandled m) s1 ~ emit (EHandled m) s2) by sim.
  repeat (case_bool_decide; [by auto with sim|]). rewrite <- (si_id _ _ _ _ _ _ H0). sim.
Qed.

(** ** Dispatch *)

Lemma cache_message_sim q raw s1 s2 : s1 ~ s2 -> cache_message q raw s1 ~~ cache_message q raw s2.
Proof using.
  intros H. unfold cache_message. rewrite <- (si_cache _ _ _ _ _ _ H). apply bind_same. intros []; [sim|]. apply bind_same. sim.
Qed.
#[local] Hint Resolve handle_sim cache_message_sim : sim.

Lemma check_sequence_sim ty q dup raw m s1 s2 : s1 ~ s2 -> check_sequence ty q dup raw m s1 ~~ check_sequence ty q dup raw m s2.
Proof using.
  intros H. unfold check_sequence. rewrite <- (seqs_sim _ _ H), <- (si_state _ _ _ _ _ _ H), <- (si_cache _ _ _ _ _ _ H). cbv zeta.
  destruct (_ =? _); [sim|]. destruct (_ && bool_decide _); [destruct (negb _); sim|]. destruct (_ <? q).
  - apply (bind_sim (similar f1 f2 c b)); [by apply send_resend_request_sim|]. generalize (next_in (seqs s1)) as n. clear s1 s2 H. intros n s1 s2 H.
    apply cache_message_sim. assert (H0 : s1 <| state_ := RECOVERING_RESEND |> ~ s2 <| state_ := RECOVERING_RESEND |>) by sim.
    rewrite <- (si_cache _ _ _ _ _ _ H0). sim.
  - destruct (_ && dup); sim.
Qed.

Lemma dispatch_sim fs raw s1 s2 : s1 ~ s2 -> dispatch fs raw s1 ~~ dispatch fs raw s2.
Proof using.
  intros H. unfold dispatch. rewrite <- (si_stopped _ _ _ _ _ _ H). destruct (stopped_ s1); [sim|].
  rewrite <- (si_params _ _ _ _ _ _ H), <- (si_validator _ _ _ _ _ _ H). cbv zeta. apply bind_same. intros v.
  pose proof (set_validator v _ _ H) as H1. revert H1. generalize (s1 <| validator_ := v |>) as t1, (s2 <| validator_ := v |>) as t2.
  clear s1 s2 H. intros s1 s2 H. case_bool_decide; [sim|]. destruct (errors (results_ v)) as [|e es]; [|sim].
  destruct (slot _ MsgTypeSlot) as [ty|]; [|sim]. destruct (negb (has_msg_seq_num _)); [sim|].
  assert (H1 : (if established (state_ s1) then schedule_test_request_timeout_ s1 else s1) ~
               (if established (state_ s2) then schedule_test_request_timeout_ s2 else s2)) by (rewrite <- (si_state _ _ _ _ _ _ H); sim).
  rewrite <- (si_state _ _ _ _ _ _ H1). destruct (_ && _); [sim|]. by apply check_sequence_sim.
Qed.

Definition drained (x y : bool * Session) : Prop := x.1 = y.1 /\ x.2 ~ y.2.
Lemma drain_loop_sim fuel s1 s2 : s1 ~ s2 -> res_rel drained (drain_loop fuel s1) (drain_loop fuel s2).
Proof using.
  revert s1 s2. induction fuel as [|fuel IH]; intros s1 s2 H; [done|]. cbn [drain_loop].
  rewrite <- (seqs_sim _ _ H), <- (si_cache _ _ _ _ _ _ H). destruct (contains _ _) as [[]|e]; cbn [mbind res_bind negb]; [|by split|done].
  destruct (RecoveryCache.get _ _) as [raw|e]; cbn [mbind res_bind]; [|done].
  destruct (parse raw) as [[fs [|e es]]|e]; cbn [mbind res_bind]; [| |done].
  - pose proof (dispatch_sim fs raw s1 s2 H) as Hd. destruct (dispatch fs raw s1) as [t1|], (dispatch fs raw s2) as [t2|]; [|by destruct Hd|by destruct Hd|exact Hd]. cbn [res_rel mbind res_bind] in Hd |- *.
    rewrite <- (si_cache _ _ _ _ _ _ Hd). destruct (consume _ _); [apply IH; sim|done].
  - pose proof (send_logout_sim (B "Parse error during recovery") s1 s2 H) as Hd.
    destruct (send_logout _ s1) as [t1|], (send_logout _ s2) as [t2|]; [|by destruct Hd|by destruct Hd|exact Hd]. cbn [res_rel mbind res_bind] in Hd |- *. split; [done|]. cbn. unfold stop. sim.
Qed.

Lemma drain_recovery_cache_sim s1 s2 : s1 ~ s2 -> drain_recovery_cache_ s1 ~~ drain_recovery_cache_ s2.
Proof using.
  intros H. unfold drain_recovery_cache_. rewrite <- (si_cache _ _ _ _ _ _ H), <- (si_state _ _ _ _ _ _ H). destruct (_ || _); [sim|].
  apply (bind_sim drained); [by apply drain_loop_sim|]. clear s1 s2 H. intros [r s1] [r' s2] [Hr H]. cbn in Hr, H. subst r'.
  destruct r; [sim|]. rewrite <- (si_cache _ _ _ _ _ _ H). sim.
Qed.

Lemma process_sim w s1 s2 : s1 ~ s2 -> process_wire_message_ w s1 ~~ process_wire_message_ w s2.
Proof using.
  intros H. unfold process_wire_message_. apply bind_same. intros [fs es].
  apply (bind_sim (similar f1 f2 c b)); [|apply drain_recovery_cache_sim]. destruct es; [by apply dispatch_sim|sim].
Qed.
End Similar.

(** The code between two reads respects the equivalence. *)
#[export] Instance process_wire_message_respects f1 f2 c b w :
  Proper (similar f1 f2 c b ==> res_rel (similar f1 f2 c b)) (process_wire_message_ w).
Proof. intros s1 s2. apply process_sim. Qed.

(** ** Processing a list of messages *)

Lemma process_all_sim f1 f2 c b ws s1 s2 : similar f1 f2 c b s1 s2 ->
  res_rel (similar f1 f2 c b) (process_all ws s1) (process_all ws s2).
Proof.
  revert s1 s2. induction ws as [|w ws IH]; intros s1 s2 H; [done|]. cbn [process_all].
  apply (bind_sim f1 f2 c b (similar f1 f2 c b)); [by apply process_sim|exact IH].
Qed.

Lemma similar_refl c b s : conn_ s = c -> (b = true -> stopped_ s = true) -> similar (framer_ s) (framer_ s) c b s s.
Proof. by split. Qed.

(** A stopped session stays stopped, and no message changes the connection. *)
Lemma process_all_stopped ws s t : process_all ws s = Ok t -> stopped_ s = true -> stopped_ t = true.
Proof.
  intros E Hs. pose proof (process_all_sim _ _ _ _ ws s s (similar_refl _ true s eq_refl (fun _ => Hs))) as H.
  rewrite E in H. by apply (si_live _ _ _ _ _ _ H).
Qed.

Lemma set_framer_similar f1 f2 c b f s1 s2 : similar f1 f2 c b s1 s2 -> similar f f2 c b (s1 <| framer_ := f |>) s2.
Proof. intros []. by split. Qed.
Lemma read_similar f1 f2 c b k s1 s2 : similar f1 f2 c b s1 s2 -> similar f1 f2 c b (emit (ERead k) s1) s2.
Proof. intros []. split; try done. cbn. unfold visible. by rewrite List.filter_app, app_nil_r. Qed.

(** The loop over the queued messages processes them one by one. *)
Lemma read_loop_spec fuel f2 c qs ms v rest s u t : similar (framer_ s) f2 c false s u ->
  synced (framer_ s) qs ms v rest -> origin_of (framer_ s) + zlen (view_of (framer_ s)) < 2 ^ 61 -> (length qs < fuel)%nat ->
  process_all qs u = Ok t ->
  exists r, read_loop fuel s = Ok r /\ similar (framer_ r) f2 c false r t /\ synced (framer_ r) [] ms v rest /\
    origin_of (framer_ r) + zlen (view_of (framer_ r)) = origin_of (framer_ s) + zlen (view_of (framer_ s)) /\
    LinearBuffer.capacity_ (buffer_ (framer_ r)) = LinearBuffer.capacity_ (buffer_ (framer_ s)).
Proof.
  revert qs s u. induction fuel as [|fuel IH]; intros qs s u H S Hb Hf E; [lia|]. cbn [read_loop].
  rewrite has_message_spec by apply S. rewrite (sy_windows _ _ _ _ _ S). destruct qs as [|m qs]; cbn [layout].
  { rewrite bool_decide_true by done. injection E as <-. by exists s. }
  rewrite bool_decide_false by done. cbn [negb length process_all] in *.
  destruct (get_consume_synced _ m qs ms v rest S Hb) as (-> & f1 & Ec & S1 & He & Hc). rewrite ok_bind.
  apply bind_ok in E as (u1 & Eu & E). pose proof (process_sim _ _ _ _ m s u H) as H1. rewrite Eu in H1.
  destruct (process_wire_message_ m s) as [s1|]; [|done]. rewrite ok_bind. cbn [res_rel] in H1.
  rewrite (si_framer1 _ _ _ _ _ _ H1), Ec, ok_bind.
  destruct (IH qs (s1 <| framer_ := f1 |>) u1) as (r & Er & Hr & Sr & Her & Hcr);
    [by eapply set_framer_similar|exact S1|cbn [upd framer_]; lia|lia|exact E|].
  exists r. split_and!; [exact Er|exact Hr|exact Sr|rewrite Her; exact He|rewrite Hcr; exact Hc].
Qed.

(** ** Reads *)

Definition read_events (chunks : list bytes) : list event := EvRead success <$> chunks.

(** One read. *)
Lemma read_handler_spec data f2 c ms v rest s u : similar (framer_ s) f2 (Some c) false s u -> stopped_ s = false ->
  synced (framer_ s) [] ms v (data ++ rest) ->
  origin_of (framer_ s) + zlen (view_of (framer_ s)) + zlen data < 2 ^ 61 ->
  LinearBuffer.capacity_ (buffer_ (framer_ s)) + zlen data + Min_Grow < 2 ^ 62 ->
  exists qs ms' v', ms = qs ++ ms' /\ v ++ data = concat qs ++ v' /\ (zlen qs = Completed_Capacity \/ starved ms' v') /\
    forall t, process_all qs u = Ok t ->
    exists r, read_handler success data s = Ok r /\ similar (framer_ r) f2 (Some c) false r t /\ synced (framer_ r) [] ms' v' rest /\
      origin_of (framer_ r) + zlen (view_of (framer_ r)) = origin_of (framer_ s) + zlen (view_of (framer_ s)) + zlen data /\
      LinearBuffer.capacity_ (buffer_ (framer_ r)) <= LinearBuffer.capacity_ (buffer_ (framer_ s)) + zlen data + Min_Grow.
Proof.
  intros H Hs Sy Hb Hc. destruct (append_synced data _ ms v rest Sy Hb Hc) as (f1 & qs & ms' & v' & E & -> & Ev & S1 & Hl & Hd & He & Hca).
  exists qs, ms', v'. split_and!; try done. intros t Et. unfold read_handler. rewrite Hs. cbn [orb].
  rewrite bool_decide_false, bool_decide_true by done. cbn [negb]. rewrite E, ok_bind.
  destruct (read_loop_spec (S (Z.to_nat Completed_Capacity)) f2 (Some c) qs ms' v' rest (s <| framer_ := f1 |>) u t)
    as (r & -> & Hr & Sr & Her & Hcr); [by eapply set_framer_similar|exact S1|cbn [upd framer_]; lia|unfold zlen in Hl; lia|exact Et|].
  cbn [upd framer_] in Her, Hcr. rewrite ok_bind. unfold do_read. destruct (stopped_ r).
  - exists r. split_and!; try done; lia.
  - rewrite (si_conn1 _ _ _ _ _ _ Hr). exists (emit (ERead c) r). split; [done|].
    split; [by apply read_similar|]. split; [exact Sr|]. change (framer_ (emit (ERead c) r)) with (framer_ r). lia.
Qed.

Lemma process_all_app ws1 ws2 s : process_all (ws1 ++ ws2) s = (let! s1 := process_all ws1 s in process_all ws2 s1).
Proof. revert s. induction ws1 as [|w ws1 IH]; intros s; [done|]. cbn [app process_all]. by destruct (process_wire_message_ w s); cbn; [apply IH|]. Qed.

Lemma read_run_spec k chunks f2 c ms v s u t : similar (framer_ s) f2 (Some c) false s u -> stopped_ t = false ->
  synced (framer_ s) [] ms v (concat chunks) -> starved ms v ->
  Forall (fun m => k <= zlen m) ms -> Forall (fun c => zlen c <= read_limit k) chunks ->
  origin_of (framer_ s) + zlen (view_of (framer_ s)) + framer_cost (FAppend <$> chunks) < 2 ^ 61 ->
  LinearBuffer.capacity_ (buffer_ (framer_ s)) + framer_cost (FAppend <$> chunks) < 2 ^ 62 ->
  process_all ms u = Ok t ->
  exists r, session_run (read_events chunks) s = Ok r /\ similar (framer_ r) f2 (Some c) false r t.
Proof.
  revert s u ms v. induction chunks as [|d cs IH]; intros s u ms v H Ht S Hst Hms Hcs Hb Hc E.
  - exists s. split; [done|]. destruct S as [_ _ _ Er _ _ _]. cbn in Er. rewrite app_nil_r in Er. subst v.
    destruct ms as [|m ms]; [by injection E as <-|]. cbn in Hst. rewrite zlen_app in Hst. pose proof (zlen_nonneg (concat ms)). lia.
  - inversion Hcs; subst. cbn [fmap list_fmap framer_cost concat] in *.
    assert (0 <= framer_cost (FAppend <$> cs)) by (clear; induction cs; cbn; unfold Min_Grow; zlia).
    assert (Hs : stopped_ s = false).
    { rewrite (si_stopped _ _ _ _ _ _ H). destruct (stopped_ u) eqn:Eu; [|done]. by rewrite (process_all_stopped _ _ _ E Eu) in Ht. }
    unfold Min_Grow in *.
    destruct (read_handler_spec d f2 c ms v (concat cs) s u H Hs S) as (qs & ms' & v' & -> & Ev & Hd & Hk); [lia|unfold Min_Grow; lia|].
    rewrite process_all_app in E. apply bind_ok in E as (u1 & E1 & E2).
    destruct (Hk u1 E1) as (r & Er & Hr & Sr & Hend & Hcap). unfold Min_Grow in *.
    apply Forall_app in Hms as [Hqs Hms'].
    pose proof (chunk_not_full k qs ms' v v' d Hst Ev Hqs ltac:(done)). destruct Hd as [?|Hst1]; [lia|].
    unfold read_events. cbn [fmap list_fmap session_run session_step]. rewrite Er, ok_bind.
    apply (IH r u1 ms' v'); try done; lia.
Qed.

(** C11: however the transport cuts the stream into reads, the session does what it would do
    if the messages were handed to it one by one.  A connected session whose framer is empty
    reads the chunks of a stream of frames (of [k] bytes or more, at most [1023 * k] at a time); if processing the messages in order gives a session
    [t] that is not stopped, the reads succeed and give the same session: the same state,
    sequence numbers, queue, store and cache and the same actions, in the same order, but for
    the reads started in between. *)
Theorem reads_process_messages k s c ms chunks t : conn_ s = Some c -> framer_ s = framer_new ->
  concat chunks = concat ms -> Forall is_frame ms -> Forall (fun m => k <= zlen m) ms ->
  Forall (fun c => zlen c <= read_limit k) chunks -> framer_cost (FAppend <$> chunks) < 2 ^ 60 ->
  process_all ms s = Ok t -> stopped_ t = false ->
  exists r, session_run (read_events chunks) s = Ok r /\ similar (framer_ r) framer_new (Some c) false r t.
Proof.
  intros Hc Hf Ec Hms Hlen Hcs Hcost E Ht.
  assert (Hsim : similar (framer_ s) framer_new (Some c) false s s) by (rewrite Hf; by split).
  assert (Hsy : synced (framer_ s) [] ms [] (concat chunks)) by (rewrite Hf, Ec; by apply framer_new_synced).
  apply (read_run_spec k chunks framer_new c ms [] s s t Hsim Ht Hsy (starved_nil ms Hms) Hlen Hcs); [| |exact E]; rewrite Hf.
  - change (origin_of framer_new) with 0. change (zlen (view_of framer_new)) with 0. lia.
  - change (LinearBuffer.capacity_ (buffer_ framer_new)) with 65536. lia.
Qed.

(** Two test requests, cut inside the first one. *)
Definition demo_request_bytes (q : Z) : bytes := outbound_bytes demo_params (OTestRequest (B "are you still there?")) q.
Definition demo_stream : bytes := demo_request_bytes 1 ++ demo_request_bytes 2.
Definition demo_chunks : list bytes := [zsub 0 33 demo_stream; zsub 33 (zlen demo_stream - 33) demo_stream].

Example reads_process_messages_witness :
  exists t r, process_all [demo_request_bytes 1; demo_request_bytes 2] demo_active = Ok t /\ next_in (seqs t) = 3 /\
    session_run (read_events demo_chunks) demo_active = Ok r /\ similar (framer_ r) framer_new (Some 7) false r t.
Proof.
  assert (H : exists t, process_all [demo_request_bytes 1; demo_request_bytes 2] demo_active = Ok t /\ stopped_ t = false /\ next_in (seqs t) = 3).
  { apply ok_such. vm_compute. split; reflexivity. }
  destruct H as (t & E & Ht & Hn).
  destruct (reads_process_messages 65 demo_active 7 [demo_request_bytes 1; demo_request_bytes 2] demo_chunks t) as (r & Er & Hr).
  - reflexivity.
  - reflexivity.
  - by vm_compute.
  - assert (Hf : forall q, zlen (fields_wire (outbound_body clock demo_params (OTestRequest (B "are you still there?")) q)) <= MAX_MESSAGE_SIZE ->
      is_frame (demo_request_bytes q)) by (intros q Hq; by apply frame_wire_is_frame).
    repeat constructor; apply Hf; by vm_compute.
  - repeat constructor; by vm_compute.
  - repeat constructor; by vm_compute.
  - by vm_compute.
  - exact E.
  - exact Ht.
  - exact (ex_intro _ t (ex_intro _ r (conj E (conj Hn (conj Er Hr))))).
Defined.
