(* ===== verification/SessionOutbound.v ===== *)
(** The outbound side of [Session]: what is sent is stored under its number, reaches the
    transport byte for byte and in order, and is resent on request. *)
From Stdlib Require Import Strings.Byte.
From S2P Require Import Prelude.
From S2P Require Import Text.
From S2P Require Import Network.
From S2P Require Import Message.
From S2P Require Import Parser.
From S2P Require Import Schema.
From S2P Require Import Framer.
From S2P Require Import MessageStore.
From S2P Require Import RecoveryCache.
From S2P Require Import Validator.
From S2P Require Import Factory.
From S2P Require Import Session.
From S2P Require Import SessionBase.

(** ** Sent messages *)

(** The bytes of the messages [1, 2, ...]. *)
Definition sent_wires (params : SessionParameters) (ms : list Outbound) : list bytes :=
  imap (fun i m => outbound_bytes params m (Z.of_nat i + 1)) ms.

Definition storable (m : Outbound) : Prop := app_fields_ok m /\ sendable m.

(** A connected session that has sent [ms]. *)
Record has_sent (s : Session) (ms : list Outbound) : Prop := {
  hs_ok : session_ok s (sent_wires (params_ s) ms);
  hs_storable : Forall storable ms
}.

Lemma sent_wires_snoc params ms m : sent_wires params (ms ++ [m]) = sent_wires params ms ++ [outbound_bytes params m (zlen ms + 1)].
Proof. unfold sent_wires. rewrite imap_app. cbn. unfold zlen. by rewrite Nat.add_0_r. Qed.

Lemma sent_wires_length params ms : zlen (sent_wires params ms) = zlen ms.
Proof. unfold sent_wires, zlen. by rewrite length_imap. Qed.

Lemma sent_wires_lookup params ms k m : ms !! k = Some m -> sent_wires params ms !! k = Some (outbound_bytes params m (Z.of_nat k + 1)).
Proof. intros H. unfold sent_wires. by rewrite list_lookup_imap, H. Qed.

Lemma send_one m s ms : has_sent s ms -> storable m -> zlen ms + 2 < 2 ^ 32 ->
  zlen (concat (sent_wires (params_ s) (ms ++ [m]))) < 2 ^ 31 ->
  exists s', send_built (build clock (params_ s) m) false s = Ok s' /\ has_sent s' (ms ++ [m]) /\ kept s s' /\ adds send_effect s s' /\
    write_q_ s' = write_q_ s ++ [mk_pending (outbound_bytes (params_ s) m (zlen ms + 1)) 0].
Proof.
  intros [I Hst] [Ha Hs] Hn Hb. rewrite sent_wires_snoc, concat_app, zlen_app in Hb. cbn [concat] in Hb. rewrite app_nil_r in Hb.
  destruct (send_outbound m s _ I Ha Hs) as (s' & E & I' & K & A & Hq); rewrite ?sent_wires_length; [done|done|].
  rewrite sent_wires_length in *. exists s'. split_and!; try done. split.
  - rewrite (kp_params _ _ K), sent_wires_snoc. exact I'.
  - apply Forall_app. split; [done|]. by repeat constructor.
Qed.

Fixpoint send_all (ms : list Outbound) (s : Session) : Res Session :=
  match ms with
  | [] => Ok s
  | m :: ms' => let! s := send_built (build clock (params_ s) m) false s in send_all ms' s
  end.

Definition queued (s : Session) : list bytes := data <$> write_q_ s.

Lemma send_all_spec ms s ms0 : has_sent s ms0 -> Forall storable ms -> zlen ms0 + zlen ms + 1 < 2 ^ 32 ->
  zlen (concat (sent_wires (params_ s) (ms0 ++ ms))) < 2 ^ 31 ->
  exists s', send_all ms s = Ok s' /\ has_sent s' (ms0 ++ ms) /\ kept s s' /\
    sent_wires (params_ s) (ms0 ++ ms) = sent_wires (params_ s) ms0 ++ zdrop (zlen ms0) (sent_wires (params_ s) (ms0 ++ ms)) /\
    queued s' = queued s ++ zdrop (zlen ms0) (sent_wires (params_ s) (ms0 ++ ms)).
Proof.
  intros H0 Hms. revert s ms0 H0. induction Hms as [|m ms Hm _ IH]; intros s ms0 H0 Hn Hb; cbn [send_all].
  - exists s. rewrite app_nil_r. rewrite zdrop_all by (rewrite sent_wires_length; lia). rewrite !app_nil_r. done.
  - rewrite zlen_cons in Hn. pose proof (zlen_nonneg ms). rewrite cons_middle, app_assoc in Hb |- *.
    assert (Hpre : exists r, sent_wires (params_ s) ((ms0 ++ [m]) ++ ms) = sent_wires (params_ s) (ms0 ++ [m]) ++ r)
      by (unfold sent_wires; rewrite (imap_app _ (ms0 ++ [m])); eauto).
    destruct Hpre as [r Hr].
    destruct (send_one m s ms0 H0 Hm) as (s1 & -> & H1 & K & A & Hq); [lia| |].
    { rewrite Hr, concat_app, zlen_app in Hb. pose proof (zlen_nonneg (concat r)). lia. }
    rewrite ok_bind. pose proof (kp_params _ _ K) as Kp.
    destruct (IH s1 (ms0 ++ [m]) H1) as (s' & E & H' & K' & _ & Hq'); [rewrite zlen_app; change (zlen [m]) with 1; lia|by rewrite Kp|].
    exists s'. split; [done|]. split; [done|]. split; [by etransitivity|]. rewrite Kp, Hr in Hq'. rewrite Hr.
    rewrite <- (sent_wires_length (params_ s) (ms0 ++ [m])), zdrop_app_exact in Hq'.
    rewrite sent_wires_snoc, <- app_assoc, <- (sent_wires_length (params_ s) ms0), zdrop_app_exact. split; [done|].
    rewrite Hq'. unfold queued. rewrite Hq, fmap_app, <- app_assoc. cbn. by rewrite sent_wires_length.
Qed.

(** C8: sending keeps the queue, the store and the sequence numbers in step.  A connected
    session that sends [ms] queues one wire per message, in order, the [i]-th of them numbered
    [next_out + i]; each is in the outbound store under its number, byte for byte; the next
    number is the count of all messages sent plus one; and nothing inbound changes. *)
Theorem sends_in_step ms s ms0 : has_sent s ms0 -> Forall storable ms -> zlen ms0 + zlen ms + 1 < 2 ^ 32 ->
  zlen (concat (sent_wires (params_ s) (ms0 ++ ms))) < 2 ^ 31 ->
  exists s', send_all ms s = Ok s' /\ kept s s' /\ next_out (seqs s') = zlen (ms0 ++ ms) + 1 /\
    queued s' = queued s ++ zdrop (zlen ms0) (sent_wires (params_ s) (ms0 ++ ms)) /\
    forall k m, (ms0 ++ ms) !! k = Some m ->
      exists i, get_message_index (Z.of_nat k + 1) (store_ s') = Ok i /\
                get_message_wire i (store_ s') = outbound_bytes (params_ s) m (Z.of_nat k + 1).
Proof.
  intros H0 Hms Hn Hb. destruct (send_all_spec ms s ms0 H0 Hms Hn Hb) as (s' & E & [I' Hst] & K & _ & Hq).
  exists s'. split; [exact E|]. split; [exact K|]. split; [rewrite (so_next _ _ I'), sent_wires_length; reflexivity|]. split; [exact Hq|].
  intros k m Hk. destruct (store_inv_read _ _ k _ (so_store _ _ I') (sent_wires_lookup (params_ s') _ _ _ Hk)) as (i & E1 & _ & E2 & _).
  exists i. split; [exact E1|]. rewrite E2, (kp_params _ _ K). reflexivity.
Qed.

(** ** Resending *)

(** The gap fill for [b .. n - 1]. *)
Definition gap_bytes (params : SessionParameters) (b n : Z) : bytes :=
  frame_wire DEFAULT_FIX_VERSION (fields_wire (header_fields clock params (B "4") b ++
    [mk_field 123 (B "Y"); mk_field 36 (to_chars (i64 n)); mk_field 43 (B "Y"); mk_field 122 (now_fix clock)])).

(** Message [m] again, as a possible duplicate. *)
Definition resent_bytes (params : SessionParameters) (m : Outbound) (q : Z) : bytes :=
  frame_wire DEFAULT_FIX_VERSION (fields_wire (outbound_body clock params m q ++
    [mk_field 43 (B "Y"); mk_field 122 (now_fix clock)])).

(** Administrative messages are not resent. *)
Definition never_resent (m : Outbound) : bool := no_resend (ztake 2 (type_of m)).

(** The answer to a request for [b .. e]: each maximal run of administrative messages is
    covered by one gap fill, every other message is sent again under its own number. *)
Inductive answers (params : SessionParameters) (ms : list Outbound) : Z -> Z -> list bytes -> Prop :=
  | ans_done b e : e < b -> answers params ms b e []
  | ans_gap b e x ws : b <= x <= e ->
      (forall q, b <= q <= x -> exists m, znth ms (q - 1) = Some m /\ never_resent m = true) ->
      (x = e \/ exists m, znth ms x = Some m /\ never_resent m = false) ->
      answers params ms (x + 1) e ws -> answers params ms b e (gap_bytes params b (x + 1) :: ws)
  | ans_message b e m ws : b <= e -> znth ms (b - 1) = Some m -> never_resent m = false ->
      answers params ms (b + 1) e ws -> answers params ms b e (resent_bytes params m b :: ws).

Lemma to_z {A} (l : list A) (k : nat) : znth l (Z.of_nat k) = l !! k.
Proof. unfold znth. rewrite (proj2 (Z.ltb_ge _ _)) by lia. by rewrite Nat2Z.id. Qed.

(** What the store knows of message [q]. *)
Lemma stored_at s ms q : has_sent s ms -> 1 <= q <= zlen ms -> zlen ms + 1 < 2 ^ 32 ->
  zlen (concat (sent_wires (params_ s) ms)) < 2 ^ 31 ->
  exists m i, znth ms (q - 1) = Some m /\ storable m /\ znth (outbound_index_ (store_ s)) (q - 1) = Some i /\
    get_message_index q (store_ s) = Ok i /\ get_message_wire i (store_ s) = outbound_bytes (params_ s) m q /\
    create_message_index (outbound_bytes (params_ s) m q) (off i) = Ok i /\ zlen (outbound_bytes (params_ s) m q) < 2 ^ 31 /\
    no_resend (get_msg_type i) = never_resent m.
Proof.
  intros [I Hst] Hq Hn Hb. destruct (znth_is_Some ms (q - 1)) as [m Hm]; [lia|].
  assert (Ek : q - 1 = Z.of_nat (Z.to_nat (q - 1))) by lia. rewrite Ek, to_z in Hm.
  pose proof (sent_wires_lookup (params_ s) _ _ _ Hm) as Hw.
  destruct (store_inv_read _ _ _ _ (so_store _ _ I) Hw) as (i & E1 & E2 & E3 & E4 & E5).
  rewrite <- Ek in E1, E3, E4, E5, Hw. replace (q - 1 + 1) with q in * by lia.
  assert (Hs : storable m) by (rewrite Forall_forall in Hst; apply Hst; by eapply list_elem_of_lookup_2).
  assert (Hl : zlen (outbound_bytes (params_ s) m q) < 2 ^ 31).
  { rewrite <- (take_drop_middle _ _ _ Hw), concat_app, zlen_app in Hb. cbn [concat] in Hb. rewrite zlen_app in Hb. zlen_pos. lia. }
  exists m, i. split; [by rewrite Ek, to_z|]. split_and!; try assumption.
  destruct Hs as [Ha Hs]. destruct (outbound_stored (params_ s) m q (so_text _ _ I) (so_enc _ _ I) Ha Hs ltac:(lia) Hl) as (ck & Ew & Hsm & _).
  cbv zeta in Ew, Hsm. rewrite Ew in E5. destruct (stored_index q _ ck (off i) Hsm ltac:(lia)) as (i' & E5' & _ & _ & _ & Hty).
  rewrite E5 in E5'. injection E5' as <-. unfold never_resent. f_equal. apply Hty. right. right. left.
Qed.

Lemma outbound_at_least params m q : zlen (fields_wire (outbound_body clock params m q)) <= zlen (outbound_bytes params m q).
Proof. unfold outbound_bytes, frame_wire. rewrite !zlen_app. zlen_pos. lia. Qed.

(** A resent wire is queued; nothing else that the store depends on changes. *)
Lemma queue_resend s ms w f : has_sent s ms -> scratch_wf (scratch_ f) -> seq_provider_ f = seqs s ->
  exists s', send_message_ w true (s <| msg_factory_ := f |>) = Ok s' /\ has_sent s' ms /\ kept s s' /\ adds send_effect s s' /\
    store_ s' = store_ s /\ seqs s' = seqs s /\ queued s' = queued s ++ [w].
Proof.
  intros [I Hst] Wf Sf. set (s0 := s <| msg_factory_ := f |>).
  destruct (resend_message_spec w s0 (so_live _ _ I) (so_conn _ _ I)) as (s' & Es & K & A & S1 & S2 & S3).
  exists s'. split; [exact Es|]. assert (Eseq : seqs s' = seqs s) by (unfold seqs; rewrite S2; exact Sf).
  assert (K' : kept s s') by (destruct K; split; try done; by rewrite Eseq). destruct I as [I1 I2 I3 I4 I5 I6 I7].
  split_and!; [|exact K'| |exact S1|exact Eseq|].
  - split; [|exact Hst]. rewrite (kp_params _ _ K'). split.
    + rewrite S2. exact Wf.
    + by rewrite (kp_params _ _ K').
    + by rewrite (kp_params _ _ K').
    + by rewrite S1.
    + by rewrite Eseq.
    + by rewrite (kp_stopped _ _ K').
    + by rewrite (kp_conn _ _ K').
  - destruct A as (l & El & Hl'). by exists l.
  - unfold queued. by rewrite S3, fmap_app.
Qed.

(** A message from the store is regenerated and queued. *)
Lemma resend_message s ms q : has_sent s ms -> 1 <= q <= zlen ms -> zlen ms + 1 < 2 ^ 32 ->
  zlen (concat (sent_wires (params_ s) ms)) < 2 ^ 31 -> (forall m, znth ms (q - 1) = Some m -> never_resent m = false) ->
  exists m s', resend_one (mk_action q q false) s = Ok s' /\ znth ms (q - 1) = Some m /\ has_sent s' ms /\ kept s s' /\
    adds send_effect s s' /\ store_ s' = store_ s /\ seqs s' = seqs s /\ queued s' = queued s ++ [resent_bytes (params_ s) m q].
Proof.
  intros H Hq Hn Hb Hr. destruct (stored_at s ms q H Hq Hn Hb) as (m & i & Hm & [Ha Hs] & Hi & E1 & E2 & E3 & Hl & _).
  destruct H as [I Hst]. destruct (outbound_stored (params_ s) m q (so_text _ _ I) (so_enc _ _ I) Ha Hs ltac:(lia) Hl) as (ck & Ew & Hsm & Hck).
  cbv zeta in Ew, Hsm. pose proof (outbound_at_least (params_ s) m q) as Hle. pose proof (zlen_nonneg (fields_wire (outbound_body clock (params_ s) m q))).
  destruct (outbound_tags (params_ s) m q Ha) as (_ & _ & H43 & H122).
  unfold resend_one. cbn [gap_fill begin_seq_no]. rewrite E1, ok_bind, E2, Ew. rewrite Ew in E3.
  set (body := outbound_body clock (params_ s) m q) in *.
  set (l1 := [mk_field 35 (type_of m); mk_field 34 (to_chars (i64 q)); mk_field 49 (sender_comp_id (params_ s)); mk_field 56 (target_comp_id (params_ s))]).
  assert (Eb : body = l1 ++ mk_field 52 (now_fix clock) :: fields_of (params_ s) m) by done. rewrite Eb in *.
  destruct (regenerate_spec clock (params_ s) q l1 (now_fix clock) (fields_of (params_ s) m) (to_dec (zlen (fields_wire (l1 ++ mk_field 52 (now_fix clock) :: fields_of (params_ s) m)))) ck (off i) i (msg_factory_ s))
    as (f & -> & Wf & Sf); [exact Hsm|apply to_dec_digits; lia|exact Hck|exact H43|exact H122|exact E3|by vm_compute|done|apply (st_version _ _ (so_text _ _ I))|apply (so_scratch _ _ I)|].
  rewrite ok_bind. cbv beta iota.
  destruct (queue_resend s ms (resent_bytes (params_ s) m q) f) as (s' & Es & R); [by split|exact Wf|exact Sf|].
  exists m, s'. split; [|split; [exact Hm|exact R]]. unfold resent_bytes in Es. fold body in Es. rewrite Eb in Es. exact Es.
Qed.

Lemma gap_fill_size params b n : zlen (sender_comp_id params) + zlen (target_comp_id params) < 2 ^ 30 ->
  zlen (fields_wire (header_fields clock params (B "4") b ++
    [mk_field 123 (B "Y"); mk_field 36 (to_chars (i64 n)); mk_field 43 (B "Y"); mk_field 122 (now_fix clock)])) < 10 ^ 10.
Proof.
  intros Hr. pose proof (i64_range b). pose proof (i64_range n).
  pose proof (to_chars_length (i64 b) ltac:(lia)). pose proof (to_chars_length (i64 n) ltac:(lia)). unfold header_fields. cbn [app].
  rewrite !fields_wire_cons, !zlen_app, !field_wire_length. cbn [tag value]. change (zlen (fields_wire [])) with 0.
  change (zlen (to_dec 35)) with 2. change (zlen (to_dec 34)) with 2. change (zlen (to_dec 49)) with 2. change (zlen (to_dec 56)) with 2.
  change (zlen (to_dec 52)) with 2. change (zlen (to_dec 123)) with 3. change (zlen (to_dec 36)) with 2. change (zlen (to_dec 43)) with 2.
  change (zlen (to_dec 122)) with 3. change (zlen (B "4")) with 1. change (zlen (B "Y")) with 1. change (zlen (now_fix clock)) with 3. lia.
Qed.

(** A gap fill is built and queued. *)
Lemma resend_gap s ms b x : has_sent s ms -> zlen (sender_comp_id (params_ s)) + zlen (target_comp_id (params_ s)) < 2 ^ 30 ->
  0 <= x < 2 ^ 32 ->
  exists s', resend_one (mk_action b x true) s = Ok s' /\ has_sent s' ms /\ kept s s' /\ adds send_effect s s' /\
    store_ s' = store_ s /\ seqs s' = seqs s /\ queued s' = queued s ++ [gap_bytes (params_ s) b (x + 1)].
Proof.
  intros [I Hst] Hid Hx. unfold resend_one, send_sequence_reset_gap_fill, send_built. cbn [gap_fill begin_seq_no end_seq_no].
  rewrite u64_small by lia. pose proof (st_version _ _ (so_text _ _ I)) as Ev.
  destruct (gap_fill_build clock (params_ s) b (x + 1) (msg_factory_ s) (so_scratch _ _ I)) as (f & -> & Wf & Sf);
    [by rewrite Ev|by apply gap_fill_size|].
  rewrite Ev. apply queue_resend; [by split|exact Wf|exact Sf].
Qed.

Fixpoint resend_all (acts : list ResendAction) (s : Session) : Res Session :=
  match acts with
  | [] => Ok s
  | a :: acts' => let! s := resend_one a s in resend_all acts' s
  end.

(** The loop takes the actions of the stream one by one. *)
Lemma resend_loop_all fuel stream acts s : resend_actions fuel stream = Ok acts -> resend_loop fuel stream s = resend_all acts s.
Proof.
  revert stream acts s. induction fuel as [|fuel IH]; intros stream acts s; [done|]. cbn [resend_actions resend_loop].
  destruct (has_next stream); [|by intros [= <-]]. intros E. apply bind_ok in E as ([a st'] & -> & E).
  apply bind_ok in E as (acts' & E & [= <-]). cbn [mbind res_bind resend_all]. destruct (resend_one a s) as [s1|f]; cbn [mbind res_bind]; [|done].
  by apply IH.
Qed.

(** A tiling of the request by actions is answered. *)
Lemma resend_all_spec s0 ms b e acts : zlen ms + 1 < 2 ^ 32 -> zlen (concat (sent_wires (params_ s0) ms)) < 2 ^ 31 ->
  zlen (sender_comp_id (params_ s0)) + zlen (target_comp_id (params_ s0)) < 2 ^ 30 ->
  tiles (outbound_index_ (store_ s0)) b e acts -> 1 <= b -> e <= zlen ms ->
  forall s, has_sent s ms -> store_ s = store_ s0 -> params_ s = params_ s0 ->
  exists s' ws, resend_all acts s = Ok s' /\ answers (params_ s0) ms b e ws /\ has_sent s' ms /\ kept s s' /\ adds send_effect s s' /\
    store_ s' = store_ s0 /\ seqs s' = seqs s /\ queued s' = queued s ++ ws.
Proof.
  intros Hn Hb Hid Ht. induction Ht as [b e Hlt|b e x acts Hx Hsk Hor Ht IH|b e acts Hle Hre Ht IH]; intros H1 He s Hs Est Ep.
  - exists s, []. rewrite app_nil_r. split_and!; [reflexivity|constructor; exact Hlt|exact Hs|reflexivity|reflexivity|exact Est|reflexivity|reflexivity].
  - assert (Ha : forall q, 1 <= q <= zlen ms -> exists m i, znth ms (q - 1) = Some m /\ znth (outbound_index_ (store_ s0)) (q - 1) = Some i /\
      no_resend (get_msg_type i) = never_resent m).
    { intros q Hq. destruct (stored_at s ms q Hs Hq Hn ltac:(rewrite Ep; exact Hb)) as (m & i & Hm & _ & Hi & _ & _ & _ & _ & Hr).
      rewrite Est in Hi. eauto. }
    destruct (resend_gap s ms b x Hs ltac:(rewrite Ep; exact Hid) ltac:(lia)) as (s1 & E1 & Hs1 & K1 & A1 & S1 & Q1 & W1).
    destruct (IH ltac:(lia) He s1 Hs1 ltac:(rewrite S1; exact Est) ltac:(rewrite (kp_params _ _ K1); exact Ep)) as (s' & ws & E & Hans & Hs' & K' & A' & S' & Q' & W').
    cbn [resend_all]. rewrite E1, ok_bind. exists s', (gap_bytes (params_ s0) b (x + 1) :: ws).
    split_and!; [exact E| |exact Hs'|etransitivity; eassumption|etransitivity; eassumption|exact S'|rewrite Q'; exact Q1|rewrite W', W1, <- app_assoc, Ep; reflexivity].
    apply ans_gap; [exact Hx| | |exact Hans].
    + intros q Hq. destruct (Hsk q Hq) as (i & Hi & Hr). destruct (Ha q ltac:(lia)) as (m & i' & Hm & Hi' & Hr').
      exists m. split; [done|]. rewrite <- Hr'. congruence.
    + destruct Hor as [?|(i & Hi & Hr)]; [by left|right]. replace (x + 1 - 1) with x in Hi by lia.
      pose proof (znth_Some_lt _ _ _ Hi) as Hlt. destruct Hs as [Is _].
      assert (Hlen : zlen (outbound_index_ (store_ s0)) = zlen ms).
      { rewrite <- Est. unfold zlen. rewrite (Forall2_length _ _ _ (si_index _ _ (so_store _ _ Is))).
        pose proof (sent_wires_length (params_ s) ms) as L. unfold zlen in L. lia. }
      destruct (Ha (x + 1) ltac:(lia)) as (m & i' & Hm & Hi' & Hr'). replace (x + 1 - 1) with x in * by lia. exists m. split; [done|]. rewrite <- Hr'. congruence.
  - destruct (resend_message s ms b Hs ltac:(lia) Hn ltac:(rewrite Ep; exact Hb)) as (m & s1 & E1 & Hm & Hs1 & K1 & A1 & S1 & Q1 & W1).
    { intros m Hm. destruct (stored_at s ms b Hs ltac:(lia) Hn ltac:(rewrite Ep; exact Hb)) as (m' & i & Hm' & _ & Hi & _ & _ & _ & _ & Hr).
      destruct Hre as (i' & Hi' & Hr'). rewrite Est in Hi. assert (m' = m) as -> by congruence. rewrite <- Hr. congruence. }
    destruct (IH ltac:(lia) He s1 Hs1 ltac:(rewrite S1; exact Est) ltac:(rewrite (kp_params _ _ K1); exact Ep)) as (s' & ws & E & Hans & Hs' & K' & A' & S' & Q' & W').
    cbn [resend_all]. rewrite E1, ok_bind. exists s', (resent_bytes (params_ s0) m b :: ws).
    split_and!; [exact E| |exact Hs'|etransitivity; eassumption|etransitivity; eassumption|exact S'|rewrite Q'; exact Q1|rewrite W', W1, <- app_assoc, Ep; reflexivity].
    apply (ans_message _ _ _ _ m); [exact Hle|exact Hm| |exact Hans].
    destruct (stored_at s ms b Hs ltac:(lia) Hn ltac:(rewrite Ep; exact Hb)) as (m' & i & Hm' & _ & Hi & _ & _ & _ & _ & Hr).
    destruct Hre as (i' & Hi' & Hr'). rewrite Est in Hi. assert (m' = m) as -> by congruence. rewrite <- Hr. congruence.
Qed.

Lemma fc_or_range v : 0 <= fc_or 0 (from_chars 32 v) < 2 ^ 32.
Proof.
  pose proof (digits_val_nonneg (span_digits v) (span_digits_digits v)) as Hd.
  unfold from_chars, fc_or. destruct (zlen (span_digits v) =? 0); cbn [fc_value]; [lia|]. destruct (Z.ltb_spec (digits_val (span_digits v)) (2 ^ 32)); cbn [fc_value]; [lia|]. lia.
Qed.

(** What the end of a request stands for. *)
Definition request_end (ms : list Outbound) (e : Z) : Z := if (e =? 0) || (zlen ms <? e) then zlen ms else e.

Lemma resend_answered_spec s ms msg bt et : has_sent s ms -> zlen ms + 1 < 2 ^ 32 ->
  zlen (concat (sent_wires (params_ s) ms)) < 2 ^ 31 ->
  zlen (sender_comp_id (params_ s)) + zlen (target_comp_id (params_ s)) < 2 ^ 30 ->
  find_field 7 msg = Some bt -> find_field 16 msg = Some et -> 1 <= fc_or 0 (from_chars 32 bt) ->
  exists s' ws, handle_resend_request msg s = Ok s' /\
    answers (params_ s) ms (fc_or 0 (from_chars 32 bt)) (request_end ms (fc_or 0 (from_chars 32 et))) ws /\
    queued s' = queued s ++ ws /\ store_ s' = store_ s /\ seqs s' = seqs s /\ kept s s' /\ has_sent s' ms /\ adds send_effect s s'.
Proof.
  intros H Hn Hb Hid H7 H16 H1. unfold handle_resend_request, required_field. rewrite H7, H16. cbn [mbind res_bind].
  pose proof (fc_or_range bt). pose proof (fc_or_range et). set (b := fc_or 0 (from_chars 32 bt)) in *. set (e0 := fc_or 0 (from_chars 32 et)) in *.
  destruct (H) as [I _]. pose proof (zlen_nonneg ms). rewrite (so_next _ _ I), sent_wires_length, (u32_small (zlen ms + 1)), (u32_small (zlen ms + 1 - 1)) by lia.
  replace (zlen ms + 1 - 1) with (zlen ms) by lia. replace (zlen ms + 1 <=? e0) with (zlen ms <? e0) by lia.
  fold (request_end ms e0). assert (He : 0 <= request_end ms e0 <= zlen ms) by (unfold request_end; destruct (Z.eqb_spec e0 0), (Z.ltb_spec (zlen ms) e0); cbn [orb]; lia).
  set (e := request_end ms e0) in *.
  assert (Hlen : zlen (outbound_index_ (store_ s)) = zlen ms).
  { unfold zlen. rewrite (Forall2_length _ _ _ (si_index _ _ (so_store _ _ I))).
    pose proof (sent_wires_length (params_ s) ms) as L. unfold zlen in L. lia. }
  unfold get_resend_stream. rewrite !u32_small by lia.
  destruct (Z.lt_ge_cases (e + 1) b) as [Hgt|Hle].
  - exists s, []. rewrite app_nil_r. split_and!; [|apply ans_done; lia|reflexivity..|exact H|reflexivity].
    cbn [resend_loop]. unfold has_next. cbn [current_index_ end_seq_no_]. by rewrite (proj2 (Z.leb_gt _ _)) by lia.
  - destruct (resend_actions_spec (outbound_index_ (store_ s)) (S (S (length (outbound_index_ (store_ s))))) b e)
      as (acts & Ea & Ht); [lia|lia|lia|unfold zlen in *; lia|].
    rewrite (resend_loop_all _ _ _ _ Ea).
    destruct (resend_all_spec s ms b e acts Hn Hb Hid Ht H1 ltac:(lia) s H eq_refl eq_refl) as (s' & ws & E & Hans & H' & K & A & S & Q & W).
    exists s', ws. split_and!; assumption.
Qed.

(** C7: a resend request is answered exactly.  A session that has sent [ms] answers the request
    for [b .. e] ([e] = 0 or beyond the last message stands for the last message) with the
    application messages of that range, byte for byte as sent but for the possible-duplicate
    fields, under their own numbers and in order, each maximal run of administrative messages
    in between covered by one gap fill; it uses up no sequence number and stores nothing. *)
Theorem resend_answered s ms msg bt et : has_sent s ms -> zlen ms + 1 < 2 ^ 32 ->
  zlen (concat (sent_wires (params_ s) ms)) < 2 ^ 31 ->
  zlen (sender_comp_id (params_ s)) + zlen (target_comp_id (params_ s)) < 2 ^ 30 ->
  find_field 7 msg = Some bt -> find_field 16 msg = Some et -> 1 <= fc_or 0 (from_chars 32 bt) ->
  exists s' ws, handle_resend_request msg s = Ok s' /\
    answers (params_ s) ms (fc_or 0 (from_chars 32 bt)) (request_end ms (fc_or 0 (from_chars 32 et))) ws /\
    queued s' = queued s ++ ws /\ store_ s' = store_ s /\ seqs s' = seqs s /\ kept s s'.
Proof.
  intros H Hn Hb Hid H7 H16 H1. destruct (resend_answered_spec s ms msg bt et H Hn Hb Hid H7 H16 H1) as (s' & ws & E & Ha & Q & S & N & K & _).
  exists s', ws. split_and!; assumption.
Qed.

(** ** Instances *)

Definition demo_connected : Session :=
  (session_new (mk_session_id 0 1) INITIATOR demo_params) <| conn_ := Some 7 |> <| state_ := ACTIVE |>.
Definition demo_sends : list Outbound := [OHeartbeat []; OTestRequest (B "ping"); OCustom (B "payload"); OHeartbeat []].

Lemma demo_has_sent : has_sent demo_connected [].
Proof.
  split; [|constructor]. split; [apply scratch_new_wf|apply demo_session_text|by vm_compute|apply message_store_new_inv|reflexivity|reflexivity|by exists 7].
Qed.
Lemma demo_storable : Forall storable demo_sends.
Proof.
  assert (Ht : forall v, 0 < zlen v -> bool_decide (SOH ∉ v) = true -> value_text v) by (intros v ? ?%bool_decide_eq_true; split; [by destruct v|done]).
  repeat constructor; try (apply Ht; by vm_compute); try apply not_elem_of_nil.
Qed.

Example sends_in_step_witness :
  exists s', send_all demo_sends demo_connected = Ok s' /\ kept demo_connected s' /\ next_out (seqs s') = 5 /\
    queued s' = queued demo_connected ++ zdrop 0 (sent_wires demo_params demo_sends) /\
    forall k m, demo_sends !! k = Some m ->
      exists i, get_message_index (Z.of_nat k + 1) (store_ s') = Ok i /\
    get_message_wire i (store_ s') = outbound_bytes demo_params m (Z.of_nat k + 1).
Proof. apply (sends_in_step demo_sends demo_connected []); [apply demo_has_sent|apply demo_storable|by vm_compute|by vm_compute]. Defined.

Definition demo_request : ValidMessage := make_valid_message_view [mk_field 7 (B "1"); mk_field 16 (B "0")].

Example resend_answered_witness :
  exists s, send_all demo_sends demo_connected = Ok s /\
  exists s' ws, handle_resend_request demo_request s = Ok s' /\
    answers (params_ s) demo_sends 1 4 ws /\ queued s' = queued s ++ ws /\ store_ s' = store_ s /\ seqs s' = seqs s /\ kept s s'.
Proof.
  destruct (send_all_spec demo_sends demo_connected [] demo_has_sent demo_storable) as (s & E & H & K & _); [by vm_compute|by vm_compute|].
  exists s. split; [exact E|]. pose proof (kp_params _ _ K) as Kp.
  apply (resend_answered s demo_sends demo_request (B "1") (B "0") H);
    [by vm_compute|rewrite Kp; by vm_compute|rewrite Kp; by vm_compute|reflexivity|reflexivity|by vm_compute].
Defined.
