(* ===== verification/SessionWrite.v ===== *)
(** The write queue of [Session]: one write is outstanding at a time, and the transport gets
    the bytes of the queued messages in order, each once, whatever it accepts per write. *)
From Stdlib Require Import Strings.Byte.
From S2P Require Import Prelude.
From S2P Require Import Text.
From S2P Require Import Network.
From S2P Require Import Message.
From S2P Require Import Validator.
From S2P Require Import Factory.
From S2P Require Import Session.
From S2P Require Import SessionBase.

(** ** A session and its transport *)

(** A message is queued; the transport completes the outstanding write, if any, having taken at
    most [n] of its bytes. *)
Inductive write_op : Set := WSend (wire : bytes) | WDone (n : Z).

Record Channel : Type := mk_channel {
  ch_session : Session;
  ch_accepted : bytes;
  ch_outstanding : list bytes
}.

Definition writes_of (l : list Effect) : list bytes := omap (fun e => match e with EWrite _ d => Some d | _ => None end) l.
(** The writes that a handler has started. *)
Definition new_writes (s s' : Session) : list bytes := writes_of (zdrop (zlen (effects_ s)) (effects_ s')).

Definition write_step (op : write_op) (c : Channel) : Res Channel :=
  let s := ch_session c in
  match op with
  | WSend w => let! s' := send_bytes_ w s in Ok (mk_channel s' (ch_accepted c) (ch_outstanding c ++ new_writes s s'))
  | WDone n =>
      match ch_outstanding c with
      | [] => Ok c
      | d :: out =>
          let n := Z.min n (zlen d) in
          let! s' := write_handler success n s in
          Ok (mk_channel s' (ch_accepted c ++ ztake n d) (out ++ new_writes s s'))
      end
  end.

Fixpoint write_run (ops : list write_op) (c : Channel) : Res Channel :=
  match ops with
  | [] => Ok c
  | op :: ops' => let! c := write_step op c in write_run ops' c
  end.

(** The bytes handed to the session. *)
Definition op_bytes (op : write_op) : bytes := match op with WSend w => w | WDone _ => [] end.

(** ** The invariant *)

Definition rest (p : PendingWrite) : bytes := zdrop (sent p) (data p).
Definition pending_bytes (s : Session) : bytes := concat (rest <$> write_q_ s).

Record channel_ok (total : bytes) (c : Channel) : Prop := {
  co_live : stopped_ (ch_session c) = false;
  co_conn : is_Some (conn_ (ch_session c));
  co_front : ch_outstanding c = match write_q_ (ch_session c) with [] => [] | p :: _ => [rest p] end;
  co_inflight : write_inflight_ (ch_session c) = negb (bool_decide (write_q_ (ch_session c) = []));
  co_sizes : Forall (fun p => 0 <= sent p <= zlen (data p) /\ zlen (data p) < 2 ^ 64) (write_q_ (ch_session c));
  co_stream : ch_accepted c ++ pending_bytes (ch_session c) = total
}.

Definition op_ok (op : write_op) : Prop := match op with WSend w => zlen w < 2 ^ 64 | WDone n => 0 <= n end.

Lemma new_writes_same s s' : effects_ s' = effects_ s -> new_writes s s' = [].
Proof. unfold new_writes. intros ->. by rewrite zdrop_all by lia. Qed.
Lemma new_writes_emit s s' c d : effects_ s' = effects_ s ++ [EWrite c d] -> new_writes s s' = [d].
Proof. unfold new_writes. intros ->. by rewrite zdrop_app_exact. Qed.

(** [do_write] starts the write of the front message. *)
Lemma do_write_spec s : stopped_ s = false -> is_Some (conn_ s) ->
  exists s', do_write s = Ok s' /\ stopped_ s' = false /\ is_Some (conn_ s') /\ write_q_ s' = write_q_ s /\
    write_inflight_ s' = (if bool_decide (write_q_ s = []) then false else write_inflight_ s) /\
    new_writes s s' = match write_q_ s with [] => [] | p :: _ => [rest p] end.
Proof.
  intros Hs [c Hc]. unfold do_write. destruct (write_q_ s) as [|p q] eqn:Eq.
  - eexists. split; [reflexivity|]. session_simpl. split_and!; eauto. by apply new_writes_same.
  - rewrite Hs, Hc. eexists. split; [reflexivity|]. session_simpl. split_and!; eauto. by eapply new_writes_emit.
Qed.

Lemma send_step total w c : channel_ok total c -> zlen w < 2 ^ 64 ->
  exists c', write_step (WSend w) c = Ok c' /\ channel_ok (total ++ w) c'.
Proof.
  intros [Hl Hc Hf Hi Hz Ht] Hw. unfold write_step, send_bytes_. set (s := ch_session c) in *.
  assert (Hz' : Forall (fun p => 0 <= sent p <= zlen (data p) /\ zlen (data p) < 2 ^ 64) (write_q_ s ++ [mk_pending w 0])).
  { apply Forall_app. split; [done|]. constructor; [|done]. cbn. pose proof (zlen_nonneg w). lia. }
  assert (Ht' : ch_accepted c ++ concat (rest <$> (write_q_ s ++ [mk_pending w 0])) = total ++ w).
  { rewrite fmap_app, concat_app. cbn. unfold rest at 2. cbn. by rewrite zdrop_0, app_nil_r, app_assoc, <- Ht. }
  session_simpl. destruct (write_q_ s) as [|p q] eqn:Eq.
  - rewrite Hi. cbn. unfold do_write. session_simpl. rewrite Hl. destruct Hc as [k Hk]. rewrite Hk. cbn [mbind res_bind].
    eexists. split; [reflexivity|]. split; session_simpl; try done. rewrite Hf. by apply new_writes_emit with (c := k).
  - rewrite Hi. cbn [bool_decide]. eexists. split; [reflexivity|]. split; session_simpl; try done.
    rewrite new_writes_same by done. by rewrite Hf, app_nil_r.
Qed.

Lemma done_step total n c : channel_ok total c -> 0 <= n ->
  exists c', write_step (WDone n) c = Ok c' /\ channel_ok total c' /\
    (1 <= n -> ch_outstanding c <> [] ->
     zlen (pending_bytes (ch_session c')) + zlen (write_q_ (ch_session c')) < zlen (pending_bytes (ch_session c)) + zlen (write_q_ (ch_session c))).
Proof.
  intros [Hl Hc Hf Hi Hz Ht] Hn. unfold write_step. set (s := ch_session c) in *. destruct (ch_outstanding c) as [|d out] eqn:Eo.
  { exists c. split; [done|]. split; [split; by rewrite ?Eo|done]. }
  destruct (write_q_ s) as [|p q] eqn:Eq; [done|]. injection Hf as -> ->.
  assert (Hr : 0 <= sent p <= zlen (data p) /\ zlen (data p) < 2 ^ 64) by by inversion Hz.
  set (m := Z.min n (zlen (rest p))). assert (Hm : 0 <= m <= zlen (data p) - sent p /\ (m = n \/ m = zlen (data p) - sent p)).
  { unfold m, rest. rewrite zlen_zdrop by lia. lia. }
  unfold write_handler. rewrite Hl. cbn [orb]. rewrite bool_decide_false, bool_decide_true by done. cbn [negb]. rewrite Eq.
  cbn [data sent]. rewrite u64_small by lia.
  set (q' := if zlen (data p) <=? sent p + m then q else mk_pending (data p) (sent p + m) :: q).
  assert (Hrest : ztake m (rest p) ++ concat (rest <$> q') = concat (rest <$> (p :: q)) /\
    Forall (fun p => 0 <= sent p <= zlen (data p) /\ zlen (data p) < 2 ^ 64) q' /\
    (1 <= n -> zlen (concat (rest <$> q')) + zlen q' < zlen (concat (rest <$> (p :: q))) + zlen (p :: q))).
  { inversion Hz as [|? ? _ Hz']; subst. unfold q'. destruct (Z.leb_spec (zlen (data p)) (sent p + m)).
    - assert (ztake m (rest p) = rest p) as -> by (apply ztake_all; unfold rest; rewrite zlen_zdrop by lia; lia).
      split_and!; [done|done|]. cbn. rewrite zlen_app, zlen_cons. pose proof (zlen_nonneg (rest p)). lia.
    - split_and!; [|constructor; [cbn; lia|done]|].
      + cbn. rewrite app_assoc. f_equal. unfold rest at 2. cbn. rewrite <- (ztake_zdrop m (rest p)) at 2. f_equal.
        unfold rest. rewrite zdrop_zdrop by lia. done.
      + intros H1. cbn. rewrite !zlen_app, !zlen_cons. unfold rest at 1 3. cbn. rewrite !zlen_zdrop by lia. lia. }
  destruct Hrest as (Hstream & Hz2 & Hless).
  set (s1 := s <| write_q_ := q' |>). destruct (do_write_spec s1 Hl Hc) as (s' & -> & Hl' & Hc' & Hq' & Hi' & Hw').
  cbn [mbind res_bind]. eexists. split; [reflexivity|]. split.
  - split; cbn [ch_session ch_accepted ch_outstanding]; [done|done| | | |].
    + change (new_writes s s') with (new_writes s1 s'). by rewrite Hw', Hq'.
    + rewrite Hi', Hq'. change (write_q_ s1) with q'. change (write_inflight_ s1) with (write_inflight_ s). rewrite Hi. by destruct q'.
    + by rewrite Hq'.
    + unfold pending_bytes. rewrite Hq'. change (write_q_ s1) with q'. rewrite <- app_assoc, Hstream, <- Ht. unfold pending_bytes. by rewrite Eq.
  - intros H1 _. cbn [ch_session]. unfold pending_bytes. rewrite Hq'. change (write_q_ s1) with q'. rewrite Eq. by apply Hless.
Qed.

Lemma write_run_spec ops total c : channel_ok total c -> Forall op_ok ops ->
  exists c', write_run ops c = Ok c' /\ channel_ok (total ++ concat (op_bytes <$> ops)) c'.
Proof.
  intros I Hops. revert total c I. induction Hops as [|op ops Hop _ IH]; intros total c I.
  - exists c. split; [done|]. cbn. by rewrite app_nil_r.
  - cbn [write_run fmap list_fmap concat]. rewrite app_assoc.
    assert (exists c1, write_step op c = Ok c1 /\ channel_ok (total ++ op_bytes op) c1) as (c1 & -> & I1).
    { destruct op as [w|n]; [by apply send_step|]. cbn [op_bytes]. rewrite app_nil_r.
      destruct (done_step total n c I Hop) as (c1 & E & I1 & _). eauto. }
    rewrite ok_bind. by apply IH.
Qed.

Lemma channel_new s : stopped_ s = false -> is_Some (conn_ s) -> write_q_ s = [] -> write_inflight_ s = false ->
  channel_ok [] (mk_channel s [] []).
Proof. intros Hs Hc Hq Hi. split; cbn [ch_session ch_accepted ch_outstanding]; rewrite ?Hq; try done. unfold pending_bytes. by rewrite Hq. Qed.

(** C15: the transport gets the messages exactly.  However sends and completions of writes
    interleave, and however few bytes the transport takes at a time: no handler faults, at most
    one write is outstanding and it is for the unsent rest of the front message, and what the
    transport has taken followed by what is still queued is the concatenation of all messages
    sent. *)
Theorem write_stream_exact s ops : stopped_ s = false -> is_Some (conn_ s) -> write_q_ s = [] -> write_inflight_ s = false ->
  Forall op_ok ops ->
  exists c, write_run ops (mk_channel s [] []) = Ok c /\
    ch_accepted c ++ pending_bytes (ch_session c) = concat (op_bytes <$> ops) /\
    ch_outstanding c = match write_q_ (ch_session c) with [] => [] | p :: _ => [zdrop (sent p) (data p)] end /\
    write_inflight_ (ch_session c) = negb (bool_decide (write_q_ (ch_session c) = [])).
Proof.
  intros Hs Hc Hq Hi Hops. destruct (write_run_spec ops [] _ (channel_new s Hs Hc Hq Hi) Hops) as (c & E & I).
  exists c. split; [exact E|]. split; [apply (co_stream _ _ I)|]. split; [apply (co_front _ _ I)|apply (co_inflight _ _ I)].
Qed.

Lemma write_drain_spec ns total c : channel_ok total c -> Forall (fun n => 1 <= n) ns ->
  zlen (pending_bytes (ch_session c)) + zlen (write_q_ (ch_session c)) <= zlen ns ->
  exists c', write_run (WDone <$> ns) c = Ok c' /\ ch_accepted c' = total /\ ch_outstanding c' = [] /\ write_inflight_ (ch_session c') = false.
Proof.
  intros I Hns. revert c I. induction Hns as [|n ns Hn Hns IH]; intros c I Hm.
  - change (zlen []) with 0 in Hm. pose proof (zlen_nonneg (pending_bytes (ch_session c))). pose proof (zlen_nonneg (write_q_ (ch_session c))).
    assert (write_q_ (ch_session c) = []) as Eq by (destruct (write_q_ (ch_session c)); [done|rewrite zlen_cons in *; zlen_pos; lia]).
    exists c. destruct I as [_ _ Hf Hi _ Ht]. rewrite Eq in Hf, Hi. split_and!; try done.
    rewrite <- Ht. unfold pending_bytes. rewrite Eq. by rewrite app_nil_r.
  - destruct (done_step total n c I ltac:(lia)) as (c1 & E & I1 & Hless). cbn [fmap list_fmap write_run]. rewrite E, ok_bind.
    apply (IH c1 I1). rewrite zlen_cons in Hm. destruct (ch_outstanding c) eqn:Eo.
    + cbn [write_step] in E. rewrite Eo in E. injection E as <-.
      destruct I as [_ _ Hf _ _ _]. rewrite Eo in Hf. unfold pending_bytes. destruct (write_q_ (ch_session c)); [|done].
      change (zlen (concat (rest <$> []))) with 0. pose proof (zlen_nonneg ns). change (zlen []) with 0. lia.
    + specialize (Hless Hn ltac:(done)). lia.
Qed.

(** The queue drains.  Whatever was sent and taken before: once the transport takes at least
    one byte with every completion, as many completions as there are queued bytes and messages
    deliver everything that was sent and leave the session idle. *)
Lemma writes_drain s ops : stopped_ s = false -> is_Some (conn_ s) -> write_q_ s = [] -> write_inflight_ s = false ->
  Forall op_ok ops ->
  exists c, write_run ops (mk_channel s [] []) = Ok c /\
    forall ns, Forall (fun n => 1 <= n) ns -> zlen (pending_bytes (ch_session c)) + zlen (write_q_ (ch_session c)) <= zlen ns ->
    exists c', write_run (WDone <$> ns) c = Ok c' /\ ch_accepted c' = concat (op_bytes <$> ops) /\
      ch_outstanding c' = [] /\ write_inflight_ (ch_session c') = false.
Proof.
  intros Hs Hc Hq Hi Hops. destruct (write_run_spec ops [] _ (channel_new s Hs Hc Hq Hi) Hops) as (c & E & I).
  exists c. split; [exact E|]. intros ns Hns Hm. exact (write_drain_spec ns _ c I Hns Hm).
Qed.

(** ** Instances *)

Definition demo_writer : Session := (session_new (mk_session_id 0 1) INITIATOR demo_params) <| conn_ := Some 7 |>.
Definition demo_ops : list write_op := [WSend (B "8=FIX"); WSend (B "abc"); WDone 2; WDone 100; WSend []; WDone 1].

Lemma demo_ops_ok : Forall op_ok demo_ops.
Proof. repeat constructor; by vm_compute. Qed.

Example write_stream_exact_witness :
  exists c, write_run demo_ops (mk_channel demo_writer [] []) = Ok c /\
    ch_accepted c ++ pending_bytes (ch_session c) = B "8=FIXabc" /\
    ch_outstanding c = match write_q_ (ch_session c) with [] => [] | p :: _ => [zdrop (sent p) (data p)] end /\
    write_inflight_ (ch_session c) = negb (bool_decide (write_q_ (ch_session c) = [])).
Proof. apply (write_stream_exact demo_writer demo_ops); [reflexivity|by exists 7|reflexivity|reflexivity|apply demo_ops_ok]. Defined.

Example writes_drain_witness :
  exists c, write_run demo_ops (mk_channel demo_writer [] []) = Ok c /\
    forall ns, Forall (fun n => 1 <= n) ns -> zlen (pending_bytes (ch_session c)) + zlen (write_q_ (ch_session c)) <= zlen ns ->
    exists c', write_run (WDone <$> ns) c = Ok c' /\ ch_accepted c' = B "8=FIXabc" /\
      ch_outstanding c' = [] /\ write_inflight_ (ch_session c') = false.
Proof. apply (writes_drain demo_writer demo_ops); [reflexivity|by exists 7|reflexivity|reflexivity|apply demo_ops_ok]. Defined.
