(* ===== verification/SessionSafety.v ===== *)
(** The life cycle of [Session]: what a stopped session does, and a reconnect. *)
From Stdlib Require Import Strings.Byte.
From stdpp Require Import gmap.
From S2P Require Import Prelude.
From S2P Require Import Text.
From S2P Require Import Network.
From S2P Require Import Message.
From S2P Require Import Framer.
From S2P Require Import MessageStore.
From S2P Require Import RecoveryCache.
From S2P Require Import Validator.
From S2P Require Import Factory.
From S2P Require Import Session.
From S2P Require Import SessionBase.
From S2P Require Import SessionOutbound.

(** ** A stopped session *)

(** Events other than a start for the first time, which does not test [stopped_]. *)
Definition inert_event (e : event) : Prop := match e with EvStart NORMAL => False | _ => True end.

(** The connection that was set last. *)
Definition connection_after (es : list event) (c : option Z) : option Z :=
  foldl (fun c e => match e with EvSetConnection c' => c' | _ => c end) c es.

(** The connection is [c], the log has grown, and all else is as it was. *)
Definition only_logged (c : option Z) (s s' : Session) : Prop := exists l, s' = s <| conn_ := c |> <| effects_ := effects_ s ++ l |> /\
  Forall (fun e => match e with ELog _ _ _ => True | _ => False end) l.

Lemma only_logged_refl s : only_logged (conn_ s) s s.
Proof. exists []. rewrite app_nil_r. by destruct s. Qed.
Lemma only_logged_one ctx t ec s : only_logged (conn_ s) s (emit (ELog ctx t ec) s).
Proof. exists [ELog ctx t ec]. split; [by destruct s|by repeat constructor]. Qed.
Lemma only_logged_set c s : only_logged c s (set_connection c s).
Proof. exists []. rewrite app_nil_r. by destruct s. Qed.
#[export] Hint Resolve only_logged_refl only_logged_one only_logged_set : session.

Lemma stopped_step e s : stopped_ s = true -> inert_event e -> exists s', session_step e s = Ok s' /\ only_logged (connection_after [e] (conn_ s)) s s'.
Proof.
  intros Hs He. destruct e as [[]| |c|m t|ec d|ec n|st ec|ec|ec|ec]; try done; cbn [session_step connection_after foldl];
    unfold stop, stop_, send_from_app, read_handler, write_handler, logon_timer_handler, logout_timer_handler,
      heartbeat_timer_handler, inbound_timer_handler, on_timer; rewrite ?Hs; eauto with session.
  cbn [start]. unfold start_after_reconnect_, log. session_simpl. rewrite Hs. destruct s. session_simpl. subst.
  destruct conn_; eexists; (split; [reflexivity|]);
    (eexists [_; _]; split; [unfold emit; session_simpl; rewrite <- app_assoc; reflexivity|by repeat constructor]).
Qed.

(** C33: a stopped session is inert.  After [stop], completions, timers, sends and reconnects
    still arrive, a reconnect with the connection that the manager sets first; only a start for
    the first time, which the code does not guard, is left out.  No handler faults; log entries
    are written and [conn_] is the connection that was set last; nothing else changes: the new
    connection is neither read, written nor closed, no timer is armed, and the state, the store
    and the sequence numbers are as they were. *)
Theorem stopped_inert es s : stopped_ s = true -> Forall inert_event es ->
  exists s' l, session_run es s = Ok s' /\ s' = s <| conn_ := connection_after es (conn_ s) |> <| effects_ := effects_ s ++ l |> /\
    Forall (fun e => match e with ELog _ _ _ => True | _ => False end) l.
Proof.
  intros Hs Hes. revert s Hs. induction Hes as [|e es He _ IH]; intros s Hs; cbn [session_run].
  { exists s, []. rewrite app_nil_r. by destruct s. }
  destruct (stopped_step e s Hs He) as (s1 & -> & l1 & E1 & H1). rewrite ok_bind.
  destruct (IH s1) as (s' & l & E & E' & Hl); [by rewrite E1|]. exists s', (l1 ++ l). split; [exact E|].
  subst s1. rewrite E'. session_simpl. rewrite app_assoc. split; [done|by apply Forall_app].
Qed.

(** ** Losing the connection and getting a new one *)

(** An idle session that is not established writes what it sends at once. *)
Lemma send_idle_effects b s s' c : write_q_ s = [] -> write_inflight_ s = false -> conn_ s = Some c -> stopped_ s = false ->
  established (state_ s) = false -> send_built b false s = Ok s' ->
  exists w, write_q_ s' = [mk_pending w 0] /\ effects_ s' = effects_ s ++ [EWrite c w] /\ write_inflight_ s' = true.
Proof.
  intros Hq Hi Hc Hs He. unfold send_built. destruct (b (msg_factory_ s)) as [w f].
  unfold send_message_, send_bytes_, do_write. session_simpl. rewrite Hs, Hi, Hq. cbn [app]. rewrite Hc.
  cbn [mbind res_bind]. intros E. apply bind_ok in E as (s1 & E1 & [= <-]). apply bind_ok in E1 as (st & _ & [= <-]).
  session_simpl. rewrite He. by exists w.
Qed.

(** What losing connection [c] does. *)
Definition down_effects (c : Z) (i : SessionID) : list Effect :=
  [ELog (mk_log_context LTransport CInfo NA) (B "Transport connection lost") None; EClose c;
   ECancel LogonTimer; ECancel InboundTimer; ECancel HeartbeatTimer; ECancel LogoutTimer; EReconnect i].

(** [s'] is [s] after its connection [c] was lost. *)
Record lost_connection (s s' : Session) (c : Z) : Prop := {
  lc_conn : conn_ s' = None;
  lc_reconnecting : reconnecting_ s' = true;
  lc_state : state_ s' = DISCONNECTED;
  lc_queue : write_q_ s' = [];
  lc_inflight : write_inflight_ s' = false;
  lc_cache : recovery_cache_ s' = RecoveryCache.clear (recovery_cache_ s);
  lc_framer : framer_ s' = Framer.reset (framer_ s);
  lc_effects : effects_ s' = effects_ s ++ down_effects c (id_ s);
  lc_params : params_ s' = params_ s;
  lc_factory : msg_factory_ s' = msg_factory_ s;
  lc_store : store_ s' = store_ s;
  lc_stopped : stopped_ s' = stopped_ s;
  lc_role : role_ s' = role_ s;
  lc_id : id_ s' = id_ s;
  lc_test_req : test_req_id_ s' = test_req_id_ s
}.

Lemma app_snoc7 {A} (l : list A) a b c d e f g :
  ((((((l ++ [a]) ++ [b]) ++ [c]) ++ [d]) ++ [e]) ++ [f]) ++ [g] = l ++ [a; b; c; d; e; f; g].
Proof. by rewrite <- !app_assoc. Qed.

Lemma transport_down_spec s c : conn_ s = Some c -> state_ s <> DISCONNECTED -> stopped_ s = false -> reconnecting_ s = false ->
  lost_connection s (on_transport_down_ s) c.
Proof.
  intros Hc Hd Hs Hr. unfold on_transport_down_. rewrite bool_decide_false, Hs, Hr by exact Hd. cbn [orb].
  set (s1 := emit _ (s <| reconnecting_ := true |>)).
  assert (Ec : close_conn s1 = emit (EClose c) s1) by (unfold close_conn; change (conn_ s1) with (conn_ s); rewrite Hc; reflexivity).
  rewrite Ec. split; try reflexivity. exact (app_snoc7 _ _ _ _ _ _ _ _).
Qed.

(** A restart of a connected initiator. *)
Lemma reconnect_start_spec s wires c : session_ok s wires -> role_ s = INITIATOR -> state_ s = DISCONNECTED -> conn_ s = Some c ->
  zlen wires + 2 < 2 ^ 32 -> - 2 ^ 31 <= heart_beat_int (params_ s) < 2 ^ 31 ->
  let w := outbound_bytes (params_ s) (OLogon (heart_beat_int (params_ s)) false) (zlen wires + 1) in
  zlen (concat wires) + zlen w < 2 ^ 31 ->
  exists s', start RECONNECT s = Ok s' /\ session_ok s' (wires ++ [w]) /\ state_ s' = LOGON_SENT /\ conn_ s' = Some c /\
    write_q_ s' = [mk_pending w 0] /\ next_in (seqs s') = next_in (seqs s) /\
    RecoveryCache.empty (recovery_cache_ s') = true /\ has_message (framer_ s') = false /\
    effects_ s' = effects_ s ++ [ELog fix_info (B "Session reconnecting") None; EWrite c w; EArm LogonTimer logon_response_timeout; ERead c].
Proof.
  intros I Hr Hd Hc Hn Hh w Hb. unfold start, start_after_reconnect_, log. session_simpl. rewrite (so_live _ _ I), Hc, Hr.
  match goal with |- context [send_logon false ?x] => set (s2 := x) end.
  assert (I' : session_ok s2 wires) by (destruct I; split; done).
  destruct (send_outbound (OLogon (heart_beat_int (params_ s)) false) s2 wires I' ltac:(done) Hh Hn Hb) as (s3 & Es & I3 & K & A & Hq).
  rewrite (send_logon_small false s2 Hh). change (heart_beat_int (params_ s2)) with (heart_beat_int (params_ s)).
  assert (He : established (state_ s2) = false) by (change (state_ s2) with (state_ s); by rewrite Hd).
  rewrite Es. destruct (send_idle_effects _ s2 s3 c eq_refl eq_refl eq_refl eq_refl He Es) as (w' & Hq' & E3 & _).
  rewrite Hq in Hq'. injection Hq' as <-. change (params_ s2) with (params_ s) in *. fold w in I3, Hq, E3.
  cbn [mbind res_bind]. unfold do_read, schedule_logon_timeout_. session_simpl.
  rewrite (so_live _ _ I3), (kp_conn _ _ K). change (conn_ s2) with (Some c).
  eexists. split; [reflexivity|]. session_simpl. split_and!.
  - destruct I3. split; done.
  - done.
  - reflexivity.
  - exact Hq.
  - exact (kp_next_in _ _ K).
  - rewrite (kp_cache _ _ K). done.
  - rewrite (kp_framer _ _ K). done.
  - unfold emit. session_simpl. rewrite E3. unfold s2. session_simpl. by rewrite <- !app_assoc.
Qed.

(** A permanent error of a read: the transport is taken down. *)
Lemma read_error_spec s wires ec : session_ok s wires -> state_ s <> DISCONNECTED -> reconnecting_ s = false ->
  ec <> success -> ec <> operation_aborted -> classify_readwrite_error ec <> Transient ->
  let s0 := emit (ELog (mk_log_context LTransport CError High) (B "Read error: ") (Some ec)) s in
  exists c0 s1, read_handler ec [] s = Ok s1 /\ lost_connection s0 s1 c0.
Proof.
  intros I Hd Hrec H1 H2 H3 s0. unfold read_handler, io_failed. rewrite (so_live _ _ I), !bool_decide_false by done. cbn [orb negb].
  destruct (so_conn _ _ I) as [c0 Hc0]. exists c0, (on_transport_down_ s0). split; [reflexivity|].
  exact (transport_down_spec s0 c0 Hc0 Hd (so_live _ _ I) Hrec).
Qed.

(** What was sent is still in step when a new connection is set. *)
Lemma lost_connection_ok s s1 wires c0 c : session_ok s wires -> lost_connection s s1 c0 -> session_ok (set_connection (Some c) s1) wires.
Proof.
  intros I D. set (s2 := set_connection (Some c) s1).
  assert (Es : seqs s2 = seqs s) by (unfold seqs; change (msg_factory_ s2) with (msg_factory_ s1); by rewrite (lc_factory _ _ _ D)).
  destruct D, I. split; rewrite ?Es; change (params_ s2) with (params_ s1); change (msg_factory_ s2) with (msg_factory_ s1);
    change (store_ s2) with (store_ s1); change (stopped_ s2) with (stopped_ s1);
    [by rewrite lc_factory0|by rewrite lc_params0|by rewrite lc_params0|by rewrite lc_store0|done|by rewrite lc_stopped0|by exists c].
Qed.

(** The restart on a new connection. *)
Lemma restart_spec s s1 wires c0 c : session_ok s wires -> lost_connection s s1 c0 -> role_ s = INITIATOR ->
  zlen wires + 2 < 2 ^ 32 -> - 2 ^ 31 <= heart_beat_int (params_ s) < 2 ^ 31 ->
  let w := outbound_bytes (params_ s) (OLogon (heart_beat_int (params_ s)) false) (zlen wires + 1) in
  zlen (concat wires) + zlen w < 2 ^ 31 ->
  exists s', start RECONNECT (set_connection (Some c) s1) = Ok s' /\ session_ok s' (wires ++ [w]) /\ state_ s' = LOGON_SENT /\
    conn_ s' = Some c /\ write_q_ s' = [mk_pending w 0] /\ next_in (seqs s') = next_in (seqs s) /\
    RecoveryCache.empty (recovery_cache_ s') = true /\ has_message (framer_ s') = false /\
    effects_ s' = effects_ s1 ++ [ELog fix_info (B "Session reconnecting") None; EWrite c w; EArm LogonTimer logon_response_timeout; ERead c].
Proof.
  intros I D Hr Hn Hh w Hb. pose proof (lost_connection_ok _ _ _ _ c I D) as I2. set (s2 := set_connection (Some c) s1) in *.
  assert (Ep : params_ s2 = params_ s) by exact (lc_params _ _ _ D).
  destruct (reconnect_start_spec s2 wires c I2) as (s' & E & I' & E1 & E2 & E3 & E4 & E5 & E6 & E7); rewrite ?Ep; try assumption;
    [change (role_ s2) with (role_ s1); by rewrite (lc_role _ _ _ D)|exact (lc_state _ _ _ D)|reflexivity|].
  rewrite Ep in I', E3, E7. exists s'. split_and!; try assumption.
  rewrite E4. unfold seqs. change (msg_factory_ s2) with (msg_factory_ s1). by rewrite (lc_factory _ _ _ D).
Qed.

(** C32: a reconnect resumes the session.  When a read of an initiator that has sent [wires]
    fails for good and a new connection is set, the restart works: the queue holds exactly a
    Logon with the next sequence number, which is stored and written to the new connection;
    what was received stays counted; no partial frame and no cached message survive; and a read
    is started. *)
Theorem reconnect_resumes s wires ec c : session_ok s wires -> role_ s = INITIATOR -> state_ s <> DISCONNECTED -> reconnecting_ s = false ->
  ec <> success -> ec <> operation_aborted -> classify_readwrite_error ec <> Transient ->
  zlen wires + 2 < 2 ^ 32 -> - 2 ^ 31 <= heart_beat_int (params_ s) < 2 ^ 31 ->
  let w := outbound_bytes (params_ s) (OLogon (heart_beat_int (params_ s)) false) (zlen wires + 1) in
  zlen (concat wires) + zlen w < 2 ^ 31 ->
  exists s', session_run [EvRead ec []; EvSetConnection (Some c); EvStart RECONNECT] s = Ok s' /\
    session_ok s' (wires ++ [w]) /\ state_ s' = LOGON_SENT /\ conn_ s' = Some c /\
    write_q_ s' = [mk_pending w 0] /\ next_in (seqs s') = next_in (seqs s) /\
    RecoveryCache.empty (recovery_cache_ s') = true /\ has_message (framer_ s') = false /\
    exists l, effects_ s' = effects_ s ++ l ++ [EWrite c w; EArm LogonTimer logon_response_timeout; ERead c].
Proof.
  intros I Hr Hd Hrec H1 H2 H3 Hn Hh w Hb. destruct (read_error_spec s wires ec I Hd Hrec H1 H2 H3) as (c0 & s1 & E1 & D).
  set (s0 := emit _ s) in *. assert (I0 : session_ok s0 wires) by (destruct I; by split).
  destruct (restart_spec s0 s1 wires c0 c I0 D Hr Hn Hh Hb) as (s' & E & I' & Hst & Hco & Hq & Hin & Hca & Hfr & Ef).
  cbn [session_run session_step]. rewrite E1, !ok_bind, E. exists s'. split; [reflexivity|]. split_and!; try assumption.
  rewrite Ef, (lc_effects _ _ _ D). exists ([ELog (mk_log_context LTransport CError High) (B "Read error: ") (Some ec)] ++
    down_effects c0 (id_ s) ++ [ELog fix_info (B "Session reconnecting") None]).
  change (effects_ s0) with (effects_ s ++ [ELog (mk_log_context LTransport CError High) (B "Read error: ") (Some ec)]).
  by rewrite <- !app_assoc.
Qed.

(** ** Instances *)

(** Stopped, a session is handed connection 8 by a reconnect that was under way. *)
Definition late_events : list event :=
  [EvRead success (B "8="); EvSendFromApp [] (Message.msg_type (B "D")); EvSetConnection (Some 8); EvStart RECONNECT; EvHeartbeatTimer success].
Example stopped_inert_witness :
  exists s' l, session_run late_events (stop demo_connected) = Ok s' /\ s' = (stop demo_connected) <| conn_ := Some 8 |> <| effects_ := effects_ (stop demo_connected) ++ l |> /\
    Forall (fun e => match e with ELog _ _ _ => True | _ => False end) l.
Proof. apply (stopped_inert late_events (stop demo_connected)); [reflexivity|by repeat constructor]. Defined.

Example reconnect_resumes_witness :
  let w := outbound_bytes demo_params (OLogon (heart_beat_int demo_params) false) 1 in
  exists s', session_run [EvRead connection_reset []; EvSetConnection (Some 8); EvStart RECONNECT] demo_connected = Ok s' /\
    session_ok s' [w] /\ state_ s' = LOGON_SENT /\ conn_ s' = Some 8 /\
    write_q_ s' = [mk_pending w 0] /\ next_in (seqs s') = 1 /\
    RecoveryCache.empty (recovery_cache_ s') = true /\ has_message (framer_ s') = false /\
    exists l, effects_ s' = effects_ demo_connected ++ l ++ [EWrite 8 w; EArm LogonTimer logon_response_timeout; ERead 8].
Proof.
  apply (reconnect_resumes demo_connected [] connection_reset 8 (hs_ok _ _ demo_has_sent)); try done; by vm_compute.
Defined.
