(* ===== verification/SessionLogon.v ===== *)
(** The logon of two sessions of this engine over a transport: what the initiator sends makes
    the acceptor active, and what it answers makes the initiator active. *)
From Stdlib Require Import Strings.Byte.
From stdpp Require Import gmap.
From S2P Require Import Prelude.
From S2P Require Import Text.
From S2P Require Import Network.
From S2P Require Import Message.
From S2P Require Import Parser.
From S2P Require Import Schema.
From S2P Require Import Framer.
From S2P Require Import MessageStore.
From S2P Require Import RecoveryCache.
From S2P Require Import Validator.
From S2P Require Import Factory.
From S2P Require Import Session.
From S2P Require Import SessionBase.
From S2P Require Import SessionInbound.
From S2P Require Import SessionReads.
From S2P Require Import SessionSafety.

(** ** A Logon on the wire *)

Definition logon_bytes (params : SessionParameters) (h q : Z) : bytes := outbound_bytes params (OLogon h false) q.

(** Room for the CompIDs in a Logon. *)
Definition ids_ok (params : SessionParameters) : Prop := zlen (sender_comp_id params) + zlen (target_comp_id params) <= 1000.

Lemma value_text_length v : value_text v -> 1 <= zlen v.
Proof. intros [Hne _]. destruct v; [done|]. zlia. Qed.

Lemma logon_size params h : session_text params (now_fix clock) -> - 2 ^ 31 <= encrypt_method params < 2 ^ 31 -> ids_ok params -> 10 <= h <= 120 ->
  zlen (fields_wire (outbound_body clock params (OLogon h false) 1)) <= 1100 /\ 65 <= zlen (logon_bytes params h 1) <= 2000.
Proof.
  intros [_ Hs Ht _] He Hi Hh. unfold ids_ok in Hi. apply value_text_length in Hs, Ht.
  pose proof (to_chars_length (encrypt_method params) ltac:(lia)) as Hc.
  assert (1 <= zlen (to_chars (encrypt_method params))) by (apply value_text_length, to_chars_int; lia).
  assert (Hd : 2 <= zlen (to_chars h) <= 3).
  { rewrite to_chars_nonneg by lia. pose proof (to_dec_length h ltac:(lia) 3 ltac:(lia) ltac:(lia)).
    destruct (digits_val_nonneg (to_dec h)) as [_ Hv]; [apply to_dec_digits; lia|]. rewrite to_dec_val in Hv by lia.
    assert (zlen (to_dec h) <> 1) by (intros E; rewrite E in Hv; lia). lia. }
  assert (Hb : 45 <= zlen (fields_wire (outbound_body clock params (OLogon h false) 1)) <= 1100).
  { unfold outbound_body, header_fields, fields_of, type_of. cbn [app].
    rewrite !fields_wire_cons, !zlen_app, !field_wire_length. cbn [tag value]. change (zlen (fields_wire [])) with 0.
    change (zlen (to_dec 35)) with 2. change (zlen (to_dec 34)) with 2. change (zlen (to_dec 49)) with 2. change (zlen (to_dec 56)) with 2.
    change (zlen (to_dec 52)) with 2. change (zlen (to_dec 98)) with 2. change (zlen (to_dec 141)) with 3. change (zlen (to_dec 108)) with 3.
    change (zlen (B "A")) with 1. change (zlen (to_chars (i64 1))) with 1. change (zlen (B "N")) with 1. change (zlen (now_fix clock)) with 3. lia. }
  split; [lia|]. unfold logon_bytes, outbound_bytes, frame_wire. set (body := fields_wire _) in *.
  pose proof (to_dec_length (zlen body) ltac:(lia) 10 ltac:(lia) ltac:(lia)) as Hdl.
  rewrite !zlen_app, !field_wire_length. cbn [tag value]. set (ck := byte_sum _ mod 256).
  assert (0 <= ck < 256) by (apply Z.mod_pos_bound; lia). destruct (checksum_text_spec ck ltac:(lia)) as (_ & -> & _).
  change (zlen (to_dec 8)) with 1. change (zlen (to_dec 9)) with 1. change (zlen DEFAULT_FIX_VERSION) with 7.
  change (zlen (B "10=")) with 3. change (zlen [SOH]) with 1. lia.
Qed.

(** The header check looks at the CompIDs of the session only. *)
Lemma conforms_ids m p1 p2 t sc : sender_comp_id p2 = sender_comp_id p1 -> target_comp_id p2 = target_comp_id p1 ->
  conforms m p1 t sc -> conforms m p2 t sc.
Proof. intros Es Et [H1 H2 [] H4 H5 H6]. split; try done. split; try done; congruence. Qed.

(** [params] of a session that talks to a session with [peer]. *)
Definition faces (params peer : SessionParameters) : Prop :=
  sender_comp_id params = target_comp_id peer /\ target_comp_id params = sender_comp_id peer.

(** A Logon as it is received. *)
Record logon_message (params : SessionParameters) (h q : Z) (fs : GenericMessage) : Prop := {
  lm_conforms : exists sc, conforms (make_valid_message_view fs) params (B "A") sc;
  lm_size : zlen fs < 2 ^ 30;
  lm_has_seq : has_msg_seq_num (header_cache_ (make_valid_message_view fs)) = true;
  lm_seq : msg_seq_num (header_cache_ (make_valid_message_view fs)) = q;
  lm_heartbeat : find_field 108 (make_valid_message_view fs) = Some (to_chars h);
  lm_reset : find_field 141 (make_valid_message_view fs) = Some (B "N")
}.

Lemma find_field_app t l1 l2 : (t ∉ tag <$> l1) ->
  value <$> List.find (fun f => tag f =? t) (l1 ++ l2) = value <$> List.find (fun f => tag f =? t) l2.
Proof.
  induction l1 as [|f l1 IH]; [done|]. cbn. rewrite not_elem_of_cons. intros [Hne Hl]. rewrite (proj2 (Z.eqb_neq _ _)) by done. by apply IH.
Qed.

Lemma logon_parsed peer params h : session_text peer (now_fix clock) -> - 2 ^ 31 <= encrypt_method peer < 2 ^ 31 -> ids_ok peer ->
  faces params peer -> 10 <= h <= 120 ->
  exists fs, parse (logon_bytes peer h 1) = Ok (fs, []) /\ logon_message params h 1 fs.
Proof.
  intros Ht He Hi [Es Et] Hh. destruct (logon_size peer h Ht He Hi Hh) as [Hb _].
  destruct (outbound_read_back clock peer Ht He (OLogon h false) 1) as (ck & Ep & (sc & Hc) & Hhas & Hnum);
    [done|cbn; lia|lia|lia|]. cbv zeta in Ep, Hc, Hhas, Hnum. set (fs := (mk_field 8 _ :: _) ++ [mk_field 10 ck]) in *.
  exists fs. split; [exact Ep|]. split; [|by vm_compute|exact Hhas|exact Hnum|..].
  - exists sc. apply (conforms_ids _ (peer_params peer)); [done|done|exact Hc].
  - unfold find_field, make_valid_message_view. cbn [message_]. reflexivity.
  - unfold find_field, make_valid_message_view. cbn [message_]. reflexivity.
Qed.

(** ** Receiving it *)

(** A session that is not logged on, with nothing to write: [n] is the next number expected. *)
Record waiting (s : Session) (wires : list bytes) (c n : Z) : Prop := {
  wt_ok : session_ok s wires;
  wt_conn : conn_ s = Some c;
  wt_state : established (state_ s) = false;
  wt_next : next_in (seqs s) = n;
  wt_cache : RecoveryCache.empty (recovery_cache_ s) = true;
  wt_queue : write_q_ s = [];
  wt_inflight : write_inflight_ s = false
}.

(** [s] with the Logon [m] counted and about to be handled. *)
Definition counted (m : ValidMessage) (v : Validator) (s : Session) : Session :=
  emit (EHandled m) (set_seqs (update_in 2 (seqs s)) (s <| validator_ := v |>)).

(** What [dispatch] makes of it: the number is counted and [handle_logon] runs. *)
Lemma dispatch_counted fs raw h s : stopped_ s = false -> established (state_ s) = false -> next_in (seqs s) = 1 ->
  logon_message (params_ s) h 1 fs ->
  exists v, dispatch fs raw s = handle_logon (make_valid_message_view fs) (counted (make_valid_message_view fs) v s).
Proof.
  intros Hl Hst Hn [(sc & Hcf) Hsz Hh Hs _ _]. unfold dispatch. rewrite Hl. set (m := make_valid_message_view fs) in *.
  destruct (conforms_accepted m (params_ s) (validator_ s) (B "A") sc Hsz Hcf) as (v & -> & He & Hsev). rewrite ok_bind.
  rewrite Hsev, (bool_decide_false (Moderate = Fatal)), He, (cf_type _ _ _ _ Hcf), Hh by done. cbn [negb].
  change (state_ (s <| validator_ := v |>)) with (state_ s). rewrite Hst. change (state_ (s <| validator_ := v |>)) with (state_ s). rewrite Hst.
  change (is_app_message_type_ (B "A")) with false. cbn [negb andb]. unfold check_sequence.
  change (next_in (seqs (s <| validator_ := v |>))) with (next_in (seqs s)). rewrite Hs, Hn, Z.eqb_refl. unfold handle.
  rewrite bool_decide_true by done. by exists v.
Qed.

Lemma counted_waiting m v s wires c : waiting s wires c 1 -> waiting (counted m v s) wires c 2.
Proof. intros [I Hc Hst Hn Hca Hq Hi]. split; try done. destruct I. by split. Qed.

Lemma heartbeat_valid h i s : 10 <= h <= 120 -> (i = true -> heart_beat_int (params_ s) = h) ->
  validate_heartbeat_int (to_chars h) i s = (true, s <| params_ := (params_ s) <| heart_beat_int := h |> |>).
Proof.
  intros Hh Hi. unfold validate_heartbeat_int.
  assert (E : fc_or 0 (from_chars 32 (to_chars h)) = h).
  { rewrite to_chars_nonneg by lia. pose proof (from_chars_to_dec h ltac:(lia) 32 [] ltac:(lia) I) as E. rewrite app_nil_r in E. by rewrite E. }
  rewrite E. destruct i; cbn [andb negb].
  - rewrite (Hi eq_refl), Z.eqb_refl. cbn [negb]. rewrite (proj2 (Z.ltb_ge _ _)), (proj2 (Z.ltb_ge _ _)) by lia. done.
  - rewrite (proj2 (Z.ltb_ge _ _)), (proj2 (Z.ltb_ge _ _)) by lia. done.
Qed.

(** What the handler leaves: an active session with heartbeat interval [h]. *)
Record logged_on (s : Session) (h : Z) : Prop := {
  lo_state : state_ s = ACTIVE;
  lo_live : stopped_ s = false;
  lo_heartbeat : heart_beat_int (params_ s) = h;
  lo_in : next_in (seqs s) = 2;
  lo_out : next_out (seqs s) = 2
}.

(** The trace of the end of [handle_logon]. *)
Definition activation (h : Z) : list Effect :=
  [ECancel LogonTimer; ECancel HeartbeatTimer; EArm HeartbeatTimer h; ECancel InboundTimer; EArm InboundTimer h].
Lemma activate_effects s h : h = heart_beat_int (params_ s) ->
  effects_ (schedule_test_request_timeout_ (schedule_heartbeat_ ((emit (ECancel LogonTimer) s) <| state_ := ACTIVE |>))) = effects_ s ++ activation h.
Proof. intros ->. unfold schedule_test_request_timeout_, schedule_heartbeat_, emit. session_simpl. by rewrite <- !app_assoc. Qed.

(** What [handle_logon] leaves alone. *)
Record kept_by_logon (s s' : Session) : Prop := {
  kl_conn : conn_ s' = conn_ s;
  kl_framer : framer_ s' = framer_ s;
  kl_id : id_ s' = id_ s;
  kl_role : role_ s' = role_ s;
  kl_test_req : test_req_id_ s' = test_req_id_ s;
  kl_cache : recovery_cache_ s' = recovery_cache_ s
}.

(** The acceptor takes over the interval and answers. *)
Lemma accept_logon m h s c : waiting s [] c 2 -> role_ s = ACCEPTOR -> 10 <= h <= 120 -> ids_ok (params_ s) ->
  find_field 108 m = Some (to_chars h) -> find_field 141 m = Some (B "N") ->
  let w := logon_bytes ((params_ s) <| heart_beat_int := h |>) h 1 in
  exists s', handle_logon m s = Ok s' /\ logged_on s' h /\ session_ok s' [w] /\ params_ s' = (params_ s) <| heart_beat_int := h |> /\
    kept_by_logon s s' /\ write_q_ s' = [mk_pending w 0] /\ write_inflight_ s' = true /\
    effects_ s' = effects_ s ++ [ELog fix_info (B "Logon received") None; EWrite c w; ELog fix_info (B "Logon response sent") None] ++ activation h.
Proof.
  intros [I Hc Hst Hn Hca Hq Hi] Hr Hh Hid H108 H141 w. unfold handle_logon, required_field. rewrite H108, ok_bind.
  change (role_ (log fix_info (B "Logon received") s)) with (role_ s). rewrite Hr, (bool_decide_false (ACCEPTOR = INITIATOR)) by done.
  rewrite heartbeat_valid by done. change (role_ ((log fix_info (B "Logon received") s) <| params_ := _ |>)) with (role_ s). rewrite Hr, H141, bool_decide_false by done. cbn [negb andb].
  match goal with |- context [send_logon false ?x] => set (s2 := x) end.
  assert (Hw : zlen w <= 2000) by (apply (logon_size ((params_ s) <| heart_beat_int := h |>) h); [destruct (so_text _ _ I); by split|apply I|exact Hid|lia]).
  destruct (send_outbound (OLogon h false) s2 []) as (s3 & Es & I3 & K & A & Hq3);
    [destruct I as [? [] ? ? ? ? ?]; by split|done|cbn; lia|by vm_compute|change (0 + zlen w < 2 ^ 31); lia|].
  change (session_ok s3 [w]) in I3. change (write_q_ s3 = write_q_ s2 ++ [mk_pending w 0]) in Hq3.
  rewrite (send_logon_small false s2) by (change (- 2 ^ 31 <= h < 2 ^ 31); lia). change (heart_beat_int (params_ s2)) with h. rewrite Es, ok_bind.
  destruct (send_idle_effects _ s2 s3 c Hq Hi Hc (so_live _ _ I) eq_refl Es) as (w' & Hq' & E3 & Hi3).
  rewrite Hq3 in Hq'. change (write_q_ s2) with (write_q_ s) in *. rewrite Hq in Hq3, Hq'. injection Hq' as <-.
  eexists. split; [reflexivity|]. split_and!.
  - split; [reflexivity|exact (so_live _ _ I3)|exact (f_equal heart_beat_int (kp_params _ _ K))|exact (eq_trans (kp_next_in _ _ K) Hn)|exact (so_next _ _ I3)].
  - destruct I3. by split.
  - exact (kp_params _ _ K).
  - destruct K. by split.
  - exact Hq3.
  - exact Hi3.
  - refine (eq_trans (activate_effects (log fix_info (B "Logon response sent") s3) h (eq_sym (f_equal heart_beat_int (kp_params _ _ K)))) _).
    change (effects_ s2) with (effects_ s ++ [ELog fix_info (B "Logon received") None]) in E3.
    change (effects_ (log fix_info (B "Logon response sent") s3)) with (effects_ s3 ++ [ELog fix_info (B "Logon response sent") None]).
    rewrite E3, <- !app_assoc. reflexivity.
Qed.

(** The initiator has proposed the interval, and becomes active. *)
Lemma answer_logon m h s w : session_ok s [w] -> next_in (seqs s) = 2 -> role_ s = INITIATOR -> heart_beat_int (params_ s) = h -> 10 <= h <= 120 ->
  find_field 108 m = Some (to_chars h) -> find_field 141 m = Some (B "N") ->
  exists s', handle_logon m s = Ok s' /\ logged_on s' h /\ session_ok s' [w] /\ params_ s' = (params_ s) <| heart_beat_int := h |> /\
    kept_by_logon s s' /\ write_q_ s' = write_q_ s /\ write_inflight_ s' = write_inflight_ s /\
    effects_ s' = effects_ s ++ ELog fix_info (B "Logon received") None :: activation h.
Proof.
  intros I Hn Hr Hp Hh H108 H141. unfold handle_logon, required_field. rewrite H108, ok_bind.
  change (role_ (log fix_info (B "Logon received") s)) with (role_ s). rewrite Hr, (bool_decide_true (INITIATOR = INITIATOR)) by done.
  rewrite heartbeat_valid by done. change (role_ ((log fix_info (B "Logon received") s) <| params_ := _ |>)) with (role_ s).
  rewrite Hr, H141, bool_decide_false by done. cbn [negb andb]. eexists. split; [reflexivity|]. split_and!; try done.
  - split; [reflexivity|exact (so_live _ _ I)|reflexivity|exact Hn|exact (so_next _ _ I)].
  - destruct I as [? [] ? ? ? ? ?]. by split.
  - refine (eq_trans (activate_effects ((log fix_info (B "Logon received") s) <| params_ := (params_ s) <| heart_beat_int := h |> |>) h eq_refl) _).
    change (effects_ ((log fix_info (B "Logon received") s) <| params_ := _ |>)) with (effects_ s ++ [ELog fix_info (B "Logon received") None]).
    by rewrite <- app_assoc.
Qed.

(** ** Starting *)

(** A new session on a connection. *)
Lemma new_waiting i r p c : session_text p (now_fix clock) -> - 2 ^ 31 <= encrypt_method p < 2 ^ 31 ->
  waiting (set_connection (Some c) (session_new i r p)) [] c 1.
Proof.
  intros Ht He. split; [|done..]. split; [apply scratch_new_wf|exact Ht|exact He|apply message_store_new_inv|done|done|by exists c].
Qed.

Lemma start_acceptor s c : waiting s [] c 1 -> role_ s = ACCEPTOR ->
  exists s', start NORMAL s = Ok s' /\ waiting s' [] c 1 /\ params_ s' = params_ s /\ role_ s' = ACCEPTOR /\
    framer_ s' = framer_ s /\ id_ s' = id_ s /\ test_req_id_ s' = test_req_id_ s /\
    effects_ s' = effects_ s ++ [ELog fix_info (B "Session started") None; ERead c; EArm LogonTimer logon_response_timeout].
Proof.
  intros [I Hc Hst Hn Hca Hq Hi] Hr. unfold start, start_normal_, do_read, log, schedule_logon_timeout_. session_simpl.
  rewrite Hc, (so_live _ _ I), ok_bind. session_simpl. rewrite Hr. eexists. split; [reflexivity|].
  split_and!; try done; [|session_simpl; by rewrite <- !app_assoc]. split; try done. by destruct I.
Qed.

Lemma start_initiator s wires c n : waiting s wires c n -> role_ s = INITIATOR -> initiator_reset_on_logon (params_ s) = false ->
  - 2 ^ 31 <= heart_beat_int (params_ s) < 2 ^ 31 -> zlen wires + 2 < 2 ^ 32 ->
  let w := logon_bytes (params_ s) (heart_beat_int (params_ s)) (zlen wires + 1) in
  zlen (concat wires) + zlen w < 2 ^ 31 ->
  exists s', start NORMAL s = Ok s' /\ session_ok s' (wires ++ [w]) /\ state_ s' = LOGON_SENT /\ write_q_ s' = [mk_pending w 0] /\
    write_inflight_ s' = true /\ kept s (s' <| state_ := state_ s |>) /\
    effects_ s' = effects_ s ++ [ELog fix_info (B "Session started") None; ERead c; EWrite c w; ELog fix_info (B "Logon sent") None;
                                 EArm LogonTimer logon_response_timeout].
Proof.
  intros [I Hc Hst Hn Hca Hq Hi] Hr Hreset Hh Hk w Hw. unfold start, start_normal_, do_read, log. session_simpl.
  rewrite Hc, (so_live _ _ I), ok_bind. session_simpl. rewrite Hr, Hreset. session_simpl. rewrite Hreset.
  match goal with |- context [send_logon false ?x] => set (s2 := x) end.
  assert (I2 : session_ok s2 wires) by (destruct I; by split).
  destruct (send_outbound (OLogon (heart_beat_int (params_ s)) false) s2 wires I2 ltac:(done) Hh Hk Hw) as (s3 & Es & I3 & K & A & Hq3).
  change (write_q_ s3 = write_q_ s2 ++ [mk_pending w 0]) in Hq3. change (session_ok s3 (wires ++ [w])) in I3.
  rewrite (send_logon_small false s2 Hh). change (heart_beat_int (params_ s2)) with (heart_beat_int (params_ s)). rewrite Es, ok_bind.
  destruct (send_idle_effects _ s2 s3 c Hq Hi eq_refl eq_refl Hst Es) as (w' & Hq' & E3 & Hi3).
  change (write_q_ s2) with (write_q_ s) in Hq3. rewrite Hq in Hq3. rewrite Hq3 in Hq'. injection Hq' as <-.
  unfold schedule_logon_timeout_. session_simpl. eexists. split; [reflexivity|]. split_and!.
  - destruct I3. by split.
  - reflexivity.
  - exact Hq3.
  - exact Hi3.
  - assert (K2 : kept s s2) by (split; try reflexivity; [by rewrite Hc|by rewrite (so_live _ _ I)|by rewrite Hr]).
    pose proof (kept_trans _ _ _ K2 K) as K3. clear -K3. destruct K3. by split.
  - unfold emit. session_simpl. rewrite E3. change (effects_ s2) with ((effects_ s ++ [ELog fix_info (B "Session started") None]) ++ [ERead c]).
    by rewrite <- !app_assoc.
Qed.

(** The write of the Logon completes. *)
Lemma logon_written s w c n : session_ok s [w] -> conn_ s = Some c -> established (state_ s) = false -> next_in (seqs s) = n ->
  RecoveryCache.empty (recovery_cache_ s) = true -> write_q_ s = [mk_pending w 0] -> zlen w < 2 ^ 63 ->
  exists s', write_handler success (zlen w) s = Ok s' /\ waiting s' [w] c n /\ params_ s' = params_ s /\ role_ s' = role_ s /\ framer_ s' = framer_ s /\
    effects_ s' = effects_ s.
Proof.
  intros I Hc Hst Hn Hca Hq Hw. pose proof (zlen_nonneg w). unfold write_handler. rewrite (so_live _ _ I), bool_decide_false, bool_decide_true, Hq by done.
  cbn [orb negb sent data]. rewrite Z.add_0_l, u64_small, Z.leb_refl by lia. unfold do_write. session_simpl.
  eexists. split; [reflexivity|]. split_and!; [|done..]. split; try done. by destruct I.
Qed.

(** ** Reading the Logon *)

(** A session that waits processes a Logon: the recovery cache stays empty. *)
Lemma process_logon raw fs v s t : parse raw = Ok (fs, []) ->
  dispatch fs raw s = handle_logon (make_valid_message_view fs) (counted (make_valid_message_view fs) v s) ->
  handle_logon (make_valid_message_view fs) (counted (make_valid_message_view fs) v s) = Ok t ->
  RecoveryCache.empty (recovery_cache_ s) = true -> recovery_cache_ t = recovery_cache_ s -> process_wire_message_ raw s = Ok t.
Proof.
  intros Ep Ed Eh Hca Ht. unfold process_wire_message_. rewrite Ep, ok_bind. cbv beta iota. rewrite Ed, Eh, ok_bind.
  unfold drain_recovery_cache_. by rewrite Ht, Hca.
Qed.

(** One message read in chunks. *)
Lemma read_one k s c w chunks t : conn_ s = Some c -> framer_ s = framer_new -> concat chunks = w -> is_frame w ->
  k <= zlen w -> Forall (fun d => zlen d <= read_limit k) chunks -> framer_cost (FAppend <$> chunks) < 2 ^ 60 ->
  process_wire_message_ w s = Ok t -> stopped_ t = false ->
  exists r, session_run (read_events chunks) s = Ok r /\ similar (framer_ r) framer_new (Some c) false r t.
Proof.
  intros Hc Hf Ec Hw Hl Hcs Hcost E Ht.
  assert (Hsim : similar (framer_ s) framer_new (Some c) false s s) by (rewrite Hf; by split).
  assert (Hsy : synced (framer_ s) [] [w] [] (concat chunks)).
  { rewrite Hf, Ec. pose proof (framer_new_synced [w] ltac:(by repeat constructor)) as H. cbn in H. by rewrite app_nil_r in H. }
  apply (read_run_spec k chunks framer_new c [w] [] s s t Hsim Ht Hsy (starved_nil [w] ltac:(by repeat constructor)));
    [by repeat constructor|done|rewrite Hf..|].
  - change (origin_of framer_new) with 0. change (zlen (view_of framer_new)) with 0. lia.
  - change (LinearBuffer.capacity_ (buffer_ framer_new)) with 65536. lia.
  - cbn [process_all]. by rewrite E, ok_bind.
Qed.

(** What was written, and to which connection. *)
Definition written_to (l : list Effect) : list (Z * bytes) := omap (fun e => match e with EWrite c d => Some (c, d) | _ => None end) l.

Lemma written_to_app l1 l2 : written_to (l1 ++ l2) = written_to l1 ++ written_to l2.
Proof. apply omap_app. Qed.
Lemma written_to_visible l : written_to (visible l) = written_to l.
Proof. unfold written_to, visible. induction l as [|e l IH]; [done|]. cbn [List.filter omap list_omap]. destruct e; cbn [omap list_omap]; by rewrite IH. Qed.
Lemma similar_written f1 f2 c b s t : similar f1 f2 c b s t -> written_to (effects_ s) = written_to (effects_ t).
Proof. intros S. by rewrite <- written_to_visible, (si_trace _ _ _ _ _ _ S), written_to_visible. Qed.

Lemma similar_logged_on f1 f2 c b s t h : similar f1 f2 c b s t -> logged_on t h -> logged_on s h.
Proof. intros [] []. split; unfold seqs in *; congruence. Qed.

(** The acceptor's side. *)
Lemma acceptor_side pa pb ib c h chunks : session_text pa (now_fix clock) -> - 2 ^ 31 <= encrypt_method pa < 2 ^ 31 -> ids_ok pa ->
  session_text pb (now_fix clock) -> - 2 ^ 31 <= encrypt_method pb < 2 ^ 31 -> faces pb pa -> 10 <= h <= 120 ->
  concat chunks = logon_bytes pa h 1 -> Forall (fun d => zlen d <= read_limit 65) chunks -> framer_cost (FAppend <$> chunks) < 2 ^ 60 ->
  exists b, session_run (EvSetConnection (Some c) :: EvStart NORMAL :: read_events chunks) (session_new ib ACCEPTOR pb) = Ok b /\
    logged_on b h /\ written_to (effects_ b) = [(c, logon_bytes (pb <| heart_beat_int := h |>) h 1)].
Proof.
  intros Ta Ea Ia Tb Eb Hf Hh Ec Hcs Hcost. destruct (logon_size pa h Ta Ea Ia Hh) as [Hb Hl].
  destruct (start_acceptor _ c (new_waiting ib ACCEPTOR pb c Tb Eb) eq_refl) as (s1 & E1 & W1 & P1 & R1 & F1 & _ & _ & Ef1).
  change (params_ (set_connection (Some c) (session_new ib ACCEPTOR pb))) with pb in P1.
  destruct (logon_parsed pa pb h Ta Ea Ia Hf Hh) as (fs & Ep & L). pose proof L as L'. rewrite <- P1 in L'.
  destruct (dispatch_counted fs (logon_bytes pa h 1) h s1 (so_live _ _ (wt_ok _ _ _ _ W1)) (wt_state _ _ _ _ W1) (wt_next _ _ _ _ W1) L') as (v & Ed).
  pose proof (counted_waiting (make_valid_message_view fs) v _ _ _ W1) as W2. set (s2 := counted _ v s1) in *.
  assert (Hid : ids_ok (params_ s2)) by (change (ids_ok (params_ s1)); rewrite P1; destruct Hf as [Hs Ht]; unfold ids_ok in *; rewrite Hs, Ht; lia).
  destruct (accept_logon _ h s2 c W2 R1 Hh Hid (lm_heartbeat _ _ _ _ L) (lm_reset _ _ _ _ L)) as (t & Et & Hlog & _ & _ & K & _ & _ & Ef).
  pose proof (process_logon _ fs v s1 t Ep Ed Et (wt_cache _ _ _ _ W1) (kl_cache _ _ K)) as Epr.
  destruct (read_one 65 s1 c _ chunks t (wt_conn _ _ _ _ W1) F1 Ec) as (b & Er & Hr);
    [apply frame_wire_is_frame; unfold MAX_MESSAGE_SIZE; lia|lia|done|done|exact Epr|apply Hlog|].
  exists b. split_and!.
  - cbn [session_run session_step]. by rewrite ok_bind, E1, ok_bind.
  - by eapply similar_logged_on.
  - rewrite (similar_written _ _ _ _ _ _ Hr), Ef. change (params_ s2) with (params_ s1). rewrite P1.
    change (effects_ s2) with (effects_ s1 ++ [EHandled (make_valid_message_view fs)]). by rewrite Ef1, !written_to_app.
Qed.

(** The initiator's side. *)
Lemma initiator_side pa pb ia c chunks : session_text pa (now_fix clock) -> - 2 ^ 31 <= encrypt_method pa < 2 ^ 31 -> ids_ok pa ->
  session_text pb (now_fix clock) -> - 2 ^ 31 <= encrypt_method pb < 2 ^ 31 -> ids_ok pb -> faces pa pb ->
  initiator_reset_on_logon pa = false -> let h := heart_beat_int pa in 10 <= h <= 120 ->
  concat chunks = logon_bytes pb h 1 -> Forall (fun d => zlen d <= read_limit 65) chunks -> framer_cost (FAppend <$> chunks) < 2 ^ 60 ->
  exists a1 a2, session_run [EvSetConnection (Some c); EvStart NORMAL] (session_new ia INITIATOR pa) = Ok a1 /\
    written_to (effects_ a1) = [(c, logon_bytes pa h 1)] /\
    session_run (EvWrite success (zlen (logon_bytes pa h 1)) :: read_events chunks) a1 = Ok a2 /\ logged_on a2 h /\
    written_to (effects_ a2) = [(c, logon_bytes pa h 1)].
Proof.
  intros Ta Ea Ia Tb Eb Ib Hf Hreset h Hh Ec Hcs Hcost. destruct (logon_size pa h Ta Ea Ia Hh) as [_ Hla].
  destruct (logon_size pb h Tb Eb Ib Hh) as [Hb Hl]. set (s0 := set_connection (Some c) (session_new ia INITIATOR pa)).
  destruct (start_initiator s0 [] c 1 (new_waiting ia INITIATOR pa c Ta Ea) eq_refl Hreset ltac:(change (10 <= heart_beat_int (params_ s0) <= 120) in Hh; lia)
    ltac:(by vm_compute)) as (a1 & E1 & I1 & Hst & Hq & _ & K & Ef1); [change (0 + zlen (logon_bytes pa h 1) < 2 ^ 31); lia|].
  change (session_ok a1 [logon_bytes pa h 1]) in I1. change (write_q_ a1 = [mk_pending (logon_bytes pa h 1) 0]) in Hq.
  destruct (logon_written a1 (logon_bytes pa h 1) c 1 I1 (kp_conn _ _ K)) as (s1 & E2 & W1 & P1 & R1 & F1 & G1);
    [by rewrite Hst|exact (kp_next_in _ _ K)|change (recovery_cache_ a1) with (recovery_cache_ (a1 <| state_ := state_ s0 |>)); by rewrite (kp_cache _ _ K)
    |exact Hq|lia|].
  assert (Pa : params_ s1 = pa) by (rewrite P1; exact (kp_params _ _ K)). assert (Ra : role_ s1 = INITIATOR) by (rewrite R1; exact (kp_role _ _ K)).
  destruct (logon_parsed pb pa h Tb Eb Ib Hf Hh) as (fs & Ep & L). pose proof L as L'. rewrite <- Pa in L'.
  destruct (dispatch_counted fs (logon_bytes pb h 1) h s1 (so_live _ _ (wt_ok _ _ _ _ W1)) (wt_state _ _ _ _ W1) (wt_next _ _ _ _ W1) L') as (v & Ed).
  pose proof (counted_waiting (make_valid_message_view fs) v _ _ _ W1) as W2. set (s2 := counted _ v s1) in *.
  destruct (answer_logon (make_valid_message_view fs) h s2 _ (wt_ok _ _ _ _ W2) (wt_next _ _ _ _ W2) Ra (f_equal heart_beat_int Pa) Hh (lm_heartbeat _ _ _ _ L) (lm_reset _ _ _ _ L))
    as (t & Et & Hlog & _ & _ & Kt & _ & _ & Eft).
  pose proof (process_logon _ fs v s1 t Ep Ed Et (wt_cache _ _ _ _ W1) (kl_cache _ _ Kt)) as Epr.
  destruct (read_one 65 s1 c _ chunks t (wt_conn _ _ _ _ W1) (eq_trans F1 (kp_framer _ _ K)) Ec) as (a2 & Er & Hr);
    [apply frame_wire_is_frame; unfold MAX_MESSAGE_SIZE; lia|lia|done|done|exact Epr|apply Hlog|].
  assert (Hw1 : written_to (effects_ a1) = [(c, logon_bytes pa h 1)]) by by rewrite Ef1, written_to_app.
  exists a1, a2. split_and!.
  - cbn [session_run session_step]. fold s0. by rewrite ok_bind, E1, ok_bind.
  - exact Hw1.
  - cbn [session_run session_step]. by rewrite E2, ok_bind.
  - by eapply similar_logged_on.
  - rewrite (similar_written _ _ _ _ _ _ Hr), Eft, written_to_app. change (effects_ s2) with (effects_ s1 ++ [EHandled (make_valid_message_view fs)]).
    by rewrite written_to_app, G1, Hw1.
Qed.

(** C6: two sessions of this engine log on.  A new initiator and a new acceptor start on their
    connections, with opposite CompIDs of at most 1000 bytes together, texts without separators,
    an initiator that proposes an interval of 10 to 120 seconds (others are refused) and does not
    ask for a reset of the sequence numbers.  The acceptor reads what the initiator wrote, cut in
    any way that cannot fill the framer's ring, and the initiator, whose write has completed,
    reads what the acceptor wrote, cut likewise.  No step faults; all that each side writes, from
    its start on, is one Logon with number 1; and both end up active, each expecting number 2 and
    sending number 2 next, and both with the heartbeat interval that the initiator proposed,
    whatever interval the acceptor was configured with. *)
Theorem logon_handshake pa pb ia ib ca cb chunks_b chunks_a :
  session_text pa (now_fix clock) -> session_text pb (now_fix clock) -> faces pb pa -> ids_ok pa ->
  - 2 ^ 31 <= encrypt_method pa < 2 ^ 31 -> - 2 ^ 31 <= encrypt_method pb < 2 ^ 31 ->
  initiator_reset_on_logon pa = false -> let h := heart_beat_int pa in 10 <= h <= 120 ->
  let logon_a := logon_bytes pa h 1 in let logon_b := logon_bytes (pb <| heart_beat_int := h |>) h 1 in
  concat chunks_b = logon_a -> Forall (fun d => zlen d <= read_limit 65) chunks_b -> framer_cost (FAppend <$> chunks_b) < 2 ^ 60 ->
  concat chunks_a = logon_b -> Forall (fun d => zlen d <= read_limit 65) chunks_a -> framer_cost (FAppend <$> chunks_a) < 2 ^ 60 ->
  exists a1 a2 b,
    session_run [EvSetConnection (Some ca); EvStart NORMAL] (session_new ia INITIATOR pa) = Ok a1 /\ written_to (effects_ a1) = [(ca, logon_a)] /\
    session_run (EvSetConnection (Some cb) :: EvStart NORMAL :: read_events chunks_b) (session_new ib ACCEPTOR pb) = Ok b /\
    session_run (EvWrite success (zlen logon_a) :: read_events chunks_a) a1 = Ok a2 /\ logged_on a2 h /\ logged_on b h /\
    written_to (effects_ a2) = [(ca, logon_a)] /\ written_to (effects_ b) = [(cb, logon_b)].
Proof.
  intros Ta Tb Hf Ia Ea Eb Hreset h Hh la lb Ec1 Hs1 Hc1 Ec2 Hs2 Hc2.
  destruct (acceptor_side pa pb ib cb h chunks_b Ta Ea Ia Tb Eb Hf Hh Ec1 Hs1 Hc1) as (b & Erb & Hb & Hwb).
  set (pb' := pb <| heart_beat_int := h |>). destruct Hf as [Hs Ht].
  assert (Tb' : session_text pb' (now_fix clock)) by (destruct Tb; by split).
  assert (Ib : ids_ok pb') by (unfold ids_ok in *; change (zlen (sender_comp_id pb) + zlen (target_comp_id pb) <= 1000); rewrite Hs, Ht; lia).
  destruct (initiator_side pa pb' ia ca chunks_a Ta Ea Ia Tb' Eb Ib (conj (eq_sym Ht) (eq_sym Hs)) Hreset Hh Ec2 Hs2 Hc2) as (a1 & a2 & E1 & Hw & E2 & Ha & Hw2).
  exists a1, a2, b. by split_and!.
Qed.

Definition demo_logon_chunks (p : SessionParameters) : list bytes :=
  [zsub 0 20 (logon_bytes p 30 1); zsub 20 (zlen (logon_bytes p 30 1) - 20) (logon_bytes p 30 1)].
Definition demo_acceptor_params : SessionParameters := (peer_params demo_params) <| heart_beat_int := 60 |>.

Example logon_handshake_witness :
  exists a1 a2 b,
    session_run [EvSetConnection (Some 7); EvStart NORMAL] (session_new (mk_session_id 0 1) INITIATOR demo_params) = Ok a1 /\
    written_to (effects_ a1) = [(7, logon_bytes demo_params 30 1)] /\
    session_run (EvSetConnection (Some 8) :: EvStart NORMAL :: read_events (demo_logon_chunks demo_params))
      (session_new (mk_session_id 0 1) ACCEPTOR demo_acceptor_params) = Ok b /\
    session_run (EvWrite success (zlen (logon_bytes demo_params 30 1)) :: read_events (demo_logon_chunks (peer_params demo_params))) a1 = Ok a2 /\
    logged_on a2 30 /\ logged_on b 30 /\ written_to (effects_ a2) = [(7, logon_bytes demo_params 30 1)] /\
    written_to (effects_ b) = [(8, logon_bytes (peer_params demo_params) 30 1)].
Proof.
  apply (logon_handshake demo_params demo_acceptor_params _ _ 7 8 (demo_logon_chunks demo_params) (demo_logon_chunks (peer_params demo_params))).
  - apply demo_session_text.
  - split; [done|..]; (split; [done|apply (bool_decide_unpack _); by vm_compute]).
  - by split.
  - by vm_compute.
  - by vm_compute.
  - by vm_compute.
  - reflexivity.
  - by vm_compute.
  - by vm_compute.
  - repeat constructor; by vm_compute.
  - by vm_compute.
  - by vm_compute.
  - repeat constructor; by vm_compute.
  - by vm_compute.
Defined.
