(* ===== verification/SessionTrace.v ===== *)
(** What is in the trace of a [Session], whatever happens to it: it only grows, a reconnect names
    the session itself, every message that was handled has passed the validator, and the
    application's sink is never called. *)
From Stdlib Require Import Strings.Byte.
From S2P Require Import Prelude.
From S2P Require Import Text.
From S2P Require Import Network.
From S2P Require Import Message.
From S2P Require Import Parser.
From S2P Require Import Framer.
From S2P Require Import MessageStore.
From S2P Require Import RecoveryCache.
From S2P Require Import Schema.
From S2P Require Import Validator.
From S2P Require Import Factory.
From S2P Require Import Session.
From S2P Require Import SessionReads.
From S2P Require Import SessionLogon.

(** [m] has passed the validator of a session with these CompIDs. *)
Definition admitted (sender target : bytes) (m : ValidMessage) : Prop :=
  exists t sc, slot m MsgTypeSlot = Some t /\ Schema.get t = Ok (Some sc) /\
    (zlen (message_ m) < 2 ^ 30 -> exists p, sender_comp_id p = sender /\ target_comp_id p = target /\ accepted m p t sc).

(** What an entry of the trace of [s] may be. *)
Definition own (s : Session) (e : Effect) : Prop :=
  match e with
  | EReconnect j => j = id_ s
  | EHandled m => admitted (sender_comp_id (params_ s)) (target_comp_id (params_ s)) m
  | EAppSink _ _ => False
  | _ => True
  end.

(** [s'] is [s] later: the same session with more in its trace. *)
Record grows (s s' : Session) : Prop := {
  gr_id : id_ s' = id_ s;
  gr_sender : sender_comp_id (params_ s') = sender_comp_id (params_ s);
  gr_target : target_comp_id (params_ s') = target_comp_id (params_ s);
  gr_trace : exists l, effects_ s' = effects_ s ++ l /\ Forall (own s) l
}.

Lemma own_same s s' e : id_ s' = id_ s -> sender_comp_id (params_ s') = sender_comp_id (params_ s) ->
  target_comp_id (params_ s') = target_comp_id (params_ s) -> own s' e -> own s e.
Proof. intros Ei Es Et. unfold own. by rewrite Ei, Es, Et. Qed.

#[export] Instance grows_refl : Reflexive grows.
Proof. intros s. split; [done..|]. exists []. by rewrite app_nil_r. Qed.
#[export] Instance grows_trans : Transitive grows.
Proof.
  intros s1 s2 s3 [I1 S1 T1 (l1 & E1 & F1)] [I2 S2 T2 (l2 & E2 & F2)]. split; [congruence..|].
  exists (l1 ++ l2). rewrite E2, E1, app_assoc. split; [done|]. apply Forall_app. split; [done|].
  eapply Forall_impl; [exact F2|]. intros e. by apply own_same.
Qed.

Definition res_grows (s : Session) (r : Res Session) : Prop :=
  match r with Ok s' => grows s s' | Err _ => True end.

Section Grows.
Context (s0 : Session).
#[local] Abbreviation later := (grows s0).
#[local] Abbreviation later_res := (res_grows s0).

(** An assignment to another member, and an entry of the trace. *)
Lemma assign_later s s' : id_ s' = id_ s -> sender_comp_id (params_ s') = sender_comp_id (params_ s) ->
  target_comp_id (params_ s') = target_comp_id (params_ s) -> effects_ s' = effects_ s -> later s -> later s'.
Proof using. intros Ei Es Et Ee [I S T (l & E & F)]. split; [congruence..|]. exists l. by rewrite Ee. Qed.
Lemma emit_later e s : own s e -> later s -> later (emit e s).
Proof using.
  intros Ho [I S T (l & E & F)]. split; [exact I|exact S|exact T|]. exists (l ++ [e]). cbn. rewrite E, app_assoc. split; [done|].
  apply Forall_app. split; [done|]. repeat constructor. by apply (own_same _ s).
Qed.
Lemma set_state_later v s : later s -> later (s <| state_ := v |>). Proof using. by apply assign_later. Qed.
Lemma set_stopped_later v s : later s -> later (s <| stopped_ := v |>). Proof using. by apply assign_later. Qed.
Lemma set_write_inflight_later v s : later s -> later (s <| write_inflight_ := v |>). Proof using. by apply assign_later. Qed.
Lemma set_write_q_later v s : later s -> later (s <| write_q_ := v |>). Proof using. by apply assign_later. Qed.
Lemma set_recovery_cache_later v s : later s -> later (s <| recovery_cache_ := v |>). Proof using. by apply assign_later. Qed.
Lemma set_store_later v s : later s -> later (s <| store_ := v |>). Proof using. by apply assign_later. Qed.
Lemma set_msg_factory_later v s : later s -> later (s <| msg_factory_ := v |>). Proof using. by apply assign_later. Qed.
Lemma set_validator_later v s : later s -> later (s <| validator_ := v |>). Proof using. by apply assign_later. Qed.
Lemma set_beat_later v s : later s -> later (s <| params_ := (params_ s) <| heart_beat_int := v |> |>). Proof using. by apply assign_later. Qed.
Lemma set_awaiting_test_request_response_later v s : later s -> later (s <| awaiting_test_request_response_ := v |>). Proof using. by apply assign_later. Qed.
Lemma set_reconnecting_later v s : later s -> later (s <| reconnecting_ := v |>). Proof using. by apply assign_later. Qed.
Lemma set_test_req_id_later v s : later s -> later (s <| test_req_id_ := v |>). Proof using. by apply assign_later. Qed.
Lemma set_framer_later v s : later s -> later (s <| framer_ := v |>). Proof using. by apply assign_later. Qed.
Lemma set_conn_later v s : later s -> later (s <| conn_ := v |>). Proof using. by apply assign_later. Qed.
Lemma if_later (b : bool) x y : later x -> later y -> later (if b then x else y).
Proof using. by destruct b. Qed.
Lemma if_later_res (b : bool) x y : later_res x -> later_res y -> later_res (if b then x else y).
Proof using. by destruct b. Qed.
Lemma bind_later (f : Session -> Res Session) m : later_res m -> (forall s, later s -> later_res (f s)) -> later_res (let! s := m in f s).
Proof using. intros Hm Hf. destruct m as [s|]; [by apply Hf|done]. Qed.
Lemma bind_any {A} (f : A -> Res Session) m : (forall x, later_res (f x)) -> later_res (let! x := m in f x).
Proof using. intros Hf. destruct m as [x|]; [apply Hf|done]. Qed.
Lemma ok_later s : later s -> later_res (Ok s).
Proof using. done. Qed.
Lemma err_later f : later_res (Err f).
Proof using. done. Qed.

Create HintDb later discriminated.
#[local] Hint Constants Opaque : later.
#[local] Hint Resolve if_later if_later_res ok_later err_later : later.
#[local] Hint Resolve set_state_later set_stopped_later set_write_inflight_later set_write_q_later set_recovery_cache_later set_store_later set_msg_factory_later set_validator_later set_beat_later set_awaiting_test_request_response_later set_reconnecting_later set_test_req_id_later set_framer_later set_conn_later : later.
#[local] Hint Extern 2 (grows _ (emit _ _)) => apply emit_later; [first [exact I|exact eq_refl]|] : later.
Ltac later := eauto 20 with later.

Lemma log_later ctx t s : later s -> later (log ctx t s).
Proof using. unfold log. later. Qed.
Lemma cancel_timers_later s : later s -> later (cancel_timers s).
Proof using. unfold cancel_timers. later. Qed.
Lemma close_conn_later s : later s -> later (close_conn s).
Proof using. unfold close_conn. destruct (conn_ s); later. Qed.
#[local] Hint Resolve log_later cancel_timers_later close_conn_later : later.
Lemma set_seqs_later q s : later s -> later (set_seqs q s).
Proof using. unfold set_seqs. later. Qed.
Lemma stop_later s : later s -> later (stop_ s).
Proof using. unfold stop_. cbv zeta. destruct (stopped_ s); [done|]. destruct (conn_ _); later. Qed.
Lemma do_read_later s : later s -> later_res (do_read s).
Proof using. unfold do_read. destruct (stopped_ s); [done|]. destruct (conn_ s); later. Qed.
Lemma do_write_later s : later s -> later_res (do_write s).
Proof using. unfold do_write. destruct (write_q_ s); [later|]. destruct (stopped_ s); [done|]. destruct (conn_ s); later. Qed.
Lemma schedule_heartbeat_later s : later s -> later (schedule_heartbeat_ s).
Proof using. unfold schedule_heartbeat_. later. Qed.
Lemma schedule_test_request_later s : later s -> later (schedule_test_request_timeout_ s).
Proof using. unfold schedule_test_request_timeout_. later. Qed.
Lemma schedule_logon_later s : later s -> later (schedule_logon_timeout_ s).
Proof using. unfold schedule_logon_timeout_. later. Qed.
#[local] Hint Resolve set_seqs_later stop_later do_read_later do_write_later schedule_heartbeat_later schedule_test_request_later
  schedule_logon_later : later.
Lemma send_bytes_later w s : later s -> later_res (send_bytes_ w s).
Proof using. unfold send_bytes_. cbv zeta. later. Qed.
#[local] Hint Resolve send_bytes_later : later.
Lemma send_message_later w r s : later s -> later_res (send_message_ w r s).
Proof using.
  intros H. unfold send_message_. destruct (stopped_ s); [done|]. apply bind_later; [later|]. clear H. intros t H.
  apply bind_later; [|later]. destruct r; [done|]. apply bind_any. later.
Qed.
#[local] Hint Resolve send_message_later : later.
Lemma send_built_later b r s : later s -> later_res (send_built b r s).
Proof using. intros H. unfold send_built. destruct (b _). later. Qed.
#[local] Hint Resolve send_built_later : later.
Ltac built := intros; apply send_built_later; assumption.
Lemma send_logout_later m s : later s -> later_res (send_logout m s). Proof using. built. Qed.
Lemma send_logon_later m s : later s -> later_res (send_logon m s). Proof using. built. Qed.
Lemma send_heartbeat_later m s : later s -> later_res (send_heartbeat m s). Proof using. built. Qed.
Lemma send_test_request_later m s : later s -> later_res (send_test_request m s). Proof using. built. Qed.
Lemma send_resend_request_later a b s : later s -> later_res (send_resend_request a b s). Proof using. built. Qed.
Lemma send_custom_later m s : later s -> later_res (send_custom m s). Proof using. built. Qed.
Lemma send_gap_fill_later a b s : later s -> later_res (send_sequence_reset_gap_fill a b s). Proof using. built. Qed.
Lemma send_reject_later a b c d s : later s -> later_res (send_reject a b c d s). Proof using. built. Qed.
#[local] Hint Resolve send_logout_later send_logon_later send_heartbeat_later send_test_request_later send_resend_request_later
  send_custom_later send_gap_fill_later send_reject_later : later.

Lemma stop_with_logout_later m s : later s -> later_res (stop_with_logout m s).
Proof using. intros H. unfold stop_with_logout. destruct (stopped_ s); [done|]. apply bind_later; later. Qed.
#[local] Hint Resolve stop_with_logout_later : later.

(** ** Life cycle *)

Lemma start_later m s : later s -> later_res (start m s).
Proof using.
  intros H. destruct m; cbn [start].
  - unfold start_normal_. cbv zeta. destruct (conn_ _); [|later]. apply bind_later; [later|]. clear s H. intros s H.
    destruct (role_ s); [|later]. apply bind_later; later.
  - unfold start_after_reconnect_. cbv zeta. destruct (conn_ _); [|later]. destruct (stopped_ _); [later|].
    apply bind_later; [|later]. destruct (role_ _); [|later]. apply bind_later; later.
Qed.
Lemma on_transport_down_later s : later s -> later (on_transport_down_ s).
Proof using. intros H. unfold on_transport_down_. cbv zeta. later. Qed.
#[local] Hint Resolve start_later on_transport_down_later : later.

(** ** Handlers *)

Lemma validate_heartbeat_later v i s : later s -> later (validate_heartbeat_int v i s).2.
Proof using. intros H. unfold validate_heartbeat_int. cbv zeta. destruct (i && _); [done|]. destruct (_ || _); [done|]. cbn [snd]. later. Qed.
Lemma handle_logon_later m s : later s -> later_res (handle_logon m s).
Proof using.
  intros H. unfold handle_logon. cbv zeta. apply bind_any. intros v.
  pose proof (validate_heartbeat_later v (bool_decide (role_ (log fix_info (B "Logon received") s) = INITIATOR)) _ (log_later fix_info (B "Logon received") s H)) as H1.
  destruct (validate_heartbeat_int _ _ _) as [p t]. cbn [snd] in H1. destruct p; cbn [negb]; [|later]. destruct (role_ t); [later|].
  destruct (_ && _); [later|]. apply bind_later; later.
Qed.
Lemma handle_logout_later m s : later s -> later_res (handle_logout m s).
Proof using. intros H. unfold handle_logout, stop. cbv zeta. case_bool_decide; [later|]. apply bind_later; later. Qed.
Lemma handle_heartbeat_later m s : later s -> later_res (handle_heartbeat m s).
Proof using. intros H. unfold handle_heartbeat. later. Qed.
Lemma handle_test_request_later m s : later s -> later_res (handle_test_request m s).
Proof using. intros H. unfold handle_test_request. apply bind_any. later. Qed.
Lemma resend_one_later a s : later s -> later_res (resend_one a s).
Proof using.
  intros H. unfold resend_one. destruct (gap_fill a); [later|]. apply bind_any. intros i. apply bind_any. intros [w f]. later.
Qed.
Lemma resend_loop_later fuel st s : later s -> later_res (resend_loop fuel st s).
Proof using.
  revert st s. induction fuel as [|fuel IH]; intros st s H; [done|]. cbn [resend_loop]. destruct (has_next st); [|done].
  apply bind_any. intros [a st']. apply bind_later; [by apply resend_one_later|]. auto.
Qed.
Lemma handle_resend_request_later m s : later s -> later_res (handle_resend_request m s).
Proof using. intros H. unfold handle_resend_request. apply bind_any. intros bt. apply bind_any. intros et. cbv zeta. by apply resend_loop_later. Qed.
Lemma handle_sequence_reset_later m s : later s -> later_res (handle_sequence_reset m s).
Proof using. intros H. unfold handle_sequence_reset. apply bind_any. intros n. cbv zeta. later. Qed.
Lemma handle_reject_later m s : later s -> later_res (handle_reject m s).
Proof using. intros H. unfold handle_reject. destruct (find_field 45 m); later. Qed.
Lemma handle_custom_later m s : later s -> later_res (handle_custom m s).
Proof using. intros H. unfold handle_custom. cbv zeta. destruct (find _ _ _); later. Qed.
#[local] Hint Resolve handle_logon_later handle_logout_later handle_heartbeat_later handle_test_request_later handle_resend_request_later
  handle_sequence_reset_later handle_reject_later handle_custom_later : later.
(** The registry has the types that [handle] tells apart. *)
Lemma registered_types t sc : Schema.get t = Ok (Some sc) -> t ∈ [B "A"; B "5"; B "0"; B "1"; B "2"; B "3"; B "4"; B "cu"].
Proof using.
  rewrite get_find. destruct (list_find _ message_schemas) as [[i s]|] eqn:Ef; [|done]. intros _.
  apply list_find_Some in Ef as (Hi & <- & _). do 8 (destruct i as [|i]; [injection Hi as <-; apply (bool_decide_unpack _); by vm_compute|]). done.
Qed.

Lemma handle_later ty m s : slot m MsgTypeSlot = Some ty -> own s (EHandled m) -> later s -> later_res (handle ty m s).
Proof using.
  intros Hty Hm H. unfold handle. cbv zeta. assert (H0 : later (emit (EHandled m) s)) by (by apply emit_later).
  destruct Hm as (t & sc & Ht & Hsc & _). rewrite Hty in Ht. injection Ht as <-. apply registered_types in Hsc.
  revert H0. generalize (emit (EHandled m) s) as s1. intros s1 H0. repeat (case_bool_decide; [later|]). rewrite !elem_of_cons in Hsc. destruct_or!; try done. by apply not_elem_of_nil in Hsc.
Qed.
Lemma cache_message_later q raw s : later s -> later_res (cache_message q raw s).
Proof using. intros H. unfold cache_message. apply bind_any. intros []; [done|]. apply bind_any. later. Qed.
#[local] Hint Resolve cache_message_later : later.
Lemma check_sequence_later ty q dup raw m s : slot m MsgTypeSlot = Some ty -> own s (EHandled m) -> later s ->
  later_res (check_sequence ty q dup raw m s).
Proof using.
  intros Hty Hm H. unfold check_sequence. cbv zeta. apply if_later_res; [apply handle_later; [done|done|later]|].
  apply if_later_res; [later|]. apply if_later_res; [|later]. apply bind_later; later.
Qed.
Lemma dispatch_later fs raw s : later s -> later_res (dispatch fs raw s).
Proof using.
  intros H. unfold dispatch. cbv zeta. destruct (stopped_ s); [done|]. destruct (validate_message _ _ _) as [v|] eqn:Ev; [|done]. cbn [mbind res_bind].
  apply if_later_res; [later|]. destruct (errors (results_ v)) eqn:Ee; [|later]. destruct (slot _ _) as [ty|] eqn:Ety; [|later].
  do 2 (apply if_later_res; [later|]). apply check_sequence_later; [done| |later].
  destruct (validated _ _ _ _ Ev Ee) as (t & sc & Ht & Hsc & Ha). exists t, sc. split_and!; [done|done|]. intros Hn. exists (params_ s).
  split_and!; [by destruct (established _)..|by apply Ha].
Qed.
Lemma drain_loop_later fuel s : later s -> match drain_loop fuel s with Ok (_, t) => later t | Err _ => True end.
Proof using.
  revert s. induction fuel as [|fuel IH]; intros s H; [done|]. cbn [drain_loop].
  destruct (contains _ _) as [[]|]; [|done|done]. cbn [mbind res_bind negb]. destruct (RecoveryCache.get _ _) as [raw|]; [|done]. cbn [mbind res_bind].
  destruct (parse raw) as [[fs [|e es]]|]; [| |done]; cbn [mbind res_bind].
  - pose proof (dispatch_later fs raw s H) as Hd. destruct (dispatch fs raw s) as [t|]; [|done]. cbn [mbind res_bind res_grows] in *.
    destruct (consume _ _); [|done]. apply IH. later.
  - pose proof (send_logout_later (B "Parse error during recovery") s H) as Hd. destruct (send_logout _ s) as [t|]; [|done].
    cbn [mbind res_bind res_grows] in *. by apply stop_later.
Qed.
Lemma drain_later s : later s -> later_res (drain_recovery_cache_ s).
Proof using.
  intros H. unfold drain_recovery_cache_. destruct (_ || _); [done|].
  pose proof (drain_loop_later (S (Z.to_nat (RecoveryCache.size_ (recovery_cache_ s)))) s H) as Hd.
  destruct (drain_loop _ s) as [[[] t]|]; cbn [mbind res_bind]; [done| |done]. later.
Qed.
Lemma process_later w s : later s -> later_res (process_wire_message_ w s).
Proof using.
  intros H. unfold process_wire_message_. apply bind_any. intros [fs es]. apply bind_later; [|apply drain_later].
  destruct es; [by apply dispatch_later|later].
Qed.

(** ** Completions *)

Lemma read_loop_later fuel s : later s -> later_res (read_loop fuel s).
Proof using.
  revert s. induction fuel as [|fuel IH]; intros s H; [done|]. cbn [read_loop]. destruct (has_message _); [|done].
  apply bind_any. intros m. apply bind_later; [by apply process_later|]. clear s H. intros s H. apply bind_any. intros f. apply IH. later.
Qed.
Lemma io_failed_later what ec (retry : Session -> Res Session) s : (forall s, later s -> later_res (retry s)) -> later s ->
  later_res (io_failed what ec retry s).
Proof using. intros Hr H. unfold io_failed. case_bool_decide; [apply Hr|]; later. Qed.
Lemma read_handler_later ec d s : later s -> later_res (read_handler ec d s).
Proof using.
  intros H. unfold read_handler. destruct (_ || _); [done|]. case_bool_decide; cbn [negb]; [|by apply io_failed_later; [later|]].
  apply bind_any. intros f. apply bind_later; [apply read_loop_later; later|later].
Qed.
Lemma write_handler_later ec n s : later s -> later_res (write_handler ec n s).
Proof using.
  intros H. unfold write_handler. destruct (_ || _); [done|]. case_bool_decide; cbn [negb]; [|by apply io_failed_later; [later|]].
  destruct (write_q_ s); later.
Qed.
Lemma on_timer_later what ec (k : Session -> Res Session) s : later_res (k s) -> later s -> later_res (on_timer what ec k s).
Proof using. intros Hk H. unfold on_timer. destruct (_ || _); [done|]. case_bool_decide; cbn [negb]; later. Qed.

Lemma session_step_later e s : later s -> later_res (session_step e s).
Proof using.
  intros H. destruct e; cbn [session_step].
  - later.
  - by apply stop_later.
  - unfold set_connection. later.
  - unfold send_from_app. later.
  - by apply read_handler_later.
  - by apply write_handler_later.
  - apply on_timer_later; [|done]. unfold stop. later.
  - apply on_timer_later; [|done]. unfold stop. later.
  - apply on_timer_later; [|done]. apply bind_later; later.
  - apply on_timer_later; [|done]. cbv zeta. apply if_later_res; [|later]. apply bind_later; later.
Qed.
End Grows.

Lemma session_step_grows e s s' : session_step e s = Ok s' -> grows s s'.
Proof. intros E. pose proof (session_step_later s e s (reflexivity s)) as H. by rewrite E in H. Qed.

(** ** Runs *)

Lemma session_run_grows es s s' : session_run es s = Ok s' -> grows s s'.
Proof.
  revert s. induction es as [|e es IH]; intros s; cbn [session_run].
  - by intros [= <-].
  - intros E. apply bind_ok in E as (s1 & E1 & E). etransitivity; [by apply (session_step_grows e)|by apply IH].
Qed.

(** C9: only valid messages are handled.  Whatever a session is told, reads and waits for, every
    message whose handler runs, directly or out of the recovery cache, has a registered type and
    has passed the validator against the CompIDs of the session: it has the version, the
    sequence number and the swapped CompIDs, all its required fields, each field in the format
    of its type, and no field that is unknown or repeated (if it has fewer than 2^30 fields).
    A reconnect is asked for the session itself, and the sink of the application is never
    called: every registered type is handled by the session. *)
Theorem handled_is_valid es i r params s : session_run es (session_new i r params) = Ok s -> forall e, e ∈ effects_ s ->
  match e with
  | EHandled m => exists t sc, slot m MsgTypeSlot = Some t /\ Schema.get t = Ok (Some sc) /\
      (zlen (message_ m) < 2 ^ 30 -> exists p, sender_comp_id p = sender_comp_id params /\ target_comp_id p = target_comp_id params /\ accepted m p t sc)
  | EReconnect j => j = i
  | EAppSink _ _ => False
  | _ => True
  end.
Proof.
  intros E e He. destruct (session_run_grows _ _ _ E) as [_ _ _ (l & El & Hl)]. rewrite El in He. rewrite Forall_forall in Hl.
  specialize (Hl e He). by destruct e.
Qed.

(** An acceptor that logs on. *)
Definition demo_handled_run : list event :=
  EvSetConnection (Some 8) :: EvStart NORMAL :: read_events (demo_logon_chunks demo_params).
Definition demo_acceptor_new : Session := session_new (mk_session_id 0 1) ACCEPTOR demo_acceptor_params.
Definition is_handled (e : Effect) : bool := match e with EHandled _ => true | _ => false end.

Example handled_is_valid_witness :
  exists s, session_run demo_handled_run demo_acceptor_new = Ok s /\ length (List.filter is_handled (effects_ s)) = 1%nat /\
    forall e, e ∈ effects_ s ->
    match e with
    | EHandled m => exists t sc, slot m MsgTypeSlot = Some t /\ Schema.get t = Ok (Some sc) /\
        (zlen (message_ m) < 2 ^ 30 -> exists p, sender_comp_id p = sender_comp_id demo_acceptor_params /\
           target_comp_id p = target_comp_id demo_acceptor_params /\ accepted m p t sc)
    | EReconnect j => j = mk_session_id 0 1
    | EAppSink _ _ => False
    | _ => True
    end.
Proof.
  assert (H : exists s, session_run demo_handled_run demo_acceptor_new = Ok s /\ length (List.filter is_handled (effects_ s)) = 1%nat)
    by (apply ok_such; vm_compute; reflexivity).
  destruct H as (s & E & Hn). exists s. split; [exact E|]. split; [exact Hn|]. exact (handled_is_valid _ _ _ _ s E).
Defined.
