(* ===== verification/SessionPool.v ===== *)
(** [Fix::SessionPool] (include/fix/core/SessionPool.hpp, src/SessionPool.cpp): the engine's
    sessions in reusable slots.

    A slot holds a [shared_ptr] or null.  Of a session the pool reads only its identifier, which
    never changes, so a pointer is the address of the session and that identifier.  The
    abstraction is a finite map from identifiers, which are never reused, to sessions. *)
From stdpp Require Import gmap.
From S2P Require Import Prelude.
From S2P Require Import Session.

(** [std::shared_ptr<Session>]; [make_shared] chose the address. *)
Record SessionPtr : Set := mk_ptr { address : Z; get_session_id : SessionID }.

Record SessionPool : Set := mk_pool {
  sessions_ : list (option SessionPtr);
  free_indices_ : list Z;
  next_idx : Z
}.

Definition session_pool_new : SessionPool := mk_pool [] [] 0.

(** [SessionID::operator==]: the slot is not compared. *)
Definition session_id_eqb (a b : SessionID) : bool := id b =? id a.

Definition size (p : SessionPool) : Z := u64 (zlen (sessions_ p) - zlen (free_indices_ p)).

Definition generate_session_Id_ (p : SessionPool) : Z * SessionPool :=
  (next_idx p, mk_pool (sessions_ p) (free_indices_ p) (u64 (next_idx p + 1))).

(** [new_address] is where [make_shared] puts the session. *)
Definition emplace_session (new_address : Z) (p : SessionPool) : Res (SessionPtr * SessionPool) :=
  match last (free_indices_ p) with
  | None =>
      let '(n, p) := generate_session_Id_ p in
      let sess := mk_ptr new_address (mk_session_id (zlen (sessions_ p)) n) in
      Ok (sess, mk_pool (sessions_ p ++ [Some sess]) (free_indices_ p) (next_idx p))
  | Some nxt =>
      let p := mk_pool (sessions_ p) (removelast (free_indices_ p)) (next_idx p) in
      let '(n, p) := generate_session_Id_ p in
      let sess := mk_ptr new_address (mk_session_id nxt n) in
      if nxt <? zlen (sessions_ p)
      then Ok (sess, mk_pool (zset nxt (Some sess) (sessions_ p)) (free_indices_ p) (next_idx p))
      else Err OutOfBounds
  end.

(** [get]; the [at] of a slot that does not exist throws. *)
Definition get (sid : SessionID) (p : SessionPool) : Res (option SessionPtr) :=
  match znth (sessions_ p) (storage_index sid) with
  | None => Err Thrown
  | Some None => Ok None
  | Some (Some sess) => Ok (if negb (session_id_eqb (get_session_id sess) sid) then None else Some sess)
  end.

Definition remove (sid : SessionID) (p : SessionPool) : Res (bool * SessionPool) :=
  let i := storage_index sid in
  match znth (sessions_ p) i with
  | None => Err Thrown
  | Some None => Ok (false, p)
  | Some (Some sess) =>
      if negb (session_id_eqb (get_session_id sess) sid) then Ok (false, p)
      else Ok (true, mk_pool (zset i None (sessions_ p)) (free_indices_ p ++ [i]) (next_idx p))
  end.

Definition get_all_at_start (p : SessionPool) : list (option SessionPtr) := sessions_ p.

Definition get_all (p : SessionPool) : list SessionPtr :=
  omap (fun session =>
    match session with
    | None => None
    | Some s => if bool_decide (storage_index (get_session_id s) ∈ free_indices_ p) then None else Some s
    end) (sessions_ p).

(** ** Lists *)

Lemma znth_split {A} (l : list A) i x : znth l i = Some x ->
  exists l1 l2, l = l1 ++ x :: l2 /\ zlen l1 = i /\ forall y, zset i y l = l1 ++ y :: l2.
Proof.
  intros E. pose proof (znth_Some_lt _ _ _ E) as Hi. unfold znth in E. rewrite (proj2 (Z.ltb_ge _ _)) in E by lia.
  exists (take (Z.to_nat i) l), (drop (S (Z.to_nat i)) l). pose proof (lookup_lt_Some _ _ _ E). split_and!.
  - by rewrite take_drop_middle.
  - unfold zlen. rewrite length_take. lia.
  - intros y. unfold zset. rewrite (proj2 (Z.ltb_ge _ _)) by lia. apply insert_take_drop. lia.
Qed.

Lemma last_removelast {A} (l : list A) x : last l = Some x -> l = removelast l ++ [x].
Proof. intros (l' & ->)%last_Some. by rewrite removelast_last. Qed.

(** ** What a pool is: a map from identifiers to sessions *)

(** The sessions in the slots, and what the map says of one. *)
Definition held (p : SessionPool) : list SessionPtr := omap (fun o => o) (sessions_ p).
Definition entry (sess : SessionPtr) : Z * Z := (id (get_session_id sess), address sess).

(** [spec_live]: the addresses of the live sessions by identifier; [spec_issued]: how many
    identifiers were handed out; [spec_peak]: the most sessions alive at once. *)
Record PoolSpec : Type := mk_pool_spec { spec_live : gmap Z Z; spec_issued : Z; spec_peak : Z }.

(** [handles] are the identifiers handed out so far. *)
Record pool_rep (p : SessionPool) (handles : list SessionID) (sp : PoolSpec) : Prop := {
  pr_entries : entry <$> held p ≡ₚ map_to_list (spec_live sp);
  pr_slots : forall i s, znth (sessions_ p) i = Some (Some s) -> storage_index (get_session_id s) = i;
  pr_free : forall i, i ∈ free_indices_ p <-> znth (sessions_ p) i = Some None;
  pr_free_once : NoDup (free_indices_ p);
  pr_size : zlen (sessions_ p) = Z.of_nat (base.size (spec_live sp)) + zlen (free_indices_ p);
  pr_peak : zlen (sessions_ p) = spec_peak sp;
  pr_next : next_idx p = spec_issued sp;
  pr_issued : zlen handles = spec_issued sp;
  pr_handles : forall k h, znth handles k = Some h -> id h = k /\ 0 <= storage_index h < zlen (sessions_ p);
  pr_live : forall k a, spec_live sp !! k = Some a -> exists h, znth handles k = Some h /\
    znth (sessions_ p) (storage_index h) = Some (Some (mk_ptr a h))
}.

Lemma held_app l1 l2 f n : held (mk_pool (l1 ++ l2) f n) = held (mk_pool l1 f n) ++ held (mk_pool l2 f n).
Proof. apply omap_app. Qed.

(** A session in a slot is live. *)
Lemma held_live p hs sp i s : pool_rep p hs sp -> znth (sessions_ p) i = Some (Some s) ->
  spec_live sp !! id (get_session_id s) = Some (address s).
Proof.
  intros R (l1 & l2 & E & _)%znth_split. apply elem_of_map_to_list. rewrite <- (pr_entries _ _ _ R).
  apply (list_elem_of_fmap_2 entry). unfold held. rewrite E, omap_app. apply elem_of_app. right. cbn. by left.
Qed.

Lemma get_all_held p hs sp : pool_rep p hs sp -> get_all p = held p.
Proof.
  intros R. unfold get_all, held. apply list_omap_ext, Forall2_same_length_lookup.
  split; [done|]. intros k o o' E1 E2. rewrite E1 in E2. injection E2 as <-. destruct o as [s|]; [|done].
  rewrite bool_decide_false; [done|]. rewrite (pr_free _ _ _ R).
  assert (Ek : znth (sessions_ p) (Z.of_nat k) = Some (Some s)) by (unfold znth; rewrite (proj2 (Z.ltb_ge _ _)), Nat2Z.id by lia; done).
  by rewrite (pr_slots _ _ _ R _ _ Ek), Ek.
Qed.

(** ** Every operation on both *)

Lemma pool_get_spec p hs sp k h : pool_rep p hs sp -> znth hs k = Some h ->
  get h p = Ok ((fun a => mk_ptr a h) <$> spec_live sp !! k).
Proof.
  intros R Eh. destruct (pr_handles _ _ _ R k h Eh) as [Hk Hi]. unfold get.
  destruct (spec_live sp !! k) as [a|] eqn:El.
  - destruct (pr_live _ _ _ R k a El) as (h' & Eh' & E). rewrite Eh in Eh'. injection Eh' as <-. rewrite E.
    unfold session_id_eqb. by rewrite Z.eqb_refl.
  - destruct (znth_is_Some (sessions_ p) (storage_index h) Hi) as [[s|] E]; rewrite E; [|done].
    unfold session_id_eqb. case_Z; [|done]. pose proof (held_live _ _ _ _ _ R E). congruence.
Qed.

Lemma remove_spec p hs sp k h : pool_rep p hs sp -> znth hs k = Some h ->
  exists p', remove h p = Ok (bool_decide (is_Some (spec_live sp !! k)), p') /\
    pool_rep p' hs (mk_pool_spec (delete k (spec_live sp)) (spec_issued sp) (spec_peak sp)).
Proof.
  intros R Eh. destruct (pr_handles _ _ _ R k h Eh) as [Hk Hi]. unfold remove.
  destruct (spec_live sp !! k) as [a|] eqn:El.
  2: { rewrite bool_decide_false by (by intros [? ?]). exists p. split.
    - destruct (znth_is_Some (sessions_ p) (storage_index h) Hi) as [[s|] E]; rewrite E; [|done].
      unfold session_id_eqb. case_Z; [|done]. pose proof (held_live _ _ _ _ _ R E). congruence.
    - rewrite delete_id by done. by destruct R. }
  destruct (pr_live _ _ _ R k a El) as (h' & Eh' & E). rewrite Eh in Eh'. injection Eh' as <-. rewrite E.
  unfold session_id_eqb. cbn [get_session_id]. rewrite Z.eqb_refl. cbn [negb]. rewrite bool_decide_true by eauto.
  eexists. split; [done|]. destruct (znth_split _ _ _ E) as (l1 & l2 & Es & Hl & Hset).
  assert (Hfree : storage_index h ∉ free_indices_ p) by (rewrite (pr_free _ _ _ R), E; done).
  assert (Hne : forall i, i <> storage_index h -> znth (zset (storage_index h) None (sessions_ p)) i = znth (sessions_ p) i)
    by (intros i ?; apply znth_zset_ne; lia).
  assert (Heq : znth (zset (storage_index h) None (sessions_ p)) (storage_index h) = Some None) by (by apply znth_zset_eq).
  destruct R as [Re Rs Rf Rn Rz Rp Rx Ri Rh Rl]. split; cbn [sessions_ free_indices_ next_idx spec_live spec_issued spec_peak]; try done.
  - apply (Permutation.Permutation_cons_inv (a := (k, a))). rewrite map_to_list_delete by done. rewrite <- Re. unfold held. cbn [sessions_].
    rewrite Hset, Es, !omap_app. cbn. rewrite !fmap_app, Permutation_middle. cbn. by rewrite <- Hk.
  - intros i s. destruct (decide (i = storage_index h)) as [->|]; [by rewrite Heq|rewrite Hne by done; apply Rs].
  - intros i. rewrite elem_of_app, list_elem_of_singleton, Rf. destruct (decide (i = storage_index h)) as [->|].
    + rewrite Heq. split; [done|by right].
    + rewrite Hne by done. split; [by intros [?|?]|by left].
  - apply NoDup_app. split_and!; [done| |apply NoDup_singleton]. by intros i Hin ->%list_elem_of_singleton.
  - rewrite zlen_zset, zlen_app, map_size_delete_Some by (by eexists). change (zlen [storage_index h]) with 1.
    assert (base.size (spec_live sp) <> 0%nat) by (rewrite map_size_ne_0_lookup; eauto). lia.
  - by rewrite zlen_zset.
  - intros k' h'. rewrite zlen_zset. apply Rh.
  - intros k' a' (Hkk & Ea)%lookup_delete_Some. destruct (Rl k' a' Ea) as (h' & Eh' & E'). exists h'. split; [done|].
    rewrite Hne; [done|]. intros Eq. rewrite Eq, E in E'. pose proof (Rh k' h' Eh'). assert (h = h') as <- by congruence. lia.
Qed.

(** A new session [s] in slot [i]. *)
Lemma fill_rep p hs sp i s slots' free' : pool_rep p hs sp -> id (get_session_id s) = spec_issued sp ->
  storage_index (get_session_id s) = i -> 0 <= spec_issued sp < 2 ^ 64 - 1 ->
  (forall k, is_Some (spec_live sp !! k) -> 0 <= k < spec_issued sp) ->
  omap (fun o => o) slots' ≡ₚ s :: held p -> (forall s', znth (sessions_ p) i <> Some (Some s')) ->
  (forall j, znth slots' j = if decide (j = i) then Some (Some s) else znth (sessions_ p) j) ->
  (forall j, j ∈ free' <-> j ∈ free_indices_ p /\ j <> i) -> NoDup free' ->
  zlen slots' = Z.of_nat (base.size (spec_live sp)) + 1 + zlen free' -> zlen (sessions_ p) <= zlen slots' ->
  zlen slots' = Z.max (spec_peak sp) (Z.of_nat (base.size (spec_live sp)) + 1) ->
  pool_rep (mk_pool slots' free' (u64 (next_idx p + 1))) (hs ++ [get_session_id s])
    (mk_pool_spec (<[spec_issued sp := address s]> (spec_live sp)) (spec_issued sp + 1)
      (Z.max (spec_peak sp) (Z.of_nat (base.size (spec_live sp)) + 1))).
Proof.
  intros [Re Rs Rf Rn Rz Rp Rx Ri Rh Rl] Hid Hi Hn Hk Hheld Hold Hnth Hfree Hnd Hz Hle Hp.
  assert (Hnew : spec_live sp !! spec_issued sp = None) by (apply eq_None_not_Some; intros ?%Hk; lia).
  assert (Hlt : 0 <= i < zlen slots') by (apply (znth_Some_lt _ _ (Some s)); by rewrite Hnth, decide_True).
  split; cbn [sessions_ free_indices_ next_idx spec_live spec_issued spec_peak]; try done.
  - unfold held. cbn [sessions_]. rewrite Hheld, map_to_list_insert by done. cbn. by rewrite Re, <- Hid.
  - intros j s'. rewrite Hnth. destruct (decide (j = i)) as [->|]; [by intros [= <-]|apply Rs].
  - intros j. rewrite Hnth, Hfree, Rf. destruct (decide (j = i)) as [->|]; [split; [by intros [_ ?]|done]|split; [by intros [? _]|done]].
  - rewrite map_size_insert_None by done. lia.
  - rewrite Rx. word_simpl. done.
  - rewrite zlen_app. change (zlen [get_session_id s]) with 1. lia.
  - intros k h E. destruct (Z.lt_trichotomy k (zlen hs)) as [Hlt'|[->|Hgt]].
    + rewrite znth_app_l in E by lia. destruct (Rh k h E). lia.
    + rewrite znth_app_r, Z.sub_diag in E by lia. injection E as <-. lia.
    + apply znth_Some_lt in E. rewrite zlen_app in E. change (zlen [get_session_id s]) with 1 in E. lia.
  - intros k a [[<- <-]|[Hne E]]%lookup_insert_Some.
    + exists (get_session_id s). rewrite znth_app_r, <- Ri, Z.sub_diag by lia. split; [done|].
      rewrite Hi, Hnth, decide_True by done. by destruct s.
    + destruct (Rl k a E) as (h & Eh & Es). exists h. rewrite znth_app_l by (by eapply znth_Some_lt). split; [done|].
      rewrite Hnth, decide_False; [done|]. intros Eq. rewrite Eq in Es. by apply (Hold _ Es).
Qed.

Lemma emplace_spec new_address p hs sp : pool_rep p hs sp -> 0 <= spec_issued sp < 2 ^ 64 - 1 ->
  (forall k, is_Some (spec_live sp !! k) -> 0 <= k < spec_issued sp) ->
  exists h p', emplace_session new_address p = Ok (mk_ptr new_address h, p') /\ id h = spec_issued sp /\
    pool_rep p' (hs ++ [h]) (mk_pool_spec (<[spec_issued sp := new_address]> (spec_live sp)) (spec_issued sp + 1)
      (Z.max (spec_peak sp) (Z.of_nat (base.size (spec_live sp)) + 1))).
Proof.
  intros R Hn Hk. pose proof R as [Re Rs Rf Rn Rz Rp Rx Ri Rh Rl]. unfold emplace_session, generate_session_Id_.
  destruct (last (free_indices_ p)) as [nxt|] eqn:El; cbn [sessions_ free_indices_ next_idx].
  - pose proof (last_removelast _ _ El) as Ef. set (rest := removelast (free_indices_ p)) in *.
    assert (Hin : nxt ∈ free_indices_ p) by (rewrite Ef, elem_of_app; right; by left).
    apply Rf in Hin as E. pose proof (znth_Some_lt _ _ _ E) as Hlt. rewrite (proj2 (Z.ltb_lt _ _)) by lia.
    do 2 eexists. split_and!; [done|exact Rx|]. destruct (znth_split _ _ _ E) as (l1 & l2 & Es & Hl & Hset).
    rewrite Ef, NoDup_app in Rn. destruct Rn as (Hnd & Hout & _). assert (Hz : zlen (free_indices_ p) = zlen rest + 1) by (rewrite Ef, zlen_app; done).
    pose proof (zlen_nonneg rest).
    refine (fill_rep p hs sp nxt (mk_ptr new_address (mk_session_id nxt _)) _ rest R _ _ Hn Hk _ _ _ _ Hnd _ _ _);
      cbn [get_session_id id storage_index]; rewrite ?zlen_zset; try done; try lia.
    + unfold held. rewrite Hset, Es, !omap_app. cbn. by rewrite Permutation_middle.
    + intros s'. by rewrite E.
    + intros j. destruct (decide (j = nxt)) as [->|]; [by apply znth_zset_eq|apply znth_zset_ne; lia].
    + intros j. rewrite Ef, elem_of_app, list_elem_of_singleton. split; [|by intros [[?| ->] ?]].
      intros Hj. split; [by left|]. intros ->. apply (Hout _ Hj). by left.
  - apply last_None in El. rewrite El in *. change (zlen []) with 0 in Rz.
    do 2 eexists. split_and!; [done|exact Rx|].
    assert (Hz : zlen (sessions_ p ++ [Some (mk_ptr new_address (mk_session_id (zlen (sessions_ p)) (next_idx p)))]) = zlen (sessions_ p) + 1)
      by (rewrite zlen_app; done).
    refine (fill_rep p hs sp _ (mk_ptr new_address (mk_session_id (zlen (sessions_ p)) _)) _ [] R _ eq_refl Hn Hk _ _ _ _ _ _ _ _);
      cbn [get_session_id id storage_index]; rewrite ?Hz; change (@zlen Z []) with 0; try done; try lia.
    + unfold held. rewrite omap_app. cbn. by rewrite <- Permutation_cons_append.
    + intros s' ?%znth_Some_lt. lia.
    + intros j. destruct (decide (j = zlen (sessions_ p))) as [->|].
      * by rewrite znth_app_r, Z.sub_diag by lia.
      * destruct (Z.lt_ge_cases j (zlen (sessions_ p))); [by apply znth_app_l|]. rewrite !znth_None; [done|lia|lia].
    + intros j. rewrite El. split; [by intros ?%not_elem_of_nil|by intros [? _]].
Qed.

(** ** Programs that use a pool

    A program names the sessions it created by their position among all it created: the
    identifier of session [k] is the [k]-th that [emplace_session] returned. *)
Inductive pool_op : Set :=
  | PEmplace (new_address : Z)
  | PRemove (k : Z)
  | PGet (k : Z)
  | PSize
  | PGetAll.

(** A session is reported as its identifier and its address. *)
Inductive pool_out : Type :=
  | OSession (s : Z * Z)
  | ORemoved (b : bool)
  | OFound (s : option (Z * Z))
  | OSize (n : Z)
  | OSessions (ss : list (Z * Z)).

Definition issued_handle (k : Z) (handles : list SessionID) : Res SessionID :=
  match znth handles k with Some h => Ok h | None => Err OutOfBounds end.

Definition pool_step (op : pool_op) (st : SessionPool * list SessionID) : Res (pool_out * (SessionPool * list SessionID)) :=
  let '(p, handles) := st in
  match op with
  | PEmplace a =>
      let! '(s, p) := emplace_session a p in Ok (OSession (entry s), (p, handles ++ [get_session_id s]))
  | PRemove k =>
      let! h := issued_handle k handles in
      let! '(b, p) := remove h p in Ok (ORemoved b, (p, handles))
  | PGet k =>
      let! h := issued_handle k handles in
      let! s := get h p in Ok (OFound (entry <$> s), st)
  | PSize => Ok (OSize (size p), st)
  | PGetAll => Ok (OSessions (entry <$> get_all p), st)
  end.

Definition pool_spec_step (op : pool_op) (sp : PoolSpec) : Res (pool_out * PoolSpec) :=
  let '(mk_pool_spec live issued peak) := sp in
  let known k := (0 <=? k) && (k <? issued) in
  match op with
  | PEmplace a => Ok (OSession (issued, a),
      mk_pool_spec (<[issued := a]> live) (issued + 1) (Z.max peak (Z.of_nat (base.size live) + 1)))
  | PRemove k => if known k then Ok (ORemoved (bool_decide (is_Some (live !! k))), mk_pool_spec (delete k live) issued peak)
                 else Err OutOfBounds
  | PGet k => if known k then Ok (OFound ((fun a => (k, a)) <$> live !! k), sp) else Err OutOfBounds
  | PSize => Ok (OSize (Z.of_nat (base.size live)), sp)
  | PGetAll => Ok (OSessions (map_to_list live), sp)
  end.

Fixpoint pool_run {S} (step : pool_op -> S -> Res (pool_out * S)) (ops : list pool_op) (s : S) : Res (list pool_out * S) :=
  match ops with
  | [] => Ok ([], s)
  | op :: ops =>
      let! '(o, s) := step op s in
      let! '(os, s) := pool_run step ops s in
      Ok (o :: os, s)
  end.

(** The order in which [get_all] lists the sessions is not specified. *)
Definition out_equiv (o1 o2 : pool_out) : Prop :=
  match o1, o2 with OSessions l1, OSessions l2 => l1 ≡ₚ l2 | _, _ => o1 = o2 end.

Definition is_emplace (op : pool_op) : bool := match op with PEmplace _ => true | _ => false end.
Definition emplaces (ops : list pool_op) : Z := zlen (List.filter is_emplace ops).

Record pool_refines (st : SessionPool * list SessionID) (sp : PoolSpec) : Prop := {
  pf_rep : pool_rep st.1 st.2 sp;
  pf_ids : forall k, is_Some (spec_live sp !! k) -> 0 <= k < spec_issued sp;
  pf_count : Z.of_nat (base.size (spec_live sp)) <= spec_issued sp;
  pf_peak : spec_peak sp <= spec_issued sp
}.

Lemma issued_handle_spec p hs sp k : pool_rep p hs sp ->
  if (0 <=? k) && (k <? spec_issued sp) then exists h, issued_handle k hs = Ok h /\ znth hs k = Some h /\ id h = k
  else issued_handle k hs = Err OutOfBounds.
Proof.
  intros R. unfold issued_handle. pose proof (pr_issued _ _ _ R). pose proof (zlen_nonneg hs).
  destruct (Z.leb_spec 0 k), (Z.ltb_spec k (spec_issued sp)); cbn [andb].
  - destruct (znth_is_Some hs k ltac:(lia)) as [h E]. rewrite E. exists h. split_and!; [done|done|by apply (pr_handles _ _ _ R k h E)].
  - by rewrite znth_None by lia.
  - unfold znth. by rewrite (proj2 (Z.ltb_lt _ _)) by lia.
  - lia.
Qed.

Lemma held_entries_of p hs sp : pool_rep p hs sp -> entry <$> get_all p ≡ₚ map_to_list (spec_live sp).
Proof. intros R. rewrite (get_all_held _ _ _ R). apply (pr_entries _ _ _ R). Qed.

Lemma emplace_refines a p hs sp : pool_refines (p, hs) sp -> spec_issued sp < 2 ^ 64 - 1 ->
  exists h p', emplace_session a p = Ok (mk_ptr a h, p') /\ id h = spec_issued sp /\
    pool_refines (p', hs ++ [h]) (mk_pool_spec (<[spec_issued sp := a]> (spec_live sp)) (spec_issued sp + 1)
      (Z.max (spec_peak sp) (Z.of_nat (base.size (spec_live sp)) + 1))).
Proof.
  intros [R Hk Hc Hp] Hn. cbn [fst snd] in *. pose proof (pr_issued _ _ _ R). pose proof (zlen_nonneg hs).
  destruct (emplace_spec a _ _ _ R ltac:(lia) Hk) as (h & p' & E & Eh & R'). exists h, p'. split_and!; [done|done|].
  split; [exact R'|..]; cbn [spec_live spec_issued spec_peak].
  - intros k [b [[<- _]|[_ Eb]]%lookup_insert_Some]; [lia|]. specialize (Hk k (mk_is_Some _ _ Eb)). lia.
  - rewrite map_size_insert. destruct (spec_live sp !! _); cbn; lia.
  - lia.
Qed.

Lemma remove_refines p hs sp k h : pool_refines (p, hs) sp -> znth hs k = Some h ->
  exists p', remove h p = Ok (bool_decide (is_Some (spec_live sp !! k)), p') /\
    pool_refines (p', hs) (mk_pool_spec (delete k (spec_live sp)) (spec_issued sp) (spec_peak sp)).
Proof.
  intros [R Hk Hc Hp] Eh. cbn [fst snd] in *. destruct (remove_spec _ _ _ _ _ R Eh) as (p' & E & R'). exists p'. split; [done|].
  split; [exact R'|..]; cbn [spec_live spec_issued spec_peak]; [|rewrite map_size_delete; destruct (spec_live sp !! k); cbn; lia|done].
  intros k' [b [_ Eb]%lookup_delete_Some]. apply Hk. by eexists.
Qed.

Lemma size_spec p hs sp : pool_refines (p, hs) sp -> spec_issued sp < 2 ^ 64 -> size p = Z.of_nat (base.size (spec_live sp)).
Proof.
  intros [R Hk Hc Hp] Hn. cbn [fst snd] in *. unfold size. rewrite (pr_size _ _ _ R).
  replace (_ + _ - _) with (Z.of_nat (base.size (spec_live sp))) by lia. apply u64_small. lia.
Qed.

Lemma pool_step_refines op st sp : pool_refines st sp -> spec_issued sp + (if is_emplace op then 1 else 0) < 2 ^ 64 ->
  match pool_step op st with
  | Ok (o, st') => exists o' sp', pool_spec_step op sp = Ok (o', sp') /\ out_equiv o o' /\ pool_refines st' sp'
  | Err f => pool_spec_step op sp = Err f
  end.
Proof.
  intros F Hn. pose proof (pf_rep _ _ F) as R. destruct st as [p hs], sp as [live issued peak]. cbn [fst snd spec_issued] in *.
  destruct op as [a|k|k| |]; cbn [pool_step pool_spec_step is_emplace] in *.
  - destruct (emplace_refines a _ _ _ F) as (h & p' & -> & Eh & F'); [cbn; lia|]. rewrite ok_bind.
    do 2 eexists. split_and!; [done|unfold entry; cbn; by rewrite Eh|exact F'].
  - pose proof (issued_handle_spec _ _ _ k R) as Hh. cbn [spec_issued] in Hh. destruct (_ && _); [|by rewrite Hh].
    destruct Hh as (h & -> & Eh & _). rewrite ok_bind. destruct (remove_refines _ _ _ _ _ F Eh) as (p' & -> & F').
    rewrite ok_bind. do 2 eexists. split_and!; [done|done|exact F'].
  - pose proof (issued_handle_spec _ _ _ k R) as Hh. cbn [spec_issued] in Hh. destruct (_ && _); [|by rewrite Hh].
    destruct Hh as (h & -> & Eh & Eid). rewrite ok_bind, (pool_get_spec _ _ _ _ _ R Eh), ok_bind. cbn [spec_live].
    do 2 eexists. split_and!; [done| |done]. cbn. f_equal. destruct (live !! k); cbn; [|done]. unfold entry. cbn. by rewrite Eid.
  - do 2 eexists. split_and!; [done| |done]. cbn. f_equal. apply (size_spec _ _ _ F). cbn. lia.
  - do 2 eexists. split_and!; [done|by apply (held_entries_of _ _ _ R)|done].
Qed.

Lemma pool_spec_step_issued op sp o sp' : pool_spec_step op sp = Ok (o, sp') ->
  spec_issued sp' = spec_issued sp + (if is_emplace op then 1 else 0).
Proof.
  destruct sp as [live issued peak], op; cbn; try (intros [= <- <-]; cbn; lia); destruct (_ && _); intros [= <- <-]; cbn; lia.
Qed.

Lemma session_pool_new_refines : pool_refines (session_pool_new, []) (mk_pool_spec ∅ 0 0).
Proof.
  split; [split|..]; cbn; try done.
  - intros i s ?%znth_Some_lt. change (zlen []) with 0 in *. lia.
  - intros i. split; [by intros ?%not_elem_of_nil|]. intros ?%znth_Some_lt. change (zlen []) with 0 in *. lia.
  - constructor.
  - intros k h ?%znth_Some_lt. change (zlen []) with 0 in *. lia.
  - by intros k [? ?].
Qed.

(** C27: the pool is a finite map from identifiers to sessions, whatever slots it reuses.  Any
    program that creates, removes and looks up sessions, by the identifiers it was given,
    gets the answers of the map: identifiers count up from 0 and are never reused, a session is
    found exactly until it is removed, the old identifier of a reused slot finds nothing, and
    no access is out of range; and there are only as many slots as sessions were ever alive at
    once. *)
Theorem pool_refines_map ops : emplaces ops < 2 ^ 64 ->
  match pool_run pool_step ops (session_pool_new, []) with
  | Ok (os, (p, _)) => exists os' sp, pool_run pool_spec_step ops (mk_pool_spec ∅ 0 0) = Ok (os', sp) /\
      Forall2 out_equiv os os' /\ zlen (sessions_ p) = spec_peak sp
  | Err f => pool_run pool_spec_step ops (mk_pool_spec ∅ 0 0) = Err f
  end.
Proof.
  intros Hn. assert (Hb : spec_issued (mk_pool_spec ∅ 0 0) + emplaces ops < 2 ^ 64) by done. clear Hn.
  generalize session_pool_new_refines. revert Hb. generalize (session_pool_new, @nil SessionID). generalize (mk_pool_spec ∅ 0 0).
  induction ops as [|op ops IH]; intros sp st Hb R; cbn [pool_run].
  - destruct st as [p hs]. exists [], sp. split_and!; [done|constructor|]. apply (pr_peak _ _ _ (pf_rep _ _ R)).
  - assert (Hop : spec_issued sp + (if is_emplace op then 1 else 0) + emplaces ops < 2 ^ 64)
      by (unfold emplaces in *; cbn [List.filter] in Hb; destruct (is_emplace op); zlia).
    pose proof (zlen_nonneg (List.filter is_emplace ops)). unfold emplaces in *.
    pose proof (pool_step_refines op st sp R ltac:(lia)) as S. destruct (pool_step op st) as [[o st1]|f]; [|by rewrite S].
    destruct S as (o' & sp1 & E & Ho & R1). rewrite E. cbn [mbind res_bind].
    rewrite <- (pool_spec_step_issued _ _ _ _ E) in Hop. specialize (IH sp1 st1 Hop R1).
    destruct (pool_run pool_step ops st1) as [[os [p hs]]|f]; cbn [mbind res_bind]; [|by rewrite IH].
    destruct IH as (os' & sp' & -> & Hos & Hp). exists (o' :: os'), sp'. split_and!; [done|by constructor|done].
Qed.

Definition pool_demo : list pool_op :=
  [PEmplace 100; PEmplace 200; PRemove 0; PEmplace 300; PGet 0; PGet 2; PRemove 0; PSize; PEmplace 400; PGetAll].

Example pool_refines_map_witness :
  match pool_run pool_step pool_demo (session_pool_new, []) with
  | Ok (os, (p, _)) => exists os' sp, pool_run pool_spec_step pool_demo (mk_pool_spec ∅ 0 0) = Ok (os', sp) /\
      Forall2 out_equiv os os' /\ zlen (sessions_ p) = spec_peak sp
  | Err f => pool_run pool_spec_step pool_demo (mk_pool_spec ∅ 0 0) = Err f
  end.
Proof. apply (pool_refines_map pool_demo). by vm_compute. Defined.

(** The slot of session 0 is taken by session 2, and three slots serve four sessions. *)
Example pool_demo_run : match pool_run pool_step pool_demo (session_pool_new, []) with
  | Ok (os, (p, _)) => zlen (sessions_ p) = 3 /\
      os = [OSession (0, 100); OSession (1, 200); ORemoved true; OSession (2, 300); OFound None; OFound (Some (2, 300));
            ORemoved false; OSize 2; OSession (3, 400); OSessions [(2, 300); (1, 200); (3, 400)]]
  | Err _ => False
  end.
Proof. by vm_compute. Qed.
