(* ===== verification/SessionManager.v ===== *)
(** [Fix::SessionManager] (include/fix/core/SessionManager.hpp, src/SessionManager.cpp): the
    sessions of an engine and their connections.

    The manager runs on a strand of its own, and every session on its own: a strand is a queue
    of functions that run one at a time and in order.  [exec_] holds the functions posted to the
    manager's strand, and each session object has the queue of its strand.  A [shared_ptr] is an
    address in [heap_]; a [weak_ptr] locks while its address is there.  What a session calls
    back ([EReconnect], [EAppSink] in its trace) is posted to the manager's strand when the
    handler of the session returns.

    Requests to the connection factory wait in [requests] until the factory calls their handler;
    any order of these steps is a run of the engine. *)
From Stdlib Require Import Strings.Byte.
From stdpp Require Import gmap.
From S2P Require Import Prelude.
From S2P Require Import Text.
From S2P Require Import Network.
From S2P Require Import Message.
From S2P Require Import Validator.
From S2P Require Import Factory.
From S2P Require Import Session.
From S2P Require Import SessionTrace.
From S2P Require Import SessionPool.

(** ** Data *)

Record ConnectionConfig : Set := mk_conn_config { ip : bytes; port : Z; conn_role : Role; backlog : Z }.
Record SessionCreationConfig : Type := mk_creation { role : Role; conn_config : ConnectionConfig; params : SessionParameters }.
Record OutBoundAppMsg : Type := mk_outbound { message : GenericMessage; session_id : SessionID; msg_type : MsgType }.

(** Functions on the manager's strand. *)
Inductive Task : Type :=
  | TReconnect (sid : SessionID)
  | TAppEvent (m : ValidMessage) (sid : SessionID)
  | TSend (m : OutBoundAppMsg)
  | TStopAll
  | TStopSession (sid : SessionID).

(** A call of [async_listen] or [async_connect] that waits for its handler, which holds a
    [weak_ptr] to the session. *)
Record Request : Set := mk_request { rq_listen : bool; rq_config : ConnectionConfig; rq_session : Z; rq_mode : StartMode }.

(** A session object and the functions on its strand. *)
Record Object : Type := mk_object { obj_session : Session; obj_strand : list event }.

(** Configurations are found by [SessionID]'s hash and equality, which use [id] only.
    [app_events]: the calls of [app_sink_]; [log_sessions]: the calls of [LogCore::add_session];
    [closed_]: connections closed by the manager or by the destructor of a session. *)
Record SessionManager : Type := mk_manager {
  exec_ : list Task;
  session_pool_ : SessionPool;
  session_configs_ : gmap Z SessionCreationConfig;
  heap_ : gmap Z Object;
  heap_next : Z;
  requests : list Request;
  app_events : list (ValidMessage * SessionID);
  log_sessions : list (SessionID * bytes);
  closed_ : list Z
}.

Definition eta_manager (m : SessionManager) : SessionManager :=
  mk_manager (exec_ m) (session_pool_ m) (session_configs_ m) (heap_ m) (heap_next m) (requests m) (app_events m)
    (log_sessions m) (closed_ m).
#[export] Hint Extern 1 (@Updater SessionManager _ _) => derive_updater eta_manager : typeclass_instances.

Definition manager_new : SessionManager := mk_manager [] session_pool_new ∅ ∅ 0 [] [] [] [].

(** ** Strands *)

(** [boost::asio::post(exec_, ...)]. *)
Definition post (t : Task) (m : SessionManager) : SessionManager := m <| exec_ := exec_ m ++ [t] |>.

(** A function for the strand of the session at [a]. *)
Definition on_strand (a : Z) (e : event) (m : SessionManager) : SessionManager :=
  m <| heap_ := alter (fun o => mk_object (obj_session o) (obj_strand o ++ [e])) a (heap_ m) |>.

(** What a handler of a session has called back. *)
Definition callback (e : Effect) : option Task :=
  match e with EReconnect i => Some (TReconnect i) | EAppSink m i => Some (TAppEvent m i) | _ => None end.

(** The session at [a] runs a function or a completion handler. *)
Definition session_event (a : Z) (e : event) (m : SessionManager) : Res SessionManager :=
  match heap_ m !! a with
  | None => Ok m
  | Some o =>
      let! s := session_step e (obj_session o) in
      let new := drop (length (effects_ (obj_session o))) (effects_ s) in
      Ok (m <| heap_ := <[a := mk_object s (obj_strand o)]> (heap_ m) |> <| exec_ := exec_ m ++ omap callback new |>)
  end.

(** The first function of the strand of the session at [a]. *)
Definition run_session (a : Z) (m : SessionManager) : Res SessionManager :=
  match heap_ m !! a with
  | Some (mk_object s (e :: es)) => session_event a e (m <| heap_ := <[a := mk_object s es]> (heap_ m) |>)
  | _ => Ok m
  end.

(** ** Operations *)

Definition request_for (config : SessionCreationConfig) (sess : SessionPtr) (mode : StartMode) : Request :=
  mk_request (bool_decide (role config = ACCEPTOR)) (conn_config config) (address sess) mode.

(** [emplace] of an [unordered_map] keeps an entry that exists. *)
Definition add_config (k : Z) (config : SessionCreationConfig) (m : gmap Z SessionCreationConfig) : gmap Z SessionCreationConfig :=
  match m !! k with Some _ => m | None => <[k := config]> m end.

Definition create_session (config : SessionCreationConfig) (m : SessionManager) : Res (SessionID * SessionManager) :=
  let! '(sess, pool) := emplace_session (heap_next m) (session_pool_ m) in
  let sid := get_session_id sess in
  let s := session_new sid (role config) (params config) in
  let m := m <| session_pool_ := pool |> in
  let m := m <| heap_ := <[address sess := mk_object s []]> (heap_ m) |> <| heap_next := heap_next m + 1 |> in
  let m := m <| log_sessions := log_sessions m ++ [(sid, readable_id s)] |> in
  let m := m <| session_configs_ := add_config (id sid) config (session_configs_ m) |> in
  Ok (sid, m <| requests := requests m ++ [request_for config sess NORMAL] |>).

Fixpoint create_all (confgs : list SessionCreationConfig) (m : SessionManager) : Res (list SessionID * SessionManager) :=
  match confgs with
  | [] => Ok ([], m)
  | config :: confgs =>
      let! '(sid, m) := create_session config m in
      let! '(ids, m) := create_all confgs m in
      Ok (sid :: ids, m)
  end.

Definition failure_text (rq : Request) : bytes :=
  match rq_mode rq with
  | NORMAL => if rq_listen rq then B "Failed to listen for incoming connection: " else B "Failed to connect: "
  | RECONNECT => if rq_listen rq then B "Failed to listen for incoming connection during reconnect: "
                 else B "Failed to reconnect after disconnect: "
  end.

(** The handler passed to [async_listen] or [async_connect]. *)
Definition request_handler (rq : Request) (ec : error_code) (conn : Z) (m : SessionManager) : SessionManager :=
  match heap_ m !! rq_session rq with
  | Some o =>
      if negb (bool_decide (ec = success)) then
        m <| heap_ := <[rq_session rq := mk_object
               (emit (ELog (mk_log_context LTransport CError High) (failure_text rq) (Some ec)) (obj_session o)) (obj_strand o)]> (heap_ m) |>
      else on_strand (rq_session rq) (EvStart (rq_mode rq)) (on_strand (rq_session rq) (EvSetConnection (Some conn)) m)
  | None =>
      if negb (bool_decide (ec = success)) then m
      else if rq_listen rq then m
      else m <| closed_ := closed_ m ++ [conn] |>
  end.

Definition reconnect_session_impl_ (sid : SessionID) (m : SessionManager) : Res SessionManager :=
  match session_configs_ m !! id sid with
  | None => Ok m
  | Some config =>
      let! sess := get sid (session_pool_ m) in
      match sess with
      | None => Ok m
      | Some sess => Ok (m <| requests := requests m ++ [request_for config sess RECONNECT] |>)
      end
  end.

Definition send (msg : OutBoundAppMsg) (m : SessionManager) : SessionManager := post (TSend msg) m.
Definition stop_all (m : SessionManager) : SessionManager := post TStopAll m.
Definition stop_session (sid : SessionID) (m : SessionManager) : SessionManager := post (TStopSession sid) m.

(** [session_pool_.get(sid)], then [e] on the strand of the session if there is one. *)
Definition tell (sid : SessionID) (e : event) (m : SessionManager) : Res SessionManager :=
  let! sess := get sid (session_pool_ m) in
  match sess with None => Ok m | Some sess => Ok (on_strand (address sess) e m) end.

(** The body of a posted function. *)
Definition run_task (t : Task) (m : SessionManager) : Res SessionManager :=
  match t with
  | TReconnect sid => reconnect_session_impl_ sid m
  | TAppEvent v sid => Ok (m <| app_events := app_events m ++ [(v, sid)] |>)
  | TSend msg => tell (session_id msg) (EvSendFromApp (message msg) (msg_type msg)) m
  | TStopAll => Ok (foldl (fun m sess => on_strand (address sess) EvStop m) m (get_all (session_pool_ m)))
  | TStopSession sid => tell sid EvStop m
  end.

(** The manager's strand runs its first function. *)
Definition run_manager (m : SessionManager) : Res SessionManager :=
  match exec_ m with [] => Ok m | t :: ts => run_task t (m <| exec_ := ts |>) end.

(** The sessions of all slots; a free slot is a null pointer. *)
Fixpoint start_slots (slots : list (option SessionPtr)) (m : SessionManager) : Res SessionManager :=
  match slots with
  | [] => Ok m
  | None :: _ => Err NullDeref
  | Some sess :: slots => start_slots slots (on_strand (address sess) (EvStart NORMAL) m)
  end.
Definition start_all (m : SessionManager) : Res SessionManager := start_slots (get_all_at_start (session_pool_ m)) m.

Definition remove_session (sid : SessionID) (m : SessionManager) : Res (bool * SessionManager) :=
  let! '(b, pool) := remove sid (session_pool_ m) in
  Ok (b, m <| session_pool_ := pool |>).

Definition findSession (sid : SessionID) (m : SessionManager) : Res (option SessionPtr) := get sid (session_pool_ m).
Definition sessionCount (m : SessionManager) : Z := SessionPool.size (session_pool_ m).

(** The last [shared_ptr] to the session at [a] goes away: possible when neither the pool nor
    a function on its strand holds one. *)
Definition destroy_session (a : Z) (m : SessionManager) : SessionManager :=
  if bool_decide (a ∈ address <$> held (session_pool_ m)) then m
  else match heap_ m !! a with
       | Some (mk_object s []) =>
           m <| heap_ := delete a (heap_ m) |> <| closed_ := closed_ m ++ match conn_ s with Some c => [c] | None => [] end |>
       | _ => m
       end.

(** ** Runs of the engine *)

(** A call of the user, or a step of a strand, of the connection factory or of the transport. *)
Inductive manager_op : Type :=
  | MCreate (config : SessionCreationConfig)
  | MRemove (sid : SessionID)
  | MSend (msg : OutBoundAppMsg)
  | MStopSession (sid : SessionID)
  | MStopAll
  | MStartAll
  | MRunManager
  | MRunSession (a : Z)
  | MEvent (a : Z) (e : event)
  | MRequest (k : nat) (ec : error_code) (conn : Z)
  | MDestroy (a : Z).

(** One step; the second result is the identifiers handed out. *)
Definition manager_step (op : manager_op) (m : SessionManager) : Res (SessionManager * list SessionID) :=
  let silent (r : Res SessionManager) := let! m := r in Ok (m, []) in
  match op with
  | MCreate config => let! '(sid, m) := create_session config m in Ok (m, [sid])
  | MRemove sid => silent (let! '(_, m) := remove_session sid m in Ok m)
  | MSend msg => silent (Ok (send msg m))
  | MStopSession sid => silent (Ok (stop_session sid m))
  | MStopAll => silent (Ok (stop_all m))
  | MStartAll => silent (start_all m)
  | MRunManager => silent (run_manager m)
  | MRunSession a => silent (run_session a m)
  | MEvent a e => silent (session_event a e m)
  | MRequest k ec conn => silent (Ok (match requests m !! k with
                                      | Some rq => request_handler rq ec conn (m <| requests := delete k (requests m) |>)
                                      | None => m
                                      end))
  | MDestroy a => silent (Ok (destroy_session a m))
  end.

(** The user names sessions by identifiers it was given, and identifiers do not wrap. *)
Definition op_ok (hs : list SessionID) (op : manager_op) : Prop :=
  match op with
  | MCreate _ => zlen hs < 2 ^ 64 - 1
  | MRemove sid | MStopSession sid => sid ∈ hs
  | MSend msg => session_id msg ∈ hs
  | _ => True
  end.

(** The states of an engine, with the identifiers handed out so far. *)
Inductive reachable : SessionManager -> list SessionID -> Prop :=
  | reach_new : reachable manager_new []
  | reach_step m hs op m' ids : reachable m hs -> op_ok hs op -> manager_step op m = Ok (m', ids) -> reachable m' (hs ++ ids).

(** ** Well-formed states *)

Definition task_id (t : Task) : option SessionID :=
  match t with TReconnect i | TStopSession i | TAppEvent _ i => Some i | TSend msg => Some (session_id msg) | TStopAll => None end.

(** [sp] is the map that the pool stands for. *)
Record well_formed (m : SessionManager) (hs : list SessionID) (sp : PoolSpec) : Prop := {
  wf_pool : pool_refines (session_pool_ m, hs) sp;
  wf_live : forall k a, spec_live sp !! k = Some a ->
    exists o, heap_ m !! a = Some o /\ znth hs k = Some (id_ (obj_session o));
  wf_heap : forall a o, heap_ m !! a = Some o -> a < heap_next m /\ id_ (obj_session o) ∈ hs;
  wf_tasks : Forall (fun t => forall i, task_id t = Some i -> i ∈ hs) (exec_ m);
  wf_configs : forall h, h ∈ hs -> is_Some (session_configs_ m !! id h);
  wf_config_ids : forall k, is_Some (session_configs_ m !! k) -> 0 <= k < zlen hs
}.

Lemma elem_of_znth {A} (x : A) l : x ∈ l -> exists k, znth l k = Some x.
Proof.
  intros (k & E)%list_elem_of_lookup. exists (Z.of_nat k). unfold znth. by rewrite (proj2 (Z.ltb_ge _ _)), Nat2Z.id by lia.
Qed.

Lemma wf_handle m hs sp h : well_formed m hs sp -> h ∈ hs -> znth hs (id h) = Some h.
Proof.
  intros W (k & E)%elem_of_znth. by rewrite (proj1 (pr_handles _ _ _ (pf_rep _ _ (wf_pool _ _ _ W)) k h E)).
Qed.

(** What the pool answers for an identifier that was handed out. *)
Lemma wf_get m hs sp h : well_formed m hs sp -> h ∈ hs ->
  get h (session_pool_ m) = Ok ((fun a => mk_ptr a h) <$> spec_live sp !! id h).
Proof. intros W Hh. apply (pool_get_spec _ _ _ _ _ (pf_rep _ _ (wf_pool _ _ _ W)) (wf_handle _ _ _ _ W Hh)). Qed.

(** Each session's address is its own. *)
Lemma wf_address m hs sp k1 k2 a : well_formed m hs sp -> spec_live sp !! k1 = Some a -> spec_live sp !! k2 = Some a -> k1 = k2.
Proof.
  intros W E1 E2. destruct (wf_live _ _ _ W _ _ E1) as (o & Eo & H1). destruct (wf_live _ _ _ W _ _ E2) as (o' & Eo' & H2).
  assert (o' = o) as -> by congruence. pose proof (pf_rep _ _ (wf_pool _ _ _ W)) as R.
  rewrite <- (proj1 (pr_handles _ _ _ R _ _ H1)). by rewrite <- (proj1 (pr_handles _ _ _ R _ _ H2)).
Qed.

Lemma manager_new_well_formed : well_formed manager_new [] (mk_pool_spec ∅ 0 0).
Proof.
  split; try done.
  - apply session_pool_new_refines.
  - by intros h ?%not_elem_of_nil.
  - by intros k [? ?].
Qed.

(** ** Steps keep it *)

(** Changing a session object without changing its identifier. *)
Lemma wf_update m hs sp a (f : Object -> Object) : well_formed m hs sp ->
  (forall o, heap_ m !! a = Some o -> id_ (obj_session (f o)) = id_ (obj_session o)) ->
  well_formed (m <| heap_ := alter f a (heap_ m) |>) hs sp.
Proof.
  intros [Wp Wl Wh Wt Wc Wi] Hf. split; try done.
  - intros k b E. destruct (Wl k b E) as (o & Eo & Hk). cbn. destruct (decide (a = b)) as [->|Hne].
    + exists (f o). rewrite lookup_alter_eq, Eo. split; [done|]. by rewrite (Hf _ Eo).
    + exists o. by rewrite lookup_alter_ne.
  - intros b o. cbn. destruct (decide (a = b)) as [->|Hne].
    + rewrite lookup_alter_eq. intros (o' & Eo & ->)%fmap_Some. rewrite (Hf _ Eo). by apply Wh.
    + rewrite lookup_alter_ne by done. apply Wh.
Qed.

Lemma on_strand_well_formed m hs sp a e : well_formed m hs sp -> well_formed (on_strand a e m) hs sp.
Proof. intros W. by apply wf_update. Qed.

Lemma wf_replace m hs sp a o o' : well_formed m hs sp -> heap_ m !! a = Some o -> id_ (obj_session o') = id_ (obj_session o) ->
  well_formed (m <| heap_ := <[a := o']> (heap_ m) |>) hs sp.
Proof.
  intros W E Hid. replace (<[a := o']> (heap_ m)) with (alter (fun _ => o') a (heap_ m)).
  - apply wf_update; [done|]. intros x Ex. congruence.
  - apply map_eq. intros b. destruct (decide (a = b)) as [->|].
    + by rewrite lookup_alter_eq, lookup_insert_eq, E.
    + by rewrite lookup_alter_ne, lookup_insert_ne.
Qed.

Lemma wf_post m hs sp ts : well_formed m hs sp -> Forall (fun t => forall i, task_id t = Some i -> i ∈ hs) ts ->
  well_formed (m <| exec_ := exec_ m ++ ts |>) hs sp.
Proof. intros [Wp Wl Wh Wt Wc Wi] Ht. split; try done. cbn. by apply Forall_app. Qed.

Lemma create_well_formed config m hs sp : well_formed m hs sp -> zlen hs < 2 ^ 64 - 1 ->
  exists h m' sp', create_session config m = Ok (h, m') /\ well_formed m' (hs ++ [h]) sp'.
Proof.
  intros [Wp Wl Wh Wt Wc Wi] Hn. pose proof (pr_issued _ _ _ (pf_rep _ _ Wp)) as Hi. cbn [snd] in Hi.
  destruct (emplace_refines (heap_next m) _ _ _ Wp) as (h & p' & E & Eh & F); [lia|].
  unfold create_session. rewrite E, ok_bind. cbn [address get_session_id]. do 3 eexists. split; [done|]. split; [exact F|..].
  - cbn. intros k a [[<- <-]|[Hne Ea]]%lookup_insert_Some.
    + rewrite lookup_insert_eq. eexists. split; [done|]. cbn. by rewrite znth_app_r, <- Hi, Z.sub_diag by lia.
    + destruct (Wl k a Ea) as (o & Eo & Hk). exists o. split; [|by rewrite znth_app_l by (by eapply znth_Some_lt)].
      rewrite lookup_insert_ne; [done|]. apply Wh in Eo. lia.
  - cbn. intros a o [[<- <-]|[Hne Ea]]%lookup_insert_Some.
    + split; [lia|]. apply elem_of_app. right. by left.
    + destruct (Wh a o Ea) as [? ?]. split; [lia|]. apply elem_of_app. by left.
  - cbn. eapply Forall_impl; [exact Wt|]. intros t Ht i Hti. apply elem_of_app. left. by apply Ht.
  - cbn. unfold add_config. intros h' [Hin| ->%list_elem_of_singleton]%elem_of_app.
    + specialize (Wc h' Hin). destruct (session_configs_ m !! id h); [done|]. destruct (decide (id h = id h')) as [->|];
        [by rewrite lookup_insert_eq|by rewrite lookup_insert_ne].
    + destruct (session_configs_ m !! id h) eqn:Ec; [by rewrite Ec|by rewrite lookup_insert_eq].
  - cbn. unfold add_config. intros k. rewrite zlen_app. change (zlen [h]) with 1. pose proof (zlen_nonneg hs).
    destruct (session_configs_ m !! id h); [intros Hk%Wi; lia|].
    intros [c [[<- _]|[_ Ec]]%lookup_insert_Some]; [lia|]. specialize (Wi k (mk_is_Some _ _ Ec)). lia.
Qed.

Lemma remove_well_formed h m hs sp : well_formed m hs sp -> h ∈ hs ->
  exists b m' sp', remove_session h m = Ok (b, m') /\ well_formed m' hs sp'.
Proof.
  intros W Hh. pose proof (wf_handle _ _ _ _ W Hh) as Ek. destruct W as [Wp Wl Wh Wt Wc Wi].
  destruct (remove_refines _ _ _ _ _ Wp Ek) as (p' & E & F). unfold remove_session. rewrite E, ok_bind.
  do 3 eexists. split; [done|]. split; [exact F|..]; try done.
  cbn. intros k a [_ Ea]%lookup_delete_Some. by apply Wl.
Qed.

(** Handlers of sessions. *)
Lemma session_event_well_formed a e m m' hs sp : well_formed m hs sp -> session_event a e m = Ok m' -> well_formed m' hs sp.
Proof.
  intros W. unfold session_event. destruct (heap_ m !! a) as [o|] eqn:Eo; [|by intros [= <-]].
  destruct (session_step e (obj_session o)) as [s|] eqn:Es; cbn [mbind res_bind]; [|done]. intros [= <-].
  destruct (session_step_grows _ _ _ Es) as [Hid _ _ (l & El & Hl)]. rewrite El, drop_app_length.
  pose proof (wf_heap _ _ _ W _ _ Eo) as [_ Hin]. refine (wf_post (m <| heap_ := <[a := mk_object s (obj_strand o)]> (heap_ m) |>) hs sp (omap callback l) _ _); [by eapply wf_replace|].
  clear -Hl Hin. induction Hl as [|x l Hx _ IH]; [constructor|]. destruct x; cbn [omap list_omap callback]; try exact IH;
    (constructor; [intros i [= <-]; cbn in Hx; by subst|exact IH]).
Qed.

Lemma run_session_well_formed a m m' hs sp : well_formed m hs sp -> run_session a m = Ok m' -> well_formed m' hs sp.
Proof.
  intros W. unfold run_session. destruct (heap_ m !! a) as [[s [|e es]]|] eqn:Eo; [by intros [= <-]| |by intros [= <-]].
  apply session_event_well_formed. by eapply wf_replace.
Qed.

Lemma request_handler_well_formed rq ec conn m hs sp : well_formed m hs sp -> well_formed (request_handler rq ec conn m) hs sp.
Proof.
  intros W. unfold request_handler. destruct (heap_ m !! rq_session rq) as [o|] eqn:Eo.
  - destruct (negb _); [by eapply wf_replace|]. by do 2 apply on_strand_well_formed.
  - destruct (negb _); [done|]. destruct (rq_listen rq); [done|]. by destruct W.
Qed.

Lemma tell_well_formed h e m hs sp : well_formed m hs sp -> h ∈ hs -> exists m', tell h e m = Ok m' /\ well_formed m' hs sp.
Proof.
  intros W Hh. unfold tell. rewrite (wf_get _ _ _ _ W Hh), ok_bind. destruct (spec_live sp !! id h); cbn [fmap option_fmap option_map].
  - eexists. split; [done|]. by apply on_strand_well_formed.
  - by exists m.
Qed.

Lemma run_manager_well_formed m hs sp : well_formed m hs sp -> exists m', run_manager m = Ok m' /\ well_formed m' hs sp.
Proof.
  intros W. unfold run_manager. destruct (exec_ m) as [|t ts] eqn:Et; [by exists m|].
  pose proof (wf_tasks _ _ _ W) as Ht. rewrite Et in Ht. inversion Ht as [|? ? Hi Hts]; subst.
  assert (W' : well_formed (m <| exec_ := ts |>) hs sp) by (by destruct W).
  revert W'. generalize (m <| exec_ := ts |>) as m1. clear m W Et Ht Hts ts. intros m W. destruct t as [h|v h|msg| |h]; cbn [run_task].
  - specialize (Hi h eq_refl). unfold reconnect_session_impl_. destruct (wf_configs _ _ _ W h Hi) as [c ->].
    rewrite (wf_get _ _ _ _ W Hi), ok_bind. destruct (spec_live sp !! id h); cbn [fmap option_fmap option_map]; eexists; split; [done|by destruct W|done|done].
  - eexists. split; [done|]. by destruct W.
  - by apply tell_well_formed, Hi.
  - eexists. split; [done|]. generalize (get_all (session_pool_ m)) as l. intros l. revert m W.
    induction l as [|x l IH]; intros m W; [done|]. cbn [foldl]. by apply IH, on_strand_well_formed.
  - by apply tell_well_formed, Hi.
Qed.

Lemma destroy_well_formed a m hs sp : well_formed m hs sp -> well_formed (destroy_session a m) hs sp.
Proof.
  intros W. unfold destroy_session. case_bool_decide as Ha; [done|].
  destruct (heap_ m !! a) as [[s [|e es]]|]; [|done|done]. destruct W as [Wp Wl Wh Wt Wc Wi]. split; try done; cbn.
  - intros k b Eb. destruct (Wl k b Eb) as (o & Eo & Ek). exists o. split; [|done]. rewrite lookup_delete_ne; [done|].
    intros ->. apply Ha. pose proof (pr_entries _ _ _ (pf_rep _ _ Wp)) as Hp. apply elem_of_map_to_list in Eb. rewrite <- Hp in Eb.
    apply list_elem_of_fmap in Eb as (x & Ex & Hx). injection Ex as -> ->. by apply list_elem_of_fmap_2.
  - intros b o [_ Eo]%lookup_delete_Some. by apply Wh.
Qed.

Lemma start_slots_well_formed slots m hs sp : well_formed m hs sp ->
  match start_slots slots m with Ok m' => well_formed m' hs sp | Err f => f = NullDeref /\ None ∈ slots end.
Proof.
  revert m. induction slots as [|[x|] slots IH]; intros m W; cbn [start_slots]; [done| |by split; [|left]].
  specialize (IH _ (on_strand_well_formed _ _ _ (address x) (EvStart NORMAL) W)). destruct (start_slots _ _); [done|].
  destruct IH. split; [done|by right].
Qed.

(** A free slot means that a session was removed. *)
Lemma free_slot_removed m hs sp : well_formed m hs sp -> zlen hs < 2 ^ 64 -> None ∈ sessions_ (session_pool_ m) -> sessionCount m < zlen hs.
Proof.
  intros W Hn (i & Ei)%elem_of_znth. pose proof (wf_pool _ _ _ W) as F. pose proof (pf_rep _ _ F) as R. pose proof (pf_peak _ _ F) as Hp.
  pose proof (pr_issued _ _ _ R) as Hi. pose proof (pr_size _ _ _ R) as Hs. pose proof (pr_peak _ _ _ R) as Hk. cbn [fst snd] in *.
  unfold sessionCount. rewrite (size_spec _ _ _ F) by lia. apply (pr_free _ _ _ R) in Ei. cbn [fst] in Ei.
  destruct (free_indices_ (session_pool_ m)) as [|x l]; [by apply not_elem_of_nil in Ei|]. rewrite zlen_cons in Hs. pose proof (zlen_nonneg l). lia.
Qed.

(** Handlers of sessions may fault; [start_all] does when a slot is free. *)
Definition session_fault (op : manager_op) (m : SessionManager) (f : Fault) : Prop :=
  match op with
  | MEvent a e => exists o, heap_ m !! a = Some o /\ session_step e (obj_session o) = Err f
  | MRunSession a => exists s e es, heap_ m !! a = Some (mk_object s (e :: es)) /\ session_step e s = Err f
  | _ => False
  end.

Lemma session_event_fault a e m f : session_event a e m = Err f ->
  exists o, heap_ m !! a = Some o /\ session_step e (obj_session o) = Err f.
Proof.
  unfold session_event. destruct (heap_ m !! a) as [o|]; [|done].
  destruct (session_step e (obj_session o)) as [s|g] eqn:E; cbn [mbind res_bind]; [done|]. intros [= ->]. by exists o.
Qed.

(** One step from a well-formed state. *)
Definition step_result (op : manager_op) (m : SessionManager) (hs : list SessionID) : Prop :=
  match manager_step op m with
  | Ok (m', ids) => (exists sp', well_formed m' (hs ++ ids) sp') /\ zlen (hs ++ ids) < 2 ^ 64
  | Err f => session_fault op m f \/ (op = MStartAll /\ f = NullDeref /\ sessionCount m < zlen hs)
  end.

Lemma silent_step (r : Res SessionManager) hs (P : Fault -> Prop) : zlen hs < 2 ^ 64 ->
  match r with Ok m' => exists sp', well_formed m' hs sp' | Err f => P f end ->
  match (let! m' := r in Ok (m', @nil SessionID)) with
  | Ok (m', ids) => (exists sp', well_formed m' (hs ++ ids) sp') /\ zlen (hs ++ ids) < 2 ^ 64
  | Err f => P f
  end.
Proof. intros Hn. destruct r; cbn [mbind res_bind]; [|done]. by rewrite app_nil_r. Qed.

Lemma manager_step_spec op m hs sp : well_formed m hs sp -> zlen hs < 2 ^ 64 -> op_ok hs op -> step_result op m hs.
Proof.
  intros W Hn Ho. unfold step_result. destruct op as [config|sid|msg|sid| | | |a|a e|k ec conn|a]; cbn [manager_step op_ok] in *;
    try (apply silent_step; [done|]).
  - destruct (create_well_formed config m hs sp W Ho) as (h & m' & sp' & -> & W'). rewrite ok_bind. split; [by exists sp'|].
    rewrite zlen_app. change (zlen [h]) with 1. lia.
  - destruct (remove_well_formed sid m hs sp W Ho) as (b & m' & sp' & -> & W'). rewrite ok_bind. by exists sp'.
  - exists sp. apply wf_post; [done|]. repeat constructor. by intros i [= <-].
  - exists sp. apply wf_post; [done|]. repeat constructor. by intros i [= <-].
  - exists sp. apply wf_post; [done|]. by repeat constructor.
  - pose proof (start_slots_well_formed (get_all_at_start (session_pool_ m)) m hs sp W) as S. unfold start_all.
    destruct (start_slots _ _); [by exists sp|]. destruct S as [-> S]. right. split_and!; [done|done|by eapply free_slot_removed].
  - destruct (run_manager_well_formed m hs sp W) as (m' & -> & W'). by exists sp.
  - destruct (run_session a m) as [m'|f] eqn:E; [exists sp; by eapply run_session_well_formed|]. left. cbn. unfold run_session in E.
    destruct (heap_ m !! a) as [[s [|e es]]|]; [done| |done]. apply session_event_fault in E as (o & Eo & Es).
    cbn in Eo. rewrite lookup_insert_eq in Eo. injection Eo as <-. by exists s, e, es.
  - destruct (session_event a e m) as [m'|f] eqn:E; [exists sp; by eapply session_event_well_formed|]. left. by apply session_event_fault.
  - exists sp. destruct (requests m !! k); [|done]. apply request_handler_well_formed. by destruct W.
  - exists sp. by apply destroy_well_formed.
Qed.

Lemma reachable_well_formed m hs : reachable m hs -> (exists sp, well_formed m hs sp) /\ zlen hs < 2 ^ 64.
Proof.
  induction 1 as [|m hs op m' ids _ [[sp W] Hn] Ho E]; [split; [by eexists; apply manager_new_well_formed|done]|].
  pose proof (manager_step_spec op m hs sp W Hn Ho) as S. unfold step_result in S. by rewrite E in S.
Qed.

(** C38: in every state an engine reaches, under any interleaving of calls, strands, transport
    and removals, the manager's tables agree.  The pool stands for a map from the identifiers
    handed out to the sessions that were not removed; each of these sessions is an object that
    exists, with that identifier, and no two share an object; every identifier handed out has
    a configuration, and every function on the manager's strand names identifiers that were
    handed out. *)
Theorem manager_tables_agree m hs : reachable m hs ->
  exists sp, well_formed m hs sp /\
    forall k1 k2 a, spec_live sp !! k1 = Some a -> spec_live sp !! k2 = Some a -> k1 = k2.
Proof. intros [[sp W] _]%reachable_well_formed. exists sp. split; [done|]. intros k1 k2 a. by apply (wf_address _ _ _ _ _ _ W). Qed.

(** C10: the manager does not fault.  In a reachable state every call that names sessions by
    identifiers that were handed out returns, whether or not these sessions still exist, and so
    does every function on the manager's strand and every handler of the connection factory; a
    step can fault only inside the handler of a session, or in [start_all] after a session was
    removed, which dereferences the null pointer of the free slot. *)
Theorem manager_safe m hs op : reachable m hs -> op_ok hs op ->
  match manager_step op m with
  | Ok (m', ids) => reachable m' (hs ++ ids)
  | Err f => session_fault op m f \/ (op = MStartAll /\ f = NullDeref /\ sessionCount m < zlen hs)
  end.
Proof.
  intros H Ho. destruct (reachable_well_formed m hs H) as [[sp W] Hn]. pose proof (manager_step_spec op m hs sp W Hn Ho) as S.
  unfold step_result in S. destruct (manager_step op m) as [[m' ids]|f] eqn:E; [by eapply reach_step|done].
Qed.
