(* ===== verification/ManagerRuns.v ===== *)
(** What a [SessionManager] and its sessions do together: messages reach the sessions they are
    addressed to, in order, and a session whose transport fails is connected and logged on
    again. *)
From Stdlib Require Import Strings.Byte.
From stdpp Require Import gmap.
From S2P Require Import Prelude.
From S2P Require Import Network.
From S2P Require Import Message.
From S2P Require Import Validator.
From S2P Require Import MessageStore.
From S2P Require Import RecoveryCache.
From S2P Require Import Framer.
From S2P Require Import Factory.
From S2P Require Import Session.
From S2P Require Import SessionBase.
From S2P Require Import SessionInbound.
From S2P Require Import SessionOutbound.
From S2P Require Import SessionSafety.
From S2P Require Import SessionLogon.
From S2P Require Import SessionPool.
From S2P Require Import SessionManager.

(** The manager's strand runs its next [n] functions. *)
Fixpoint run_tasks (n : nat) (m : SessionManager) : Res SessionManager :=
  match n with O => Ok m | S n => let! m := run_manager m in run_tasks n m end.

(** [h] is a live session, at [a]. *)
Definition live_at (h : SessionID) (a : Z) (m : SessionManager) : Prop := findSession h m = Ok (Some (mk_ptr a h)).

Lemma live_at_spec h a m hs sp : well_formed m hs sp -> h ∈ hs -> live_at h a m <-> spec_live sp !! id h = Some a.
Proof.
  intros W Hh. unfold live_at, findSession. rewrite (wf_get _ _ _ _ W Hh). destruct (spec_live sp !! id h); cbn; split; congruence.
Qed.

(** ** Sending *)

Definition addressed (h : SessionID) (msgs : list OutBoundAppMsg) : list event :=
  (fun msg => EvSendFromApp (message msg) (msg_type msg)) <$> List.filter (fun msg => session_id_eqb (session_id msg) h) msgs.

(** [m'] is [m] with events added to the strands of its sessions. *)
Record only_strands (m m' : SessionManager) : Prop := {
  os_pool : session_pool_ m' = session_pool_ m;
  os_configs : session_configs_ m' = session_configs_ m;
  os_requests : requests m' = requests m;
  os_events : app_events m' = app_events m;
  os_closed : closed_ m' = closed_ m
}.
#[export] Instance only_strands_refl : Reflexive only_strands.
Proof. by split. Qed.
#[export] Instance only_strands_trans : Transitive only_strands.
Proof. intros m1 m2 m3 [] []. split; congruence. Qed.

Lemma addressed_cons h msg msgs : addressed h (msg :: msgs) = addressed h [msg] ++ addressed h msgs.
Proof. unfold addressed. cbn [List.filter]. by destruct (session_id_eqb _ _). Qed.

(** One function that sends. *)
Lemma run_send msg ts m hs sp : well_formed m hs sp -> exec_ m = TSend msg :: ts -> session_id msg ∈ hs ->
  exists m', run_manager m = Ok m' /\ well_formed m' hs sp /\ exec_ m' = ts /\ only_strands m m' /\
    forall h a, h ∈ hs -> live_at h a m -> heap_ m' !! a =
      (fun o => mk_object (obj_session o) (obj_strand o ++ addressed h [msg])) <$> heap_ m !! a.
Proof.
  intros W Et Hin. destruct (run_manager_well_formed m hs sp W) as (m' & E & W'). exists m'. split_and!; [done|done|..];
    unfold run_manager in E; rewrite Et in E; cbn [run_task] in E; unfold tell in E;
    change (session_pool_ (m <| exec_ := ts |>)) with (session_pool_ m) in E; rewrite (wf_get _ _ _ _ W Hin), ok_bind in E;
    destruct (spec_live sp !! id (session_id msg)) as [b|] eqn:Eb; injection E as <-; try done.
  - intros h a Hh Ha. apply (live_at_spec _ _ _ _ _ W Hh) in Ha. unfold addressed, session_id_eqb. cbn.
    destruct (Z.eqb_spec (id h) (id (session_id msg))) as [Ei|Ei].
    + rewrite Ei, Eb in Ha. injection Ha as ->. by rewrite lookup_alter_eq.
    + rewrite lookup_alter_ne by (intros ->; by apply Ei, (wf_address _ _ _ _ _ a W)). cbn.
      destruct (heap_ m !! a) as [[? ?]|]; cbn; [by rewrite app_nil_r|done].
  - intros h a Hh Ha. apply (live_at_spec _ _ _ _ _ W Hh) in Ha. unfold addressed, session_id_eqb. cbn.
    destruct (Z.eqb_spec (id h) (id (session_id msg))) as [Ei|Ei]; [congruence|]. cbn.
    destruct (heap_ m !! a) as [[? ?]|]; cbn; [by rewrite app_nil_r|done].
Qed.

Lemma run_sends msgs m hs sp : well_formed m hs sp -> exec_ m = TSend <$> msgs -> Forall (fun msg => session_id msg ∈ hs) msgs ->
  exists m', run_tasks (length msgs) m = Ok m' /\ exec_ m' = [] /\ only_strands m m' /\
    forall h a, h ∈ hs -> live_at h a m -> heap_ m' !! a =
      (fun o => mk_object (obj_session o) (obj_strand o ++ addressed h msgs)) <$> heap_ m !! a.
Proof.
  revert m. induction msgs as [|msg msgs IH]; intros m W Et Hin; cbn [length run_tasks].
  - exists m. split_and!; [done|done|done|]. intros h a _ _. destruct (heap_ m !! a) as [[? ?]|]; cbn; [by rewrite app_nil_r|done].
  - inversion Hin as [|? ? Hm Hms]; subst. destruct (run_send msg (List.map TSend msgs) m hs sp W Et Hm) as (m1 & -> & W1 & Et1 & S1 & H1).
    rewrite ok_bind. destruct (IH m1 W1 Et1 Hms) as (m' & -> & Et' & S' & H'). exists m'. split_and!; [done|done|by etransitivity|].
    intros h a Hh Ha. assert (Ha1 : live_at h a m1) by (unfold live_at, findSession; by rewrite (os_pool _ _ S1)).
    rewrite (H' h a Hh Ha1), (H1 h a Hh Ha). destruct (heap_ m !! a) as [o|]; cbn [fmap option_fmap option_map obj_session obj_strand]; [|done].
    by rewrite (addressed_cons h msg msgs), app_assoc.
Qed.

(** C14: the manager delivers.  However many messages for however many sessions are sent, once
    the manager's strand has run, every live session has on its own strand exactly the messages
    addressed to it, in the order of the calls, behind what was there; messages to removed
    sessions are dropped, and nothing else changes. *)
Theorem manager_delivers m hs msgs : reachable m hs -> exec_ m = [] -> Forall (fun msg => session_id msg ∈ hs) msgs ->
  exists m', run_tasks (length msgs) (foldl (fun m msg => send msg m) m msgs) = Ok m' /\ exec_ m' = [] /\ only_strands m m' /\
    forall h a, h ∈ hs -> live_at h a m -> exists o, heap_ m !! a = Some o /\
      heap_ m' !! a = Some (mk_object (obj_session o) (obj_strand o ++ addressed h msgs)).
Proof.
  intros H He Hin. destruct (reachable_well_formed m hs H) as [[sp W] _].
  assert (Ef : forall m, foldl (fun m msg => send msg m) m msgs = m <| exec_ := exec_ m ++ (TSend <$> msgs) |>).
  { clear. induction msgs as [|msg msgs IH]; intros m; cbn [foldl fmap list_fmap].
    - destruct m. unfold upd; cbn. by rewrite app_nil_r.
    - rewrite IH. unfold send, post, upd; cbn. by rewrite <- app_assoc. }
  rewrite Ef, He. cbn [app]. destruct (run_sends msgs (m <| exec_ := TSend <$> msgs |>) hs sp) as (m' & E & Et & S & Hd);
    [destruct W; split; try done|done|done|].
  - cbn. apply Forall_fmap. eapply Forall_impl; [exact Hin|]. intros msg Hm i. cbn. by intros [= <-].
  - exists m'. split_and!; [done|done|by destruct S; split|]. intros h a Hh Ha. rewrite (Hd h a Hh Ha). change (heap_ (m <| exec_ := TSend <$> msgs |>)) with (heap_ m).
    apply (live_at_spec _ _ _ _ _ W Hh) in Ha. destruct (wf_live _ _ _ W _ _ Ha) as (o & -> & _). by exists o.
Qed.

(** ** Runs *)

Fixpoint engine_run (ops : list manager_op) (m : SessionManager) (hs : list SessionID) : Res (SessionManager * list SessionID) :=
  match ops with
  | [] => Ok (m, hs)
  | op :: ops => let! '(m, ids) := manager_step op m in engine_run ops m (hs ++ ids)
  end.

Fixpoint engine_ok (ops : list manager_op) (m : SessionManager) (hs : list SessionID) : Prop :=
  match ops with
  | [] => True
  | op :: ops => op_ok hs op /\ match manager_step op m with Ok (m, ids) => engine_ok ops m (hs ++ ids) | Err _ => True end
  end.

Lemma engine_run_reachable ops m hs m' hs' : reachable m hs -> engine_ok ops m hs -> engine_run ops m hs = Ok (m', hs') -> reachable m' hs'.
Proof.
  revert m hs. induction ops as [|op ops IH]; intros m hs R Hok E; cbn [engine_run engine_ok] in *; [by injection E as <- <-|].
  destruct Hok as [Ho Hok]. destruct (manager_step op m) as [[m1 ids]|] eqn:Es; cbn [mbind res_bind] in E; [|done].
  eapply IH; [by eapply reach_step|exact Hok|exact E].
Qed.

(** What a handler that succeeds leaves. *)
Lemma session_event_spec a e m s s' es l : heap_ m !! a = Some (mk_object s es) -> session_step e s = Ok s' -> effects_ s' = effects_ s ++ l ->
  session_event a e m = Ok (m <| heap_ := <[a := mk_object s' es]> (heap_ m) |> <| exec_ := exec_ m ++ omap callback l |>).
Proof.
  intros Eo Es El. unfold session_event. rewrite Eo. cbn [obj_session obj_strand]. rewrite Es, ok_bind, El. by rewrite drop_app_length.
Qed.
Lemma run_session_spec a e m s s' es l : heap_ m !! a = Some (mk_object s (e :: es)) -> session_step e s = Ok s' -> effects_ s' = effects_ s ++ l ->
  run_session a m = Ok (m <| heap_ := <[a := mk_object s' es]> (heap_ m) |> <| exec_ := exec_ m ++ omap callback l |>).
Proof.
  intros Eo Es El. unfold run_session. rewrite Eo. rewrite (session_event_spec a e _ s s' es l); [|apply lookup_insert_eq|done|done].
  do 2 f_equal. unfold upd; cbn. by rewrite insert_insert_eq.
Qed.

(** ** Reconnecting *)

(** The factory delivers connection [c] for the last request, and the session takes it. *)
Lemma request_served m hs rs config a s1 s' c l : requests m = rs ++ [mk_request false config a RECONNECT] ->
  heap_ m !! a = Some (mk_object s1 []) -> start RECONNECT (set_connection (Some c) s1) = Ok s' ->
  effects_ s' = effects_ s1 ++ l -> omap callback l = [] ->
  exists m', engine_run [MRequest (length rs) success c; MRunSession a; MRunSession a] m hs = Ok (m', hs) /\
    requests m' = rs /\ exec_ m' = exec_ m /\ heap_ m' !! a = Some (mk_object s' []).
Proof.
  intros Hr Eo Es El Hl. cbn [engine_run manager_step]. rewrite Hr, list_lookup_middle by done.
  assert (Ed : delete (length rs) (rs ++ [mk_request false config a RECONNECT]) = rs).
  { rewrite delete_take_drop, take_app_length, drop_ge, app_nil_r; [done|]. rewrite length_app. cbn. lia. }
  rewrite Ed, !ok_bind. set (m0 := m <| requests := rs |>). unfold request_handler. cbn [rq_session rq_mode rq_listen].
  change (heap_ m0) with (heap_ m). rewrite Eo, bool_decide_true by done. cbn [negb].
  set (m1 := on_strand a (EvStart RECONNECT) _).
  assert (Eo1 : heap_ m1 !! a = Some (mk_object s1 [EvSetConnection (Some c); EvStart RECONNECT])).
  { unfold m1, on_strand. cbn. by rewrite !lookup_alter_eq, Eo. }
  rewrite (run_session_spec a _ m1 s1 (set_connection (Some c) s1) _ [] Eo1 eq_refl) by (by rewrite app_nil_r). rewrite !ok_bind.
  set (m2 := m1 <| heap_ := _ |> <| exec_ := _ |>).
  assert (Eo2 : heap_ m2 !! a = Some (mk_object (set_connection (Some c) s1) [EvStart RECONNECT])) by (unfold m2; cbn; by rewrite lookup_insert_eq).
  rewrite (run_session_spec a _ m2 _ s' _ l Eo2 Es El), !ok_bind, !app_nil_r. eexists. split; [reflexivity|]. split_and!.
  - reflexivity.
  - unfold m2, m1, on_strand, m0. cbn. by rewrite Hl, !app_nil_r.
  - cbn. by rewrite lookup_insert_eq.
Qed.

(** C12: a lost connection of an initiator is replaced.  The transport of an initiator that the
    manager holds fails with a permanent error; nothing else is pending on the manager's strand
    or on that of the session (an acceptor listens instead, and sends no Logon).  The manager's
    strand then asks the connection factory for a connection with the configuration of that
    session, and when the factory delivers it and the session's strand has run, all that the
    session has queued and all that it has written since the failure is one Logon with its next
    number, on the new connection, and it awaits the answer; what it received and sent before
    stays counted, and the manager is idle again. *)
Theorem manager_reconnects m hs h a s wires ec c config :
  reachable m hs -> exec_ m = [] -> h ∈ hs -> live_at h a m -> heap_ m !! a = Some (mk_object s []) ->
  session_configs_ m !! id h = Some config -> role config = INITIATOR ->
  session_ok s wires -> role_ s = INITIATOR -> state_ s <> DISCONNECTED -> reconnecting_ s = false ->
  ec <> success -> ec <> operation_aborted -> classify_readwrite_error ec <> Transient ->
  zlen wires + 2 < 2 ^ 32 -> - 2 ^ 31 <= heart_beat_int (params_ s) < 2 ^ 31 ->
  let w := logon_bytes (params_ s) (heart_beat_int (params_ s)) (zlen wires + 1) in
  zlen (concat wires) + zlen w < 2 ^ 31 ->
  exists m1 m2 s',
    engine_run [MEvent a (EvRead ec []); MRunManager] m hs = Ok (m1, hs) /\
    requests m1 = requests m ++ [mk_request false (conn_config config) a RECONNECT] /\
    engine_run [MRequest (length (requests m)) success c; MRunSession a; MRunSession a] m1 hs = Ok (m2, hs) /\
    requests m2 = requests m /\ exec_ m2 = [] /\ heap_ m2 !! a = Some (mk_object s' []) /\
    session_ok s' (wires ++ [w]) /\ state_ s' = LOGON_SENT /\ conn_ s' = Some c /\ write_q_ s' = [mk_pending w 0] /\
    next_in (seqs s') = next_in (seqs s) /\ exists l, effects_ s' = effects_ s ++ l /\ written_to l = [(c, w)].
Proof.
  intros H He Hh Ha Eo Ec Hcr I Hr Hd Hrec H1 H2 H3 Hk Hhb w Hb. destruct (reachable_well_formed m hs H) as [[sp W] _].
  assert (Hid : id_ s = h).
  { pose proof (proj1 (live_at_spec _ _ _ _ _ W Hh) Ha) as El. destruct (wf_live _ _ _ W _ _ El) as (o & Eo' & Ek).
    rewrite Eo in Eo'. injection Eo' as <-. rewrite (wf_handle _ _ _ _ W Hh) in Ek. by injection Ek. }
  destruct (read_error_spec s wires ec I Hd Hrec H1 H2 H3) as (c0 & s1 & E1 & D). set (s0 := emit _ s) in *.
  assert (I0 : session_ok s0 wires) by (destruct I; by split).
  destruct (restart_spec s0 s1 wires c0 c I0 D Hr Hk Hhb Hb) as (s' & E' & I' & Hst & Hco & Hq & Hin & _ & _ & Ef).
  assert (Ef1 : effects_ s1 = effects_ s ++ ELog (mk_log_context LTransport CError High) (B "Read error: ") (Some ec) :: down_effects c0 h)
    by (rewrite (lc_effects _ _ _ D), cons_middle, app_assoc; by rewrite <- Hid).
  cbn [engine_run manager_step]. rewrite (session_event_spec a (EvRead ec []) m s s1 [] _ Eo E1 Ef1), He, !ok_bind. cbn [app omap list_omap callback down_effects].
  unfold run_manager. cbn [upd exec_]. unfold run_task, reconnect_session_impl_. cbn [upd session_configs_ session_pool_]. rewrite Ec.
  unfold live_at, findSession in Ha. rewrite Ha, !ok_bind. unfold request_for. rewrite Hcr, (bool_decide_false (INITIATOR = ACCEPTOR)) by done.
  cbn [address app]. rewrite app_nil_r.
  set (m1 := mk_manager _ _ _ _ _ _ _ _ _). exists m1.
  assert (Eo1 : heap_ m1 !! a = Some (mk_object s1 [])) by (unfold m1; cbn; by rewrite lookup_insert_eq).
  destruct (request_served m1 hs (requests m) (conn_config config) a s1 s' c _ eq_refl Eo1 E' Ef eq_refl) as (m2 & Er & Hrq & Hex & Hhp).
  exists m2, s'. split_and!; try assumption; [by rewrite app_nil_r|reflexivity|].
  rewrite Ef, Ef1, <- app_assoc. eexists. split; [reflexivity|]. reflexivity.
Qed.

(** ** An engine with two sessions *)

Definition demo_initiator : SessionCreationConfig := mk_creation INITIATOR (mk_conn_config (B "127.0.0.1") 9000 INITIATOR 0) demo_params.
Definition demo_acceptor : SessionCreationConfig := mk_creation ACCEPTOR (mk_conn_config (B "") 9001 ACCEPTOR 16) (peer_params demo_params).
Definition demo_h0 : SessionID := mk_session_id 0 0.
Definition demo_h1 : SessionID := mk_session_id 1 1.

(** Session 0 is connected and has sent its Logon; session 1 still listens. *)
Definition demo_setup : list manager_op :=
  [MCreate demo_initiator; MCreate demo_acceptor; MRequest 0 success 7; MRunSession 0; MRunSession 0].
Definition demo_engine : SessionManager :=
  match engine_run demo_setup manager_new [] with Ok (m, _) => m | Err _ => manager_new end.
(** The same engine after session 1 was removed and its slot freed. *)
Definition demo_removed : SessionManager :=
  match engine_run [MRemove demo_h1] demo_engine [demo_h0; demo_h1] with Ok (m, _) => m | Err _ => manager_new end.
Definition demo_session : Session :=
  match start NORMAL (set_connection (Some 7) (session_new demo_h0 INITIATOR demo_params)) with
  | Ok s => s | Err _ => session_new demo_h0 INITIATOR demo_params end.
Definition demo_logon : bytes := logon_bytes demo_params 30 1.

Lemma demo_run : engine_run demo_setup manager_new [] = Ok (demo_engine, [demo_h0; demo_h1]).
Proof. by vm_compute. Qed.

Lemma demo_reachable : reachable demo_engine [demo_h0; demo_h1].
Proof. apply (engine_run_reachable demo_setup manager_new []); [apply reach_new|by vm_compute|apply demo_run]. Qed.

Lemma demo_ids h : h = demo_h0 \/ h = demo_h1 -> h ∈ [demo_h0; demo_h1].
Proof. intros [-> | ->]; [left|right; left]. Qed.

Lemma demo_removed_reachable : reachable demo_removed [demo_h0; demo_h1].
Proof.
  apply (engine_run_reachable [MRemove demo_h1] demo_engine [demo_h0; demo_h1]); [apply demo_reachable| |by vm_compute].
  split; [apply demo_ids; by right|by vm_compute].
Qed.

Lemma demo_session_sent : exists s, start NORMAL (set_connection (Some 7) (session_new demo_h0 INITIATOR demo_params)) = Ok s /\
  session_ok s [demo_logon].
Proof.
  destruct (start_initiator (set_connection (Some 7) (session_new demo_h0 INITIATOR demo_params)) [] 7 1) as (s & E & I & _);
    [apply new_waiting; [apply demo_session_text|by vm_compute]|reflexivity|reflexivity|by vm_compute|by vm_compute|by vm_compute|].
  exists s. split; [exact E|exact I].
Qed.

Lemma demo_session_ok : session_ok demo_session [demo_logon].
Proof. destruct demo_session_sent as (s & E & I). unfold demo_session. by rewrite E. Qed.

Definition demo_msgs : list OutBoundAppMsg :=
  [mk_outbound [] demo_h0 (Message.msg_type (B "0")); mk_outbound [] demo_h1 (Message.msg_type (B "0"));
   mk_outbound [] demo_h0 (Message.msg_type (B "1"))].
Lemma demo_idle : exec_ demo_engine = [].
Proof. by vm_compute. Qed.
Lemma demo_msgs_ok : Forall (fun msg => session_id msg ∈ [demo_h0; demo_h1]) demo_msgs.
Proof. repeat constructor; apply demo_ids; auto. Qed.

Example manager_delivers_witness :
  exists m', run_tasks (length demo_msgs) (foldl (fun m msg => send msg m) demo_engine demo_msgs) = Ok m' /\ exec_ m' = [] /\
    only_strands demo_engine m' /\
    forall h a, h ∈ [demo_h0; demo_h1] -> live_at h a demo_engine -> exists o, heap_ demo_engine !! a = Some o /\
      heap_ m' !! a = Some (mk_object (obj_session o) (obj_strand o ++ addressed h demo_msgs)).
Proof. exact (manager_delivers demo_engine [demo_h0; demo_h1] demo_msgs demo_reachable demo_idle demo_msgs_ok). Defined.

Example manager_tables_agree_witness :
  exists sp, well_formed demo_removed [demo_h0; demo_h1] sp /\
    forall k1 k2 a, spec_live sp !! k1 = Some a -> spec_live sp !! k2 = Some a -> k1 = k2.
Proof. apply (manager_tables_agree demo_removed [demo_h0; demo_h1]). apply demo_removed_reachable. Defined.

(** After the removal [start_all] faults. *)
Example manager_safe_witness :
  session_fault MStartAll demo_removed NullDeref \/ (MStartAll = MStartAll /\ NullDeref = NullDeref /\ sessionCount demo_removed < zlen [demo_h0; demo_h1]).
Proof.
  pose proof (manager_safe demo_removed [demo_h0; demo_h1] MStartAll demo_removed_reachable I) as H.
  assert (E : manager_step MStartAll demo_removed = Err NullDeref) by (by vm_compute). rewrite E in H. exact H.
Defined.

Example manager_reconnects_witness :
  let w := logon_bytes (params_ demo_session) (heart_beat_int (params_ demo_session)) (zlen [demo_logon] + 1) in
  exists m1 m2 s',
    engine_run [MEvent 0 (EvRead connection_reset []); MRunManager] demo_engine [demo_h0; demo_h1] = Ok (m1, [demo_h0; demo_h1]) /\
    requests m1 = requests demo_engine ++ [mk_request false (conn_config demo_initiator) 0 RECONNECT] /\
    engine_run [MRequest (length (requests demo_engine)) success 8; MRunSession 0; MRunSession 0] m1 [demo_h0; demo_h1] = Ok (m2, [demo_h0; demo_h1]) /\
    requests m2 = requests demo_engine /\ exec_ m2 = [] /\ heap_ m2 !! 0 = Some (mk_object s' []) /\
    session_ok s' ([demo_logon] ++ [w]) /\ state_ s' = LOGON_SENT /\ conn_ s' = Some 8 /\ write_q_ s' = [mk_pending w 0] /\
    next_in (seqs s') = next_in (seqs demo_session) /\ exists l, effects_ s' = effects_ demo_session ++ l /\ written_to l = [(8, w)].
Proof.
  apply (manager_reconnects demo_engine [demo_h0; demo_h1] demo_h0 0 demo_session [demo_logon] connection_reset 8 demo_initiator).
  - apply demo_reachable.
  - by vm_compute.
  - apply demo_ids. by left.
  - by vm_compute.
  - by vm_compute.
  - by vm_compute.
  - reflexivity.
  - apply demo_session_ok.
  - by vm_compute.
  - by vm_compute.
  - by vm_compute.
  - done.
  - done.
  - by vm_compute.
  - by vm_compute.
  - by vm_compute.
  - by vm_compute.
Defined.
