(* ===== verification/MpscRing.v ===== *)
(** [Fix::Log::MpscRing] (include/fix/log/MpscRing.hpp): the lock-free queue between the threads
    that log and the thread that writes the files.

    A run interleaves the atomic steps of any number of producers and of the consumer: each
    [fetch_add], [load] and [store] of an atomic, and each access to a cell's data, is a step of
    its own.  The accesses are [acquire]/[release] pairs and the data of a cell is shown to be
    touched by one thread at a time, so an interleaving is what the C++ memory model allows.
    The history of a run ([taken_], [lost_], [popped_]) is recorded and never read by a step. *)
From stdpp Require Import gmap.
From S2P Require Import Prelude.

Definition capacity : Z := Z.shiftl 1 10.
Definition mask : Z := capacity - 1.

Section MpscRing.
Context {Data : Type}.

(** ** State *)

(** The data of a cell never written is not represented. *)
Record RingCell : Type := mk_cell { epoch : Z; data : option Data }.
Record MpscRing : Type := mk_ring { buff_ : list RingCell; head_ : Z; tail_ : Z }.

Definition mpsc_ring_new : MpscRing :=
  mk_ring ((fun i => mk_cell (Z.of_nat i) None) <$> seq 0 (Z.to_nat capacity)) 0 0.

(** Where a producer is inside [push] or [try_push]: about to load the epoch, to move the data
    into the cell, to store the epoch. *)
Inductive producer : Type :=
  | PushWait (ticket : Z) (d : Data)
  | TryWait (ticket : Z) (d : Data)
  | PushData (ticket : Z) (d : Data)
  | PushEpoch (ticket : Z).

(** Where the consumer is inside [pop]: about to load the epoch, to move the data out, to store
    the epoch, to advance [tail_]. *)
Inductive consumer : Type :=
  | PopLoad
  | PopData
  | PopEpoch (out : option Data)
  | PopTail (out : option Data).

(** [taken_]: the data of every ticket; [lost_]: tickets of failed [try_push]es; [popped_]: what
    [pop] has returned. *)
Record State : Type := mk_state {
  ring : MpscRing;
  producers : gmap nat producer;
  consumer_ : consumer;
  taken_ : list Data;
  lost_ : list Z;
  popped_ : list (option Data)
}.

Definition state_new : State := mk_state mpsc_ring_new ∅ PopLoad [] [] [].

(** ** Steps *)

(** [buff_[ticket & mask]]. *)
Definition cell_index (ticket : Z) : Z := Z.land ticket mask.
Definition cell_at (ticket : Z) (r : MpscRing) : option RingCell := znth (buff_ r) (cell_index ticket).
Definition set_cell (ticket : Z) (c : RingCell) (r : MpscRing) : MpscRing :=
  mk_ring (zset (cell_index ticket) c (buff_ r)) (head_ r) (tail_ r).

(** [head_.fetch_add(1)]: the call of [try_push] or [push]. *)
Definition call_push (is_try : bool) (tid : nat) (d : Data) (s : State) : option State :=
  match producers s !! tid with
  | Some _ => None
  | None =>
      let r := ring s in let ticket := head_ r in
      Some (mk_state (mk_ring (buff_ r) (u64 (ticket + 1)) (tail_ r))
              (<[tid := if is_try then TryWait ticket d else PushWait ticket d]> (producers s))
              (consumer_ s) (taken_ s ++ [d]) (lost_ s) (popped_ s))
  end.

Definition set_producer (tid : nat) (p : producer) (s : State) : State :=
  mk_state (ring s) (<[tid := p]> (producers s)) (consumer_ s) (taken_ s) (lost_ s) (popped_ s).
Definition set_ring (r : MpscRing) (s : State) : State :=
  mk_state r (producers s) (consumer_ s) (taken_ s) (lost_ s) (popped_ s).
Definition set_consumer (c : consumer) (s : State) : State :=
  mk_state (ring s) (producers s) c (taken_ s) (lost_ s) (popped_ s).
(** [return]; a [try_push] that returns false leaves its ticket unused. *)
Definition push_returns (tid : nat) (s : State) : State :=
  mk_state (ring s) (delete tid (producers s)) (consumer_ s) (taken_ s) (lost_ s) (popped_ s).
Definition try_push_fails (tid : nat) (ticket : Z) (s : State) : State :=
  mk_state (ring s) (delete tid (producers s)) (consumer_ s) (taken_ s) (lost_ s ++ [ticket]) (popped_ s).

(** The next step of a producer; the loop of [push] loads again. *)
Definition step_push (tid : nat) (s : State) : option State :=
  match producers s !! tid with
  | None => None
  | Some (PushWait ticket d) =>
      match cell_at ticket (ring s) with
      | None => None
      | Some c => Some (if negb (ticket =? epoch c) then s else set_producer tid (PushData ticket d) s)
      end
  | Some (TryWait ticket d) =>
      match cell_at ticket (ring s) with
      | None => None
      | Some c => Some (if negb (ticket =? epoch c) then try_push_fails tid ticket s else set_producer tid (PushData ticket d) s)
      end
  | Some (PushData ticket d) =>
      match cell_at ticket (ring s) with
      | None => None
      | Some c => Some (set_producer tid (PushEpoch ticket) (set_ring (set_cell ticket (mk_cell (epoch c) (Some d)) (ring s)) s))
      end
  | Some (PushEpoch ticket) =>
      match cell_at ticket (ring s) with
      | None => None
      | Some c => Some (push_returns tid (set_ring (set_cell ticket (mk_cell (u64 (ticket + 1)) (data c)) (ring s)) s))
      end
  end.

(** The next step of [pop]; it returns false when the epoch is not the expected one. *)
Definition step_pop (s : State) : option State :=
  let r := ring s in
  match cell_at (tail_ r) r with
  | None => None
  | Some c =>
      match consumer_ s with
      | PopLoad => Some (if negb (epoch c =? u64 (tail_ r + 1)) then s else set_consumer PopData s)
      | PopData => Some (set_consumer (PopEpoch (data c)) s)
      | PopEpoch out => Some (set_consumer (PopTail out) (set_ring (set_cell (tail_ r) (mk_cell (u64 (tail_ r + capacity)) (data c)) r) s))
      | PopTail out => Some (mk_state (mk_ring (buff_ r) (head_ r) (u64 (tail_ r + 1))) (producers s) PopLoad
                               (taken_ s) (lost_ s) (popped_ s ++ [out]))
      end
  end.

Inductive action : Type :=
  | APush (tid : nat) (d : Data)
  | ATryPush (tid : nat) (d : Data)
  | AProducer (tid : nat)
  | AConsumer.

Definition mpsc_step (a : action) (s : State) : option State :=
  match a with
  | APush tid d => call_push false tid d s
  | ATryPush tid d => call_push true tid d s
  | AProducer tid => step_push tid s
  | AConsumer => step_pop s
  end.

Fixpoint mpsc_run (acts : list action) (s : State) : option State :=
  match acts with [] => Some s | a :: acts => mpsc_step a s ≫= mpsc_run acts end.

Lemma mpsc_run_app acts1 acts2 s : mpsc_run (acts1 ++ acts2) s = mpsc_run acts1 s ≫= mpsc_run acts2.
Proof using. revert s. induction acts1 as [|a acts1 IH]; intros s; [done|]. cbn. destruct (mpsc_step a s); [apply IH|done]. Qed.

(** ** Tickets and cells *)

Lemma cell_index_mod t : 0 <= t -> cell_index t = t mod capacity.
Proof using. intros. unfold cell_index, mask, capacity. rewrite Z.shiftl_1_l. rewrite <- (Z.land_ones t 10) by lia. done. Qed.
Lemma cell_index_range t : 0 <= t -> 0 <= cell_index t < capacity.
Proof using. intros. rewrite cell_index_mod by done. apply Z.mod_pos_bound. done. Qed.

(** Two tickets of one window have different cells. *)
Lemma cell_index_inj b t1 t2 : 0 <= b -> b <= t1 < b + capacity -> b <= t2 < b + capacity -> cell_index t1 = cell_index t2 -> t1 = t2.
Proof using.
  intros Hb H1 H2. rewrite !cell_index_mod by lia. unfold capacity in *. rewrite Z.shiftl_1_l in *. change (2 ^ 10) with 1024 in *. intros E.
  pose proof (Z.div_mod t1 1024 ltac:(lia)). pose proof (Z.div_mod t2 1024 ltac:(lia)). nia.
Qed.

(** ** The invariant *)

Definition ticket_of (p : producer) : Z :=
  match p with PushWait t _ | TryWait t _ | PushData t _ | PushEpoch t => t end.

(** The first ticket whose cell the consumer has not handed on. *)
Definition base (s : State) : Z := tail_ (ring s) + match consumer_ s with PopTail _ => 1 | _ => 0 end.

(** Ticket [t] has been written: it was taken, no producer is at it and no [try_push] lost it. *)
Definition written (s : State) (t : Z) : Prop :=
  t < head_ (ring s) /\ (t ∉ lost_ s) /\ forall tid p, producers s !! tid = Some p -> ticket_of p <> t.

(** A producer at its ticket; the cell of one that owns it. *)
Definition producer_ok (s : State) (p : producer) : Prop :=
  base s <= ticket_of p < head_ (ring s) /\ (ticket_of p ∉ lost_ s) /\
  match p with
  | PushWait t d | TryWait t d => znth (taken_ s) t = Some d
  | PushData t d => znth (taken_ s) t = Some d /\ t < base s + capacity
  | PushEpoch t => t < base s + capacity /\ exists c, cell_at t (ring s) = Some c /\ data c = znth (taken_ s) t
  end.

Definition consumer_ok (s : State) : Prop :=
  match consumer_ s with
  | PopLoad => True
  | PopData => written s (base s)
  | PopEpoch out => written s (base s) /\ out = znth (taken_ s) (tail_ (ring s))
  | PopTail out => out = znth (taken_ s) (tail_ (ring s)) /\ tail_ (ring s) < head_ (ring s)
  end.

Record mpsc_inv (s : State) : Prop := {
  mi_cells : zlen (buff_ (ring s)) = capacity;
  mi_head : head_ (ring s) = zlen (taken_ s);
  mi_tail : 0 <= tail_ (ring s) /\ base s <= head_ (ring s);
  mi_popped : popped_ s = Some <$> ztake (tail_ (ring s)) (taken_ s);
  mi_producers : forall tid p, producers s !! tid = Some p -> producer_ok s p;
  mi_own : forall tid1 tid2 p1 p2, producers s !! tid1 = Some p1 -> producers s !! tid2 = Some p2 -> ticket_of p1 = ticket_of p2 -> tid1 = tid2;
  mi_lost : forall t, t ∈ lost_ s -> base s <= t < head_ (ring s);
  mi_window : forall t, base s <= t < base s + capacity -> exists c, cell_at t (ring s) = Some c /\
    ((written s t /\ epoch c = t + 1 /\ data c = znth (taken_ s) t) \/ (~ written s t /\ epoch c = t));
  mi_beyond : forall t, base s + capacity <= t -> ~ written s t;
  mi_consumer : consumer_ok s
}.

Lemma capacity_val : capacity = 1024.
Proof using. done. Qed.

(** The cells of a ring after one is stored. *)
Lemma cell_at_Some t r : 0 <= t -> zlen (buff_ r) = capacity -> exists c, cell_at t r = Some c.
Proof using. intros Ht Hr. apply znth_is_Some. rewrite Hr. by apply cell_index_range. Qed.
Lemma cell_at_set_eq t t' c r : 0 <= t -> zlen (buff_ r) = capacity -> cell_index t' = cell_index t -> cell_at t' (set_cell t c r) = Some c.
Proof using. intros Ht Hr E. unfold cell_at, set_cell. cbn. rewrite E. apply znth_zset_eq. rewrite Hr. by apply cell_index_range. Qed.
Lemma cell_at_set_ne t t' c r : 0 <= t -> cell_index t' <> cell_index t -> cell_at t' (set_cell t c r) = cell_at t' r.
Proof using. intros Ht E. unfold cell_at, set_cell. cbn. apply znth_zset_ne; [congruence|]. by apply cell_index_range. Qed.

(** A cell's epoch says which ticket it waits for. *)
Lemma epoch_in_window s t c : mpsc_inv s -> base s <= t -> cell_at t (ring s) = Some c -> epoch c = t -> t < base s + capacity.
Proof using.
  intros I Ht Ec Ee. pose proof (mi_tail _ I) as [H0 _]. assert (Hb : 0 <= base s) by (unfold base; destruct (consumer_ s); lia).
  set (t' := base s + (t - base s) mod capacity).
  assert (Ht' : base s <= t' < base s + capacity) by (pose proof (Z.mod_pos_bound (t - base s) capacity ltac:(done)); unfold t'; lia).
  assert (Ei : cell_index t' = cell_index t).
  { rewrite !cell_index_mod by lia. unfold t'. rewrite Zplus_mod_idemp_r. f_equal. lia. }
  destruct (mi_window _ I t' Ht') as (c' & Ec' & H). unfold cell_at in Ec, Ec'. rewrite Ei, Ec in Ec'. injection Ec' as <-.
  rewrite !cell_index_mod in Ei by lia. clearbody t'. rewrite capacity_val in *. destruct H as [(_ & H & _)|[_ H]]; [|lia].
  pose proof (Z.div_mod t 1024 ltac:(lia)). pose proof (Z.div_mod t' 1024 ltac:(lia)). lia.
Qed.

(** States with the same tickets in the same hands have the same tickets written. *)
Lemma written_same s s' t : head_ (ring s') = head_ (ring s) -> lost_ s' = lost_ s ->
  (forall tid, ticket_of <$> producers s' !! tid = ticket_of <$> producers s !! tid) -> written s' t <-> written s t.
Proof using.
  intros Hh Hl Hp. unfold written. rewrite Hh, Hl. split; intros (H1 & H2 & H3); (split_and!; [done|done|]);
    intros tid p Ep Et; specialize (Hp tid); rewrite Ep in Hp; cbn in Hp.
  - destruct (producers s' !! tid) as [q|] eqn:Eq; cbn in Hp; [|done]. apply (H3 tid q Eq). congruence.
  - destruct (producers s !! tid) as [q|] eqn:Eq; cbn in Hp; [|done]. apply (H3 tid q Eq). congruence.
Qed.

Lemma set_producer_tickets s tid p q : producers s !! tid = Some p -> ticket_of q = ticket_of p ->
  forall i, ticket_of <$> <[tid := q]> (producers s) !! i = ticket_of <$> producers s !! i.
Proof using.
  intros Ep Et i. destruct (decide (tid = i)) as [<-|]; [by rewrite lookup_insert_eq, Ep; cbn; rewrite Et|by rewrite lookup_insert_ne].
Qed.

(** ** Steps keep it *)

Lemma consumer_ok_mono s s' : consumer_ s' = consumer_ s -> base s' = base s -> tail_ (ring s') = tail_ (ring s) ->
  head_ (ring s) <= head_ (ring s') -> (forall t, 0 <= t < head_ (ring s) -> znth (taken_ s') t = znth (taken_ s) t) ->
  (written s (base s) -> written s' (base s)) -> 0 <= tail_ (ring s) -> consumer_ok s -> consumer_ok s'.
Proof using.
  intros Hc Hb Ht Hh Hk Hw H0. unfold consumer_ok. rewrite Hc, Hb, Ht. unfold base in *. destruct (consumer_ s) as [| |out|out]; [done|done|..].
  - intros [H ->]. split; [by apply Hw|]. rewrite Z.add_0_r in *. symmetry. apply Hk. destruct H. lia.
  - intros [-> H]. split; [symmetry; apply Hk|]; lia.
Qed.

Lemma call_push_inv is_try tid d s s' : mpsc_inv s -> call_push is_try tid d s = Some s' -> zlen (taken_ s') < 2 ^ 63 -> mpsc_inv s'.
Proof using.
  intros I. unfold call_push. destruct (producers s !! tid) eqn:Etid; [done|]. intros [= <-]. cbn [taken_]. intros Hlen.
  set (s' := mk_state _ _ _ _ _ _). pose proof (mi_head _ I) as Hh. pose proof (mi_tail _ I) as [Ht Hbh]. pose proof (zlen_nonneg (taken_ s)).
  rewrite zlen_app in Hlen. change (zlen [d]) with 1 in Hlen.
  set (p := if is_try then TryWait (head_ (ring s)) d else PushWait (head_ (ring s)) d).
  assert (Epr : producers s' = <[tid := p]> (producers s)) by done.
  assert (Etk : ticket_of p = head_ (ring s)) by (unfold p; by destruct is_try).
  assert (Hhead : head_ (ring s') = head_ (ring s) + 1) by (cbn; apply u64_small; lia).
  assert (Hold : forall t, t < head_ (ring s) -> znth (taken_ s') t = znth (taken_ s) t) by (intros t ?; apply znth_app_l; lia).
  assert (Hw : forall t, written s' t <-> written s t).
  { intros t. unfold written. rewrite Hhead. change (lost_ s') with (lost_ s). change (producers s') with (<[tid := p]> (producers s)). split.
    - intros (H1 & H2 & H3). pose proof (H3 tid p (lookup_insert_eq _ _ _)) as Hne. rewrite Etk in Hne. split_and!; [lia|done|].
      intros i q Ei. apply (H3 i q). rewrite lookup_insert_ne; [done|congruence].
    - intros (H1 & H2 & H3). split_and!; [lia|done|]. intros i q [[<- <-]|[_ Ei]]%lookup_insert_Some; [lia|by eapply H3]. }
  assert (Hp : forall i q, producers s !! i = Some q -> producer_ok s' q).
  { intros i q Eq. destruct (mi_producers _ I i q Eq) as (Hr & Hl & Hq). split; [rewrite Hhead; change (base s') with (base s); lia|]. split; [done|].
    destruct q; cbn [ticket_of] in Hr; rewrite ?Hold by lia; done. }
  destruct I as [Ic Ih It Ipop Ip Io Il Iw Ib Ico]. split.
  - exact Ic.
  - rewrite Hhead. cbn. rewrite zlen_app. change (zlen [d]) with 1. lia.
  - rewrite Hhead. change (base s') with (base s). cbn. lia.
  - cbn. rewrite ztake_app_l; [exact Ipop|]. unfold base in *. destruct (consumer_ s); lia.
  - intros i q. rewrite Epr. intros [[<- <-]|[_ Ei]]%lookup_insert_Some; [|by eapply Hp]. split; [rewrite Etk, Hhead; change (base s') with (base s); lia|].
    split; [rewrite Etk; intros Hin; specialize (Il _ Hin); lia|].
    assert (Ed : znth (taken_ s') (head_ (ring s)) = Some d) by (cbn; rewrite znth_app_r, Hh, Z.sub_diag by lia; done).
    unfold p. by destruct is_try.
  - intros i j q r. rewrite Epr. intros [[<- <-]|[Hi Ei]]%lookup_insert_Some [[<- <-]|[Hj Ej]]%lookup_insert_Some; try done.
    + intros E. rewrite Etk in E. destruct (Ip _ _ Ej) as [? _]. lia.
    + intros E. rewrite Etk in E. destruct (Ip _ _ Ei) as [? _]. lia.
    + by apply (Io i j q r).
  - intros t Hin. specialize (Il t Hin). rewrite Hhead. change (base s') with (base s). lia.
  - intros t Hin. destruct (Iw t Hin) as (c & Ec & Hcase). exists c. split; [exact Ec|]. rewrite Hw.
    destruct Hcase as [(W & E1 & E2)|]; [left|by right]. split_and!; [done|done|]. rewrite Hold; [done|]. apply W.
  - intros t Hin. rewrite Hw. by apply Ib.
  - apply (consumer_ok_mono s); try done; [lia|intros; apply Hold; lia|by rewrite Hw].
Qed.

(** A producer moves on with its ticket. *)
Lemma set_producer_inv s tid p q : mpsc_inv s -> producers s !! tid = Some p -> ticket_of q = ticket_of p ->
  producer_ok s q -> mpsc_inv (set_producer tid q s).
Proof using.
  intros I Ep Et Hq. set (s' := set_producer tid q s).
  assert (Hw : forall t, written s' t <-> written s t) by (intros t; apply written_same; [done|done|by apply (set_producer_tickets s tid p q)]).
  assert (Epr : producers s' = <[tid := q]> (producers s)) by done. pose proof (mi_producers _ I tid p Ep) as (Hr & _).
  destruct I as [Ic Ih It Ipop Ip Io Il Iw Ib Ico]. split; try done.
  - intros i r. rewrite Epr. intros [[<- <-]|[_ Ei]]%lookup_insert_Some; [exact Hq|exact (Ip i r Ei)].
  - intros i j r1 r2. rewrite Epr. intros [[<- <-]|[Hi Ei]]%lookup_insert_Some [[<- <-]|[Hj Ej]]%lookup_insert_Some; try done.
    + rewrite Et. by apply Io.
    + rewrite Et. by apply Io.
    + by apply (Io i j r1 r2).
  - intros t Hin. destruct (Iw t Hin) as (c & Ec & H). exists c. by rewrite Hw.
  - intros t Hin. rewrite Hw. by apply Ib.
  - apply (consumer_ok_mono s); try done; [by rewrite Hw|by destruct It].
Qed.

Lemma claim_inv s tid p t d c : mpsc_inv s -> producers s !! tid = Some p -> p = PushWait t d \/ p = TryWait t d ->
  cell_at t (ring s) = Some c -> epoch c = t -> mpsc_inv (set_producer tid (PushData t d) s).
Proof using.
  intros I Ep Hp Ec Ee. destruct (mi_producers _ I tid p Ep) as (Hr & Hl & Hd).
  assert (Et : ticket_of p = t) by (by destruct Hp as [->| ->]). rewrite Et in *.
  apply (set_producer_inv s tid p); [done|done|done|]. split; [done|]. split; [done|].
  split; [by destruct Hp as [->| ->]|]. apply (epoch_in_window s t c); [done|lia|done|done].
Qed.

(** A producer leaves; [lost'] is [lost_ s], or has its ticket. *)
Lemma try_push_fails_inv s tid t d : mpsc_inv s -> producers s !! tid = Some (TryWait t d) -> mpsc_inv (try_push_fails tid t s).
Proof using.
  intros I Ep. set (s' := try_push_fails tid t s). destruct (mi_producers _ I tid _ Ep) as (Hr & Hl & _). cbn [ticket_of] in *.
  assert (Epr : producers s' = delete tid (producers s)) by done. assert (El : lost_ s' = lost_ s ++ [t]) by done.
  destruct I as [Ic Ih It Ipop Ip Io Il Iw Ib Ico].
  assert (Hw : forall u, written s' u <-> written s u).
  { intros u. unfold written. change (head_ (ring s')) with (head_ (ring s)). rewrite Epr, El. split; intros (H1 & H2 & H3).
    - assert (u <> t) by (intros ->; apply H2, elem_of_app; right; by left). split_and!; [done|intros ?; apply H2, elem_of_app; by left|].
      intros i q Ei. destruct (decide (tid = i)) as [<-|]; [rewrite Ep in Ei; injection Ei as <-; cbn; congruence|]. apply (H3 i q). by rewrite lookup_delete_ne.
    - split_and!; [done| |intros i q [_ Ei]%lookup_delete_Some; by apply (H3 i q)].
      intros [?| ->%list_elem_of_singleton]%elem_of_app; [done|]. by apply (H3 tid _ Ep). }
  split; try done.
  - intros i q. rewrite Epr. intros [Hne Ei]%lookup_delete_Some. destruct (Ip i q Ei) as (H1 & H2 & H3). split; [done|]. split; [|done].
    rewrite El. intros [?|E%list_elem_of_singleton]%elem_of_app; [done|]. apply Hne. by apply (Io tid i _ q Ep Ei).
  - intros i j q r. rewrite Epr. intros [_ Ei]%lookup_delete_Some [_ Ej]%lookup_delete_Some. by apply (Io i j q r).
  - intros u. rewrite El. intros [Hin| ->%list_elem_of_singleton]%elem_of_app; [by apply Il|done].
  - intros u Hin. destruct (Iw u Hin) as (c & Ec & H). exists c. by rewrite Hw.
  - intros u Hin. rewrite Hw. by apply Ib.
  - apply (consumer_ok_mono s); try done; [by rewrite Hw|by destruct It].
Qed.

(** The data of the cell a producer owns changes. *)
Lemma store_data_inv s t tid d c : mpsc_inv s -> producers s !! tid = Some (PushData t d) -> cell_at t (ring s) = Some c ->
  mpsc_inv (set_producer tid (PushEpoch t) (set_ring (set_cell t (mk_cell (epoch c) (Some d)) (ring s)) s)).
Proof using.
  intros I Ep Ec. destruct (mi_producers _ I tid _ Ep) as (Hr & Hl & Hd & Hlt). cbn [ticket_of] in *.
  pose proof (mi_tail _ I) as [H0 _]. assert (Hb : 0 <= base s) by (unfold base; destruct (consumer_ s); lia).
  set (s1 := set_ring _ s). enough (I1 : mpsc_inv s1).
  { apply (set_producer_inv s1 tid (PushData t d)); [done|exact Ep|done|]. split; [done|]. split; [done|]. split; [done|].
    eexists. split; [apply cell_at_set_eq; [lia|apply I|done]|done]. }
  assert (Hne : forall u, base s <= u < base s + capacity -> u <> t -> cell_index u <> cell_index t)
    by (intros u Hu Hut E; apply Hut; apply (cell_index_inj (base s)); [done|done|lia|done]).
  assert (Hnw : ~ written s t) by (intros (_ & _ & H); by apply (H tid _ Ep)).
  destruct I as [Ic Ih It Ipop Ip Io Il Iw Ib Ico]. split; try done.
  - cbn. by rewrite zlen_zset.
  - intros i q Ei. destruct (Ip i q Ei) as (H1 & H2 & H3). split; [done|]. split; [done|]. destruct q as [| | |u]; try done.
    destruct H3 as (Hlu & c' & Ec' & Hd'). split; [done|]. exists c'. split; [|done]. cbn [ring set_ring s1]. rewrite cell_at_set_ne; [done|lia|].
    apply Hne; [split; [apply H1|exact Hlu]|]. intros ->. pose proof (Io i tid _ _ Ei Ep eq_refl) as ->. change (producers s !! tid = Some (PushEpoch t)) in Ei. congruence.
  - intros u Hu. destruct (Iw u Hu) as (c' & Ec' & H). destruct (decide (u = t)) as [->|Hut].
    + exists (mk_cell (epoch c) (Some d)). split; [apply cell_at_set_eq; [lia|done|done]|]. right. destruct H as [[? _]|[_ H]]; [done|].
      split; [done|]. cbn. congruence.
    + exists c'. split; [|done]. cbn [ring set_ring s1]. rewrite cell_at_set_ne; [done|lia|by apply Hne].
Qed.

(** The epoch of the cell a producer owns is stored. *)
Lemma store_epoch_inv s t tid c : mpsc_inv s -> zlen (taken_ s) < 2 ^ 63 -> producers s !! tid = Some (PushEpoch t) -> cell_at t (ring s) = Some c ->
  mpsc_inv (push_returns tid (set_ring (set_cell t (mk_cell (u64 (t + 1)) (data c)) (ring s)) s)).
Proof using.
  intros I Hlen Ep Ec. destruct (mi_producers _ I tid _ Ep) as (Hr & Hl & Hlt & c0 & Ec0 & Hd). cbn [ticket_of] in *.
  rewrite Ec in Ec0. injection Ec0 as <-. pose proof (mi_tail _ I) as [H0 _]. pose proof (mi_head _ I) as Hh.
  assert (Hb : 0 <= base s) by (unfold base; destruct (consumer_ s); lia).
  set (s' := push_returns _ _). assert (Epr : producers s' = delete tid (producers s)) by done.
  assert (Hne : forall u, base s <= u < base s + capacity -> u <> t -> cell_index u <> cell_index t)
    by (intros u Hu Hut E; apply Hut; apply (cell_index_inj (base s)); [done|done|lia|done]).
  assert (Hw : forall u, u <> t -> written s' u <-> written s u).
  { intros u Hut. unfold written. change (head_ (ring s')) with (head_ (ring s)). change (lost_ s') with (lost_ s). rewrite Epr.
    split; intros (H1 & H2 & H3); (split_and!; [done|done|]); intros i q.
    - intros Ei. destruct (decide (tid = i)) as [<-|]; [rewrite Ep in Ei; injection Ei as <-; cbn; congruence|]. apply (H3 i q). by rewrite lookup_delete_ne.
    - intros [_ Ei]%lookup_delete_Some. by apply (H3 i q). }
  destruct I as [Ic Ih It Ipop Ip Io Il Iw Ib Ico].
  assert (Hwt : written s' t).
  { split; [cbn; lia|]. split; [done|]. intros i q. rewrite Epr. intros [Hni Ei]%lookup_delete_Some E. apply Hni. by apply (Io tid i _ q Ep Ei). }
  split; try done.
  - cbn. by rewrite zlen_zset.
  - intros i q. rewrite Epr. intros [Hni Ei]%lookup_delete_Some. destruct (Ip i q Ei) as (H1 & H2 & H3). split; [done|]. split; [done|].
    destruct q as [| | |u]; try done. destruct H3 as (Hlu & c' & Ec' & Hd'). split; [done|]. exists c'. split; [|done].
    cbn. rewrite cell_at_set_ne; [done|lia|]. apply Hne; [split; [apply H1|exact Hlu]|]. intros ->. apply Hni. by apply (Io tid i _ _ Ep Ei).
  - intros i j q r. rewrite Epr. intros [_ Ei]%lookup_delete_Some [_ Ej]%lookup_delete_Some. by apply (Io i j q r).
  - intros u Hu. destruct (decide (u = t)) as [->|Hut].
    + exists (mk_cell (u64 (t + 1)) (data c)). split; [apply cell_at_set_eq; [lia|done|done]|]. left. split_and!; [done|cbn; apply u64_small; lia|exact Hd].
    + destruct (Iw u Hu) as (c' & Ec' & H). exists c'. rewrite Hw by done. split; [|done]. cbn. rewrite cell_at_set_ne; [done|lia|by apply Hne].
  - intros u Hu. change (base s') with (base s) in Hu. rewrite Hw by lia. by apply Ib.
  - apply (consumer_ok_mono s); try done. intros H. destruct (decide (base s = t)) as [E|]; [rewrite E; exact Hwt|by rewrite Hw].
Qed.

Lemma step_push_inv tid s s' : mpsc_inv s -> zlen (taken_ s) < 2 ^ 63 -> step_push tid s = Some s' -> mpsc_inv s'.
Proof using.
  intros I Hlen. unfold step_push. destruct (producers s !! tid) as [p|] eqn:Ep; [|done].
  destruct p as [t d|t d|t d|t]; (destruct (cell_at t (ring s)) as [c|] eqn:Ec; [|done]).
  - destruct (Z.eqb_spec t (epoch c)) as [E|]; cbn [negb]; intros [= <-]; [|done]. by eapply claim_inv; [|exact Ep|left|exact Ec|].
  - destruct (Z.eqb_spec t (epoch c)) as [E|]; cbn [negb]; intros [= <-]; [by eapply claim_inv; [|exact Ep|right|exact Ec|]|by eapply try_push_fails_inv].
  - intros [= <-]. by apply store_data_inv.
  - intros [= <-]. by apply store_epoch_inv.
Qed.

Lemma set_consumer_inv s c : mpsc_inv s -> base (set_consumer c s) = base s -> consumer_ok (set_consumer c s) -> mpsc_inv (set_consumer c s).
Proof using.
  intros [Ic Ih It Ipop Ip Io Il Iw Ib Ico] Hb Hc. split; rewrite ?Hb; try done.
  intros tid p Ep. destruct (Ip tid p Ep) as (H1 & H2 & H3). split; [by rewrite Hb|]. split; [done|]. destruct p; rewrite ?Hb; done.
Qed.

(** The consumer hands the cell on to the ticket one lap later. *)
Lemma free_cell_inv s out c : mpsc_inv s -> zlen (taken_ s) < 2 ^ 63 -> consumer_ s = PopEpoch out -> cell_at (tail_ (ring s)) (ring s) = Some c ->
  mpsc_inv (set_consumer (PopTail out) (set_ring (set_cell (tail_ (ring s)) (mk_cell (u64 (tail_ (ring s) + capacity)) (data c)) (ring s)) s)).
Proof using.
  intros I Hlen Hcons Ec. set (s' := set_consumer _ _). pose proof (mi_tail _ I) as [H0 _]. pose proof (mi_head _ I) as Hh.
  assert (Eb : base s = tail_ (ring s)) by (unfold base; rewrite Hcons; lia). set (b := tail_ (ring s)) in *.
  assert (Eb' : base s' = b + 1) by done. pose proof (mi_consumer _ I) as Hco. unfold consumer_ok in Hco. rewrite Hcons, Eb in Hco. fold b in Hco.
  destruct Hco as [(Hbh & Hbl & Hbp) Hout]. destruct I as [Ic Ih It Ipop Ip Io Il Iw Ib Ico]. rewrite Eb in *.
  assert (Hne : forall u, b + 1 <= u < b + capacity -> cell_index u <> cell_index b).
  { intros u Hu E. enough (u = b) by lia. apply (cell_index_inj b); [done|lia|rewrite capacity_val; lia|done]. }
  assert (Hpg : forall tid p, producers s !! tid = Some p -> b + 1 <= ticket_of p).
  { intros tid p Ep. destruct (Ip tid p Ep) as [H1 _]. rewrite Eb in H1. pose proof (Hbp tid p Ep). lia. }
  split; rewrite ?Eb'; try done.
  - cbn. by rewrite zlen_zset.
  - cbn. fold b. lia.
  - intros tid p Ep. pose proof (Hpg tid p Ep) as Hg. destruct (Ip tid p Ep) as (H1 & H2 & H3). split; [rewrite Eb'; cbn; lia|]. split; [done|].
    rewrite Eb in H3. destruct p as [| |u d|u]; try done; rewrite ?Eb'.
    + destruct H3. split; [done|lia].
    + destruct H3 as (Hlu & c' & Ec' & Hd'). split; [lia|]. exists c'. split; [|done]. cbn. fold b. rewrite cell_at_set_ne; [done|lia|]. apply Hne. cbn in Hg. lia.
  - intros t Hin. specialize (Il t Hin). change (head_ (ring s')) with (head_ (ring s)). assert (t <> b) by (intros E; apply Hbl; by rewrite <- E). lia.
  - intros t Ht. destruct (decide (t = b + capacity)) as [->|].
    + exists (mk_cell (u64 (b + capacity)) (data c)). split.
      * cbn. fold b. apply cell_at_set_eq; [done|done|]. rewrite !cell_index_mod, capacity_val by (rewrite ?capacity_val; lia). by rewrite <- (Z_mod_plus_full b 1 1024).
      * right. split; [by apply Ib|]. cbn. apply u64_small. rewrite capacity_val. lia.
    + destruct (Iw t ltac:(lia)) as (c' & Ec' & H). exists c'. split; [|done]. cbn. fold b. rewrite cell_at_set_ne; [done|lia|]. apply Hne. lia.
  - intros t Ht. apply Ib. lia.
Qed.

Lemma step_pop_inv s s' : mpsc_inv s -> zlen (taken_ s) < 2 ^ 63 -> step_pop s = Some s' -> mpsc_inv s'.
Proof using.
  intros I Hlen. unfold step_pop. destruct (cell_at _ _) as [c|] eqn:Ec; [|done]. pose proof (mi_tail _ I) as [H0 Hbh]. pose proof (mi_head _ I) as Hh.
  pose proof (mi_consumer _ I) as Hco. unfold consumer_ok in Hco. destruct (consumer_ s) as [| |out|out] eqn:Hcons.
  - assert (Eb : base s = tail_ (ring s)) by (unfold base; rewrite Hcons; lia).
    destruct (Z.eqb_spec (epoch c) (u64 (tail_ (ring s) + 1))) as [E|]; cbn [negb]; intros [= <-]; [|done]. rewrite u64_small in E by lia.
    destruct (mi_window _ I (base s)) as (c' & Ec' & H); [rewrite capacity_val; lia|]. rewrite Eb, Ec in Ec'. injection Ec' as <-.
    destruct H as [(W & _)|[_ H]]; [|lia]. assert (Eb' : base (set_consumer PopData s) = base s) by (rewrite Eb; unfold base; cbn; lia).
    apply set_consumer_inv; [done|done|]. unfold consumer_ok. by rewrite Eb'.
  - assert (Eb : base s = tail_ (ring s)) by (unfold base; rewrite Hcons; lia). intros [= <-].
    destruct (mi_window _ I (base s)) as (c' & Ec' & H); [rewrite capacity_val; lia|]. rewrite Eb, Ec in Ec'. injection Ec' as <-.
    assert (Eb' : base (set_consumer (PopEpoch (data c)) s) = base s) by (rewrite Eb; unfold base; cbn; lia).
    apply set_consumer_inv; [done|done|]. unfold consumer_ok. rewrite Eb'. split; [done|]. rewrite Eb in *. by destruct H as [(_ & _ & ->)|[? _]].
  - intros [= <-]. by apply free_cell_inv.
  - intros [= <-]. destruct Hco as [-> Hlt]. set (s' := mk_state _ _ _ _ _ _).
    assert (Et : tail_ (ring s') = tail_ (ring s) + 1) by (cbn; apply u64_small; lia).
    assert (Eb' : base s' = base s) by (unfold base; rewrite Et, Hcons; cbn; lia).
    assert (Hlk : exists d, znth (taken_ s) (tail_ (ring s)) = Some d) by (apply znth_is_Some; lia). destruct Hlk as [d Ed].
    destruct I as [Ic Ih It Ipop Ip Io Il Iw Ib Ico]. split; rewrite ?Eb', ?Et; try done.
    + split; [lia|exact Hbh].
    + cbn. rewrite Ed, Ipop. unfold znth in Ed. rewrite (proj2 (Z.ltb_ge _ _)) in Ed by lia. unfold ztake.
      replace (Z.to_nat (tail_ (ring s) + 1)) with (S (Z.to_nat (tail_ (ring s)))) by lia. by rewrite (take_S_r _ _ _ Ed), fmap_app.
    + intros tid p Ep. destruct (Ip tid p Ep) as (H1 & H2 & H3). split; [by rewrite Eb'|]. split; [done|]. destruct p; rewrite ?Eb'; done.
Qed.

Lemma state_new_inv : mpsc_inv state_new.
Proof using.
  assert (Hbuf : forall t, 0 <= t < capacity -> cell_at t mpsc_ring_new = Some (mk_cell t None)).
  { intros t Ht. unfold cell_at. rewrite cell_index_mod, Z.mod_small by lia. unfold znth. rewrite (proj2 (Z.ltb_ge _ _)) by lia.
    unfold mpsc_ring_new. cbn [buff_]. rewrite list_lookup_fmap, lookup_seq_lt by (rewrite capacity_val in *; lia). cbn. do 2 f_equal. lia. }
  split; try done.
  - by intros t ?%not_elem_of_nil.
  - intros t Ht. exists (mk_cell t None). split; [by apply Hbuf|]. right. split; [|done]. intros [H _]. cbn in *. unfold base in Ht. cbn in Ht. lia.
  - intros t Ht [H _]. cbn in *. unfold base in Ht. cbn in Ht. rewrite capacity_val in *. lia.
Qed.

Lemma mpsc_step_taken a s s' : mpsc_step a s = Some s' -> zlen (taken_ s) <= zlen (taken_ s').
Proof using.
  destruct a as [tid d|tid d|tid|]; cbn [mpsc_step]; unfold call_push, step_push, step_pop; intros E;
    repeat (case_match; try discriminate E); injection E as <-; cbn; zlia.
Qed.

Lemma mpsc_run_inv acts s s' : mpsc_inv s -> mpsc_run acts s = Some s' -> zlen (taken_ s') < 2 ^ 63 -> mpsc_inv s' /\ zlen (taken_ s) <= zlen (taken_ s').
Proof using.
  revert s. induction acts as [|a acts IH]; intros s I E Hlen; cbn [mpsc_run] in E; [by injection E as <-|].
  apply bind_Some in E as (s1 & E1 & E). pose proof (mpsc_step_taken _ _ _ E1).
  enough (I1 : zlen (taken_ s1) < 2 ^ 63 -> mpsc_inv s1).
  { destruct (Z.lt_ge_cases (zlen (taken_ s1)) (2 ^ 63)) as [Hl|Hl]; [destruct (IH s1 (I1 Hl) E Hlen); split; [done|lia]|].
    exfalso. clear IH I1. assert (zlen (taken_ s1) <= zlen (taken_ s')); [|lia]. clear -E. revert s1 E. induction acts as [|a acts IH]; intros s E; [by injection E as <-|].
    cbn in E. apply bind_Some in E as (s1 & E1 & E). pose proof (mpsc_step_taken _ _ _ E1). specialize (IH _ E). lia. }
  intros Hl. destruct a as [tid d|tid d|tid|]; cbn [mpsc_step] in E1;
    [by eapply call_push_inv|by eapply call_push_inv|eapply step_push_inv; [done|lia|done]|eapply step_pop_inv; [done|lia|done]].
Qed.

Lemma popped_length s : mpsc_inv s -> zlen (popped_ s) = tail_ (ring s).
Proof using.
  intros I. pose proof (mi_tail _ I) as [H0 Hb]. pose proof (mi_head _ I). rewrite (mi_popped _ I). unfold zlen. rewrite length_fmap.
  assert (Hl : zlen (ztake (tail_ (ring s)) (taken_ s)) = tail_ (ring s)); [|exact Hl].
  apply zlen_ztake. unfold base in Hb. destruct (consumer_ s); lia.
Qed.

(** ** The queue *)

(** The cell whose data a thread may touch in its next steps. *)
Definition producer_cell (p : producer) : option Z :=
  match p with PushData t _ | PushEpoch t => Some (cell_index t) | _ => None end.
Definition consumer_cell (s : State) : option Z :=
  match consumer_ s with PopData | PopEpoch _ => Some (cell_index (tail_ (ring s))) | _ => None end.

(** C17: the log queue is first-in first-out and race free.  Whatever the interleaving of any
    number of producers and the consumer: what the consumer has popped is a prefix of what was
    pushed, in the order of the tickets, so nothing is lost in between, duplicated or
    reordered; no two threads are ever between the load and the store of the same cell; and
    only the thread that is may touch the cell's data. *)
Theorem mpsc_fifo acts s : mpsc_run acts state_new = Some s -> zlen (taken_ s) < 2 ^ 63 ->
  popped_ s = Some <$> ztake (zlen (popped_ s)) (taken_ s) /\
  (forall tid1 tid2 p1 p2 i, producers s !! tid1 = Some p1 -> producers s !! tid2 = Some p2 ->
    producer_cell p1 = Some i -> producer_cell p2 = Some i -> tid1 = tid2) /\
  (forall tid p i, producers s !! tid = Some p -> producer_cell p = Some i -> consumer_cell s <> Some i).
Proof using.
  intros E Hlen. destruct (mpsc_run_inv _ _ _ state_new_inv E Hlen) as [I _]. split; [rewrite (popped_length s I); apply (mi_popped _ I)|].
  pose proof (mi_tail _ I) as [H0 _]. assert (Hb : 0 <= base s) by (unfold base; destruct (consumer_ s); lia).
  assert (Hown : forall tid p i, producers s !! tid = Some p -> producer_cell p = Some i -> i = cell_index (ticket_of p) /\ base s <= ticket_of p < base s + capacity).
  { intros tid p i Ep Ei. destruct (mi_producers _ I tid p Ep) as (H1 & _ & H3). destruct p; try done; injection Ei as <-; cbn in *; split; [done|lia|done|lia]. }
  split.
  - intros tid1 tid2 p1 p2 i E1 E2 H1 H2. destruct (Hown _ _ _ E1 H1) as [Hi1 Hr1], (Hown _ _ _ E2 H2) as [Hi2 Hr2].
    apply (mi_own _ I tid1 tid2 p1 p2 E1 E2). apply (cell_index_inj (base s)); congruence.
  - intros tid p i E1 H1 Hc. destruct (Hown _ _ _ E1 H1) as [Hi Hr]. pose proof (mi_consumer _ I) as Hco. unfold consumer_ok in Hco.
    unfold consumer_cell in Hc. assert (Hw : written s (base s) /\ base s = tail_ (ring s)).
    { unfold base in *. destruct (consumer_ s); try done; rewrite Z.add_0_r in *; [done|by destruct Hco]. }
    assert (Ht : cell_index (tail_ (ring s)) = i) by (destruct (consumer_ s); congruence).
    destruct Hw as [(_ & _ & Hw) Eb]. apply (Hw tid p E1). apply (cell_index_inj (base s)); [done|done|rewrite capacity_val; lia|]. rewrite Eb. congruence.
Qed.

(** A failed [try_push] ends the queue.  The ticket it took is not given back: from then on,
    whatever is pushed and however often the consumer pops, nothing with a ticket from that one
    on is ever popped. *)
Lemma mpsc_lost_ticket_blocks acts1 acts2 s1 s2 t : mpsc_run acts1 state_new = Some s1 -> t ∈ lost_ s1 ->
  mpsc_run acts2 s1 = Some s2 -> zlen (taken_ s2) < 2 ^ 63 -> zlen (popped_ s2) <= t.
Proof using.
  intros E1 Hl E2 Hlen. assert (E : mpsc_run (acts1 ++ acts2) state_new = Some s2) by (by rewrite mpsc_run_app, E1).
  destruct (mpsc_run_inv _ _ _ state_new_inv E Hlen) as [I _]. rewrite (popped_length s2 I).
  assert (Hl2 : t ∈ lost_ s2).
  { clear E1 E I Hlen. revert s1 Hl E2. induction acts2 as [|a acts IH]; intros s Hl E; [by injection E as <-|].
    cbn in E. apply bind_Some in E as (s3 & E3 & E). apply (IH s3); [|exact E]. clear IH E.
    destruct a as [tid d|tid d|tid|]; cbn [mpsc_step] in E3; unfold call_push, step_push, step_pop in E3;
      repeat (case_match; try discriminate E3); injection E3 as <-; cbn; try done; apply elem_of_app; by left. }
  pose proof (mi_lost _ I t Hl2) as H. unfold base in H. destruct (consumer_ s2); lia.
Qed.

(** ** Progress *)

(** [s'] is [s] after steps that take no ticket and lose none. *)
Record follows (s s' : State) : Prop := {
  fo_taken : taken_ s' = taken_ s;
  fo_lost : lost_ s' = lost_ s;
  fo_inv : mpsc_inv s'
}.

Definition internal (a : action) : bool := match a with AProducer _ | AConsumer => true | _ => false end.

Lemma all_written s : mpsc_inv s -> lost_ s = [] -> base s < head_ (ring s) ->
  written s (base s) \/ exists tid p, producers s !! tid = Some p /\ ticket_of p = base s.
Proof using.
  intros I Hl Hb. destruct (decide (Exists (fun x => ticket_of x.2 = base s) (map_to_list (producers s)))) as [H|H].
  - right. apply Exists_exists in H as ([tid p] & Hin & E). apply elem_of_map_to_list in Hin. by exists tid, p.
  - left. split; [done|]. rewrite Hl. split; [apply not_elem_of_nil|]. intros tid p Ep E. apply H, Exists_exists.
    exists (tid, p). split; [by apply elem_of_map_to_list|done].
Qed.

(** The producer of the first ticket not handed on can finish. *)
Definition phase (p : producer) : nat := match p with PushWait _ _ | TryWait _ _ => 3 | PushData _ _ => 2 | PushEpoch _ => 1 end.

Lemma producer_advances s tid p : mpsc_inv s -> zlen (taken_ s) < 2 ^ 63 -> producers s !! tid = Some p -> ticket_of p = base s ->
  exists s', step_push tid s = Some s' /\ follows s s' /\ consumer_ s' = consumer_ s /\ tail_ (ring s') = tail_ (ring s) /\
    head_ (ring s') = head_ (ring s) /\
    (written s' (base s) \/ exists q, producers s' !! tid = Some q /\ ticket_of q = base s /\ (phase q < phase p)%nat).
Proof using.
  intros I Hlen Ep Et. pose proof (mi_producers _ I tid p Ep) as (Hr & Hl & Hp). rewrite Et in Hr.
  destruct (mi_window _ I (base s)) as (c & Ec & Hc); [rewrite capacity_val; lia|].
  destruct Hc as [((_ & _ & H) & _)|[Hnw Hep]]; [by destruct (H tid p Ep)|].
  destruct p as [t d|t d|t d|t]; cbn [ticket_of] in Et; subst t; unfold step_push; rewrite Ep, Ec.
  - rewrite Hep, Z.eqb_refl. cbn [negb]. eexists. split; [done|]. split_and!; try done; [split; try done; by eapply claim_inv; [|exact Ep|left| |]|].
    right. eexists. split; [apply lookup_insert_eq|]. by split; [|cbn; lia].
  - rewrite Hep, Z.eqb_refl. cbn [negb]. eexists. split; [done|]. split_and!; try done; [split; try done; by eapply claim_inv; [|exact Ep|right| |]|].
    right. eexists. split; [apply lookup_insert_eq|]. by split; [|cbn; lia].
  - eexists. split; [done|]. split_and!; try done; [split; try done; by apply store_data_inv|].
    right. eexists. split; [apply lookup_insert_eq|]. by split; [|cbn; lia].
  - eexists. split; [done|]. split_and!; try done; [split; try done; by apply store_epoch_inv|]. left.
    split; [apply Hr|]. split; [done|]. cbn. intros i q [Hni Ei]%lookup_delete_Some E. apply Hni.
    by apply (mi_own _ I tid i _ _ Ep Ei).
Qed.

Lemma producer_finishes n s tid p : (phase p <= n)%nat -> mpsc_inv s -> zlen (taken_ s) < 2 ^ 63 -> producers s !! tid = Some p -> ticket_of p = base s ->
  exists k s', mpsc_run (replicate k (AProducer tid)) s = Some s' /\ follows s s' /\ consumer_ s' = consumer_ s /\
    tail_ (ring s') = tail_ (ring s) /\ head_ (ring s') = head_ (ring s) /\ written s' (base s).
Proof using.
  revert s p. induction n as [|n IH]; intros s p Hn I Hlen Ep Et; [destruct p; cbn in Hn; lia|].
  destruct (producer_advances s tid p I Hlen Ep Et) as (s1 & E1 & [F1 F2 F3] & Hc & Ht & Hh & [Hw|(q & Eq & Etq & Hq)]).
  - exists 1%nat, s1. cbn. rewrite E1. split_and!; try done.
  - assert (Eb : base s1 = base s) by (unfold base; by rewrite Hc, Ht).
    destruct (IH s1 q ltac:(lia) F3 ltac:(congruence) Eq ltac:(congruence)) as (k & s' & Er & [G1 G2 G3] & Hc' & Ht' & Hh' & Hw').
    exists (S k), s'. cbn. rewrite E1. split_and!; [exact Er|split; congruence|congruence|congruence|congruence|by rewrite <- Eb].
Qed.

Definition consumer_phase (c : consumer) : nat :=
  match c with PopLoad => 4 | PopData => 3 | PopEpoch _ => 2 | PopTail _ => 1 end.

Lemma consumer_advances s : mpsc_inv s -> zlen (taken_ s) < 2 ^ 63 -> written s (base s) \/ consumer_ s <> PopLoad ->
  exists s', step_pop s = Some s' /\ follows s s' /\ head_ (ring s') = head_ (ring s) /\
    (tail_ (ring s') = tail_ (ring s) + 1 \/
     (tail_ (ring s') = tail_ (ring s) /\ consumer_ s' <> PopLoad /\ (consumer_phase (consumer_ s') < consumer_phase (consumer_ s))%nat)).
Proof using.
  intros I Hlen Hw. pose proof (mi_tail _ I) as [H0 Hbh]. pose proof (mi_head _ I) as Hh.
  destruct (cell_at_Some (tail_ (ring s)) (ring s) H0 (mi_cells _ I)) as [c Ec].
  assert (G : forall s', step_pop s = Some s' -> mpsc_inv s') by (intros s'; by apply step_pop_inv).
  unfold step_pop in *. rewrite Ec in *. destruct (consumer_ s) as [| |out|out] eqn:Hcons.
  - assert (Eb : base s = tail_ (ring s)) by (unfold base; rewrite Hcons; lia). destruct Hw as [Hw|]; [|done].
    destruct (mi_window _ I (base s)) as (c' & Ec' & H); [rewrite capacity_val; lia|]. rewrite Eb, Ec in Ec'. injection Ec' as <-.
    destruct H as [(_ & He & _)|[? _]]; [|done]. rewrite He, Eb, u64_small, Z.eqb_refl in * by (destruct Hw; lia). cbn [negb] in *.
    eexists. split; [done|]. split; [split; [done|done|by apply G]|]. split; [done|]. right. cbn. split_and!; [done|done|lia].
  - eexists. split; [done|]. split; [split; [done|done|by apply G]|]. split; [done|]. right. cbn. split_and!; [done|done|lia].
  - eexists. split; [done|]. split; [split; [done|done|by apply G]|]. split; [done|]. right. cbn. split_and!; [done|done|lia].
  - eexists. split; [done|]. split; [split; [done|done|by apply G]|]. split; [done|]. left. cbn.
    pose proof (mi_consumer _ I) as Hco. unfold consumer_ok in Hco. rewrite Hcons in Hco. apply u64_small. lia.
Qed.

Lemma consumer_delivers n s : (consumer_phase (consumer_ s) <= n)%nat -> mpsc_inv s -> zlen (taken_ s) < 2 ^ 63 ->
  written s (base s) \/ consumer_ s <> PopLoad ->
  exists k s', mpsc_run (replicate k AConsumer) s = Some s' /\ follows s s' /\ head_ (ring s') = head_ (ring s) /\
    tail_ (ring s') = tail_ (ring s) + 1.
Proof using.
  revert s. induction n as [|n IH]; intros s Hn I Hlen Hw; [destruct (consumer_ s); cbn in Hn; lia|].
  destruct (consumer_advances s I Hlen Hw) as (s1 & E1 & [F1 F2 F3] & Hh & [Ht|(Ht & Hc & Hp)]).
  - exists 1%nat, s1. cbn. rewrite E1. by split_and!.
  - destruct (IH s1 ltac:(lia) F3 ltac:(congruence) (or_intror Hc)) as (k & s' & Er & [G1 G2 G3] & Hh' & Ht').
    exists (S k), s'. cbn. rewrite E1. split_and!; [exact Er|split; congruence|congruence|lia].
Qed.

Lemma internal_replicate k a : internal a = true -> forallb internal (replicate k a) = true.
Proof using. intros H. induction k; [done|]. cbn. by rewrite H. Qed.

(** One more entry is popped. *)
Lemma delivers_one s : mpsc_inv s -> zlen (taken_ s) < 2 ^ 63 -> lost_ s = [] -> tail_ (ring s) < head_ (ring s) ->
  exists acts s', forallb internal acts = true /\ mpsc_run acts s = Some s' /\ follows s s' /\ head_ (ring s') = head_ (ring s) /\
    tail_ (ring s') = tail_ (ring s) + 1.
Proof using.
  intros I Hlen Hl Hlt. assert (Hd : consumer_ s <> PopLoad \/ consumer_ s = PopLoad) by (destruct (consumer_ s); auto).
  destruct Hd as [Hc|Hc].
  { destruct (consumer_delivers 4 s) as (k & s' & Er & F & Hh & Ht); [destruct (consumer_ s); cbn; lia|done|done|by right|].
    exists (replicate k AConsumer), s'. split; [by apply internal_replicate|done]. }
  assert (Hb : base s < head_ (ring s)) by (unfold base; rewrite Hc; lia).
  destruct (all_written s I Hl Hb) as [Hw|(tid & p & Ep & Et)].
  - destruct (consumer_delivers 4 s) as (k & s' & Er & F & Hh & Ht); [rewrite Hc; cbn; lia|done|done|by left|].
    exists (replicate k AConsumer), s'. split; [by apply internal_replicate|done].
  - destruct (producer_finishes 3 s tid p) as (k1 & s1 & Er1 & [F1 F2 F3] & Hc1 & Ht1 & Hh1 & Hw1); [destruct p; cbn; lia|done..|].
    assert (Eb : base s1 = base s) by (unfold base; by rewrite Hc1, Ht1).
    destruct (consumer_delivers 4 s1) as (k2 & s' & Er2 & [G1 G2 G3] & Hh2 & Ht2);
      [rewrite Hc1, Hc; cbn; lia|done|congruence|left; by rewrite Eb|].
    exists (replicate k1 (AProducer tid) ++ replicate k2 AConsumer), s'.
    split_and!; [rewrite forallb_app; by rewrite !internal_replicate|by rewrite mpsc_run_app, Er1|split; congruence|congruence|lia].
Qed.

(** The queue does not deadlock, and everything is delivered.  From any state that
    producers and consumer can reach in which no [try_push] has failed, letting them go on,
    without any new call, can finish every push and pop everything that was pushed, in the
    order of the tickets. *)
Lemma mpsc_drains acts s : mpsc_run acts state_new = Some s -> zlen (taken_ s) < 2 ^ 63 -> lost_ s = [] ->
  exists acts' s', forallb internal acts' = true /\ mpsc_run acts' s = Some s' /\ taken_ s' = taken_ s /\
    popped_ s' = Some <$> taken_ s /\ producers s' = ∅.
Proof using.
  intros E Hlen Hl. destruct (mpsc_run_inv _ _ _ state_new_inv E Hlen) as [I _]. clear E acts.
  pose proof (mi_tail _ I) as [H0 Hb0].
  assert (Hn : exists n : nat, head_ (ring s) - tail_ (ring s) <= Z.of_nat n) by (exists (Z.to_nat (head_ (ring s) - tail_ (ring s))); lia).
  destruct Hn as [n Hn]. revert s I Hlen Hl Hn H0 Hb0. induction n as [|n IH]; intros s I Hlen Hl Hn H0 Hb0.
  - exists [], s. pose proof (mi_head _ I) as Hh. assert (Ht : tail_ (ring s) = zlen (taken_ s)) by (unfold base in Hb0; destruct (consumer_ s); lia).
    split_and!; [done|done|done|rewrite (mi_popped _ I), Ht; f_equal; by apply ztake_all|].
    apply map_empty. intros tid. destruct (producers s !! tid) as [p|] eqn:Ep; [|done]. destruct (mi_producers _ I tid p Ep) as [Hr _].
    unfold base in *. destruct (consumer_ s); lia.
  - destruct (Z.lt_ge_cases (tail_ (ring s)) (head_ (ring s))) as [Hlt|Hge]; [|apply IH; try done; lia].
    destruct (delivers_one s I Hlen Hl Hlt) as (a1 & s1 & Hi1 & E1 & [F1 F2 F3] & Hh & Ht). pose proof (mi_tail _ F3) as [G0 G1].
    destruct (IH s1) as (a2 & s' & Hi2 & E2 & Htk & Hp & Hpr); [done|congruence|congruence|lia|done|done|].
    exists (a1 ++ a2), s'. split_and!; [by rewrite forallb_app, Hi1|by rewrite mpsc_run_app, E1|congruence|congruence|done].
Qed.
End MpscRing.

(** ** Instances *)

Arguments state_new {Data}.
Arguments action : clear implicits.
Arguments State : clear implicits.

(** Thread 1 takes ticket 0 and pauses; thread 2 pushes; nothing can be popped yet. *)
Definition mpsc_demo : list (action Z) :=
  [APush 1 10; APush 2 20; AProducer 2; AProducer 2; AProducer 2; AConsumer; APush 2 30; AProducer 1; AProducer 2].
Definition mpsc_demo_state : State Z := default state_new (mpsc_run mpsc_demo state_new).

Lemma mpsc_demo_reached : mpsc_run mpsc_demo state_new = Some mpsc_demo_state.
Proof. by vm_compute. Qed.

Example mpsc_fifo_witness :
  popped_ mpsc_demo_state = Some <$> ztake (zlen (popped_ mpsc_demo_state)) [10; 20; 30] /\
  (forall tid1 tid2 p1 p2 i, producers mpsc_demo_state !! tid1 = Some p1 -> producers mpsc_demo_state !! tid2 = Some p2 ->
    producer_cell p1 = Some i -> producer_cell p2 = Some i -> tid1 = tid2) /\
  (forall tid p i, producers mpsc_demo_state !! tid = Some p -> producer_cell p = Some i -> consumer_cell mpsc_demo_state <> Some i).
Proof. apply (mpsc_fifo mpsc_demo mpsc_demo_state mpsc_demo_reached). by vm_compute. Defined.

Example mpsc_drains_witness :
  exists acts' s', forallb internal acts' = true /\ mpsc_run acts' mpsc_demo_state = Some s' /\ taken_ s' = taken_ mpsc_demo_state /\
    popped_ s' = Some <$> taken_ mpsc_demo_state /\ producers s' = ∅.
Proof. apply (mpsc_drains mpsc_demo mpsc_demo_state mpsc_demo_reached); by vm_compute. Defined.

(** The ring is full, a [try_push] fails, everything is popped, and another entry is pushed: it stays in the ring. *)
Definition push_now (d : Z) : list (action Z) := [APush 1 d; AProducer 1; AProducer 1; AProducer 1].
Definition full_then_try : list (action Z) := concat (replicate 1024 (push_now 7)) ++ [ATryPush 1 8; AProducer 1].
Definition lost_demo : State Z := default state_new (mpsc_run full_then_try state_new).
Definition pop_all : list (action Z) := concat (replicate 1030 [AConsumer; AConsumer; AConsumer; AConsumer]) ++ push_now 9 ++ replicate 8 AConsumer.

Example mpsc_lost_ticket_blocks_witness :
  zlen (popped_ (default state_new (mpsc_run pop_all lost_demo))) <= 1024.
Proof.
  apply (mpsc_lost_ticket_blocks full_then_try pop_all lost_demo); [by vm_compute| |by vm_compute|by vm_compute].
  assert (E : lost_ lost_demo = [1024]) by (by vm_compute). rewrite E. left.
Defined.
