(* ===== verification/LogFileSink.v ===== *)
(** [Fix::Log::LogFileSink] (include/fix/log/LogFileSink.hpp, src/LogFileSink.cpp, LogEntry.hpp,
    LogFile.hpp, error/utility.hpp): one JSON file per session, of which at most 128 are open.

    The file system is a map from paths to contents; which paths can be opened is a parameter.
    The elements of [lru_cache_] have identities, and a list iterator is the identity of its
    element, so that the use of an iterator whose element was erased is seen.  A reference to a
    [SinkNode] is its key in [sess_to_file_]. *)
From Stdlib Require Import Strings.Byte.
From stdpp Require Import gmap.
From S2P Require Import Prelude.
From S2P Require Import Text.
From S2P Require Import Validator.
From S2P Require Import Session.

(** ** Entries *)

Record Entry : Set := mk_entry { message : bytes; sess_id : SessionID; context : Context }.

Definition severity_text (sev : Severity) : bytes :=
  match sev with NA => B "NA" | Low => B "Low" | Moderate => B "Moderate" | High => B "High" | Fatal => B "Fatal" end.
Definition category_text (cat : Category) : bytes :=
  match cat with CDebug => B "Debug" | CInfo => B "Info" | CWarn => B "Warn" | CError => B "Error" end.
Definition layer_text (layer : Layer) : bytes :=
  match layer with LTransport => B "Transport" | LFix => B "Fix" | LApp => B "App" | LPeripheral => B "Peripheral" end.

(** The quotation mark and the line feed. *)
Definition QUOTE : byte := x22.
Definition LF : byte := x0a.
Definition quoted (s : bytes) : bytes := [QUOTE] ++ s ++ [QUOTE].

Definition to_json (e : Entry) : bytes :=
  B "{" ++ quoted (B "Category") ++ B ":" ++ quoted (category_text (ctx_category (context e))) ++ B ","
  ++ quoted (B "Layer") ++ B ":" ++ quoted (layer_text (ctx_layer (context e))) ++ B ","
  ++ quoted (B "Severity") ++ B ":" ++ quoted (severity_text (ctx_severity (context e))) ++ B ","
  ++ quoted (B "Message") ++ B ":" ++ quoted (message e) ++ B "}".

#[export] Instance byte_countable : Countable Byte.byte :=
  inj_countable Byte.to_N Byte.of_N Byte.of_to_N.

(** ** State *)

Record LogFile : Set := mk_file { path : bytes; is_open : bool }.
Record SinkNode : Set := mk_node { file : LogFile; lru_iterator : option Z; in_lru : bool; first_write : bool }.

Record LogFileSink : Type := mk_sink {
  lru_cache_ : list (Z * SessionID);
  next_element : Z;
  sess_to_file_ : gmap Z SinkNode;
  core_log_file_ : LogFile;
  engine_run_id_ : bytes;
  currently_open_files_ : Z;
  disk : gmap bytes bytes;
  cerr : list bytes
}.
Definition eta_sink (s : LogFileSink) : LogFileSink :=
  mk_sink (lru_cache_ s) (next_element s) (sess_to_file_ s) (core_log_file_ s) (engine_run_id_ s) (currently_open_files_ s) (disk s) (cerr s).
#[export] Hint Extern 1 (@Updater LogFileSink _ _) => derive_updater eta_sink : typeclass_instances.
Definition eta_node (n : SinkNode) : SinkNode := mk_node (file n) (lru_iterator n) (in_lru n) (first_write n).
#[export] Hint Extern 1 (@Updater SinkNode _ _) => derive_updater eta_node : typeclass_instances.

Definition MAX_LRU_CACHE_SIZE : Z := 128.

(** [std::filesystem::path::operator/=] on POSIX. *)
Definition SLASH : byte := x2f.
Definition with_separator (p : bytes) : bytes :=
  if bool_decide (p = []) || bool_decide (last p = Some SLASH) then p else p ++ [SLASH].
Definition path_append (p q : bytes) : bytes := if bool_decide (head q = Some SLASH) then q else with_separator p ++ q.
Definition make_path (parts : list bytes) : bytes := foldl path_append [] parts.

Definition set_node (k : Z) (n : SinkNode) (s : LogFileSink) : LogFileSink := s <| sess_to_file_ := <[k := n]> (sess_to_file_ s) |>.
Definition node_at (k : Z) (s : LogFileSink) : Res SinkNode :=
  match sess_to_file_ s !! k with Some n => Ok n | None => Err Thrown end.

(** [stream <<]: a stream that is not open takes nothing. *)
Definition stream_out (f : LogFile) (text : bytes) (s : LogFileSink) : LogFileSink :=
  if is_open f then s <| disk := <[path f := default [] (disk s !! path f) ++ text]> (disk s) |> else s.

Definition log_internal (entry : Entry) (s : LogFileSink) : LogFileSink :=
  if is_open (core_log_file_ s) then stream_out (core_log_file_ s) (to_json entry ++ [LF]) s
  else s <| cerr := cerr s ++ [B "Core log file is not open. Log entry: " ++ to_json entry] |>.

Definition peripheral_error : Context := mk_log_context LPeripheral CError High.

Section Sink.
(** Which files the file system lets the program open. *)
Context (can_open : bytes -> bool).

(** The stream of [f] is opened for appending; [assign] stores the file object. *)
Definition open_file (f : LogFile) (assign : LogFile -> LogFileSink -> LogFileSink) (s : LogFileSink) : LogFileSink :=
  if can_open (path f)
  then assign (mk_file (path f) true) (s <| disk := <[path f := default [] (disk s !! path f)]> (disk s) |>)
  else log_internal (mk_entry (B "Failed to open log file: " ++ path f) (mk_session_id 0 0) peripheral_error) (assign (mk_file (path f) false) s).

Definition log_file_sink_new (engine_run_id : bytes) (files : gmap bytes bytes) : LogFileSink :=
  let core := mk_file (make_path [B "logs"; engine_run_id; B "core_log.json"]) false in
  open_file core (fun f s => s <| core_log_file_ := f |>) (mk_sink [] 0 ∅ core engine_run_id 0 files []).

(** [splice(begin, lru_cache_, it)]; the element of [it] must be in the list. *)
Definition splice_front (it : option Z) (l : list (Z * SessionID)) : Res (list (Z * SessionID)) :=
  match it with
  | None => Err OutOfBounds
  | Some i =>
      match List.find (fun x => fst x =? i) l with
      | Some x => Ok (x :: List.filter (fun y => negb (fst y =? i)) l)
      | None => Err OutOfBounds
      end
  end.

Definition touch (sid : SessionID) (k : Z) (s : LogFileSink) : Res LogFileSink :=
  let! node := node_at k s in
  if negb (in_lru node) then
    let i := next_element s in
    let s := s <| lru_cache_ := (i, sid) :: lru_cache_ s |> <| next_element := i + 1 |> in
    Ok (set_node k (node <| lru_iterator := Some i |> <| in_lru := true |>) s)
  else
    let! l := splice_front (lru_iterator node) (lru_cache_ s) in
    Ok (s <| lru_cache_ := l |>).

(** [ensure_open], [evict_one] and [close_file] call each other; [ensure] is [ensure_open]. *)
Definition close_file_with (ensure : SessionID -> Z -> LogFileSink -> Res LogFileSink) (k : Z) (s : LogFileSink) : Res LogFileSink :=
  let! node := node_at k s in
  let! s := (if negb (first_write node) then
               let! s := ensure (mk_session_id 0 0) k s in
               let! node := node_at k s in
               Ok (stream_out (file node) ([LF] ++ B "]") s)
             else Ok s) in
  let! node := node_at k s in
  Ok (if is_open (file node) then set_node k (node <| file := mk_file (path (file node)) false |>) s else s).

Definition evict_one_with (ensure : SessionID -> Z -> LogFileSink -> Res LogFileSink) (s : LogFileSink) : Res LogFileSink :=
  if currently_open_files_ s =? 0 then Ok s
  else
    match last (lru_cache_ s) with
    | None => Err OutOfBounds
    | Some (_, victim_sid) =>
        let v := id victim_sid in
        let! _ := node_at v s in
        let! s := close_file_with ensure v s in
        let! node := node_at v s in
        let s := set_node v (node <| in_lru := false |>) s in
        Ok (s <| lru_cache_ := removelast (lru_cache_ s) |> <| currently_open_files_ := u64 (currently_open_files_ s - 1) |>)
    end.

Fixpoint ensure_open (fuel : nat) (sid : SessionID) (k : Z) (s : LogFileSink) : Res LogFileSink :=
  match fuel with
  | O => Err OutOfFuel
  | S fuel' =>
      let! node := node_at k s in
      if negb (is_open (file node)) then
        let! s := (if MAX_LRU_CACHE_SIZE <=? currently_open_files_ s then evict_one_with (ensure_open fuel') s else Ok s) in
        let! node := node_at k s in
        let s := open_file (file node) (fun f s => set_node k (node <| file := f |>) s) s in
        let! node := node_at k s in
        if negb (is_open (file node)) then Ok s
        else touch sid k (s <| currently_open_files_ := u64 (currently_open_files_ s + 1) |>)
      else touch sid k s
  end.

(** How deep evictions may nest. *)
Definition eviction_depth : nat := 8.
Definition close_file (k : Z) (s : LogFileSink) : Res LogFileSink := close_file_with (ensure_open eviction_depth) k s.
Definition evict_one (s : LogFileSink) : Res LogFileSink := evict_one_with (ensure_open eviction_depth) s.

(** [get_node] throws for a session that was not added. *)
Definition write (entry : Entry) (s : LogFileSink) : Res LogFileSink :=
  let k := id (sess_id entry) in
  let! _ := node_at k s in
  let! s := ensure_open (S eviction_depth) (sess_id entry) k s in
  let! node := node_at k s in
  if first_write node then
    let s := set_node k (node <| first_write := false |>) s in
    Ok (stream_out (file node) (B "[" ++ [LF] ++ to_json entry) s)
  else Ok (stream_out (file node) (B "," ++ [LF] ++ to_json entry) s).

Definition create_sink_node (readable_id : bytes) (s : LogFileSink) : SinkNode :=
  mk_node (mk_file (make_path [B "logs"; engine_run_id_ s; B "sessions"; readable_id ++ B ".json"]) false) None false true.

Definition added_entry (sid : SessionID) : Entry :=
  mk_entry (B "Added session to LogFileSink") sid (mk_log_context LPeripheral CInfo Low).

Definition add_session (sid : SessionID) (readable_id : bytes) (s : LogFileSink) : Res LogFileSink :=
  let node := create_sink_node readable_id s in
  let s := match sess_to_file_ s !! id sid with Some _ => s | None => set_node (id sid) node s end in
  write (added_entry sid) s.

(** The order in which an [unordered_map] is traversed is not specified: [order] is its keys in
    that order. *)
Fixpoint close_all (order : list Z) (s : LogFileSink) : Res LogFileSink :=
  match order with [] => Ok s | k :: order => let! s := close_file k s in close_all order s end.
Definition shutdown (order : list Z) (s : LogFileSink) : Res LogFileSink :=
  let! s := close_all order s in
  Ok (s <| sess_to_file_ := ∅ |> <| lru_cache_ := [] |> <| currently_open_files_ := 0 |>).

(** ** Programs *)

Inductive sink_op : Set := SAdd (sid : SessionID) (readable_id : bytes) | SWrite (entry : Entry).
Definition sink_step (op : sink_op) (s : LogFileSink) : Res LogFileSink :=
  match op with SAdd sid name => add_session sid name s | SWrite e => write e s end.
Fixpoint sink_run (ops : list sink_op) (s : LogFileSink) : Res LogFileSink :=
  match ops with [] => Ok s | op :: ops => let! s := sink_step op s in sink_run ops s end.
End Sink.

(** ** What a session's file holds *)

(** The entries so far, and the whole file: a JSON array. *)
Definition json_open (es : list Entry) : bytes :=
  match es with
  | [] => []
  | e :: es => B "[" ++ [LF] ++ to_json e ++ concat ((fun e => B "," ++ [LF] ++ to_json e) <$> es)
  end.
Definition json_array (es : list Entry) : bytes := json_open es ++ [LF] ++ B "]".

Lemma json_open_snoc es e : es <> [] -> json_open (es ++ [e]) = json_open es ++ B "," ++ [LF] ++ to_json e.
Proof.
  destruct es as [|e0 es]; [done|]. intros _. change ((e0 :: es) ++ [e]) with (e0 :: (es ++ [e])). unfold json_open. rewrite fmap_app, concat_app.
  change (concat ((fun e => B "," ++ [LF] ++ to_json e) <$> [e])) with ((B "," ++ [LF] ++ to_json e) ++ []). by rewrite app_nil_r, <- !app_assoc.
Qed.

Arguments to_json : simpl never.
Arguments json_open : simpl never.

(** ** Paths *)

Definition relative (q : bytes) : Prop := head q <> Some SLASH.
Definition session_path (run name : bytes) : bytes := make_path [B "logs"; run; B "sessions"; name ++ B ".json"].
Definition core_path (run : bytes) : bytes := make_path [B "logs"; run; B "core_log.json"].

Lemma path_append_relative p q : relative q -> path_append p q = with_separator p ++ q.
Proof. intros Hq. unfold path_append. by rewrite bool_decide_false. Qed.
Lemma relative_app n e : relative n -> relative e -> relative (n ++ e).
Proof. intros Hn He. destruct n as [|c n]; [exact He|exact Hn]. Qed.

(** The directory of an engine's files. *)
Definition run_directory (run : bytes) : bytes := with_separator (path_append (B "logs") run).

Lemma session_path_relative run name : relative name -> session_path run name = run_directory run ++ B "sessions/" ++ name ++ B ".json".
Proof.
  intros Hn. unfold session_path, make_path. cbn [foldl]. change (path_append [] (B "logs")) with (B "logs").
  rewrite (path_append_relative _ (B "sessions")), path_append_relative by (try apply relative_app; done). fold (run_directory run).
  unfold with_separator. rewrite last_app. change (last (B "sessions")) with (Some x73). rewrite !bool_decide_false; [|done|by destruct (run_directory run)].
  cbn [orb]. by rewrite <- !app_assoc.
Qed.
Lemma core_path_relative run : core_path run = run_directory run ++ B "core_log.json".
Proof.
  unfold core_path, make_path. cbn [foldl]. change (path_append [] (B "logs")) with (B "logs"). by rewrite path_append_relative.
Qed.

Lemma session_path_inj run n1 n2 : relative n1 -> relative n2 -> session_path run n1 = session_path run n2 -> n1 = n2.
Proof. intros H1 H2. rewrite !session_path_relative by done. intros E%app_inv_head%app_inv_head. by apply app_inv_tail in E. Qed.
Lemma session_path_core run name : relative name -> session_path run name <> core_path run.
Proof. intros Hn. rewrite session_path_relative, core_path_relative by done. by intros E%app_inv_head. Qed.

(** ** The invariant *)

(** [A]: the path and the entries of every session added; [files]: the disk at the start. *)
Record sink_inv (files : gmap bytes bytes) (run : bytes) (A : gmap Z (bytes * list Entry)) (s : LogFileSink) : Prop := {
  si_run : engine_run_id_ s = run;
  si_none : forall k, A !! k = None -> sess_to_file_ s !! k = None;
  si_some : forall k p es, A !! k = Some (p, es) -> es <> [] /\ exists i,
    sess_to_file_ s !! k = Some (mk_node (mk_file p true) (Some i) true false) /\ i ∈ (lru_cache_ s).*1 /\ disk s !! p = Some (json_open es);
  si_paths : forall k1 k2 p es1 es2, A !! k1 = Some (p, es1) -> A !! k2 = Some (p, es2) -> k1 = k2;
  si_names : forall k p es, A !! k = Some (p, es) -> exists name, relative name /\ p = session_path run name;
  si_count : currently_open_files_ s = Z.of_nat (size A) /\ Z.of_nat (size A) <= MAX_LRU_CACHE_SIZE;
  si_disk : forall p, p <> core_path run -> (forall k p' es, A !! k = Some (p', es) -> p' <> p) -> disk s !! p = files !! p
}.

Lemma splice_front_ok i l : i ∈ l.*1 -> exists l', splice_front (Some i) l = Ok l' /\ forall j, j ∈ l.*1 -> j ∈ l'.*1.
Proof.
  intros ([i' x] & -> & Hin)%list_elem_of_fmap. cbn [splice_front fst].
  destruct (List.find (fun y => y.1 =? i') l) as [y|] eqn:Ef.
  - apply List.find_some in Ef as [Hy Ey]. eexists. split; [done|]. apply Z.eqb_eq in Ey.
    intros j ([j' z] & -> & Hz)%list_elem_of_fmap. cbn. destruct (decide (j' = i')) as [->|Hne]; [rewrite <- Ey; left|right].
    apply list_elem_of_fmap. exists (j', z). split; [done|]. apply list_elem_of_In, List.filter_In. split; [by apply list_elem_of_In|].
    apply negb_true_iff, Z.eqb_neq. exact Hne.
  - exfalso. apply list_elem_of_In in Hin. apply (List.find_none _ _ Ef) in Hin. cbn in Hin. by rewrite Z.eqb_refl in Hin.
Qed.

Lemma node_at_Some k s n : sess_to_file_ s !! k = Some n -> node_at k s = Ok n.
Proof. intros E. unfold node_at. by rewrite E. Qed.

Lemma node_at_sink k n lru nx nodes core rid cnt dk ce : nodes !! k = Some n -> node_at k (mk_sink lru nx nodes core rid cnt dk ce) = Ok n.
Proof. intros E. unfold node_at. cbn [sess_to_file_]. by rewrite E. Qed.

Section SinkOk.
Context (can_open : bytes -> bool) (Hopen : forall p, can_open p = true).

(** An open file stays open; its session moves to the front. *)
Lemma ensure_open_open n sid k p i fw s : sess_to_file_ s !! k = Some (mk_node (mk_file p true) (Some i) true fw) -> i ∈ (lru_cache_ s).*1 ->
  exists l, ensure_open can_open (S n) sid k s = Ok (s <| lru_cache_ := l |>) /\ forall j, j ∈ (lru_cache_ s).*1 -> j ∈ l.*1.
Proof using.
  intros E Hi. destruct (splice_front_ok i _ Hi) as (l & El & Hl). exists l. split; [|done].
  cbn [ensure_open]. unfold touch, node_at. rewrite E. cbn [mbind res_bind negb is_open file in_lru lru_iterator].
  by rewrite El.
Qed.

Lemma write_known files run A s k p es e : sink_inv files run A s -> A !! k = Some (p, es) -> id (sess_id e) = k ->
  exists s', write can_open e s = Ok s' /\ sink_inv files run (<[k := (p, es ++ [e])]> A) s'.
Proof using.
  intros I EA Hk. destruct (si_some _ _ _ _ I k p es EA) as (Hne & i & En & Hi & Ed).
  unfold write. cbv zeta. rewrite Hk. rewrite (node_at_Some k s _ En), ok_bind.
  destruct (ensure_open_open eviction_depth (sess_id e) k p i false s En Hi) as (l & -> & Hl). rewrite ok_bind.
  set (s1 := s <| lru_cache_ := l |>). change (sess_to_file_ s) with (sess_to_file_ s1) in En. rewrite (node_at_Some k s1 _ En), ok_bind. cbn [first_write file].
  unfold stream_out. cbn [is_open path]. change (disk s1) with (disk s). rewrite Ed. cbn [default from_option].
  eexists. split; [reflexivity|].
  assert (Hsz : size (<[k := (p, es ++ [e])]> A) = size A) by (rewrite map_size_insert; by rewrite EA).
  assert (Hold : forall j q fs, <[k := (p, es ++ [e])]> A !! j = Some (q, fs) -> exists gs, A !! j = Some (q, gs)).
  { intros j q fs [[<- E]|[_ Ej]]%lookup_insert_Some; [injection E as <- _; by exists es|by exists fs]. }
  destruct I as [Ir In Is Ip Inm [Ic1 Ic2] Idk]. split; cbn.
  - done.
  - intros j. destruct (decide (k = j)) as [<-|]; [by rewrite lookup_insert_eq|rewrite lookup_insert_ne by done; apply In].
  - intros j q fs [[<- [= <- <-]]|[Hj Ej]]%lookup_insert_Some.
    + split; [by destruct es|]. exists i. split; [done|]. split; [by apply Hl|]. rewrite lookup_insert_eq, json_open_snoc by done. done.
    + destruct (Is j q fs Ej) as (Hf & i' & Ei & Hi' & Ed'). split; [done|]. exists i'. split; [done|]. split; [by apply Hl|].
      rewrite lookup_insert_ne; [done|]. intros ->. apply Hj. by eapply Ip.
  - intros j1 j2 q f1 f2 (g1 & G1)%Hold (g2 & G2)%Hold. by eapply Ip.
  - intros j q fs (g & G)%Hold. by eapply Inm.
  - by rewrite Hsz.
  - intros q Hq Hnot. rewrite lookup_insert_ne; [|exact (Hnot k p _ (lookup_insert_eq _ _ _))]. apply Idk; [done|].
    intros j q' fs Ej. destruct (decide (k = j)) as [<-|]; [rewrite EA in Ej; injection Ej as <- <-; exact (Hnot k p _ (lookup_insert_eq _ _ _))|].
    apply (Hnot j q' fs). by rewrite lookup_insert_ne.
Qed.

(** A closed file is opened; no other file has to be closed while there is room. *)
Lemma ensure_open_closed n sid k p it fw lru nx nodes core rid cnt dk ce : cnt < MAX_LRU_CACHE_SIZE ->
  nodes !! k = Some (mk_node (mk_file p false) it false fw) ->
  ensure_open can_open (S n) sid k (mk_sink lru nx nodes core rid cnt dk ce) =
  Ok (mk_sink ((nx, sid) :: lru) (nx + 1) (<[k := mk_node (mk_file p true) (Some nx) true fw]> nodes) core rid (u64 (cnt + 1))
        (<[p := default [] (dk !! p)]> dk) ce).
Proof using Hopen.
  intros Hc En. cbn [ensure_open]. rewrite (node_at_sink k _ _ _ _ _ _ _ _ _ En), ok_bind. cbn [file is_open negb currently_open_files_].
  rewrite (proj2 (Z.leb_gt _ _)), ok_bind by lia. rewrite (node_at_sink k _ _ _ _ _ _ _ _ _ En), ok_bind. unfold open_file. cbn [file path]. rewrite Hopen.
  set (s1 := set_node k _ _). assert (E1 : s1 = mk_sink lru nx (<[k := mk_node (mk_file p true) it false fw]> nodes) core rid cnt (<[p := default [] (dk !! p)]> dk) ce) by done.
  rewrite E1. clear s1 E1. erewrite node_at_sink by apply lookup_insert_eq; rewrite ok_bind. cbn [is_open file negb].
  change (upd currently_open_files_ _ _) with (mk_sink lru nx (<[k := mk_node (mk_file p true) it false fw]> nodes) core rid (u64 (cnt + 1)) (<[p := default [] (dk !! p)]> dk) ce).
  unfold touch. erewrite node_at_sink by apply lookup_insert_eq; rewrite ok_bind. cbn [in_lru negb].
  unfold set_node. cbn. by rewrite insert_insert_eq.
Qed.

(** The first write to a closed file. *)
Lemma write_first e k p it lru nx nodes core rid cnt dk ce : cnt < MAX_LRU_CACHE_SIZE -> id (sess_id e) = k ->
  nodes !! k = Some (mk_node (mk_file p false) it false true) -> dk !! p = None ->
  write can_open e (mk_sink lru nx nodes core rid cnt dk ce) =
  Ok (mk_sink ((nx, sess_id e) :: lru) (nx + 1) (<[k := mk_node (mk_file p true) (Some nx) true false]> nodes) core rid (u64 (cnt + 1))
        (<[p := json_open [e]]> dk) ce).
Proof using Hopen.
  intros Hc Hk En Ed. unfold write. cbv zeta. rewrite Hk, (node_at_sink k _ _ _ _ _ _ _ _ _ En), ok_bind.
  rewrite (ensure_open_closed eviction_depth (sess_id e) k p it true lru nx nodes core rid cnt dk ce Hc En), ok_bind, Ed. cbn [default from_option].
  erewrite node_at_sink by apply lookup_insert_eq; rewrite ok_bind. cbn [first_write file].
  unfold stream_out. cbn [is_open path]. set (s1 := set_node k _ _).
  assert (E1 : s1 = mk_sink ((nx, sess_id e) :: lru) (nx + 1) (<[k := mk_node (mk_file p true) (Some nx) true false]> nodes) core rid (u64 (cnt + 1)) (<[p := []]> dk) ce)
    by (unfold s1, set_node; cbn; by rewrite insert_insert_eq).
  rewrite E1. cbn [upd disk]. rewrite lookup_insert_eq, insert_insert_eq. cbn [default from_option]. unfold json_open.
  cbn [fmap list_fmap concat]. by rewrite app_nil_r.
Qed.

(** A new session: its file is opened and has the first entry. *)
Lemma add_new files run A s sid name : sink_inv files run A s -> A !! id sid = None -> Z.of_nat (size A) < MAX_LRU_CACHE_SIZE -> relative name ->
  (forall k p es, A !! k = Some (p, es) -> p <> session_path run name) -> files !! session_path run name = None ->
  exists s', add_session can_open sid name s = Ok s' /\ sink_inv files run (<[id sid := (session_path run name, [added_entry sid])]> A) s'.
Proof using Hopen.
  intros I EA Hsz Hrel Hnew Hfile. set (k := id sid) in *. set (p := session_path run name) in *.
  assert (Hcore : p <> core_path run) by (by apply session_path_core).
  assert (Hdisk : disk s !! p = None) by (rewrite (si_disk _ _ _ _ I p Hcore); [done|]; intros j q fs Ej; by eapply Hnew).
  assert (Hsize : size (<[k := (p, [added_entry sid])]> A) = S (size A)) by (by apply map_size_insert_None).
  assert (Ecn : create_sink_node name s = mk_node (mk_file p false) None false true) by (unfold create_sink_node; by rewrite (si_run _ _ _ _ I)).
  assert (Ep : p = session_path run name) by done. clearbody p. pose proof (si_none _ _ _ _ I k EA) as Hk. destruct I as [Ir In Is Ip Inm [Ic1 Ic2] Idk].
  destruct s as [lru nx nodes core rid cnt dk ce]. cbn in Ir, In, Is, Ic1, Idk, Hk, Hdisk. subst rid cnt.
  unfold add_session. rewrite Ecn. cbn [sess_to_file_]. fold k. rewrite Hk.
  change (set_node k (mk_node (mk_file p false) None false true) (mk_sink lru nx nodes core run (Z.of_nat (size A)) dk ce))
    with (mk_sink lru nx (<[k := mk_node (mk_file p false) None false true]> nodes) core run (Z.of_nat (size A)) dk ce).
  rewrite (write_first (added_entry sid) k p None lru nx _ core run (Z.of_nat (size A)) dk ce Hsz eq_refl (lookup_insert_eq _ _ _) Hdisk).
  rewrite insert_insert_eq. eexists. split; [reflexivity|].
  split; cbn.
  - done.
  - intros j. destruct (decide (k = j)) as [<-|]; [by rewrite lookup_insert_eq|rewrite !lookup_insert_ne by done; apply In].
  - intros j q fs [[<- [= <- <-]]|[Hj Ej]]%lookup_insert_Some.
    + split; [done|]. exists nx. rewrite !lookup_insert_eq. split_and!; [done|left|done].
    + destruct (Is j q fs Ej) as (Hf & i & Ei & Hi & Ed). split; [done|]. exists i. rewrite lookup_insert_ne by done. split_and!; [done|by right|].
      rewrite lookup_insert_ne; [done|]. intros E. by apply (Hnew j q fs Ej).
  - intros j1 j2 q f1 f2 [[<- E1]|[H1 E1]]%lookup_insert_Some [[<- E2]|[H2 E2]]%lookup_insert_Some; [done| | |by eapply Ip].
    + injection E1 as <- <-. by destruct (Hnew _ _ _ E2).
    + injection E2 as <- <-. by destruct (Hnew _ _ _ E1).
  - intros j q fs [[<- E]|[_ Ej]]%lookup_insert_Some; [injection E as <- _; by exists name|by eapply Inm].
  - rewrite Hsize. unfold MAX_LRU_CACHE_SIZE in *. rewrite u64_small by lia. lia.
  - intros q Hq Hnot. rewrite lookup_insert_ne; [|exact (Hnot k p _ (lookup_insert_eq _ _ _))]. apply Idk; [done|].
    intros j q' fs Ej. apply (Hnot j q' fs). rewrite lookup_insert_ne; [done|]. intros <-. congruence.
Qed.

(** ** Programs *)

(** [known]: the identifiers and names of the sessions added so far.  Sessions have different
    names, none of them an absolute path; there are at most 128; and only added sessions are
    written to. *)
Fixpoint program_ok (known : list (Z * bytes)) (ops : list sink_op) : Prop :=
  match ops with
  | [] => True
  | SAdd sid name :: ops => (id sid ∉ known.*1) /\ (name ∉ known.*2) /\ relative name /\ zlen known < MAX_LRU_CACHE_SIZE /\
                            program_ok ((id sid, name) :: known) ops
  | SWrite e :: ops => (id (sess_id e) ∈ known.*1) /\ program_ok known ops
  end.

Definition op_entry (op : sink_op) : Entry := match op with SAdd sid _ => added_entry sid | SWrite e => e end.
(** What was logged for session [k]. *)
Definition entries (k : Z) (ops : list sink_op) : list Entry := List.filter (fun e => id (sess_id e) =? k) (op_entry <$> ops).

(** The sessions that are added, the last one first. *)
Fixpoint added (ops : list sink_op) : list (Z * bytes) :=
  match ops with [] => [] | SAdd sid name :: ops => added ops ++ [(id sid, name)] | SWrite _ :: ops => added ops end.

Record sink_knows (run : bytes) (known : list (Z * bytes)) (past : list sink_op) (A : gmap Z (bytes * list Entry)) : Prop := {
  sk_in : forall k name, (k, name) ∈ known -> A !! k = Some (session_path run name, entries k past);
  sk_out : forall k, k ∉ known.*1 -> A !! k = None /\ entries k past = [];
  sk_relative : forall k name, (k, name) ∈ known -> relative name;
  sk_size : Z.of_nat (size A) = zlen known
}.

Lemma entries_app k ops1 ops2 : entries k (ops1 ++ ops2) = entries k ops1 ++ entries k ops2.
Proof using. unfold entries. by rewrite fmap_app, List.filter_app. Qed.
Lemma entries_one k op : entries k [op] = if id (sess_id (op_entry op)) =? k then [op_entry op] else [].
Proof using. done. Qed.

Lemma sk_lookup run known past A k p es : sink_knows run known past A -> A !! k = Some (p, es) ->
  exists name, (k, name) ∈ known /\ p = session_path run name /\ es = entries k past.
Proof using.
  intros [Kin Kout _ _] E. destruct (decide (k ∈ known.*1)) as [([k' name] & -> & Hin)%list_elem_of_fmap|Hn].
  - cbn in E. rewrite (Kin k' name Hin) in E. injection E as <- <-. by exists name.
  - destruct (Kout k Hn). congruence.
Qed.

Lemma knows_add run known past A sid name : sink_knows run known past A -> id sid ∉ known.*1 -> relative name ->
  sink_knows run ((id sid, name) :: known) (past ++ [SAdd sid name]) (<[id sid := (session_path run name, [added_entry sid])]> A).
Proof using.
  intros [Kin Kout Krel Ksz] Hid Hrel. destruct (Kout _ Hid) as [EA Ee]. split.
  - intros k n [[= -> ->]|Hin]%elem_of_cons; rewrite entries_app, entries_one; cbn [op_entry sess_id added_entry].
    + by rewrite lookup_insert_eq, Ee, Z.eqb_refl.
    + pose proof (Kin k n Hin) as Ek. assert (Hne : id sid <> k) by (intros <-; congruence).
      rewrite lookup_insert_ne, Ek by done. rewrite (proj2 (Z.eqb_neq _ _)) by done. by rewrite app_nil_r.
  - intros k. rewrite fmap_cons. intros [Hne Hk]%not_elem_of_cons. destruct (Kout k Hk) as [EAk Ek].
    rewrite lookup_insert_ne by done. split; [done|]. rewrite entries_app, Ek, entries_one. cbn in *. by rewrite (proj2 (Z.eqb_neq _ _)).
  - intros k n [[= -> ->]|Hin]%elem_of_cons; [done|by eapply Krel].
  - rewrite map_size_insert_None by done. rewrite zlen_cons. lia.
Qed.

Lemma knows_write run known past A e p es : sink_knows run known past A -> A !! id (sess_id e) = Some (p, es) ->
  sink_knows run known (past ++ [SWrite e]) (<[id (sess_id e) := (p, es ++ [e])]> A).
Proof using.
  intros K EA. destruct (sk_lookup _ _ _ _ _ _ _ K EA) as (name & Hin & -> & ->). destruct K as [Kin Kout Krel Ksz]. split; [| |done|].
  - intros k n Hk. rewrite entries_app, entries_one. cbn [op_entry]. destruct (Z.eqb_spec (id (sess_id e)) k) as [<-|].
    + rewrite lookup_insert_eq. pose proof (Kin _ n Hk) as E. rewrite EA in E. by injection E as <-.
    + rewrite lookup_insert_ne, app_nil_r by done. by apply Kin.
  - intros k Hk. assert (Hne : id (sess_id e) <> k) by (intros <-; apply Hk, list_elem_of_fmap; by exists (id (sess_id e), name)).
    destruct (Kout k Hk) as [EAk Ek]. rewrite lookup_insert_ne, entries_app, Ek, entries_one by done. split; [done|]. cbn [op_entry].
    by rewrite (proj2 (Z.eqb_neq _ _)).
  - by rewrite map_size_insert, EA.
Qed.

Lemma sink_step_ok files run known past A s op ops : sink_inv files run A s -> sink_knows run known past A -> program_ok known (op :: ops) ->
  (forall name, relative name -> files !! session_path run name = None) ->
  exists s' A', sink_step can_open op s = Ok s' /\ sink_inv files run A' s' /\ sink_knows run (added [op] ++ known) (past ++ [op]) A' /\
    program_ok (added [op] ++ known) ops.
Proof using Hopen.
  intros I K Hok Hf. destruct op as [sid name|e]; cbn [program_ok sink_step added app] in *.
  - destruct Hok as (Hid & Hname & Hrel & Hn & Hok). destruct (sk_out _ _ _ _ K _ Hid) as [EA _]. pose proof (sk_size _ _ _ _ K) as Hsz.
    destruct (add_new files run A s sid name I EA ltac:(lia) Hrel) as (s' & Es & I'); [|by apply Hf|].
    { intros k p es Ek. destruct (sk_lookup _ _ _ _ _ _ _ K Ek) as (name' & Hin & -> & _). intros E.
      apply session_path_inj in E as ->; [|by eapply (sk_relative _ _ _ _ K)|done]. apply Hname, list_elem_of_fmap. by exists (k, name). }
    eexists s', _. split_and!; [exact Es|exact I'|by apply knows_add|exact Hok].
  - destruct Hok as [Hid Hok]. pose proof Hid as ([k name] & Ek & Hin)%list_elem_of_fmap. cbn in Ek.
    pose proof (sk_in _ _ _ _ K k name Hin) as EA. rewrite <- Ek in EA.
    destruct (write_known files run A s _ _ _ e I EA eq_refl) as (s' & Es & I').
    eexists s', _. split_and!; [exact Es|exact I'|by apply knows_write|exact Hok].
Qed.

Lemma added_cons op ops : added (op :: ops) = added ops ++ added [op].
Proof using. destruct op; cbn [added]; [done|by rewrite app_nil_r]. Qed.

Lemma sink_run_ok files run ops known past A s : sink_inv files run A s -> sink_knows run known past A -> program_ok known ops ->
  (forall name, relative name -> files !! session_path run name = None) ->
  exists s' A', sink_run can_open ops s = Ok s' /\ sink_inv files run A' s' /\ sink_knows run (added ops ++ known) (past ++ ops) A'.
Proof using Hopen.
  revert known past A s. induction ops as [|op ops IH]; intros known past A s I K Hok Hf.
  - exists s, A. by rewrite app_nil_r.
  - destruct (sink_step_ok files run known past A s op ops I K Hok Hf) as (s1 & A1 & E1 & I1 & K1 & Hok1).
    destruct (IH _ _ A1 s1 I1 K1 Hok1 Hf) as (s' & A' & Er & I' & K'). exists s', A'. cbn [sink_run]. rewrite E1, ok_bind.
    split_and!; [exact Er|exact I'|]. rewrite added_cons, <- app_assoc.
    by replace (past ++ op :: ops) with ((past ++ [op]) ++ ops) by (by rewrite <- app_assoc).
Qed.
(** A file that was written to gets the closing bracket and is closed. *)
Lemma close_open_ok s k p i es : sess_to_file_ s !! k = Some (mk_node (mk_file p true) (Some i) true false) -> i ∈ (lru_cache_ s).*1 ->
  disk s !! p = Some (json_open es) -> exists s', close_file can_open k s = Ok s' /\
    sess_to_file_ s' = <[k := mk_node (mk_file p false) (Some i) true false]> (sess_to_file_ s) /\
    (forall j, j ∈ (lru_cache_ s).*1 -> j ∈ (lru_cache_ s').*1) /\ disk s' = <[p := json_array es]> (disk s).
Proof using.
  intros E Hi Ed. destruct (ensure_open_open 7 (mk_session_id 0 0) k p i false s E Hi) as (l & El & Hl).
  unfold close_file, close_file_with. rewrite (node_at_Some k s _ E), ok_bind. cbn [negb first_write].
  change eviction_depth with 8%nat. rewrite El, ok_bind.
  set (s1 := s <| lru_cache_ := l |>). change (sess_to_file_ s) with (sess_to_file_ s1) in E. rewrite (node_at_Some k s1 _ E), ok_bind. cbn [file].
  unfold stream_out. cbn [is_open path]. change (disk s1) with (disk s). rewrite Ed. cbn [default from_option].
  set (s2 := s1 <| disk := _ |>). rewrite ok_bind. change (sess_to_file_ s1) with (sess_to_file_ s2) in E.
  rewrite (node_at_Some k s2 _ E), ok_bind. cbn [file is_open path]. eexists. split; [reflexivity|]. by split_and!.
Qed.

Lemma close_all_ok order s (A : gmap Z (bytes * list Entry)) : NoDup order ->
  (forall k1 k2 p es1 es2, A !! k1 = Some (p, es1) -> A !! k2 = Some (p, es2) -> k1 = k2) ->
  (forall k, k ∈ order -> exists p es i, A !! k = Some (p, es) /\
    sess_to_file_ s !! k = Some (mk_node (mk_file p true) (Some i) true false) /\ i ∈ (lru_cache_ s).*1 /\ disk s !! p = Some (json_open es)) ->
  exists s', close_all can_open order s = Ok s' /\
    forall k p es, A !! k = Some (p, es) -> disk s' !! p = if bool_decide (k ∈ order) then Some (json_array es) else disk s !! p.
Proof using.
  revert s. induction order as [|k order IH]; intros s Hnd HA H; [by exists s|].
  apply NoDup_cons in Hnd as [Hk Hnd].
  destruct (H k ltac:(left)) as (p & es & i & EA & En & Hi & Ed).
  destruct (close_open_ok s k p i es En Hi Ed) as (s1 & E1 & En1 & Hl1 & Ed1).
  destruct (IH s1 Hnd HA) as (s' & Es & Hs').
  { intros j Hj. destruct (H j ltac:(by right)) as (q & fs & i' & EAj & Enj & Hi' & Edj). assert (Hjk : k <> j) by congruence.
    exists q, fs, i'. rewrite En1, Ed1, !lookup_insert_ne; [by split_and!; [| |apply Hl1|]| |done]. intros <-. by eapply Hjk, HA. }
  exists s'. cbn [close_all]. rewrite E1, ok_bind. split; [exact Es|]. intros j q fs Ej. rewrite (Hs' j q fs Ej), Ed1.
  destruct (decide (j = k)) as [->|Hjk].
  - rewrite EA in Ej. injection Ej as <- <-. rewrite bool_decide_false by done. rewrite bool_decide_true by left. by rewrite lookup_insert_eq.
  - rewrite (bool_decide_ext (j ∈ k :: order) (j ∈ order)); [|rewrite elem_of_cons; naive_solver].
    rewrite lookup_insert_ne; [done|]. intros <-. by eapply Hjk, HA.
Qed.

Lemma log_file_sink_new_ok files run : sink_inv files run ∅ (log_file_sink_new can_open run files).
Proof using Hopen.
  unfold log_file_sink_new, open_file. cbn [path]. rewrite Hopen. split; cbn; try done.
  intros p Hp _. by rewrite lookup_insert_ne.
Qed.

Lemma sink_reaches files run ops : program_ok [] ops -> (forall name, relative name -> files !! session_path run name = None) ->
  exists s A, sink_run can_open ops (log_file_sink_new can_open run files) = Ok s /\ sink_inv files run A s /\ sink_knows run (added ops) ops A.
Proof using Hopen.
  intros Hok Hf. assert (K0 : sink_knows run [] [] ∅) by (split; [by intros ? ? ?%not_elem_of_nil|done|by intros ? ? ?%not_elem_of_nil|done]).
  destruct (sink_run_ok files run ops [] [] ∅ _ (log_file_sink_new_ok files run) K0 Hok Hf) as (s & A & Er & I & K).
  rewrite app_nil_r in K. by exists s, A.
Qed.

(** What is on the disk before and after [shutdown]. *)
Lemma sink_files files run known past A s k name : sink_inv files run A s -> sink_knows run known past A -> (k, name) ∈ known ->
  disk s !! session_path run name = Some (json_open (entries k past)).
Proof using. intros I K Hin. by destruct (si_some _ _ _ _ I _ _ _ (sk_in _ _ _ _ K k name Hin)) as (_ & i & _ & _ & Ed). Qed.

Lemma shutdown_ok files run known past A s order : sink_inv files run A s -> sink_knows run known past A -> NoDup order ->
  (forall k, k ∈ order <-> k ∈ known.*1) ->
  exists s', shutdown can_open order s = Ok s' /\
    forall k name, (k, name) ∈ known -> disk s' !! session_path run name = Some (json_array (entries k past)).
Proof using.
  intros I K Hnd Hord. destruct (close_all_ok order s A Hnd (si_paths _ _ _ _ I)) as (s1 & Ec & Hd).
  { intros k Hk. apply Hord, list_elem_of_fmap in Hk as ([k' name] & -> & Hin). pose proof (sk_in _ _ _ _ K k' name Hin) as EA. cbn.
    destruct (si_some _ _ _ _ I _ _ _ EA) as (_ & i & En & Hi & Ed). by eexists _, _, i. }
  eexists. split; [unfold shutdown; by rewrite Ec, ok_bind|].
  intros k name Hin. etransitivity; [exact (Hd k _ _ (sk_in _ _ _ _ K k name Hin))|]. rewrite bool_decide_true; [done|].
  apply Hord, list_elem_of_fmap. by exists (k, name).
Qed.

(** The nodes are those of the sessions that were added. *)
Lemma sink_nodes files run known past A s k : sink_inv files run A s -> sink_knows run known past A -> is_Some (sess_to_file_ s !! k) <-> k ∈ known.*1.
Proof using.
  intros I K. destruct (decide (k ∈ known.*1)) as [Hk|Hk].
  - split; [done|]. intros _. apply list_elem_of_fmap in Hk as ([k' name] & -> & Hin).
    destruct (si_some _ _ _ _ I _ _ _ (sk_in _ _ _ _ K k' name Hin)) as (_ & i & En & _). cbn. rewrite En. by eexists.
  - split; [|done]. rewrite (si_none _ _ _ _ I k) by apply (sk_out _ _ _ _ K k Hk). by intros [].
Qed.

Lemma sink_run_app ops1 ops2 s : sink_run can_open (ops1 ++ ops2) s = (let! s := sink_run can_open ops1 s in sink_run can_open ops2 s).
Proof using. revert s. induction ops1 as [|op ops1 IH]; intros s; [done|]. cbn. destruct (sink_step can_open op s); [apply IH|done]. Qed.
Lemma program_ok_app known ops1 ops2 : program_ok known (ops1 ++ ops2) -> program_ok known ops1.
Proof using.
  revert known. induction ops1 as [|op ops1 IH]; intros known; [done|]. destruct op; cbn; [|intros [? ?%IH]; by split].
  intros (? & ? & ? & ? & ?%IH). by split_and!.
Qed.

(** As long as files can be opened and at most 128 sessions are added, under different names
    and identifiers, nothing logged is lost or mixed up: whatever the order of the writes, no
    operation fails, and after [shutdown], in whatever order it closes the files, the file of each
    session is one JSON array of exactly the entries logged for that session, in their order,
    the entry of [add_session] first. *)
Lemma log_files_exact files run ops order : program_ok [] ops -> (forall name, relative name -> files !! session_path run name = None) ->
  NoDup order -> (forall k, k ∈ order <-> k ∈ (added ops).*1) ->
  exists s s', sink_run can_open ops (log_file_sink_new can_open run files) = Ok s /\ shutdown can_open order s = Ok s' /\
    forall k name, (k, name) ∈ added ops -> disk s' !! session_path run name = Some (json_array (entries k ops)).
Proof using Hopen.
  intros Hok Hf Hnd Hord. destruct (sink_reaches files run ops Hok Hf) as (s & A & Er & I & K).
  destruct (shutdown_ok files run (added ops) ops A s order I K Hnd Hord) as (s' & Es & Hd). by exists s, s'.
Qed.
End SinkOk.

(** ** Two sessions, interleaved, closed in the order of the hash table *)

Definition demo_entry (k : Z) (text : bytes) : Entry := mk_entry text (mk_session_id (u64 (k - 1)) k) (mk_log_context LFix CInfo Low).
Definition demo_log : list sink_op :=
  [SAdd (mk_session_id 0 1) (B "A-B"); SAdd (mk_session_id 1 2) (B "C-D"); SWrite (demo_entry 2 (B "up")); SWrite (demo_entry 1 (B "up"));
   SWrite (demo_entry 2 (B "down"))].

Lemma log_files_exact_witness :
  (forall name, relative name -> (∅ : gmap bytes bytes) !! session_path (B "run") name = None) /\
  exists s s', sink_run (fun _ => true) demo_log (log_file_sink_new (fun _ => true) (B "run") ∅) = Ok s /\ shutdown (fun _ => true) [2; 1] s = Ok s' /\
    disk s' !! session_path (B "run") (B "C-D") = Some (json_array [added_entry (mk_session_id 1 2); demo_entry 2 (B "up"); demo_entry 2 (B "down")]).
Proof.
  split; [done|].
  destruct (log_files_exact (fun _ => true) (fun _ => eq_refl) ∅ (B "run") demo_log [2; 1]) as (s & s' & E1 & E2 & E3).
  - vm_compute. split_and!; try done; by (intros H; repeat (apply elem_of_cons in H as [H|H]; [discriminate|]); by apply not_elem_of_nil in H) || by repeat (left || right).
  - done.
  - by apply (bool_decide_unpack _); vm_compute.
  - intros k. split; intros H; repeat (apply elem_of_cons in H as [->|H]); try (by apply not_elem_of_nil in H); by repeat (left || right).
  - exists s, s'. split_and!; [exact E1|exact E2|]. exact (E3 2 (B "C-D") ltac:(left)).
Defined.

(** ** One session too many

    [close_file] writes the bracket through [ensure_open], whose [touch] moves the victim to the
    front of [lru_cache_] before [evict_one] pops the back: the element that goes is the one of
    another session, whose node still holds its iterator. *)
Definition nth_session (n : nat) : sink_op :=
  SAdd (mk_session_id (Z.of_nat n - 1) (Z.of_nat n)) (B "S" ++ replicate n x78).
Definition full_log : list sink_op := nth_session <$> seq 1 129.

Lemma eviction_invalidates_iterator : exists s, sink_run (fun _ => true) full_log (log_file_sink_new (fun _ => true) (B "run") ∅) = Ok s /\
  head (lru_cache_ s) = Some (128, mk_session_id 128 129) /\ List.existsb (fun x => x.1 =? 1) (lru_cache_ s) = false /\
  (lru_iterator <$> sess_to_file_ s !! 2) = Some (Some 1) /\ write (fun _ => true) (demo_entry 2 (B "up")) s = Err OutOfBounds.
Proof. apply ok_such. vm_compute. by split_and!. Qed.
