(* ===== verification/ConnectionFactory.v ===== *)
(** [Fix::AsioConnectionFactory] (src/AsioConnectionFactory.cpp): how connections are made.

    [ResolveConnectOP] resolves a host and connects, [ListenOP] opens an acceptor and accepts one
    connection; both try again after a delay when an error is transient.  An operation is driven by
    the completions of what it asked of Boost.Asio: its state has the completion it waits for,
    and [actions] lists what it asked for and the calls of its handler [cb], in order.

    Sockets are numbered.  The outcome of every system call and of every asynchronous operation is
    a function of the number of the attempt. *)
From Stdlib Require Import Strings.Byte.
From S2P Require Import Prelude.
From S2P Require Import Text.
From S2P Require Import Network.
From S2P Require Import Session.
From S2P Require Import SessionManager.

(** ** Delays *)

(** [a / b] rounded to the nearest integer, to the even one of two. *)
Definition round_even (a b : Z) : Z :=
  let q := a / b in let r := a mod b in
  if 2 * r <? b then q else if b <? 2 * r then q + 1 else if Z.even q then q else q + 1.

(** [0.5 + 0.5 * uni(rng)] in units of [2^-53], the last place of a double from 1/2 to 1; [draw]
    is [uni(rng)] in units of [2^-64]. *)
Definition jitter (draw : Z) : Z := round_even (2 ^ 64 + draw) (2 ^ 12).

(** [static_cast<int>(raw * j)]: the product is a double, of 53 binary digits. *)
Definition scaled (raw j : Z) : Z :=
  let m := raw * j in
  let unit := 2 ^ Z.max 0 (Z.log2 m - 52) in
  (round_even m unit * unit) / 2 ^ 53.

Lemma round_even_between a b lo hi : 0 < b -> lo * b <= a <= hi * b -> lo <= round_even a b <= hi.
Proof.
  intros Hb Ha. unfold round_even. pose proof (Z.div_mod a b ltac:(lia)) as E. pose proof (Z.mod_pos_bound a b Hb) as Hr.
  set (q := a / b) in *. set (r := a mod b) in *. assert (lo <= q) by nia. assert (q <= hi) by nia.
  assert (0 < r -> q + 1 <= hi) by nia. repeat case_match; lia.
Qed.

Lemma jitter_range draw : 0 <= draw < 2 ^ 64 -> 2 ^ 52 <= jitter draw <= 2 ^ 53.
Proof. intros H. apply round_even_between; lia. Qed.

(** At least half of the delay and at most all of it. *)
Lemma scaled_range raw j : 0 < raw < 2 ^ 31 -> 2 ^ 52 <= j <= 2 ^ 53 -> raw / 2 <= scaled raw j <= raw.
Proof.
  intros Hraw Hj. unfold scaled. set (m := raw * j). assert (Hm : raw * 2 ^ 52 <= m <= raw * 2 ^ 53) by nia.
  set (e := Z.max 0 (Z.log2 m - 52)).
  assert (He : 0 <= e <= 52).
  { assert (Hl : Z.log2 m < 84) by (apply Z.log2_lt_pow2; lia). lia. }
  assert (Hp : 0 < 2 ^ e) by (apply Z.pow_pos_nonneg; lia).
  assert (E52 : 2 ^ 52 = 2 ^ (52 - e) * 2 ^ e) by (rewrite <- Z.pow_add_r by lia; f_equal; lia).
  destruct (round_even_between m (2 ^ e) (raw * 2 ^ (52 - e)) (2 * raw * 2 ^ (52 - e)) Hp) as [H1 H2]; [nia|].
  set (r := round_even m (2 ^ e)) in *. assert (H3 : raw * 2 ^ 52 <= r * 2 ^ e <= raw * 2 ^ 53) by nia.
  split; [apply Z.div_le_lower_bound; [lia|]|apply Z.div_le_upper_bound; lia].
  pose proof (Z.div_mod raw 2 ltac:(lia)). pose proof (Z.mod_pos_bound raw 2 ltac:(lia)). lia.
Qed.

(** ** Actions *)

Section Factory.
Context {Endpoint : Type}.

Inductive Action : Type :=
  | AResolve (host service : bytes)
  | AConnect (socket : Z) (results : list Endpoint)
  | ASocketClose (socket : Z)
  | AListen (endpoint : Endpoint) (backlog : Z)
  | AAccept
  | ABackoff (delay : Z)
  | ACallback (ec : error_code) (conn : option Z).

(** What an operation waits for. *)
Inductive Pending : Set := PResolve | PConnect | PBackoff | PAccept.

(** ** [ResolveConnectOP] *)

Record ResolveConnectOP : Type := mk_op {
  host : bytes;
  service : bytes;
  socket : option Z;
  next_socket : Z;
  attempt : Z;
  pending : option Pending;
  actions : list Action
}.
Definition eta_op (op : ResolveConnectOP) : ResolveConnectOP :=
  mk_op (host op) (service op) (socket op) (next_socket op) (attempt op) (pending op) (actions op).
#[local] Hint Extern 1 (@Updater ResolveConnectOP _ _) => derive_updater eta_op : typeclass_instances.

Definition max_attempts : Z := 8.
Definition base_delay : Z := 200.
Definition max_delay : Z := 3000.

Definition op_new (h s : bytes) : ResolveConnectOP := mk_op h s (Some 0) 1 0 None [].

(** An asynchronous operation is started: [act], whose completion is [p]. *)
Definition begin (p : Pending) (act : Action) (op : ResolveConnectOP) : ResolveConnectOP :=
  op <| pending := Some p |> <| actions := actions op ++ [act] |>.
Definition op_call (act : Action) (op : ResolveConnectOP) : ResolveConnectOP := op <| actions := actions op ++ [act] |>.

(** [base_delay * (1u << min(attempt, 12))], at most [max_delay]. *)
Definition raw_backoff (attempt : Z) : Z :=
  let raw := base_delay * u32 (Z.shiftl 1 (Z.min attempt 12)) in if max_delay <? raw then max_delay else raw.
Definition next_backoff (draw : Z) (op : ResolveConnectOP) : Z := scaled (raw_backoff (attempt op)) (jitter draw).

(** The function that is called after the delay is [do_resolve] in every call. *)
Definition schedule_retry (draw : Z) (op : ResolveConnectOP) : ResolveConnectOP :=
  let op := op <| attempt := attempt op + 1 |> in
  if max_attempts <? attempt op then op_call (ACallback timed_out None) op
  else begin PBackoff (ABackoff (next_backoff draw op)) op.

Definition do_resolve (op : ResolveConnectOP) : ResolveConnectOP := begin PResolve (AResolve (host op) (service op)) op.

Definition do_connect (results : list Endpoint) (op : ResolveConnectOP) : ResolveConnectOP :=
  begin PConnect (AConnect (default 0 (socket op)) results) op.

Definition resolve_handler (draw : Z) (ec : error_code) (results : list Endpoint) (op : ResolveConnectOP) : ResolveConnectOP :=
  if negb (bool_decide (ec = success)) then
    if bool_decide (ec = host_not_found_try_again) then schedule_retry draw op else op_call (ACallback ec None) op
  else match results with
       | [] => op_call (ACallback host_not_found None) op
       | _ => do_connect results op
       end.

(** The socket is closed and replaced by a new one. *)
Definition fresh_socket (op : ResolveConnectOP) : ResolveConnectOP :=
  op_call (ASocketClose (default 0 (socket op))) op <| socket := Some (next_socket op) |> <| next_socket := next_socket op + 1 |>.

Definition connect_handler (draw : Z) (ec : error_code) (op : ResolveConnectOP) : ResolveConnectOP :=
  if negb (bool_decide (ec = success)) then
    match classify_connect_error ec with
    | Transient => schedule_retry draw (fresh_socket op)
    | _ => op_call (ACallback ec None) op
    end
  else op_call (ACallback success (socket op)) op <| socket := None |>.

Definition backoff_handler (ec : error_code) (op : ResolveConnectOP) : ResolveConnectOP :=
  if bool_decide (ec = success) then do_resolve op else op.

(** [AsioConnectionFactory::async_connect]. *)
Definition async_connect (cfg : ConnectionConfig) : ResolveConnectOP := do_resolve (op_new (ip cfg) (to_dec (port cfg))).

(** *** Runs *)

(** What the network answers to attempt [i], counted from 0, and the draws of the generator. *)
Record World : Type := mk_world { w_resolve : Z -> error_code * list Endpoint; w_connect : Z -> error_code; w_draw : Z -> Z }.

(** The completion that the operation waits for; the timer is never cancelled. *)
Definition complete (w : World) (op : ResolveConnectOP) : ResolveConnectOP :=
  let i := attempt op in
  let idle := op <| pending := None |> in
  match pending op with
  | Some PResolve => let '(ec, results) := w_resolve w i in resolve_handler (w_draw w i) ec results idle
  | Some PConnect => connect_handler (w_draw w i) (w_connect w i) idle
  | Some PBackoff => backoff_handler success idle
  | _ => op
  end.
Definition connect_run (n : nat) (w : World) (op : ResolveConnectOP) : ResolveConnectOP := Nat.iter n (complete w) op.

(** *** What is expected of it *)

(** An attempt: [None] when it is worth another one; otherwise the error code for the handler. *)
Definition round (w : World) (i : Z) : option error_code :=
  let '(ec, results) := w_resolve w i in
  if bool_decide (ec = success) then
    match results with
    | [] => Some host_not_found
    | _ => if bool_decide (w_connect w i = success) then Some success
           else if bool_decide (classify_connect_error (w_connect w i) = Transient) then None else Some (w_connect w i)
    end
  else if bool_decide (ec = host_not_found_try_again) then None else Some ec.

(** Of at most [n] attempts from [i] on: the result of the first one that is not worth another. *)
Fixpoint verdict (w : World) (n : nat) (i : Z) : error_code :=
  match n with
  | O => timed_out
  | S n => match round w i with Some ec => ec | None => verdict w n (i + 1) end
  end.
(** How many of them are followed by a delay. *)
Fixpoint delays_of (w : World) (n : nat) (i : Z) : list Z :=
  match n with
  | O | 1%nat => []
  | S n => match round w i with
           | Some _ => []
           | None => scaled (raw_backoff (i + 1)) (jitter (w_draw w i)) :: delays_of w n (i + 1)
           end
  end.

Definition callbacks (acts : list Action) : list (error_code * option Z) :=
  omap (fun act => match act with ACallback ec conn => Some (ec, conn) | _ => None end) acts.
Definition delays (acts : list Action) : list Z := omap (fun act => match act with ABackoff d => Some d | _ => None end) acts.
Definition closed_sockets (acts : list Action) : list Z := omap (fun act => match act with ASocketClose s => Some s | _ => None end) acts.
Definition connected_sockets (acts : list Action) : list Z := omap (fun act => match act with AConnect s _ => Some s | _ => None end) acts.

(** The handler's arguments fit: a connection with no error, over a socket that was connected and
    is not closed. *)
Definition handler_ok (acts : list Action) (ec : error_code) (conn : option Z) : Prop :=
  match conn with
  | Some s => ec = success /\ last (connected_sockets acts) = Some s /\ s ∉ closed_sockets acts
  | None => ec <> success
  end.

(** What [n] attempts from [i] on add to the actions. *)
Record attempts_done (w : World) (n : nat) (i : Z) (old new : list Action) : Prop := {
  ad_callback : exists conn, callbacks new = callbacks old ++ [(verdict w n i, conn)] /\ handler_ok new (verdict w n i) conn;
  ad_delays : delays new = delays old ++ delays_of w n i
}.

Record op_at (i : Z) (op : ResolveConnectOP) : Prop := {
  oa_pending : pending op = Some PResolve;
  oa_attempt : attempt op = i;
  oa_socket : socket op = Some (next_socket op - 1);
  oa_closed : forall s, s ∈ closed_sockets (actions op) -> s < next_socket op - 1
}.

Lemma connect_run_idle n w op : pending op = None -> connect_run n w op = op.
Proof using. intros E. induction n as [|n IH]; [done|]. change (connect_run (S n) w op) with (complete w (connect_run n w op)). rewrite IH. unfold complete. by rewrite E. Qed.
Lemma connect_run_add n m w op : connect_run (n + m) w op = connect_run n w (connect_run m w op).
Proof using. apply Nat.iter_add. Qed.
Lemma connect_run_S n w op : connect_run (S n) w op = connect_run n w (complete w op).
Proof using. apply Nat.iter_succ_r. Qed.

Lemma callbacks_app a b : callbacks (a ++ b) = callbacks a ++ callbacks b.
Proof using. apply omap_app. Qed.
Lemma delays_app a b : delays (a ++ b) = delays a ++ delays b.
Proof using. apply omap_app. Qed.
Lemma closed_app a b : closed_sockets (a ++ b) = closed_sockets a ++ closed_sockets b.
Proof using. apply omap_app. Qed.
Lemma connected_app a b : connected_sockets (a ++ b) = connected_sockets a ++ connected_sockets b.
Proof using. apply omap_app. Qed.

(** The parts of one attempt: it ends with a call of the handler, or asks for another one. *)
Definition round_ends (w : World) (i : Z) (op op' : ResolveConnectOP) : Prop :=
  match round w i with
  | Some ec => pending op' = None /\ exists acts conn, actions op' = actions op ++ acts ++ [ACallback ec conn] /\
      callbacks acts = [] /\ delays acts = [] /\ closed_sockets acts = [] /\ handler_ok (actions op') ec conn
  | None => exists op1 acts, op' = schedule_retry (w_draw w i) op1 /\ pending op1 = None /\ attempt op1 = i /\ socket op1 = Some (next_socket op1 - 1) /\
      actions op1 = actions op ++ acts /\ callbacks acts = [] /\ delays acts = [] /\
      forall s, s ∈ closed_sockets (actions op1) -> s < next_socket op1 - 1
  end.

Lemma fresh_closed op i : op_at i op -> forall s, s ∈ closed_sockets (actions op ++ [ASocketClose (next_socket op - 1)]) -> s < next_socket op + 1 - 1.
Proof using.
  intros [_ _ _ Hc] s. rewrite closed_app, elem_of_app. intros [Hs%Hc|Hs]; [lia|]. apply elem_of_cons in Hs as [->|Hs%not_elem_of_nil]; [lia|done].
Qed.

(** One or two completions make an attempt. *)
Lemma round_spec w i op : op_at i op -> exists k, (k <= 2)%nat /\ round_ends w i op (connect_run k w op).
Proof using.
  intros H. pose proof (fresh_closed op i H) as Hfresh. destruct H as [Hp Ha Hs Hc]. destruct op as [h sv so nx at_ pe acts]. cbn in Hp, Ha, Hs, Hc, Hfresh. subst.
  unfold round_ends, round. destruct (w_resolve w i) as [ec rs] eqn:Er.
  assert (E1 : connect_run 1 w (mk_op h sv (Some (nx - 1)) nx i (Some PResolve) acts) = resolve_handler (w_draw w i) ec rs (mk_op h sv (Some (nx - 1)) nx i None acts)).
  { unfold connect_run, complete. cbn. by rewrite Er. }
  unfold resolve_handler in E1. destruct (decide (ec = success)) as [->|Hec].
  2:{ rewrite bool_decide_false in E1 by done. rewrite (bool_decide_false (ec = success)) by done. cbn [negb] in E1. exists 1%nat. split; [lia|]. rewrite E1. clear E1.
      destruct (decide (ec = host_not_found_try_again)) as [->|Ht].
      - rewrite bool_decide_true by done. eexists _, []. split; [reflexivity|]. cbn. rewrite app_nil_r. by split_and!.
      - rewrite bool_decide_false by done. split; [done|]. exists [], None. by cbn. }
  rewrite bool_decide_true in E1 by done. rewrite bool_decide_true by done. cbn [negb] in E1.
  destruct rs as [|r rs]; [exists 1%nat; split; [lia|]; rewrite E1; split; [done|]; exists [], None; by cbn|].
  exists 2%nat. split; [lia|]. set (op0 := mk_op h sv (Some (nx - 1)) nx i (Some PResolve) acts) in *.
  change (connect_run 2 w op0) with (complete w (connect_run 1 w op0)). rewrite E1. clear E1.
  set (a1 := acts ++ [AConnect (nx - 1) (r :: rs)]).
  change (complete w (do_connect _ _)) with (connect_handler (w_draw w i) (w_connect w i) (mk_op h sv (Some (nx - 1)) nx i None a1)).
  unfold connect_handler. set (ec := w_connect w i). destruct (decide (ec = success)) as [->|Hec].
  - rewrite !bool_decide_true by done. cbn [negb]. split; [done|]. exists [AConnect (nx - 1) (r :: rs)], (Some (nx - 1)). cbn. unfold a1. rewrite <- app_assoc. split_and!; try done.
    + by rewrite connected_app, last_app.
    + rewrite closed_app. cbn. rewrite app_nil_r. intros Hin%Hc. lia.
  - rewrite !(bool_decide_false (ec = success)) by done. cbn [negb]. destruct (classify_connect_error ec) eqn:Ec.
    + rewrite bool_decide_false by done. split; [done|]. exists [AConnect (nx - 1) (r :: rs)], None. cbn. unfold a1. rewrite <- app_assoc. by split_and!.
    + rewrite bool_decide_true by done. eexists _, [AConnect (nx - 1) (r :: rs); ASocketClose (nx - 1)]. split; [reflexivity|]. cbn. unfold a1.
      rewrite <- app_assoc. split_and!; try done; [f_equal; lia|]. intros s Hin. apply Hfresh. rewrite !closed_app in *. by cbn in *.
    + rewrite bool_decide_false by done. split; [done|]. exists [AConnect (nx - 1) (r :: rs)], None. cbn. unfold a1. rewrite <- app_assoc. by split_and!.
Qed.

Lemma attempts w n i op : op_at i op -> i + Z.of_nat (S n) = max_attempts + 1 ->
  exists k, (k <= 3 * S n)%nat /\ pending (connect_run k w op) = None /\ attempts_done w (S n) i (actions op) (actions (connect_run k w op)).
Proof using.
  revert i op. induction n as [|n IH]; intros i op H Hi; destruct (round_spec w i op H) as (k & Hk & Hr); unfold round_ends in Hr.
  all: destruct (round w i) as [ec|] eqn:Er;
    [destruct Hr as (Hp & acts & conn & Ea & Hcb & Hd & _ & Hok); exists k; split; [lia|]; split; [exact Hp|]; rewrite Ea in *; split; cbn [verdict delays_of]; rewrite ?Er;
     [exists conn; rewrite !callbacks_app, Hcb; by split|rewrite !delays_app, Hd; cbn; by rewrite !app_nil_r]|].
  all: destruct Hr as (op1 & acts & E & Hp & Hat & Hs & Ea & Hcb & Hd & Hc); unfold max_attempts in *.
  - exists k. split; [lia|]. rewrite E. unfold schedule_retry. cbn [attempt upd]. rewrite Hat, (proj2 (Z.ltb_lt _ _)) by (unfold max_attempts; lia). cbn. rewrite Ea.
    split; [done|]. split; cbn [verdict delays_of]; rewrite ?Er.
    + exists None. rewrite !callbacks_app, Hcb, app_nil_r. by split.
    + rewrite !delays_app, Hd. by rewrite !app_nil_r.
  - assert (Hle : (8 <? i + 1) = false) by (apply Z.ltb_ge; lia).
    assert (E3 : connect_run (S k) w op = do_resolve (op1 <| attempt := i + 1 |> <| pending := None |> <| actions := actions op1 ++ [ABackoff (scaled (raw_backoff (i + 1)) (jitter (w_draw w i)))] |>)).
    { change (connect_run (S k) w op) with (complete w (connect_run k w op)). rewrite E. unfold schedule_retry. cbn [attempt upd]. rewrite Hat. unfold max_attempts. rewrite Hle. by destruct op1. }
    set (op2 := do_resolve _) in E3.
    destruct (IH (i + 1) op2) as (k' & Hk' & Hp' & [(conn & Hcb' & Hok') Hd']); [|lia|].
    { split; cbn; [done|done|exact Hs|]. intros s. rewrite !closed_app. cbn. rewrite !app_nil_r. apply Hc. }
    exists (k' + S k)%nat. split; [lia|]. rewrite connect_run_add, E3. split; [exact Hp'|].
    assert (Eo : actions op2 = actions op ++ acts ++ [ABackoff (scaled (raw_backoff (i + 1)) (jitter (w_draw w i))); AResolve (host op1) (service op1)]).
    { unfold op2. cbn. by rewrite Ea, <- !app_assoc. }
    split.
    + exists conn. cbn [verdict]. rewrite Er. split; [|exact Hok']. rewrite Hcb', Eo, !callbacks_app, Hcb. cbn. by rewrite !app_nil_r.
    + rewrite Hd', Eo, !delays_app, Hd. cbn [delays_of]. rewrite Er. by rewrite <- app_assoc.
Qed.

Lemma fmap_seq_from {A} (g : Z -> A) i m :
  (fun j => g (i + Z.of_nat j)) <$> seq 1 (S m) = g (i + 1) :: ((fun j => g (i + 1 + Z.of_nat j)) <$> seq 1 m).
Proof using.
  rewrite <- cons_seq, <- fmap_S_seq, fmap_cons, <- list_fmap_compose. apply (f_equal2 cons); [done|].
  apply list_fmap_ext. intros _ j _. unfold compose. f_equal. lia.
Qed.

Definition total (l : list Z) : Z := foldr Z.add 0 l.

(** Delays grow from 0.2 s to 1.5 s at least, from 0.4 s to 3 s at most. *)
Lemma raw_backoff_values i : 1 <= i <= 8 -> raw_backoff i = Z.min (200 * 2 ^ i) 3000.
Proof using. intros H. assert (i = 1 \/ i = 2 \/ i = 3 \/ i = 4 \/ i = 5 \/ i = 6 \/ i = 7 \/ i = 8) by lia. by destruct_or!; subst. Qed.

Definition longest (n : nat) (i : Z) : Z := total ((fun j => raw_backoff (i + Z.of_nat j)) <$> seq 1 n).

Lemma delays_of_bounds w n i : (forall j, 0 <= w_draw w j < 2 ^ 64) -> 0 <= i -> i + Z.of_nat (S n) <= 9 ->
  (length (delays_of w (S n) i) <= n)%nat /\ 0 <= total (delays_of w (S n) i) <= longest n i /\
  forall j d, delays_of w (S n) i !! j = Some d -> raw_backoff (i + 1 + Z.of_nat j) / 2 <= d <= raw_backoff (i + 1 + Z.of_nat j).
Proof using.
  intros Hd. revert i. induction n as [|n IH]; intros i Hi Hn; [by cbn|].
  assert (Hr : 0 < raw_backoff (i + 1) < 2 ^ 31) by (rewrite raw_backoff_values by lia; lia).
  pose proof (scaled_range _ _ Hr (jitter_range _ (Hd i))) as Hs.
  destruct (IH (i + 1) ltac:(lia) ltac:(lia)) as (L1 & L2 & L3).
  assert (El : longest (S n) i = raw_backoff (i + 1) + longest n (i + 1)).
  { unfold longest. by rewrite (fmap_seq_from raw_backoff). }
  assert (0 <= longest n (i + 1)) by lia. change (delays_of w (S (S n)) i) with
    (match round w i with Some _ => [] | None => scaled (raw_backoff (i + 1)) (jitter (w_draw w i)) :: delays_of w (S n) (i + 1) end).
  destruct (round w i); [rewrite El; split_and!; cbn [total foldr length]; [lia|lia|lia|done]|].
  split_and!; cbn [length total foldr]; [lia|..]; rewrite ?El; fold (total (delays_of w (S n) (i + 1))).
  - pose proof (Z.div_pos (raw_backoff (i + 1)) 2 ltac:(lia) ltac:(lia)). lia.
  - lia.
  - intros [|j] d; [intros [= <-]|intros Hj]; [by rewrite Z.add_0_r|]. cbn in Hj. specialize (L3 j d Hj). by replace (i + 1 + Z.of_nat (S j)) with (i + 1 + 1 + Z.of_nat j) by lia.
Qed.

(** C26: [async_connect] calls its handler exactly once, whatever the network answers: within nine
    attempts, at most 27 completions, the operation waits for nothing any more.  The handler gets
    the outcome of the first attempt that succeeds or fails for good, and [timed_out] when all
    nine fail for a moment; a connection comes with no error, over the socket that was connected
    and that is still open.  After the k-th failed attempt there is a delay of at least half and
    at most all of [200 * 2^k] ms, which is capped at 3 s; all delays together take at most 17.8 s. *)
Theorem connect_answers_once cfg w n : (forall i, 0 <= w_draw w i < 2 ^ 64) -> (27 <= n)%nat ->
  let op := connect_run n w (async_connect cfg) in
  pending op = None /\
  (exists conn, callbacks (actions op) = [(verdict w 9 0, conn)] /\ handler_ok (actions op) (verdict w 9 0) conn) /\
  (length (delays (actions op)) <= 8)%nat /\ total (delays (actions op)) <= 17800 /\
  forall j d, delays (actions op) !! j = Some d -> let full := Z.min (200 * 2 ^ (1 + Z.of_nat j)) 3000 in full / 2 <= d <= full.
Proof using.
  intros Hd Hn op. destruct (attempts w 8 0 (async_connect cfg)) as (k & Hk & Hp & [Hcb Hdl]); [|done|].
  { split; [done..|]. by intros s ?%not_elem_of_nil. }
  assert (E : op = connect_run k w (async_connect cfg)).
  { unfold op. replace n with ((n - k) + k)%nat by lia. by rewrite connect_run_add, connect_run_idle. }
  rewrite E. split; [exact Hp|]. split; [exact Hcb|]. rewrite Hdl. change (delays (actions (async_connect cfg))) with (@nil Z). rewrite app_nil_l.
  destruct (delays_of_bounds w 8 0 Hd ltac:(lia) ltac:(lia)) as (L1 & L2 & L3). split_and!; [exact L1|change (longest 8 0) with 17800 in L2; lia|].
  intros j d Hj full. pose proof (lookup_lt_Some _ _ _ Hj) as Hlen. specialize (L3 j d Hj). rewrite raw_backoff_values in L3 by lia. exact L3.
Qed.

(** ** [ListenOP] *)

Record ListenOP : Type := mk_listen {
  endpoint : Endpoint;
  listen_backlog : Z;
  listen_attempt : Z;
  listen_pending : option Pending;
  listen_actions : list Action
}.
Definition eta_listen (op : ListenOP) : ListenOP :=
  mk_listen (endpoint op) (listen_backlog op) (listen_attempt op) (listen_pending op) (listen_actions op).
#[local] Hint Extern 1 (@Updater ListenOP _ _) => derive_updater eta_listen : typeclass_instances.

Definition listen_max_attempts : Z := 6.
Definition listen_base : Z := 200.
Definition listen_cap : Z := 3000.

Definition listen_new (ep : Endpoint) (bl : Z) : ListenOP := mk_listen ep bl 0 None [].
Definition listen_call (act : Action) (op : ListenOP) : ListenOP := op <| listen_actions := listen_actions op ++ [act] |>.
Definition listen_begin (p : Pending) (act : Action) (op : ListenOP) : ListenOP := listen_call act op <| listen_pending := Some p |>.

Definition listen_next_backoff (op : ListenOP) : Z :=
  let ms := listen_base * Z.shiftl 1 (Z.min (listen_attempt op) 12) in if listen_cap <? ms then listen_cap else ms.

Definition is_transient_open (ec : error_code) : bool := one_of ec [too_many_files_open; too_many_files_open_in_system].
Definition is_transient_bind (ec : error_code) : bool := one_of ec [address_in_use].
Definition is_transient_listen (ec : error_code) : bool := one_of ec [no_buffer_space].

Definition listen_schedule_retry (ec : error_code) (op : ListenOP) : ListenOP :=
  let op := op <| listen_attempt := listen_attempt op + 1 |> in
  if listen_max_attempts <? listen_attempt op then listen_call (ACallback ec None) op
  else listen_begin PBackoff (ABackoff (listen_next_backoff op)) op.

(** What the system calls of an attempt answer. *)
Record Calls : Set := mk_calls { c_open : error_code; c_option : error_code; c_bind : error_code; c_listen : error_code }.

Definition do_accept (op : ListenOP) : ListenOP := listen_begin PAccept AAccept op.

Definition try_listen (c : Calls) (op : ListenOP) : ListenOP :=
  if negb (bool_decide (c_open c = success)) then
    if is_transient_open (c_open c) then listen_schedule_retry (c_open c) op else listen_call (ACallback (c_open c) None) op
  else if negb (bool_decide (c_option c = success)) then listen_call (ACallback (c_option c) None) op
  else if negb (bool_decide (c_bind c = success)) then
    if is_transient_bind (c_bind c) then listen_schedule_retry (c_bind c) op else listen_call (ACallback (c_bind c) None) op
  else
    let op := listen_call (AListen (endpoint op) (listen_backlog op)) op in
    if negb (bool_decide (c_listen c = success)) then
      if is_transient_listen (c_listen c) then listen_schedule_retry (c_listen c) op else listen_call (ACallback (c_listen c) None) op
    else do_accept op.

Definition accept_handler (ec : error_code) (sock : Z) (op : ListenOP) : ListenOP :=
  if bool_decide (ec = success) then listen_call (ACallback success (Some sock)) op else listen_call (ACallback ec None) op.

Definition listen_backoff_handler (ec : error_code) (c : Calls) (op : ListenOP) : ListenOP :=
  if bool_decide (ec = success) then try_listen c op else op.

(** [make_address] and [SOMAXCONN] are not the repository's. *)
Definition async_listen (make_address : bytes -> error_code * (Z -> Endpoint)) (SOMAXCONN : Z) (c : Calls) (cfg : ConnectionConfig) :
  list Action + ListenOP :=
  let host := if bool_decide (ip cfg = []) then B "0.0.0.0" else ip cfg in
  let bl := if 0 <? backlog cfg then backlog cfg else SOMAXCONN in
  let '(ec, addr) := make_address host in
  if negb (bool_decide (ec = success)) then inl [ACallback ec None]
  else inr (try_listen c (listen_new (addr (port cfg)) bl)).

(** *** Runs *)

(** What the system answers to attempt [i], and the connection that is accepted. *)
Record ListenWorld : Set := mk_listen_world { lw_calls : Z -> Calls; lw_accept : error_code * Z }.

Definition listen_complete (w : ListenWorld) (op : ListenOP) : ListenOP :=
  let idle := op <| listen_pending := None |> in
  match listen_pending op with
  | Some PBackoff => listen_backoff_handler success (lw_calls w (listen_attempt op)) idle
  | Some PAccept => accept_handler (fst (lw_accept w)) (snd (lw_accept w)) idle
  | _ => op
  end.
Definition listen_run (n : nat) (w : ListenWorld) (op : ListenOP) : ListenOP := Nat.iter n (listen_complete w) op.

(** The first system call that fails, and whether its error is worth another attempt. *)
Definition setup_error (c : Calls) : option (bool * error_code) :=
  List.find (fun '(_, ec) => negb (bool_decide (ec = success)))
    [(is_transient_open (c_open c), c_open c); (false, c_option c); (is_transient_bind (c_bind c), c_bind c); (is_transient_listen (c_listen c), c_listen c)].

(** What the handler should get when [n] more attempts are left after attempt [i]. *)
Fixpoint listen_verdict (w : ListenWorld) (n : nat) (i : Z) : error_code * option Z :=
  match setup_error (lw_calls w i) with
  | None => (fst (lw_accept w), if bool_decide (fst (lw_accept w) = success) then Some (snd (lw_accept w)) else None)
  | Some (true, ec) => match n with O => (ec, None) | S n => listen_verdict w n (i + 1) end
  | Some (false, ec) => (ec, None)
  end.

Lemma listen_run_idle n w op : listen_pending op = None -> listen_run n w op = op.
Proof using. intros E. induction n as [|n IH]; [done|]. change (listen_run (S n) w op) with (listen_complete w (listen_run n w op)). rewrite IH. unfold listen_complete. by rewrite E. Qed.
Lemma listen_run_add n m w op : listen_run (n + m) w op = listen_run n w (listen_run m w op).
Proof using. apply Nat.iter_add. Qed.

Lemma try_listen_spec c op : exists acts, callbacks acts = [] /\ delays acts = [] /\
  try_listen c op =
    let op := op <| listen_actions := listen_actions op ++ acts |> in
    match setup_error c with
    | None => do_accept op
    | Some (true, ec) => listen_schedule_retry ec op
    | Some (false, ec) => listen_call (ACallback ec None) op
    end.
Proof using.
  destruct op as [ep bl at_ pe acts]. unfold try_listen, setup_error. cbn [List.find fst snd].
  destruct (bool_decide (c_open c = success)); cbn [negb];
    [|exists []; split_and!; [done..|]; cbn; rewrite app_nil_r; by destruct (is_transient_open (c_open c))].
  destruct (bool_decide (c_option c = success)); cbn [negb]; [|exists []; split_and!; [done..|]; cbn; by rewrite app_nil_r].
  destruct (bool_decide (c_bind c = success)); cbn [negb];
    [|exists []; split_and!; [done..|]; cbn; rewrite app_nil_r; by destruct (is_transient_bind (c_bind c))].
  exists [AListen ep bl]. split_and!; [done..|]. destruct (bool_decide (c_listen c = success)); cbn [negb]; [done|]. by destruct (is_transient_listen (c_listen c)).
Qed.

Lemma accept_done w op : listen_pending op = None -> let op' := listen_run 1 w (do_accept op) in
  listen_pending op' = None /\ listen_actions op' = listen_actions op ++
    [AAccept; ACallback (fst (lw_accept w)) (if bool_decide (fst (lw_accept w) = success) then Some (snd (lw_accept w)) else None)].
Proof using.
  intros Hp. change (listen_run 1 w (do_accept op)) with (accept_handler (fst (lw_accept w)) (snd (lw_accept w)) (listen_call AAccept op <| listen_pending := None |>)).
  unfold accept_handler. case_bool_decide as E; rewrite ?E; cbn; by rewrite <- app_assoc.
Qed.

(** The attempts that are left: [n] after attempt [i]. *)
Lemma listen_attempts w n i op : listen_pending op = None -> listen_attempt op = i -> 0 <= i -> i + Z.of_nat n = listen_max_attempts ->
  exists k m, (k <= S n)%nat /\ (m <= n)%nat /\ let op' := listen_run k w (try_listen (lw_calls w i) op) in
    listen_pending op' = None /\ callbacks (listen_actions op') = callbacks (listen_actions op) ++ [listen_verdict w n i] /\
    delays (listen_actions op') = delays (listen_actions op) ++ ((fun j => Z.min (200 * 2 ^ (i + Z.of_nat j)) 3000) <$> seq 1 m).
Proof using.
  revert i op. induction n as [|n IH]; intros i op Hp Ha Hi Hn; unfold listen_max_attempts in Hn;
    destruct (try_listen_spec (lw_calls w i) op) as (acts & Hc & Hd & E); cbv zeta; cbn [listen_verdict]; rewrite E; clear E; cbv zeta;
    destruct op as [ep bl at_ pe acts0]; cbn in Hp, Ha; subst at_ pe.
  all: destruct (setup_error (lw_calls w i)) as [[[|] ec]|].
  - exists 0%nat, 0%nat. cbn [listen_run Nat.iter nat_rect]. unfold listen_schedule_retry. cbn [listen_attempt upd]. unfold listen_max_attempts.
    rewrite (proj2 (Z.ltb_lt _ _)) by lia. split_and!; [lia|lia|done|cbn..].
    + by rewrite !callbacks_app, Hc, app_nil_r.
    + by rewrite !delays_app, Hd, !app_nil_r.
  - exists 0%nat, 0%nat. split_and!; [lia|lia|done|cbn..]; [by rewrite !callbacks_app, Hc, app_nil_r|by rewrite !delays_app, Hd, !app_nil_r].
  - exists 1%nat, 0%nat. destruct (accept_done w (mk_listen ep bl i None (acts0 ++ acts)) eq_refl) as [E1 E2]. split_and!; [lia|lia|exact E1|..].
    + etransitivity; [exact (f_equal callbacks E2)|]. cbn [listen_actions]. by rewrite !callbacks_app, Hc, app_nil_r.
    + etransitivity; [exact (f_equal delays E2)|]. cbn [listen_actions]. by rewrite !delays_app, Hd, !app_nil_r.
  - unfold listen_schedule_retry. cbn [listen_attempt upd]. unfold listen_max_attempts. rewrite (proj2 (Z.ltb_ge _ _)) by lia.
    set (d := ABackoff _). set (op1 := mk_listen ep bl (i + 1) None ((acts0 ++ acts) ++ [d])).
    destruct (IH (i + 1) op1 eq_refl eq_refl ltac:(lia) ltac:(unfold listen_max_attempts; lia)) as (k & m & Hk & Hm & Hp' & Hcb & Hdl).
    exists (k + 1)%nat, (S m). rewrite listen_run_add.
    change (listen_run 1 w _) with (try_listen (lw_calls w (i + 1)) op1). split_and!; [lia|lia|exact Hp'|..].
    + rewrite Hcb. unfold op1. cbn [listen_actions]. by rewrite !callbacks_app, Hc, !app_nil_r.
    + rewrite Hdl. unfold op1. cbn [listen_actions]. rewrite !delays_app, Hd, app_nil_r, <- app_assoc. f_equal.
      rewrite (fmap_seq_from (fun z => Z.min (200 * 2 ^ z) 3000)). apply (f_equal2 cons); [|done].
      unfold listen_next_backoff. change (listen_attempt _) with (i + 1).
      assert (i = 0 \/ i = 1 \/ i = 2 \/ i = 3 \/ i = 4 \/ i = 5) by lia. by destruct_or!; subst.
  - exists 0%nat, 0%nat. split_and!; [lia|lia|done|cbn..]; [by rewrite !callbacks_app, Hc, app_nil_r|by rewrite !delays_app, Hd, !app_nil_r].
  - exists 1%nat, 0%nat. destruct (accept_done w (mk_listen ep bl i None (acts0 ++ acts)) eq_refl) as [E1 E2]. split_and!; [lia|lia|exact E1|..].
    + etransitivity; [exact (f_equal callbacks E2)|]. cbn [listen_actions]. by rewrite !callbacks_app, Hc, app_nil_r.
    + etransitivity; [exact (f_equal delays E2)|]. cbn [listen_actions]. by rewrite !delays_app, Hd, !app_nil_r.
Qed.

(** [async_listen] calls its handler exactly once, whatever the system answers: at once for an
    address that is none, and otherwise after at most seven completions with what the first
    attempt yields that is not worth another: the accepted connection, the error of [async_accept],
    the first error of [open], [set_option], [bind] and [listen] that is permanent, or the
    transient error of the seventh attempt.  The delays are 400, 800, 1600, 3000, ... ms. *)
Lemma listen_answers_once make_address SOMAXCONN w cfg n : (7 <= n)%nat ->
  let host := if bool_decide (ip cfg = []) then B "0.0.0.0" else ip cfg in
  match async_listen make_address SOMAXCONN (lw_calls w 0) cfg with
  | inl acts => acts = [ACallback (fst (make_address host)) None] /\ fst (make_address host) <> success
  | inr op =>
      let op := listen_run n w op in
      fst (make_address host) = success /\ listen_pending op = None /\ callbacks (listen_actions op) = [listen_verdict w 6 0] /\
      exists m, (m <= 6)%nat /\ delays (listen_actions op) = (fun j => Z.min (200 * 2 ^ Z.of_nat j) 3000) <$> seq 1 m
  end.
Proof using.
  intros Hn h. unfold async_listen. fold h. destruct (make_address h) as [ec addr]. cbn [fst].
  destruct (decide (ec = success)) as [->|Hec]; [|by rewrite bool_decide_false].
  rewrite bool_decide_true by done. cbn [negb]. set (bl := if 0 <? backlog cfg then _ else _).
  destruct (listen_attempts w 6 0 (listen_new (addr (port cfg)) bl) eq_refl eq_refl ltac:(lia) eq_refl) as (k & m & Hk & Hm & Hp & Hcb & Hd).
  set (op := try_listen _ _) in *. replace n with ((n - k) + k)%nat by lia. rewrite listen_run_add, (listen_run_idle _ w (listen_run k w op)) by exact Hp.
  split_and!; [done|exact Hp|exact Hcb|]. by exists m.
Qed.
End Factory.

(** ** Two refused connections, then success; an acceptor whose address is in use once *)

Definition demo_world : World (Endpoint := bytes) :=
  mk_world (fun _ => (success, [B "10.0.0.1"])) (fun i => if i <? 2 then connection_refused else success) (fun i => if (0 <=? i) && (i <? 4) then i * 2 ^ 62 else 0).
Definition demo_config : ConnectionConfig := mk_conn_config (B "fix.example") 9000 INITIATOR 0.

Lemma connect_answers_once_witness :
  callbacks (actions (connect_run 27 demo_world (async_connect demo_config))) = [(success, Some 2)] /\
  delays (actions (connect_run 27 demo_world (async_connect demo_config))) = [200; 500] /\
  pending (connect_run 27 demo_world (async_connect demo_config)) = None.
Proof.
  split; [by vm_compute|]. split; [by vm_compute|].
  apply (connect_answers_once demo_config demo_world 27); [|lia].
  intros i. cbn. destruct (Z.leb_spec 0 i), (Z.ltb_spec i 4); cbn; lia.
Defined.

Definition demo_listen : ListenWorld :=
  mk_listen_world (fun i => mk_calls success success (if i =? 0 then address_in_use else success) success) (success, 7).
Example listen_answers_once_demo :
  callbacks (listen_actions (listen_run 7 demo_listen (try_listen (lw_calls demo_listen 0) (listen_new (B "0.0.0.0", 9000) 128)))) = [(success, Some 7)] /\
  delays (listen_actions (listen_run 7 demo_listen (try_listen (lw_calls demo_listen 0) (listen_new (B "0.0.0.0", 9000) 128)))) = [400].
Proof.
  destruct (listen_answers_once (fun h => (success, fun p => (h, p))) 128 demo_listen (mk_conn_config [] 9000 ACCEPTOR 0) 7 ltac:(lia)) as (_ & _ & Hc & _).
  split; [exact Hc|by vm_compute].
Defined.
