(* ===== verification/SessionTraffic.v ===== *)
(** The traffic of two sessions of this engine: heartbeats, test requests and the custom
    messages of the applications.  What one of them sends, the other one parses, accepts,
    counts and answers. *)
From Stdlib Require Import Strings.Byte.
From stdpp Require Import gmap.
From S2P Require Import Prelude.
From S2P Require Import Text.
From S2P Require Import Network.
From S2P Require Import Message.
From S2P Require Import Parser.
From S2P Require Import Schema.
From S2P Require Import Framer.
From S2P Require Import MessageStore.
From S2P Require Import RecoveryCache.
From S2P Require Import Validator.
From S2P Require Import Factory.
From S2P Require Import Session.
From S2P Require Import SessionBase.
From S2P Require Import SessionInbound.
From S2P Require Import SessionOutbound.
From S2P Require Import SessionWrite.
From S2P Require Import SessionLogon.

(** ** The messages *)

(** The longest text in a message, and a bound on a message with it. *)
Definition Max_Text : Z := 1100.
Definition Max_Wire : Z := 4096.

Definition traffic (m : Outbound) : Prop :=
  match m with
  | OHeartbeat id => (SOH ∉ id) /\ zlen id <= Max_Text
  | OTestRequest id => value_text id /\ zlen id <= Max_Text
  | OCustom p => value_text p /\ zlen p <= Max_Text
  | _ => False
  end.

(** Two sessions that talk to each other; [own] and [peer] are their parameters once they
    have agreed on the heartbeat interval [h]. *)
Record parties (own peer : SessionParameters) (h : Z) : Prop := {
  pa_text : session_text own (now_fix clock);
  pa_peer_text : session_text peer (now_fix clock);
  pa_enc : - 2 ^ 31 <= encrypt_method own < 2 ^ 31;
  pa_peer_enc : - 2 ^ 31 <= encrypt_method peer < 2 ^ 31;
  pa_faces : faces own peer;
  pa_ids : ids_ok own;
  pa_beat : heart_beat_int own = h;
  pa_peer_beat : heart_beat_int peer = h;
  pa_range : 10 <= h <= 120
}.

Lemma parties_sym own peer h : parties own peer h -> parties peer own h.
Proof. intros [? ? ? ? [Es Et] Hi ? ? ?]. split; try done. unfold ids_ok in *. rewrite Es, Et in Hi. lia. Qed.

(** A message is at least so long. *)
Definition min_wire (own : SessionParameters) : Z := 47 + zlen (sender_comp_id own) + zlen (target_comp_id own).
Lemma min_wire_faces own peer : faces own peer -> min_wire peer = min_wire own.
Proof. intros [Es Et]. unfold min_wire. rewrite Es, Et. lia. Qed.
Lemma min_wire_pos own : 47 <= min_wire own.
Proof. unfold min_wire. pose proof (zlen_nonneg (sender_comp_id own)). pose proof (zlen_nonneg (target_comp_id own)). lia. Qed.

(** The first message is the Logon, the others are traffic. *)
Definition logon_of (h : Z) : Outbound := OLogon h false.
Definition history (h : Z) (ms : list Outbound) : Prop :=
  match ms with [] => True | m :: ms' => m = logon_of h /\ Forall traffic ms' end.

(** All that a session sends in its life: these, and requests for a resend. *)
Definition is_request (m : Outbound) : Prop := match m with OResendRequest _ _ => True | _ => False end.
Definition outgoing (h : Z) (m : Outbound) : Prop := m = logon_of h \/ traffic m \/ is_request m.
Lemma traffic_outgoing h m : traffic m -> outgoing h m.
Proof. by right; left. Qed.
#[export] Hint Resolve traffic_outgoing : session.

Lemma history_outgoing h ms : history h ms -> Forall (outgoing h) ms.
Proof.
  destruct ms as [|m ms]; [constructor|]. intros [-> Ht]. constructor; [by left|]. eapply Forall_impl; [exact Ht|by apply traffic_outgoing].
Qed.
Lemma history_snoc h ms m : history h ms -> ms <> [] -> traffic m -> history h (ms ++ [m]).
Proof. destruct ms as [|m0 ms]; [done|]. intros [-> Ht] _ Hm. split; [done|]. apply Forall_app. split; [done|by constructor]. Qed.

Section Sizes.
Context (own peer : SessionParameters) (h : Z).
Hypothesis P : parties own peer h.

Lemma outgoing_ok m : outgoing h m -> admin m /\ sendable m /\ app_fields_ok m.
Proof using P. destruct P as [_ _ _ _ _ _ _ _ Hh]. intros [->|[Ht|Ht]]; [cbn; lia| |by destruct m]. destruct m as [| | | | | | |p|]; try done; destruct Ht; by split_and!. Qed.

Lemma fields_size m : outgoing h m -> 0 <= zlen (fields_wire (fields_of own m)) <= 1200.
Proof using P.
  destruct P as [_ _ He _ _ _ _ _ Hh]. intros Hm. split; [apply zlen_nonneg|].
  pose proof (to_chars_length (encrypt_method own) ltac:(lia)). pose proof (to_chars_length h ltac:(lia)).
  assert (Hi : forall z, zlen (to_chars (i64 z)) <= 21) by (intros z; pose proof (i64_range z); apply to_chars_length; lia).
  destruct Hm as [->|[Ht|Ht]]; [|destruct m; try done..]; cbn [traffic fields_of logon_of] in *; unfold Max_Text, opt_field in *;
    try destruct (zlen _ =? 0); rewrite ?fields_wire_cons, ?zlen_app, ?field_wire_length; cbn [tag value];
    change (zlen (fields_wire [])) with 0; change (zlen (to_dec 98)) with 2; change (zlen (to_dec 141)) with 3;
    change (zlen (to_dec 108)) with 3; change (zlen (to_dec 7)) with 1; change (zlen (to_dec 16)) with 2; change (zlen (to_dec 112)) with 3; change (zlen (to_dec 9250)) with 4;
    change (zlen (B "N")) with 1; try (pose proof (Hi begin_seq_no); pose proof (Hi end_seq_no)); lia.
Qed.

Lemma body_size m q : outgoing h m -> 0 <= q < 2 ^ 32 ->
  25 + zlen (sender_comp_id own) + zlen (target_comp_id own) <= zlen (fields_wire (outbound_body clock own m q)) <= 2400.
Proof using P.
  intros Hm Hq. pose proof (fields_size m Hm). pose proof (pa_ids _ _ _ P) as Hids. unfold ids_ok in Hids. unfold outbound_body. rewrite fields_wire_app, zlen_app.
  assert (Ht : 1 <= zlen (type_of m) <= 2) by (destruct Hm as [->|[Ht|Ht]]; [by vm_compute|destruct m; try done; by vm_compute..]).
  pose proof (to_dec_length q ltac:(lia) 10 ltac:(lia) ltac:(lia)).
  unfold header_fields. rewrite i64_small, to_chars_nonneg by lia. rewrite !fields_wire_cons, !zlen_app, !field_wire_length. cbn [tag value].
  change (zlen (fields_wire [])) with 0. change (zlen (to_dec 35)) with 2. change (zlen (to_dec 34)) with 2.
  change (zlen (to_dec 49)) with 2. change (zlen (to_dec 56)) with 2. change (zlen (to_dec 52)) with 2. change (zlen (now_fix clock)) with 3. lia.
Qed.

(** A message fits in a read. *)
Lemma wire_size m q : outgoing h m -> 0 <= q < 2 ^ 32 ->
  is_frame (outbound_bytes own m q) /\ min_wire own <= zlen (outbound_bytes own m q) <= Max_Wire.
Proof using P.
  intros Hm Hq. pose proof (body_size m q Hm Hq). split; [apply frame_wire_is_frame; unfold MAX_MESSAGE_SIZE; lia|].
  unfold outbound_bytes, frame_wire, min_wire, Max_Wire. pose proof (zlen_nonneg (sender_comp_id own)). pose proof (zlen_nonneg (target_comp_id own)). set (body := fields_wire _) in *.
  pose proof (to_dec_length (zlen body) ltac:(lia) 10 ltac:(lia) ltac:(lia)) as Hl.
  destruct (digits_val_nonneg (to_dec (zlen body))) as [_ Hv]; [apply to_dec_digits; lia|]. rewrite to_dec_val in Hv by lia.
  assert (zlen (to_dec (zlen body)) <> 1) by (intros E; rewrite E in Hv; lia).
  rewrite !zlen_app, !field_wire_length. cbn [tag value]. set (ck := byte_sum _ mod 256).
  assert (0 <= ck < 256) by (apply Z.mod_pos_bound; lia). destruct (checksum_text_spec ck ltac:(lia)) as (_ & -> & _).
  change (zlen (to_dec 8)) with 1. change (zlen (to_dec 9)) with 1. change (zlen DEFAULT_FIX_VERSION) with 7.
  change (zlen (B "10=")) with 3. change (zlen [SOH]) with 1. lia.
Qed.

Lemma sent_wires_frames ms : Forall (outgoing h) ms -> zlen ms < 2 ^ 32 ->
  Forall (fun w => is_frame w /\ min_wire own <= zlen w <= Max_Wire) (sent_wires own ms).
Proof using P.
  intros Hms Hl. apply Forall_lookup. intros k w Hk. unfold sent_wires in Hk. rewrite list_lookup_imap in Hk.
  destruct (ms !! k) as [m|] eqn:Em; [|done]. injection Hk as <-. pose proof (lookup_lt_Some _ _ _ Em). unfold zlen in Hl.
  rewrite Forall_lookup in Hms. apply wire_size; [by eapply Hms|lia].
Qed.

Lemma sent_wires_bytes ms : Forall (outgoing h) ms -> zlen ms < 2 ^ 32 -> zlen (concat (sent_wires own ms)) <= Max_Wire * zlen ms.
Proof using P.
  intros Hms Hl. rewrite <- (sent_wires_length own ms). pose proof (sent_wires_frames ms Hms Hl) as Hf.
  induction Hf as [|w ws [_ Hw] _ IH]; [done|]. cbn [concat]. rewrite zlen_app, zlen_cons. lia.
Qed.
End Sizes.

(** ** What a handler does to the transport *)

Definition reads_of (l : list Effect) : list Z := omap (fun e => match e with ERead c => Some c | _ => None end) l.

Lemma writes_of_app l1 l2 : writes_of (l1 ++ l2) = writes_of l1 ++ writes_of l2.
Proof. unfold writes_of. apply omap_app. Qed.
Lemma reads_of_app l1 l2 : reads_of (l1 ++ l2) = reads_of l1 ++ reads_of l2.
Proof. unfold reads_of. apply omap_app. Qed.

(** Effects that are neither reads nor writes. *)
Definition no_io (e : Effect) : bool := match e with EWrite _ _ | ERead _ => false | _ => true end.
Lemma no_io_none l : forallb no_io l = true -> writes_of l = [] /\ reads_of l = [].
Proof. induction l as [|e l IH]; [done|]. intros [He [E1 E2]%IH]%andb_true_iff. by destruct e. Qed.

(** From [s] to [s'], in which the session keeps its connection and framer: the session had been
    handed [t] in total and has been handed [t'] now; it has started the writes for it and no read. *)
Record moved (t t' : bytes) (s s' : Session) : Prop := {
  mv_framer : framer_ s' = framer_ s;
  mv_conn : conn_ s' = conn_ s;
  mv_id : id_ s' = id_ s;
  mv_role : role_ s' = role_ s;
  mv_queue : zlen (write_q_ s') + zlen t <= zlen (write_q_ s) + zlen t';
  mv_channel : exists l, effects_ s' = effects_ s ++ l /\ reads_of l = [] /\
    forall acc out, channel_ok t (mk_channel s acc out) -> channel_ok t' (mk_channel s' acc (out ++ writes_of l))
}.

Lemma moved_refl t s : moved t t s s.
Proof. split; try done. exists []. split_and!; [by rewrite app_nil_r|done|]. intros acc out. by rewrite app_nil_r. Qed.
Lemma moved_trans t1 t2 t3 s1 s2 s3 : moved t1 t2 s1 s2 -> moved t2 t3 s2 s3 -> moved t1 t3 s1 s3.
Proof.
  intros [? ? ? ? ? (l1 & E1 & R1 & C1)] [? ? ? ? ? (l2 & E2 & R2 & C2)]. split; [congruence..|lia|].
  exists (l1 ++ l2). split_and!; [by rewrite E2, E1, app_assoc|by rewrite reads_of_app, R1, R2|].
  intros acc out Hc. rewrite writes_of_app, app_assoc. auto.
Qed.

(** A step that leaves the queue alone. *)
Lemma moved_quiet t s s' : framer_ s' = framer_ s -> conn_ s' = conn_ s -> id_ s' = id_ s -> role_ s' = role_ s ->
  stopped_ s' = stopped_ s -> write_q_ s' = write_q_ s -> write_inflight_ s' = write_inflight_ s -> adds no_io s s' ->
  moved t t s s'.
Proof.
  intros Hf Hc Hi Hr Hs Hq Hw (l & E & Hl). destruct (no_io_none l Hl) as [Ew Er]. split; try done; [by rewrite Hq|]. exists l. split_and!; [done|done|].
  intros acc out [H1 H2 H3 H4 H5 H6]. rewrite Ew, app_nil_r. unfold pending_bytes in *. cbn in *.
  split; cbn; unfold pending_bytes; rewrite ?Hs, ?Hc, ?Hq, ?Hw; done.
Qed.

Lemma moved_same t s s' : same s s' -> adds no_io s s' -> moved t t s s'.
Proof. intros [] A. by apply moved_quiet. Qed.

(** A message is queued and, if the transport is idle, its write starts. *)
Lemma moved_send t b r s s' w : stopped_ s = false -> is_Some (conn_ s) -> 1 <= zlen w < 2 ^ 64 -> send_built b r s = Ok s' ->
  write_q_ s' = write_q_ s ++ [mk_pending w 0] -> moved t (t ++ w) s s'.
Proof.
  intros Hs Hc Hw. unfold send_built. destruct (b (msg_factory_ s)) as [w0 f]. set (s0 := s <| msg_factory_ := f |>).
  unfold send_message_. change (stopped_ s0) with (stopped_ s). rewrite Hs.
  destruct (send_bytes_spec w0 s0 Hs Hc) as (s1 & E1 & K & (l & El & Hl) & Est & _ & Eq & Ei). rewrite E1, ok_bind.
  intros E Hq. apply bind_ok in E as (s2 & E2 & [= <-]).
  assert (E2' : exists st, s2 = s1 <| store_ := st |>).
  { destruct r; [injection E2 as <-; exists (store_ s1); by destruct s1|]. apply bind_ok in E2 as (st & _ & [= <-]). by exists st. }
  destruct E2' as (st & ->). clear E2. set (s2 := s1 <| store_ := st |>) in *.
  assert (Eq' : write_q_ s2 = write_q_ (if established (state_ s2) then schedule_heartbeat_ s2 else s2)) by by destruct (established _).
  rewrite <- Eq' in Hq. unfold s2 in Hq. change (write_q_ s1 = write_q_ s ++ [mk_pending w 0]) in Hq.
  rewrite Eq in Hq. change (write_q_ s0) with (write_q_ s) in Hq. apply app_inv_head in Hq. injection Hq as ->.
  apply (moved_trans t (t ++ w) (t ++ w) s s1).
  - split; [exact (kp_framer _ _ K)|exact (kp_conn _ _ K)|exact (kp_id _ _ K)|exact (kp_role _ _ K)| |].
    { rewrite Eq, !zlen_app. change (zlen [_]) with 1. change (write_q_ s0) with (write_q_ s). lia. } exists l. split_and!; [exact El| |].
    + clear -Hl. induction l as [|e l IH]; [done|]. apply andb_true_iff in Hl as [He Hl]. by destruct e as [|[]|[]| | | | | |]; try done; apply IH.
    + intros acc out Ic. assert (I0 : channel_ok t (mk_channel s0 acc out)) by (destruct Ic; by split).
      destruct (send_step t w _ I0 (proj2 Hw)) as (c' & Ec & I'). cbn [write_step ch_session] in Ec. rewrite E1, ok_bind in Ec. injection Ec as <-.
      unfold new_writes in I'. rewrite El, zdrop_app_exact in I'. exact I'.
  - apply moved_quiet; try by destruct (established _).
    assert (A : adds no_io s2 (if established (state_ s2) then schedule_heartbeat_ s2 else s2)).
    { destruct (established _); [|reflexivity]. unfold schedule_heartbeat_. etransitivity; by apply adds_emit. }
    exact A.
Qed.

(** ** Sending *)

(** What a message on the wire says. *)
Definition message_of (w : bytes) : ValidMessage :=
  match parse w with Ok (fs, _) => make_valid_message_view fs | Err _ => make_valid_message_view [] end.

(** Room for one more message after [n]. *)
Definition room (n : Z) : Prop := (n + 2) * Max_Wire < 2 ^ 31.

(** A session that has sent [ms], expects number [k], has handled the messages [hs], and is in
    state [st] with the recovery cache [c]. *)
Record steady (own : SessionParameters) (ms : list Outbound) (k : Z) (hs : list ValidMessage) (st : SessionState) (c : RecoveryCache)
    (s : Session) : Prop := {
  sd_ok : session_ok s (sent_wires own ms);
  sd_state : state_ s = st;
  sd_params : params_ s = own;
  sd_next : next_in (seqs s) = k;
  sd_cache : recovery_cache_ s = c;
  sd_handled : handled s = hs;
  sd_id : 0 <= id (id_ s) < 2 ^ 64;
  sd_test_req : 0 <= test_req_id_ s < 2 ^ 64
}.

(** A session that is logged on: it has sent [ms] and handled the messages [got], all there were. *)
Record active (own : SessionParameters) (ms : list Outbound) (got : list bytes) (s : Session) : Prop := {
  ac_empty : RecoveryCache.empty (recovery_cache_ s) = true;
  ac_steady : steady own ms (zlen got + 1) (message_of <$> got) ACTIVE (recovery_cache_ s) s
}.

Lemma active_intro own ms k hs got c s : steady own ms k hs ACTIVE c s -> RecoveryCache.empty c = true -> k = zlen got + 1 -> hs = message_of <$> got ->
  active own ms got s.
Proof. intros A Hc -> ->. pose proof (sd_cache _ _ _ _ _ _ _ A) as E. subst c. by split. Qed.

(** Assignments and effects that concern neither the messages nor the sequence numbers. *)
Lemma steady_same own ms k hs st c s s' : steady own ms k hs st c s -> same s s' -> handled s' = handled s -> steady own ms k hs st c s'.
Proof.
  intros [I Hst Hp Hn Hca Hh Hi Ht] S Hh'. pose proof (same_ok _ _ _ S I). destruct S. unfold seqs in *.
  split; unfold seqs; congruence.
Qed.
Lemma active_same own ms got s s' : active own ms got s -> same s s' -> handled s' = handled s -> active own ms got s'.
Proof.
  intros [Hc A] S Hh. apply (active_intro own ms (zlen got + 1) (message_of <$> got) got (recovery_cache_ s)); try done.
  by apply (steady_same _ _ _ _ _ _ s).
Qed.
Lemma active_spec own ms got s : active own ms got s -> session_ok s (sent_wires own ms) /\ state_ s = ACTIVE /\ params_ s = own /\
  next_in (seqs s) = zlen got + 1 /\ RecoveryCache.empty (recovery_cache_ s) = true /\ handled s = message_of <$> got /\
  0 <= id (id_ s) < 2 ^ 64 /\ 0 <= test_req_id_ s < 2 ^ 64.
Proof. intros [Hc [? ? ? ? ? ? ? ?]]. repeat (split; [assumption|]); assumption. Qed.

(** The messages [hs], the first of them with number [k + 1]. *)
Definition wires_from (p : SessionParameters) (k : Z) (hs : list Outbound) : list bytes :=
  imap (fun i m => outbound_bytes p m (k + Z.of_nat i + 1)) hs.
Lemma wires_from_cons p k m hs : wires_from p k (m :: hs) = outbound_bytes p m (k + 1) :: wires_from p (k + 1) hs.
Proof.
  unfold wires_from. rewrite imap_cons. replace (k + Z.of_nat 0 + 1) with (k + 1) by lia. apply (f_equal (cons _)), imap_ext.
  intros i x _. unfold compose. by replace (k + Z.of_nat (S i) + 1) with (k + 1 + Z.of_nat i + 1) by lia.
Qed.
Lemma wires_from_app p k hs hs' : wires_from p k (hs ++ hs') = wires_from p k hs ++ wires_from p (k + zlen hs) hs'.
Proof.
  revert k. induction hs as [|m hs IH]; intros k; [change (zlen []) with 0; by rewrite Z.add_0_r|].
  cbn [app]. rewrite !wires_from_cons, IH, zlen_cons. assert (k + 1 + zlen hs = k + (1 + zlen hs)) as -> by lia. reflexivity.
Qed.

(** A session that had sent [ms] has sent [rs] since. *)
Record advanced (own : SessionParameters) (ms rs : list Outbound) (s s' : Session) : Prop := {
  ad_role : role_ s' = role_ s;
  ad_id : id_ s' = id_ s;
  ad_queue : queued s' = queued s ++ wires_from own (zlen ms) rs
}.
Lemma advanced_same own ms s s' : role_ s' = role_ s -> id_ s' = id_ s -> write_q_ s' = write_q_ s -> advanced own ms [] s s'.
Proof. intros Hr Hi Hq. split; [done|done|]. unfold queued. by rewrite Hq, app_nil_r. Qed.
Lemma advanced_trans own ms rs rs' s1 s2 s3 : advanced own ms rs s1 s2 -> advanced own (ms ++ rs) rs' s2 s3 -> advanced own ms (rs ++ rs') s1 s3.
Proof.
  intros [R1 I1 Q1] [R2 I2 Q2]. split; [congruence|congruence|]. by rewrite Q2, Q1, wires_from_app, zlen_app, <- app_assoc.
Qed.
Lemma advanced_one own m ms t t' s s' : moved t t' s s' -> write_q_ s' = write_q_ s ++ [mk_pending (outbound_bytes own m (zlen ms + 1)) 0] ->
  advanced own ms [m] s s'.
Proof. intros M Hq. split; [apply M|apply M|]. unfold queued. rewrite Hq, fmap_app, wires_from_cons. done. Qed.

Section Traffic.
Context (own peer : SessionParameters) (h : Z).
Hypothesis P : parties own peer h.

(** The effect of a send, which the code may spell [m'], on the history. *)
Lemma steady_send_as m' m ms k hs st c s : steady own ms k hs st c s -> Forall (outgoing h) ms -> outgoing h m -> room (zlen ms) ->
  (forall q, outbound_bytes own m' q = outbound_bytes own m q) -> app_fields_ok m' -> sendable m' ->
  exists s', send_built (build clock own m') false s = Ok s' /\ steady own (ms ++ [m]) k hs st c s' /\
    moved (concat (sent_wires own ms)) (concat (sent_wires own (ms ++ [m]))) s s' /\
    write_q_ s' = write_q_ s ++ [mk_pending (outbound_bytes own m (zlen ms + 1)) 0].
Proof using P.
  intros [I Hst Hp Hn Hca Hh Hi Ht] Hms Hm Hr Ew Ha Hs. pose proof (zlen_nonneg ms). unfold room, Max_Wire in Hr.
  pose proof (sent_wires_bytes own peer h P ms Hms ltac:(lia)) as Hb. unfold Max_Wire in Hb.
  destruct (wire_size own peer h P m (zlen ms + 1) Hm ltac:(lia)) as [_ Hsz]. pose proof (min_wire_pos own); unfold Max_Wire in Hsz.
  pose proof (send_outbound m' s _ I Ha Hs) as Hsend. rewrite sent_wires_length, Hp, Ew in Hsend.
  destruct Hsend as (s' & E & I' & K & A & Hq); [lia|lia|].
  assert (Ec : concat (sent_wires own (ms ++ [m])) = concat (sent_wires own ms) ++ outbound_bytes own m (zlen ms + 1))
    by (rewrite sent_wires_snoc, concat_app; cbn [concat]; by rewrite app_nil_r).
  exists s'. split; [exact E|]. split; [|split; [|exact Hq]].
  - pose proof (handled_adds _ _ (send_not_handled _ _ A)). destruct K. rewrite <- sent_wires_snoc in I'. split; congruence.
  - rewrite Ec. eapply moved_send; [apply I|apply I|lia|exact E|exact Hq].
Qed.

Lemma steady_send m ms k hs st c s : steady own ms k hs st c s -> Forall (outgoing h) ms -> outgoing h m -> room (zlen ms) ->
  exists s', send_built (build clock own m) false s = Ok s' /\ steady own (ms ++ [m]) k hs st c s' /\
    moved (concat (sent_wires own ms)) (concat (sent_wires own (ms ++ [m]))) s s' /\
    write_q_ s' = write_q_ s ++ [mk_pending (outbound_bytes own m (zlen ms + 1)) 0].
Proof using P.
  intros A Hms Hm Hr. destruct (outgoing_ok own peer h P m Hm) as (_ & Hs & Ha). by apply steady_send_as.
Qed.

Lemma active_send m ms got s : active own ms got s -> history h ms -> traffic m -> room (zlen ms) ->
  exists s', send_built (build clock own m) false s = Ok s' /\ active own (ms ++ [m]) got s' /\
    moved (concat (sent_wires own ms)) (concat (sent_wires own (ms ++ [m]))) s s'.
Proof using P.
  intros [Hc A] Hms Hm Hr. destruct (steady_send m _ _ _ _ _ _ A (history_outgoing _ _ Hms) (traffic_outgoing _ _ Hm) Hr) as (s' & E & A' & M & _).
  exists s'. split_and!; [exact E|by eapply active_intro|exact M].
Qed.

Definition header_tags : list Z := [8; 9; 35; 34; 49; 56; 52].

(** What is known of a message of type [type] with number [q] and the further fields [extra]. *)
Record readable_as (type : bytes) (q : Z) (extra fs : GenericMessage) : Prop := {
  ra_size : zlen (message_ (make_valid_message_view fs)) < 2 ^ 30;
  ra_conforms : exists sc, conforms (make_valid_message_view fs) own type sc;
  ra_has_seq : has_msg_seq_num (header_cache_ (make_valid_message_view fs)) = true;
  ra_seq : msg_seq_num (header_cache_ (make_valid_message_view fs)) = q;
  ra_field : forall t v l1 l2, extra = l1 ++ mk_field t v :: l2 -> (t ∉ header_tags ++ (tag <$> l1)) ->
    find_field t (make_valid_message_view fs) = Some v
}.

(** What the other side has put in a frame is read back. *)
Lemma frame_back type q extra : let body := header_fields clock peer type q ++ extra in
  Forall field_ok body -> 0 <= q < 2 ^ 32 -> zlen (fields_wire body) < 10 ^ 10 -> zlen extra < 2 ^ 20 ->
  (forall v9 ck, is_int_type v9 = true -> is_int_type ck = true -> exists s,
     conforms (make_valid_message_view ((mk_field 8 DEFAULT_FIX_VERSION :: mk_field 9 v9 :: body) ++ [mk_field 10 ck])) (peer_params peer) type s) ->
  exists fs, parse (frame_wire DEFAULT_FIX_VERSION (fields_wire body)) = Ok (fs, []) /\ readable_as type q extra fs.
Proof using P.
  intros body Hok Hq Hl Hx Hcf. destruct (pa_faces _ _ _ P) as [Es Et].
  destruct (wire_read_back clock peer type q extra Hok ltac:(lia) Hl Hcf) as (ck & Ep & (sc & Hc) & Hh & Hn). cbv zeta in Ep, Hc, Hh, Hn. fold body in Ep, Hc, Hh, Hn.
  set (d := to_dec _) in *. set (fs := (mk_field 8 _ :: _) ++ [mk_field 10 ck]) in *.
  exists fs. split; [exact Ep|]. split; [|by exists sc; apply (conforms_ids _ (peer_params peer))|exact Hh|exact Hn|].
  - unfold fs, body. cbn [message_ make_valid_message_view]. rewrite zlen_app, !zlen_cons, zlen_app.
    change (zlen (header_fields clock peer type q)) with 5. change (zlen []) with 0. lia.
  - intros t v l1 l2 -> Hnot. unfold find_field, fs, body. cbn [message_ make_valid_message_view].
    set (l0 := mk_field 8 DEFAULT_FIX_VERSION :: mk_field 9 d :: header_fields clock peer type q).
    change (mk_field 8 DEFAULT_FIX_VERSION :: mk_field 9 d :: header_fields clock peer type q ++ l1 ++ mk_field t v :: l2)
      with (l0 ++ l1 ++ mk_field t v :: l2).
    rewrite app_assoc, <- app_assoc. change ((mk_field t v :: l2) ++ [mk_field 10 ck]) with (mk_field t v :: l2 ++ [mk_field 10 ck]).
    rewrite find_field_app; [cbn; by rewrite Z.eqb_refl|]. rewrite fmap_app. exact Hnot.
Qed.

(** What the other side has sent is read back. *)
Lemma read_back m q : outgoing h m -> 0 <= q < 2 ^ 32 ->
  exists fs, parse (outbound_bytes peer m q) = Ok (fs, []) /\ readable_as (type_of m) q (fields_of peer m) fs.
Proof using P.
  intros Hm Hq. pose proof (parties_sym _ _ _ P) as P'. destruct (outgoing_ok peer own h P' m Hm) as (Ha & Hs & _).
  pose proof (body_size peer own h P' m q Hm Hq) as Hb. pose proof (pa_ids _ _ _ P') as Hids. unfold ids_ok in Hids.
  apply frame_back; [apply outbound_fields_ok; [apply P|apply P|done]|done|unfold outbound_body in Hb; lia| |].
  - destruct Hm as [->|[Ht|Ht]]; [by vm_compute|destruct m; try done..]; unfold fields_of, opt_field; try destruct (_ =? 0); by vm_compute.
  - intros v9 ck H9 Hck. by apply (outbound_conforms clock peer (pa_peer_enc _ _ _ P)).
Qed.

(** ** Answering *)

(** The text of a session in its custom messages. *)
Definition readable (i : SessionID) : bytes :=
  sender_comp_id own ++ B "<->" ++ target_comp_id own ++ B " [" ++ to_dec (id i) ++ B "]".

(** What a session in role [r] with identity [i] answers to [m]. *)
Definition reply (r : Role) (i : SessionID) (m : Outbound) : option Outbound :=
  match m with
  | OLogon _ _ => if bool_decide (r = ACCEPTOR) then Some (logon_of h) else None
  | OTestRequest id => Some (OHeartbeat id)
  | OCustom p => match find (B "custom_response") p 0 with
                 | Some _ => None
                 | None => Some (OCustom (B "custom_response from" ++ readable i))
                 end
  | _ => None
  end.

Lemma reply_traffic r i m m' : traffic m -> 0 <= id i < 2 ^ 64 -> reply r i m = Some m' -> traffic m'.
Proof using P.
  intros Hm Hi. destruct m as [| |t| | | | |p|]; try done; cbn [reply].
  - intros [= <-]. destruct Hm as [[_ ?] ?]. by split.
  - destruct (find _ p 0); [done|]. intros [= <-]. destruct (pa_text _ _ _ P) as [_ [_ Hs] [_ Ht] _]. pose proof (pa_ids _ _ _ P) as Hids. unfold ids_ok in Hids.
    assert (Hno : SOH ∉ (B "custom_response from" ++ readable i)).
    { assert (Hd : SOH ∉ to_dec (id i)) by (apply not_digit_notin; [apply to_dec_digits; lia|done]).
      assert (Hc : forall l : bytes, bool_decide (SOH ∉ l) = true -> SOH ∉ l) by (intros l Hl; exact (bool_decide_eq_true_1 _ Hl)).
      unfold readable. rewrite !not_elem_of_app. split_and!; first [assumption|apply Hc; reflexivity]. }
    assert (Hl : zlen (B "custom_response from" ++ readable i) <= Max_Text).
    { unfold readable, Max_Text. rewrite !zlen_app. pose proof (to_dec_length (id i) ltac:(lia) 20 ltac:(lia) ltac:(lia)).
      change (zlen (B "custom_response from")) with 20. change (zlen (B "<->")) with 3. change (zlen (B " [")) with 2. change (zlen (B "]")) with 1. lia. }
    by split.
Qed.

(** The answer is quiet: it is not answered in turn. *)
Lemma reply_quiet r i m m' r' i' : traffic m -> reply r i m = Some m' -> reply r' i' m' = None.
Proof using.
  intros Hm. destruct m as [| |t| | | | |p|]; try done; cbn [reply].
  - by intros [= <-].
  - destruct (find _ p 0); [done|]. intros Em. assert (m' = OCustom (B "custom_response from" ++ readable i)) as -> by congruence.
    clear Em. cbn [reply]. pose proof (find_here (B "custom_response") [] (B " from" ++ readable i)) as E.
    change (find (B "custom_response") (B "custom_response from" ++ readable i) 0 = Some 0) in E. by rewrite E.
Qed.

(** The handler for [m], whose fields are in [vm]. *)
Lemma steady_reply m ms k hs st c s : steady own ms k hs st c s -> Forall (outgoing h) ms -> traffic m -> room (zlen ms) ->
  forall vm, (forall t v, fields_of peer m = [mk_field t v] -> (t ∉ header_tags) -> find_field t vm = Some v) ->
  let rs := option_list (reply (role_ s) (id_ s) m) in
  exists s', match m with OHeartbeat _ => handle_heartbeat vm s | OTestRequest _ => handle_test_request vm s | _ => handle_custom vm s end = Ok s' /\
    steady own (ms ++ rs) k hs st c s' /\ moved (concat (sent_wires own ms)) (concat (sent_wires own (ms ++ rs))) s s' /\ advanced own ms rs s s'.
Proof using P.
  intros A Hms Hm Hr vm Hf rs. assert (Hno : forall t : Z, bool_decide (t ∉ header_tags) = true -> t ∉ header_tags)
    by (intros t Ht; exact (bool_decide_eq_true_1 _ Ht)).
  pose proof (sd_params _ _ _ _ _ _ _ A) as Hp. pose proof (sd_id _ _ _ _ _ _ _ A) as Hi.
  assert (Hsend : forall m', reply (role_ s) (id_ s) m = Some m' -> exists s', send_built (build clock own m') false s = Ok s' /\
    steady own (ms ++ [m']) k hs st c s' /\ moved (concat (sent_wires own ms)) (concat (sent_wires own (ms ++ [m']))) s s' /\ advanced own ms [m'] s s').
  { intros m' Er. pose proof (traffic_outgoing h m' (reply_traffic _ _ _ _ Hm Hi Er)) as Ho.
    destruct (steady_send m' ms k hs st c s A Hms Ho Hr) as (s' & E & A' & M & Q).
    exists s'. split_and!; [exact E|exact A'|exact M|by eapply advanced_one]. }
  unfold rs. destruct m as [|t|t| | | | |p|]; try done; cbn [reply] in *.
  - cbn [option_list]. rewrite app_nil_r. eexists. split; [reflexivity|]. split_and!.
    + by apply (steady_same own ms k hs st c s).
    + apply moved_quiet; try done. exists []. by rewrite app_nil_r.
    + by apply advanced_same.
  - unfold handle_test_request, required_field. rewrite (Hf 112 t eq_refl (Hno 112 eq_refl)), ok_bind. cbn [option_list].
    replace (send_heartbeat t s) with (send_built (build clock own (OHeartbeat t)) false s) by (unfold send_heartbeat; by rewrite Hp).
    by apply Hsend.
  - unfold handle_custom. rewrite (Hf 9250 p eq_refl (Hno 9250 eq_refl)). change (default [] (Some p)) with p. cbv zeta. destruct (find (B "custom_response") p 0); cbn [option_list].
    + rewrite app_nil_r. exists s. split_and!; [done|done|apply moved_refl|by apply advanced_same].
    + replace (send_custom (B "custom_response from" ++ readable_id s) s) with (send_built (build clock own (OCustom (B "custom_response from" ++ readable (id_ s)))) false s)
        by (unfold send_custom, readable_id; by rewrite Hp).
      by apply Hsend.
Qed.

(** ** Processing one message *)

(** The message is counted and passed to its handler. *)
Lemma steady_counted vm ms k hs st c s : steady own ms k hs st c s -> 0 <= k < 2 ^ 63 ->
  let s' := emit (EHandled vm) (set_seqs (update_in (k + 1) (seqs s)) s) in
  steady own ms (k + 1) (hs ++ [vm]) st c s' /\ forall t, moved t t s s'.
Proof using.
  intros [I Hst Hp Hn Hca Hh Hi Ht] Hk s'.
  destruct (set_next_in_ok s (sent_wires own ms) (k + 1) I ltac:(lia)) as [I' N']. split.
  - split; try done; [by destruct I'; split|].
    unfold handled, s', emit. cbn [upd effects_]. unfold handled_of. rewrite omap_app. f_equal. exact Hh.
  - intros t. apply moved_quiet; try done. by exists [EHandled vm].
Qed.

Lemma handle_traffic m vm s : traffic m -> handle (type_of m) vm s =
  match m with OHeartbeat _ => handle_heartbeat vm | OTestRequest _ => handle_test_request vm | _ => handle_custom vm end (emit (EHandled vm) s).
Proof using. by destruct m. Qed.

(** A valid message in sequence gets to its handler; the timers aside, it has been counted. *)
Lemma steady_dispatch t x fs raw ms k hs st c s : steady own ms k hs st c s -> may_come st t -> 0 <= k < 2 ^ 63 ->
  readable_as t k x fs -> let vm := make_valid_message_view fs in
  exists s1, dispatch fs raw s = handle t vm s1 /\ steady own ms (k + 1) (hs ++ [vm]) st c (emit (EHandled vm) s1) /\
    (forall b, moved b b s (emit (EHandled vm) s1)) /\ write_q_ s1 = write_q_ s.
Proof using.
  intros A Hst Hk [Hsz (sc & Hc) Hh Hn _] vm. fold vm in Hsz, Hc, Hh, Hn. pose proof (sd_params _ _ _ _ _ _ _ A) as Hp. rewrite <- Hp in Hc.
  destruct (dispatch_valid k raw vm fs t sc s Hc Hsz Hh Hn eq_refl (so_live _ _ (sd_ok _ _ _ _ _ _ _ A)))
    as (s1 & dup & Ed & S & Ai); [by rewrite (sd_state _ _ _ _ _ _ _ A)|].
  assert (A1 : steady own ms k hs st c s1).
  { apply (steady_same own ms k hs st c s); [done|done|]. apply handled_adds. revert Ai. apply adds_weaken. by intros []. }
  assert (M1 : forall b, moved b b s s1) by (intros b; apply moved_same; [done|]; revert Ai; apply adds_weaken; by intros []).
  destruct (steady_counted vm ms k hs st c s1 A1 Hk) as [A2 M2].
  exists (set_seqs (update_in (k + 1) (seqs s1)) s1). split_and!; [|exact A2|intros b; eapply moved_trans; [apply M1|apply M2]|apply S].
  rewrite Ed. unfold check_sequence. by rewrite (sd_next _ _ _ _ _ _ _ A1), Z.eqb_refl.
Qed.

(** Traffic in sequence is answered if it asks for it. *)
Lemma dispatch_traffic m x fs raw ms k hs st c s : steady own ms k hs st c s -> established st = true -> 0 <= k < 2 ^ 63 ->
  Forall (outgoing h) ms -> traffic m -> room (zlen ms) -> readable_as (type_of m) k (fields_of peer m ++ x) fs ->
  let vm := make_valid_message_view fs in let rs := option_list (reply (role_ s) (id_ s) m) in
  exists s', dispatch fs raw s = Ok s' /\ steady own (ms ++ rs) (k + 1) (hs ++ [vm]) st c s' /\
    moved (concat (sent_wires own ms)) (concat (sent_wires own (ms ++ rs))) s s' /\ advanced own ms rs s s'.
Proof using P.
  intros A Hst Hk Hms Hm Hr R vm rs.
  destruct (steady_dispatch (type_of m) _ fs raw ms k hs st c s A (or_introl Hst) Hk R) as (s1 & -> & A1 & M1 & Q1). fold vm in A1, M1 |- *.
  destruct (steady_reply m ms (k + 1) (hs ++ [vm]) st c _ A1 Hms Hm Hr vm) as (s3 & E3 & A3 & M3 & D3).
  { intros t v Ef Ht. apply (ra_field _ _ _ _ R t v [] x); [by rewrite Ef|by rewrite app_nil_r]. }
  assert (Er : reply (role_ (emit (EHandled vm) s1)) (id_ (emit (EHandled vm) s1)) m = reply (role_ s) (id_ s) m)
    by (by rewrite (mv_role _ _ _ _ (M1 [])), (mv_id _ _ _ _ (M1 []))).
  rewrite Er in A3, M3, D3. exists s3. split_and!; [|exact A3|eapply moved_trans; [apply M1|exact M3]|].
  2: { apply (advanced_trans own ms [] _ _ (emit (EHandled vm) s1)); [|by rewrite app_nil_r]. apply advanced_same; [apply (M1 [])|apply (M1 [])|exact Q1]. }
  rewrite handle_traffic, <- E3 by done. by destruct m.
Qed.

(** A message of the other side: it is parsed, accepted, counted, and answered if it asks for it. *)
Lemma process_traffic m ms got s : active own ms got s -> history h ms -> traffic m -> room (zlen ms) -> zlen got + 2 < 2 ^ 32 ->
  let w := outbound_bytes peer m (zlen got + 1) in let ms' := ms ++ option_list (reply (role_ s) (id_ s) m) in
  exists s', process_wire_message_ w s = Ok s' /\ active own ms' (got ++ [w]) s' /\
    moved (concat (sent_wires own ms)) (concat (sent_wires own ms')) s s'.
Proof using P.
  intros [He A] Hms Hm Hr Hg w ms'. pose proof (zlen_nonneg got).
  destruct (read_back m (zlen got + 1)) as (fs & Ep & R); [by apply traffic_outgoing|lia|]. fold w in Ep. rewrite <- (app_nil_r (fields_of peer m)) in R.
  destruct (dispatch_traffic m [] fs w ms (zlen got + 1) _ ACTIVE _ s A eq_refl ltac:(lia) (history_outgoing _ _ Hms) Hm Hr R) as (s' & E & A' & M & _).
  exists s'. split_and!; [| |exact M].
  - unfold process_wire_message_. rewrite Ep, ok_bind. cbv beta iota. rewrite E, ok_bind. unfold drain_recovery_cache_.
    by rewrite (sd_cache _ _ _ _ _ _ _ A'), He.
  - eapply active_intro; [exact A'|exact He|by rewrite zlen_app|]. rewrite fmap_app. cbn. unfold message_of at 3. by rewrite Ep.
Qed.

(** ** The Logon *)

(** A steady session in another state. *)
Lemma steady_state st' ms k hs st c s : steady own ms k hs st c s -> steady own ms k hs st' c (s <| state_ := st' |>).
Proof using. intros [I ? ? ? ? ? ? ?]. split; try done. destruct I. by split. Qed.

(** The timers are armed, and the session is active. *)
Lemma steady_activated ms k hs st c s : steady own ms k hs st c s ->
  let s' := schedule_test_request_timeout_ (schedule_heartbeat_ ((emit (ECancel LogonTimer) s) <| state_ := ACTIVE |>)) in
  steady own ms k hs ACTIVE c s' /\ advanced own ms [] s s'.
Proof using.
  intros A s'. split; [|by apply advanced_same]. apply (steady_same own ms k hs ACTIVE c (s <| state_ := ACTIVE |>)).
  - by apply (steady_state ACTIVE ms k hs st).
  - by split.
  - apply (handled_adds (s <| state_ := ACTIVE |>) s'). exists (activation (heart_beat_int (params_ s))). split; [|done].
    exact (activate_effects s _ eq_refl).
Qed.

(** A Logon is answered by an acceptor; both become active.  The session may have sent and
    handled messages before, on another connection. *)
Lemma handle_logon_steady vm ms k hs st c s : steady own ms k hs st c s -> Forall (outgoing h) ms -> room (zlen ms) ->
  find_field 108 vm = Some (to_chars h) -> find_field 141 vm = Some (B "N") ->
  let rs := option_list (reply (role_ s) (id_ s) (logon_of h)) in
  exists s', handle_logon vm s = Ok s' /\ steady own (ms ++ rs) k hs ACTIVE c s' /\ advanced own ms rs s s'.
Proof using P.
  intros A Hms Hr H108 H141 rs. pose proof (sd_params _ _ _ _ _ _ _ A) as Hp. pose proof (pa_beat _ _ _ P) as Hbeat. pose proof (pa_range _ _ _ P).
  assert (Hpb : (params_ s) <| heart_beat_int := h |> = params_ s) by (rewrite Hp; clear -Hbeat; destruct own; cbn in *; by subst).
  unfold handle_logon, required_field. rewrite H108, ok_bind. set (s1 := log fix_info (B "Logon received") s).
  change (role_ s1) with (role_ s). rewrite heartbeat_valid by (done || by intros _; change (params_ s1) with (params_ s); rewrite Hp).
  change (params_ s1) with (params_ s). rewrite Hpb. set (s2 := s1 <| params_ := params_ s |>). change (role_ s2) with (role_ s).
  rewrite H141, bool_decide_false by done. cbn [negb andb].
  assert (A2 : steady own ms k hs st c s2).
  { apply (steady_same own ms k hs st c s); [done|by split|]. apply (handled_adds s s2). exists [ELog fix_info (B "Logon received") None]. by split. }
  unfold rs. destruct (role_ s) eqn:Ero; cbn [reply logon_of option_list].
  - rewrite bool_decide_false, app_nil_r by done. destruct (steady_activated _ _ _ _ _ _ A2) as [A3 D3].
    eexists. split; [reflexivity|]. split; [exact A3|by destruct D3].
  - set (s3 := s2 <| state_ := LOGON_RECEIVED |>). pose proof (steady_state LOGON_RECEIVED _ _ _ _ _ _ A2) as A3. fold s3 in A3.
    rewrite bool_decide_true by done. cbn [option_list].
    destruct (steady_send (logon_of h) ms k hs _ c s3 A3 Hms ltac:(by left) Hr) as (s4 & E4 & A4 & M4 & Q4).
    replace (send_logon false s3) with (send_built (build clock own (logon_of h)) false s3)
      by (rewrite send_logon_small; change (params_ s3) with (params_ s); rewrite Hp, Hbeat; [done|lia]).
    rewrite E4, ok_bind. assert (A5 : steady own (ms ++ [logon_of h]) k hs LOGON_RECEIVED c (log fix_info (B "Logon response sent") s4)).
    { apply (steady_same _ _ _ _ _ _ s4); [done|by split|]. apply (handled_adds s4). exists [ELog fix_info (B "Logon response sent") None]. by split. }
    destruct (steady_activated _ _ _ _ _ _ A5) as [A6 D6]. eexists. split; [reflexivity|]. split; [exact A6|].
    apply (advanced_trans own ms [logon_of h] [] s s4); [|by destruct D6].
    by destruct (advanced_one own (logon_of h) ms _ _ s3 s4 M4 Q4).
Qed.

(** Traffic, or a Logon. *)
Definition held (m : Outbound) : Prop := traffic m \/ m = logon_of h.
Definition state_after (m : Outbound) (st : SessionState) : SessionState := match m with OLogon _ _ => ACTIVE | _ => st end.

Lemma held_outgoing m : held m -> outgoing h m.
Proof using. intros [Ht| ->]; [by apply traffic_outgoing|by left]. Qed.

Lemma dispatch_held m fs raw ms k hs st c s : steady own ms k hs st c s -> (m = logon_of h \/ established st = true) -> 0 <= k < 2 ^ 63 ->
  Forall (outgoing h) ms -> held m -> room (zlen ms) -> readable_as (type_of m) k (fields_of peer m) fs ->
  let vm := make_valid_message_view fs in let rs := option_list (reply (role_ s) (id_ s) m) in
  exists s', dispatch fs raw s = Ok s' /\ steady own (ms ++ rs) (k + 1) (hs ++ [vm]) (state_after m st) c s' /\ advanced own ms rs s s'.
Proof using P.
  intros A Hst Hk Hms [Hm| ->] Hr R vm rs; cycle 1.
  - destruct (steady_dispatch (B "A") _ fs raw ms k hs st c s A (or_intror eq_refl) Hk R) as (s1 & -> & A1 & M1 & Q1). fold vm in A1, M1 |- *.
    set (s2 := emit (EHandled vm) s1) in *. change (handle (B "A") vm s1) with (handle_logon vm s2).
    assert (Hf : forall t v l1 l2, fields_of peer (logon_of h) = l1 ++ mk_field t v :: l2 -> bool_decide (t ∉ header_tags ++ (tag <$> l1)) = true ->
      find_field t vm = Some v) by (intros t v l1 l2 E Ht; apply (ra_field _ _ _ _ R t v l1 l2 E); exact (bool_decide_eq_true_1 _ Ht)).
    destruct (handle_logon_steady vm ms (k + 1) (hs ++ [vm]) st c s2 A1 Hms Hr) as (s' & E & A' & D);
      [apply (Hf _ _ [_; _] [] eq_refl); reflexivity|apply (Hf _ _ [_] [_] eq_refl); reflexivity|].
    assert (D0 : advanced own ms [] s s2) by (apply advanced_same; [apply (M1 [])|apply (M1 [])|exact Q1]).
    rewrite (ad_role _ _ _ _ _ D0), (ad_id _ _ _ _ _ D0) in A', D.
    exists s'. split_and!; [exact E|exact A'|]. apply (advanced_trans own ms [] _ _ s2); [exact D0|by rewrite app_nil_r].
  - destruct Hst as [->|Hst]; [done|]. rewrite <- (app_nil_r (fields_of peer m)) in R.
    destruct (dispatch_traffic m [] fs raw ms k hs st c s A Hst Hk Hms Hm Hr R) as (s' & E & A' & _ & D).
    exists s'. split_and!; [exact E| |exact D]. by destruct m.
Qed.

(** A session that has started and not received the Logon of the other side. *)
Record starting (ms : list Outbound) (s : Session) : Prop := {
  sg_ok : session_ok s (sent_wires own ms);
  sg_state : established (state_ s) = false;
  sg_next : next_in (seqs s) = 1;
  sg_cache : RecoveryCache.empty (recovery_cache_ s) = true;
  sg_handled : handled s = [];
  sg_id : 0 <= id (id_ s) < 2 ^ 64;
  sg_test_req : 0 <= test_req_id_ s < 2 ^ 64;
  sg_role : (role_ s = INITIATOR /\ ms = [logon_of h] /\ params_ s = own) \/
    (role_ s = ACCEPTOR /\ ms = [] /\ own = (params_ s) <| heart_beat_int := h |> /\ write_q_ s = [] /\ write_inflight_ s = false)
}.

(** [t] is [s] after [handle_logon]. *)
Lemma logged_on_active ms vm w v s t : starting ms s -> message_of w = vm -> logged_on t h -> session_ok t [outbound_bytes own (logon_of h) 1] ->
  params_ t = own -> kept_by_logon (counted vm v s) t -> (exists l, effects_ t = effects_ (counted vm v s) ++ l /\ forallb not_handled l = true) ->
  active own [logon_of h] [w] t.
Proof using.
  intros [_ _ _ Hca Hh Hi Ht _] Ew [Hst _ _ Hn _] I Hp K (l & El & Hl).
  assert (A : adds not_handled (counted vm v s) t) by by exists l. split; [by rewrite (kl_cache _ _ K)|]. split; try done.
  - rewrite (handled_adds _ _ A). unfold handled, counted, emit. cbn [upd effects_]. unfold handled_of. rewrite omap_app. cbn. rewrite Ew.
    change (handled s ++ [vm] = [vm]). by rewrite Hh.
  - rewrite (kl_id _ _ K). exact Hi.
  - rewrite (kl_test_req _ _ K). exact Ht.
Qed.

(** The first message queued by a session that has sent nothing. *)
Lemma moved_first w s t l : write_q_ s = [] -> stopped_ t = false -> is_Some (conn_ s) -> kept_by_logon s t -> write_q_ t = [mk_pending w 0] ->
  write_inflight_ t = true -> effects_ t = effects_ s ++ l -> reads_of l = [] -> writes_of l = [w] -> 0 < zlen w < 2 ^ 64 -> moved [] w s t.
Proof using.
  intros Hq Ht Hc K Qt Ft El Rl Wl Hw. split; [apply K..| |].
  - rewrite Qt, Hq. change (zlen [_]) with 1. change (zlen (@nil PendingWrite)) with 0. change (zlen (@nil byte)) with 0. lia.
  - exists l. split_and!; [done|done|]. intros acc out [_ _ Hfr _ _ Htot]. cbn [ch_session ch_accepted ch_outstanding] in *.
    rewrite Hq in Hfr. subst out. unfold pending_bytes in Htot. rewrite Hq in Htot. cbn in Htot. rewrite app_nil_r in Htot. subst acc. rewrite Wl.
    split; cbn [ch_session ch_accepted ch_outstanding]; unfold pending_bytes; rewrite ?Qt; try done; [by rewrite (kl_conn _ _ K)| |].
    + constructor; [|done]. cbn [sent data]. lia.
    + cbn. by rewrite app_nil_r.
Qed.

(** A session that expects the Logon counts it and passes it to its handler. *)
Lemma first_counted ms s : starting ms s -> let w := outbound_bytes peer (logon_of h) 1 in
  exists fs v, parse w = Ok (fs, []) /\ message_of w = make_valid_message_view fs /\ logon_message (params_ s) h 1 fs /\
    dispatch fs w s = handle_logon (make_valid_message_view fs) (counted (make_valid_message_view fs) v s).
Proof using P.
  intros G w. pose proof G as [I Hst Hn Hca Hh Hi Ht Hr]. pose proof (pa_ids _ _ _ (parties_sym _ _ _ P)) as Hidp.
  assert (Hs : sender_comp_id (params_ s) = sender_comp_id own /\ target_comp_id (params_ s) = target_comp_id own).
  { destruct Hr as [(_ & _ & ->)|(_ & _ & -> & _)]; done. }
  destruct Hs as [Hs Hs']. destruct P as [To Tp Eo Ep' [Fs Ft] _ Hbo Hbp Hrange].
  destruct (logon_parsed peer (params_ s) h Tp Ep' Hidp) as (fs & Ep & L); [by split; congruence|done|].
  change (logon_bytes peer h 1) with w in Ep.
  destruct (dispatch_counted fs w h s (so_live _ _ I) Hst Hn L) as (v & Ed). exists fs, v. split_and!; try done.
  unfold message_of. by rewrite Ep.
Qed.

(** The initiator has sent its Logon, and is active. *)
Lemma first_initiator s fs v : starting [logon_of h] s -> role_ s = INITIATOR -> params_ s = own ->
  let w := outbound_bytes peer (logon_of h) 1 in let vm := make_valid_message_view fs in
  message_of w = vm -> logon_message (params_ s) h 1 fs ->
  exists t, handle_logon vm (counted vm v s) = Ok t /\ active own [logon_of h] [w] t /\ recovery_cache_ t = recovery_cache_ s /\
    forall b, moved b b s t.
Proof using P.
  intros G Hrole Hp w vm Em L. pose proof G as [I Hst Hn Hca Hh Hi Ht _]. set (s2 := counted vm v s).
  destruct (answer_logon vm h s2 (outbound_bytes own (logon_of h) 1)) as (t & Et & Hlog & It & Pt & K & Qt & Ft' & El);
    [destruct I; by split|change (u64 2 = 2); done|done|change (heart_beat_int (params_ s) = h); rewrite Hp; apply P|apply P
    |apply (lm_heartbeat _ _ _ _ L)|apply (lm_reset _ _ _ _ L)|].
  assert (Pt' : params_ t = own)
    by (rewrite Pt; change (params_ s2) with (params_ s); rewrite Hp; pose proof (pa_beat _ _ _ P) as Hb; clear -Hb; destruct own; cbn in *; by subst).
  exists t. split_and!; [done| |apply K|].
  - eapply logged_on_active; try done. eexists. split; [exact El|done].
  - intros b. apply moved_quiet; try apply K; try done; [exact (eq_trans (lo_live _ _ Hlog) (eq_sym (so_live _ _ I)))|].
    eexists. split; [rewrite El; unfold s2, counted, emit; cbn [upd effects_]; by rewrite <- app_assoc|done].
Qed.

(** The acceptor takes over the interval, answers, and is active. *)
Lemma first_acceptor s fs v : starting [] s -> role_ s = ACCEPTOR -> (params_ s) <| heart_beat_int := h |> = own -> write_q_ s = [] -> write_inflight_ s = false ->
  let w := outbound_bytes peer (logon_of h) 1 in let vm := make_valid_message_view fs in
  message_of w = vm -> logon_message (params_ s) h 1 fs ->
  exists t, handle_logon vm (counted vm v s) = Ok t /\ active own [logon_of h] [w] t /\ recovery_cache_ t = recovery_cache_ s /\
    moved [] (outbound_bytes own (logon_of h) 1) s t.
Proof using P.
  intros G Hrole Hp Hq Hf w vm Em L. pose proof G as [I Hst Hn Hca Hh Hi Ht _]. set (s2 := counted vm v s).
  destruct (so_conn _ _ I) as [c Hc]. assert (W : waiting s2 [] c 2) by (apply counted_waiting; by split).
  assert (Hid : ids_ok (params_ s)) by (pose proof (pa_ids _ _ _ P) as Hi'; by rewrite <- Hp in Hi').
  destruct (accept_logon vm h s2 c W Hrole (pa_range _ _ _ P) Hid (lm_heartbeat _ _ _ _ L) (lm_reset _ _ _ _ L)) as (t & Et & Hlog & It & Pt & K & Qt & Ft' & El).
  change (params_ s2) with (params_ s) in *. rewrite Hp in *. exists t. split_and!; [done| |apply K|].
  - eapply logged_on_active; try done. eexists. split; [exact El|done].
  - pose proof (wire_size own peer h P (logon_of h) 1 ltac:(by left) ltac:(lia)) as [_ Hw]. pose proof (min_wire_pos own). unfold Max_Wire in Hw.
    eapply (moved_first _ s t); [done|apply Hlog|by exists c|destruct K; by split|done|done| | | |lia].
    + rewrite El. unfold s2, counted, emit. cbn [upd effects_]. rewrite <- app_assoc. reflexivity.
    + done.
    + done.
Qed.

Lemma process_first ms s : starting ms s ->
  let w := outbound_bytes peer (logon_of h) 1 in let ms' := ms ++ option_list (reply (role_ s) (id_ s) (logon_of h)) in
  exists s', process_wire_message_ w s = Ok s' /\ active own ms' [w] s' /\
    moved (concat (sent_wires own ms)) (concat (sent_wires own ms')) s s'.
Proof using P.
  intros G w ms'. destruct (first_counted ms s G) as (fs & v & Ep & Em & L & Ed). fold w in Ep, Em, Ed. pose proof (sg_cache _ _ G) as Hca.
  unfold ms'. destruct (sg_role _ _ G) as [(Hrole & -> & Hp)|(Hrole & -> & Hp & Hq & Hf)]; rewrite Hrole.
  - destruct (first_initiator s fs v G Hrole Hp Em L) as (t & Et & A & Hc & M). exists t. split_and!; [|exact A|apply M].
    by apply (process_logon w fs v s t Ep Ed Et Hca).
  - destruct (first_acceptor s fs v G Hrole (eq_sym Hp) Hq Hf Em L) as (t & Et & A & Hc & M). exists t. split_and!; [|exact A|].
    + by apply (process_logon w fs v s t Ep Ed Et Hca).
    + change (concat (sent_wires own ([] ++ option_list (reply ACCEPTOR (id_ s) (logon_of h))))) with (outbound_bytes own (logon_of h) 1 ++ []).
      rewrite app_nil_r. exact M.
Qed.
End Traffic.
