(* ===== verification/SessionRecovery.v ===== *)
(** A gap and two sessions of this engine: messages of one of them have been lost, the other
    asks for them, and [SessionRecovery] follows the request, the answers and the messages held
    back until both sides agree again. *)
From Stdlib Require Import Strings.Byte.
From stdpp Require Import gmap.
From S2P Require Import Prelude.
From S2P Require Import Text.
From S2P Require Import Network.
From S2P Require Import Message.
From S2P Require Import Parser.
From S2P Require Import Schema.
From S2P Require Import MessageStore.
From S2P Require Import RecoveryCache.
From S2P Require Import Validator.
From S2P Require Import Factory.
From S2P Require Import Session.
From S2P Require Import SessionBase.
From S2P Require Import SessionInbound.
From S2P Require Import SessionOutbound.
From S2P Require Import SessionLogon.
From S2P Require Import SessionTraffic.

(** ** What is resent can be read *)

(** The fields of a possible duplicate. *)
Definition dup_fields : GenericMessage := [mk_field 43 (B "Y"); mk_field 122 (now_fix clock)].
Definition gap_fields (n : Z) : GenericMessage := mk_field 123 (B "Y") :: mk_field 36 (to_chars (i64 n)) :: dup_fields.

Section Resent.
Context (params : SessionParameters) (v9 v34 time orig ck : bytes).
Hypothesis H9 : is_int_type v9 = true.
Hypothesis H34 : is_int_type v34 = true.
Hypothesis Hck : is_int_type ck = true.

Lemma gap_fill_conforms n : is_int_type n = true ->
  conforms (rcv params v9 v34 time ck (B "4") [mk_field 123 (B "Y"); mk_field 36 n; mk_field 43 (B "Y"); mk_field 122 orig])
    (peer_params params) (B "4") (schema_for (B "4") SequenceResetSchema).
Proof using All. intros. unfold rcv. solve_conforms. Qed.
Lemma custom_again_conforms p :
  conforms (rcv params v9 v34 time ck (B "cu") [mk_field 9250 p; mk_field 43 (B "Y"); mk_field 122 orig])
    (peer_params params) (B "cu") (schema_for (B "cu") CustomSchema).
Proof using All. unfold rcv. solve_conforms. Qed.
End Resent.

(** The payload that a message hands to the custom handler. *)
Definition custom_payload (vm : ValidMessage) : option bytes :=
  if bool_decide (slot vm MsgTypeSlot = Some (B "cu")) then find_field 9250 vm else None.
Definition custom_of (m : Outbound) : option bytes := match m with OCustom p => Some p | _ => None end.

Section Gap.
Context (own peer : SessionParameters) (h : Z).
Hypothesis P : parties own peer h.

Lemma dup_fields_ok : Forall field_ok dup_fields.
Proof using P.
  destruct yes_ok as [Hy _]. constructor; [by split|]. constructor; [|constructor]. split; [done|]. apply (pa_text _ _ _ P).
Qed.

Lemma header_fields_ok t q : value_text t -> Forall field_ok (header_fields clock peer t q).
Proof using P.
  intros Ht. destruct (pa_peer_text _ _ _ P) as [_ Hs Htg Hn]. pose proof (i64_range q).
  repeat (constructor; [first [by split|apply int_field_ok; lia]|]). constructor.
Qed.

Lemma gap_read_back b n : 0 <= b < 2 ^ 32 ->
  exists fs, parse (gap_bytes peer b n) = Ok (fs, []) /\ readable_as own (B "4") b (gap_fields n) fs.
Proof using P.
  intros Hb. pose proof (i64_range n) as Hn. pose proof (pa_ids _ _ _ (parties_sym _ _ _ P)) as Hids. unfold ids_ok in Hids.
  apply (frame_back own peer h P (B "4") b (gap_fields n)); [|done|apply gap_fill_size; lia|by vm_compute|].
  - apply Forall_app. split; [apply header_fields_ok; split; [done|apply (bool_decide_unpack _); by vm_compute]|].
    constructor; [by split; [|apply yes_ok]|]. constructor; [apply int_field_ok; lia|apply dup_fields_ok].
  - intros v9 ck H9 Hck. eexists. apply (gap_fill_conforms peer v9 (to_chars (i64 b)) (now_fix clock) (now_fix clock) ck H9);
      [apply to_chars_int; pose proof (i64_range b); lia|done|apply to_chars_int; lia].
Qed.

Lemma resent_read_back p q : traffic (OCustom p) -> 0 <= q < 2 ^ 32 ->
  exists fs, parse (resent_bytes peer (OCustom p) q) = Ok (fs, []) /\ readable_as own (B "cu") q (mk_field 9250 p :: dup_fields) fs.
Proof using P.
  intros Hm Hq. pose proof (body_size peer own h (parties_sym _ _ _ P) (OCustom p) q (traffic_outgoing _ _ Hm) Hq) as Hb.
  pose proof (pa_ids _ _ _ (parties_sym _ _ _ P)) as Hids. unfold ids_ok in Hids. unfold resent_bytes, outbound_body in *. rewrite <- app_assoc.
  apply (frame_back own peer h P (B "cu") q (mk_field 9250 p :: dup_fields)); [|done| |by vm_compute|].
  - apply Forall_app. split; [apply header_fields_ok; split; [done|apply (bool_decide_unpack _); by vm_compute]|].
    constructor; [split; [done|apply Hm]|apply dup_fields_ok].
  - change (fields_of peer (OCustom p)) with [mk_field 9250 p] in Hb. change (type_of (OCustom p)) with (B "cu") in Hb.
    change (mk_field 9250 p :: dup_fields) with ([mk_field 9250 p] ++ dup_fields). rewrite app_assoc, fields_wire_app, zlen_app. change (zlen (fields_wire dup_fields)) with 13. lia.
  - intros v9 ck H9 Hck. eexists. apply (custom_again_conforms peer v9 (to_chars (i64 q)) (now_fix clock) (now_fix clock) ck H9);
      [apply to_chars_int; pose proof (i64_range q); lia|done].
Qed.

(** Its payload is what the other side has sent. *)
Lemma payload_read type q extra fs : readable_as own type q extra fs ->
  (forall p, type = B "cu" -> (exists l, extra = mk_field 9250 p :: l) -> custom_payload (make_valid_message_view fs) = Some p) /\
  (type <> B "cu" -> custom_payload (make_valid_message_view fs) = None).
Proof using.
  intros R. destruct (ra_conforms _ _ _ _ _ R) as (sc & Hc). pose proof (cf_type _ _ _ _ Hc) as Ht. unfold custom_payload. rewrite Ht. split.
  - intros p -> (l & ->). rewrite bool_decide_true by done. apply (ra_field _ _ _ _ _ R 9250 p [] l eq_refl).
    apply (bool_decide_unpack _). by vm_compute.
  - intros Hne. rewrite bool_decide_false; [done|]. by intros [= ->].
Qed.
(** What it sends for the first time. *)
Lemma payload_sent m n : outgoing h m -> 0 <= n < 2 ^ 32 -> custom_payload (message_of (outbound_bytes peer m n)) = custom_of m.
Proof using P.
  intros Hm Hn. destruct (read_back own peer h P m n Hm Hn) as (fs & Ep & R). unfold message_of. rewrite Ep.
  destruct (payload_read _ _ _ _ R) as [Hy Hno]. destruct m as [| | | | | | |p|]; try (by rewrite Hno); [|by destruct Hm as [|[|]]].
  cbn [custom_of]. by rewrite (Hy p eq_refl (ex_intro _ [] eq_refl)).
Qed.

(** ** The side that has missed messages *)

(** It holds back message [n], the bytes [w], and waits for number [k]. *)
Record recovering (n : Z) (w : bytes) (ms : list Outbound) (k : Z) (hs : list ValidMessage) (s : Session) : Prop := {
  rv_steady : steady own ms k hs RECOVERING_RESEND (recovery_cache_ s) s;
  rv_cache : exists b, represents (recovery_cache_ s) (mk_spec b {[ n := w ]})
}.

(** It is active again, and expects [k]. *)
Record recovered (ms : list Outbound) (k : Z) (hs : list ValidMessage) (s : Session) : Prop := {
  rd_steady : steady own ms k hs ACTIVE (recovery_cache_ s) s;
  rd_empty : RecoveryCache.empty (recovery_cache_ s) = true
}.

Definition replied (s : Session) (hs : list Outbound) : list Outbound := omap (reply own h (role_ s) (id_ s)) hs.
Lemma replied_one s m : replied s [m] = option_list (reply own h (role_ s) (id_ s) m).
Proof using. unfold replied. cbn. by destruct (reply _ _ _ _ m). Qed.
Lemma replied_app s l1 l2 : replied s (l1 ++ l2) = replied s l1 ++ replied s l2.
Proof using. apply omap_app. Qed.
Lemma replied_outgoing s m ms : Forall (outgoing h) ms -> traffic m -> 0 <= id (id_ s) < 2 ^ 64 -> Forall (outgoing h) (ms ++ replied s [m]).
Proof using P.
  intros Hms Hm Hi. apply Forall_app. split; [done|]. rewrite replied_one. destruct (reply own h (role_ s) (id_ s) m) as [r|] eqn:E; [|constructor].
  constructor; [|constructor]. apply traffic_outgoing. by eapply (reply_traffic own peer h P).
Qed.
Lemma replied_length s m : zlen (replied s [m]) <= 1.
Proof using. rewrite replied_one. by destruct (reply _ _ _ _ m). Qed.

Lemma recovering_empty n w ms k hs s : recovering n w ms k hs s -> RecoveryCache.empty (recovery_cache_ s) = false /\ state_ s = RECOVERING_RESEND.
Proof using.
  intros [A (b & R)]. split; [|apply A]. rewrite (empty_spec _ _ R), bool_decide_false; [done|]. cbn. apply insert_non_empty.
Qed.

(** Nothing can be taken from the cache yet. *)
Lemma drain_waits n w ms k hs s : recovering n w ms k hs s -> k <> n -> 0 <= k < 2 ^ 64 -> drain_recovery_cache_ s = Ok s.
Proof using.
  intros Rv Hk Hr. destruct (recovering_empty _ _ _ _ _ _ Rv) as [He Hst]. destruct Rv as [A (b & R)].
  unfold drain_recovery_cache_. rewrite He, Hst, bool_decide_true by done. cbn [orb negb drain_loop].
  rewrite (sd_next _ _ _ _ _ _ _ A), (contains_spec _ _ _ R Hr), ok_bind. cbn [sp_map].
  rewrite lookup_singleton_ne, bool_decide_false by (done || by intros []). cbn [negb]. rewrite ok_bind. cbv beta iota. by rewrite He.
Qed.

(** The message held back is next: it is handled, and the recovery is over. *)
Lemma drain_last m n ms hs s : recovering n (outbound_bytes peer m n) ms n hs s -> Forall (outgoing h) ms -> held h m -> room (zlen ms) -> 0 <= n < 2 ^ 32 ->
  exists s', drain_recovery_cache_ s = Ok s' /\ recovered (ms ++ replied s [m]) (n + 1) (hs ++ [message_of (outbound_bytes peer m n)]) s' /\
    advanced own ms (replied s [m]) s s'.
Proof using P.
  intros Rv Hms Hm Hr Hn. destruct (recovering_empty _ _ _ _ _ _ Rv) as [He Hst]. destruct Rv as [A (b & R)]. set (w := outbound_bytes peer m n) in *.
  assert (Hs : seq_ok n) by (unfold seq_ok; lia). assert (Hs1 : seq_ok (n + 1)) by (unfold seq_ok; lia).
  destruct (read_back own peer h P m n (held_outgoing _ _ Hm) Hn) as (fs & Ep & Rd). fold w in Ep.
  destruct (dispatch_held own peer h P m fs w ms n hs RECOVERING_RESEND _ s A (or_intror eq_refl) ltac:(lia) Hms Hm Hr Rd) as (s1 & E & A1 & D).
  pose proof (consume_refines n _ _ R Hs) as Hc. cbn [spec_step sp_map sp_base] in Hc. rewrite lookup_singleton_eq, delete_singleton_eq in Hc.
  unfold drain_recovery_cache_. rewrite He, Hst, bool_decide_true by done. cbn [orb negb].
  assert (Hz : RecoveryCache.size_ (recovery_cache_ s) = 1) by (rewrite (rp_size _ _ R); cbn [sp_map]; by rewrite map_size_singleton).
  rewrite Hz. change (S (Z.to_nat 1)) with 2%nat. cbn [drain_loop].
  rewrite (sd_next _ _ _ _ _ _ _ A), (contains_spec _ _ _ R Hs), (get_spec _ _ _ R Hs), ok_bind. cbn [sp_map].
  rewrite lookup_singleton_eq, bool_decide_true by eauto. cbn [negb]. rewrite ok_bind, Ep, ok_bind. cbv beta iota. rewrite E, ok_bind.
  rewrite (sd_cache _ _ _ _ _ _ _ A1). destruct (consume n (recovery_cache_ s)) as [c|]; [|done]. destruct Hc as (_ & Rc & _). rewrite ok_bind.
  set (s2 := s1 <| recovery_cache_ := c |>). change (next_in (seqs s2)) with (next_in (seqs s1)). change (recovery_cache_ s2) with c.
  rewrite (sd_next _ _ _ _ _ _ _ A1), (contains_spec _ _ _ Rc Hs1), ok_bind. cbn [sp_map].
  rewrite lookup_empty, bool_decide_false by (by intros []). cbn [negb]. rewrite ok_bind. cbv beta iota.
  assert (Hem : RecoveryCache.empty c = true) by (by rewrite (empty_spec _ _ Rc), bool_decide_true).
  change (recovery_cache_ s2) with c. rewrite Hem. eexists. split; [reflexivity|]. rewrite replied_one. split; [split; [|exact Hem]|by destruct D].
  destruct A1 as [I1 ? ? ? ? H1 ? ?]. split; try done; [destruct I1; by split|]. unfold message_of. rewrite Ep. exact H1.
Qed.

(** A message with a number that is too high opens the gap. *)
Lemma gap_opens m n ms k hs st c s : steady own ms k hs st c s -> st <> RECOVERING_RESEND -> (m = logon_of h \/ established st = true) ->
  Forall (outgoing h) ms -> held h m -> room (zlen ms + 1) ->
  (exists sp, represents (recovery_cache_ s) sp) -> cache_room s -> 1 <= k < n -> n < k + window -> n < 2 ^ 32 ->
  let w := outbound_bytes peer m n in let r := OResendRequest k (n - 1) in
  exists s', process_wire_message_ w s = Ok s' /\ recovering n w (ms ++ [r]) k hs s' /\ advanced own ms [r] s s'.
Proof using P.
  intros A Hns Hest Hms Hm Hr (sp & R) Hroom Hn Hwin Hn32 w r. destruct A as [I Hst Hp Hk _ Hh Hi Ht].
  pose proof (zlen_nonneg ms). pose proof (pa_ids _ _ _ P) as Hids. unfold ids_ok, room, Max_Wire, window in *.
  destruct (read_back own peer h P m n (held_outgoing _ _ Hm) ltac:(lia)) as (fs & Ep & [Hsz (sc & Hc) Hhas Hnum _]). fold w in Ep.
  rewrite <- Hp in Hc. set (vm := make_valid_message_view fs) in *.
  destruct (dispatch_valid n w vm fs (type_of m) sc s Hc Hsz Hhas Hnum eq_refl (so_live _ _ I)) as (s1 & dup & Ed & S & Ai);
    [rewrite Hst; destruct Hest as [->|?]; [by right|by left]|].
  pose proof (same_ok _ _ _ S I) as I1. destruct S as [S1 S2 _ _ S5 S6 _ _ S9 _ S11 S12 S13].
  destruct (wire_size peer own h (parties_sym _ _ _ P) m n (held_outgoing _ _ Hm) ltac:(lia)) as [_ Hw]. fold w in Hw.
  pose proof (min_wire_pos peer). unfold Max_Wire in Hw. pose proof (sent_wires_bytes own peer h P ms Hms ltac:(lia)) as Hb. unfold Max_Wire in Hb.
  assert (N1 : next_in (seqs s1) = k) by (unfold seqs in *; by rewrite S6).
  destruct (check_first_gap (type_of m) n dup w vm s1 (sent_wires own ms) sp I1) as (s2 & Ec & I2 & N2 & St2 & R2 & Pa2 & H2 & _ & Id2 & Ro2 & Te2 & Q2);
    rewrite ?N1, ?S1, ?S2, ?S5, ?Hp, ?Hst, ?sent_wires_length; unfold window; try done; try lia.
  { unfold cache_room in *. by rewrite S1. } { unfold request_room. lia. }
  rewrite N1, S2, Hp, sent_wires_length in *. rewrite <- sent_wires_snoc in I2.
  assert (Hh1 : handled s1 = handled s) by (apply handled_adds; revert Ai; apply adds_weaken; by intros []).
  assert (Rv : recovering n w (ms ++ [r]) k hs s2) by (split; [split; try done; congruence|by eexists]).
  exists s2. split_and!; [|exact Rv|split; [congruence|congruence|]].
  - unfold process_wire_message_. rewrite Ep, ok_bind. cbv beta iota. rewrite Ed, Ec, ok_bind. apply (drain_waits _ _ _ _ _ _ Rv); lia.
  - unfold queued. by rewrite Q2, S9, fmap_app, wires_from_cons.
Qed.

Lemma steady_skip n ms k hs st c s : steady own ms k hs st c s -> 0 <= n < 2 ^ 64 -> steady own ms n hs st c (set_seqs (update_in n (seqs s)) s).
Proof using. intros [I ? ? ? ? ? ? ?] Hn. destruct (set_next_in_ok s _ n I Hn). by split. Qed.

Lemma number_read n : 0 <= n < 2 ^ 63 -> fc_or 0 (from_chars 64 (to_chars (i64 n))) = n.
Proof using.
  intros Hn. rewrite i64_small, to_chars_nonneg by lia. pose proof (from_chars_to_dec n ltac:(lia) 64 [] ltac:(lia) I) as E.
  rewrite app_nil_r in E. by rewrite E.
Qed.

(** *** Since the gap was opened *)

(** The session was [s0] and had sent [ms0]; it holds back [m] with number [n]. *)
Section Catching.
Context (m : Outbound) (n : Z) (ms0 : list Outbound) (s0 : Session).
Hypothesis Hms0 : Forall (outgoing h) ms0.
Hypothesis Hm : held h m.
Hypothesis Hn : 0 <= n < 2 ^ 32.

(** It has sent [rs] and expects number [k]; what is held back is answered last. *)
Definition catching (rs : list Outbound) (k : Z) (hs : list ValidMessage) (s : Session) : Prop :=
  if k <? n then recovering n (outbound_bytes peer m n) (ms0 ++ rs) k hs s /\ advanced own ms0 rs s0 s
  else recovered (ms0 ++ rs ++ replied s0 [m]) (n + 1) (hs ++ [message_of (outbound_bytes peer m n)]) s /\ advanced own ms0 (rs ++ replied s0 [m]) s0 s.

Lemma replied_since rs s hs : advanced own ms0 rs s0 s -> replied s hs = replied s0 hs.
Proof using. intros [R I _]. unfold replied. by rewrite R, I. Qed.

Lemma drain_catching rs k hs s : recovering n (outbound_bytes peer m n) (ms0 ++ rs) k hs s -> advanced own ms0 rs s0 s -> Forall (outgoing h) rs ->
  room (zlen (ms0 ++ rs)) -> 0 <= k <= n -> exists s', drain_recovery_cache_ s = Ok s' /\ catching rs k hs s'.
Proof using Hms0 Hm Hn P.
  intros Rv D Hrs Hr Hk. unfold catching. destruct (Z.ltb_spec k n) as [Hl|Hl].
  - exists s. split; [apply (drain_waits _ _ _ _ _ _ Rv); lia|done].
  - assert (k = n) as -> by lia. destruct (drain_last m n (ms0 ++ rs) hs s Rv ltac:(by apply Forall_app) Hm Hr Hn) as (s' & E & Rd & D').
    rewrite (replied_since _ _ _ D) in Rd, D'. rewrite <- app_assoc in Rd. exists s'. split_and!; [exact E|exact Rd|by eapply advanced_trans].
Qed.

(** A gap fill moves the expected number on. *)
Lemma caught_gap rs k hs s x : catching rs k hs s -> k < n -> Forall (outgoing h) rs -> room (zlen (ms0 ++ rs)) -> 0 <= k <= x -> x + 1 <= n ->
  let w := gap_bytes peer k (x + 1) in exists s', process_wire_message_ w s = Ok s' /\ catching rs (x + 1) (hs ++ [message_of w]) s'.
Proof using Hms0 Hm Hn P.
  intros C Hkn Hrs Hr Hk Hx w. unfold catching in C. rewrite (proj2 (Z.ltb_lt _ _)) in C by done. destruct C as [[A (b & R)] D].
  destruct (gap_read_back k (x + 1) ltac:(lia)) as (fs & Ep & Rd). fold w in Ep.
  destruct (steady_dispatch own (B "4") _ fs w _ k hs RECOVERING_RESEND _ s A (or_introl eq_refl) ltac:(lia) Rd) as (s1 & E & A1 & M & Q).
  set (vm := make_valid_message_view fs) in *. set (s2 := emit (EHandled vm) s1) in *.
  assert (H36 : find_field 36 vm = Some (to_chars (i64 (x + 1))))
    by (apply (ra_field _ _ _ _ _ Rd _ _ [mk_field 123 (B "Y")] _ eq_refl); apply (bool_decide_unpack _); by vm_compute).
  assert (H123 : find_field 123 vm = Some (B "Y")) by (apply (ra_field _ _ _ _ _ Rd _ _ [] _ eq_refl); apply (bool_decide_unpack _); by vm_compute).
  assert (Eh : handle (B "4") vm s1 = Ok (set_seqs (update_in (x + 1) (seqs s2)) s2)).
  { change (handle (B "4") vm s1) with (handle_sequence_reset vm s2). unfold handle_sequence_reset, required_field.
    rewrite H36, H123, ok_bind, number_read by lia. cbv zeta. by rewrite bool_decide_true, andb_false_r. }
  pose proof (steady_skip (x + 1) _ _ _ _ _ _ A1 ltac:(lia)) as A2. set (s3 := set_seqs _ s2) in *.
  assert (Ec : recovery_cache_ s3 = recovery_cache_ s) by apply (sd_cache _ _ _ _ _ _ _ A2).
  assert (Em : message_of w = vm) by (unfold message_of; by rewrite Ep).
  assert (D3 : advanced own ms0 rs s0 s3).
  { destruct D as [D1 D2 D4]. split; [exact (eq_trans (mv_role _ _ _ _ (M [])) D1)|exact (eq_trans (mv_id _ _ _ _ (M [])) D2)|].
    rewrite <- D4. exact (f_equal (fmap data) Q). }
  destruct (drain_catching rs (x + 1) (hs ++ [vm]) s3) as (s' & Ed & C); [|exact D3|exact Hrs|exact Hr|lia|].
  { split; [by rewrite Ec|exists b; by rewrite Ec]. }
  exists s'. split; [|by rewrite Em]. unfold process_wire_message_. by rewrite Ep, ok_bind, E, Eh, ok_bind.
Qed.

(** A custom message is handled as if it had never been lost. *)
Lemma caught_custom rs k hs s p : catching rs k hs s -> k < n -> Forall (outgoing h) rs -> room (zlen (ms0 ++ rs) + 1) ->
  traffic (OCustom p) -> 0 <= k -> let w := resent_bytes peer (OCustom p) k in
  exists s', process_wire_message_ w s = Ok s' /\ catching (rs ++ replied s0 [OCustom p]) (k + 1) (hs ++ [message_of w]) s' /\
    Forall (outgoing h) (rs ++ replied s0 [OCustom p]).
Proof using Hms0 Hm Hn P.
  intros C Hkn Hrs Hr Hp Hk w. unfold catching in C. rewrite (proj2 (Z.ltb_lt _ _)) in C by done. destruct C as [[A (b & R)] D].
  destruct (resent_read_back p k Hp ltac:(lia)) as (fs & Ep & Rd). fold w in Ep.
  destruct (dispatch_traffic own peer h P (OCustom p) dup_fields fs w _ k hs RECOVERING_RESEND _ s A eq_refl ltac:(lia)) as (s1 & E & A1 & _ & D1);
    [by apply Forall_app|exact Hp|unfold room, Max_Wire in *; lia|exact Rd|]. rewrite <- replied_one, (replied_since _ _ _ D) in A1, D1. set (vm := make_valid_message_view fs) in *.
  assert (Ec : recovery_cache_ s1 = recovery_cache_ s) by apply (sd_cache _ _ _ _ _ _ _ A1). rewrite <- app_assoc in A1.
  assert (Em : message_of w = vm) by (unfold message_of; by rewrite Ep). pose proof (sd_id _ _ _ _ _ _ _ A) as Hi. rewrite (ad_id _ _ _ _ _ D) in Hi.
  pose proof (replied_outgoing s0 (OCustom p) rs Hrs Hp Hi) as Hrs'.
  destruct (drain_catching (rs ++ replied s0 [OCustom p]) (k + 1) (hs ++ [vm]) s1) as (s' & Ed & C); [|by eapply advanced_trans|exact Hrs'| |lia|].
  { split; [by rewrite Ec|exists b; by rewrite Ec]. } { pose proof (replied_length s0 (OCustom p)). rewrite app_assoc, zlen_app. unfold room, Max_Wire in *. lia. }
  exists s'. split_and!; [|by rewrite Em|exact Hrs']. unfold process_wire_message_. by rewrite Ep, ok_bind, E, ok_bind.
Qed.
End Catching.

(** ** All the answers *)

(** The messages of [l] that are sent again, and those from number [b] on. *)
Definition resent_among (l : list Outbound) : list Outbound := List.filter (fun m => negb (never_resent m)) l.
Definition resent_of (b : Z) (l : list Outbound) : list Outbound := resent_among (zdrop (b - 1) l).

Lemma resent_of_next b m l : 1 <= b -> znth l (b - 1) = Some m -> resent_of b l = (if never_resent m then [] else [m]) ++ resent_of (b + 1) l.
Proof using.
  intros Hb Hm. unfold resent_of, resent_among. rewrite (zdrop_znth l (b - 1) m) by (done || lia). replace (b + 1 - 1) with (b - 1 + 1) by lia.
  cbn [List.filter]. by destruct (never_resent m).
Qed.

Lemma resent_of_skip b x l : 1 <= b <= x + 1 -> (forall q, b <= q <= x -> exists m, znth l (q - 1) = Some m /\ never_resent m = true) ->
  resent_of b l = resent_of (x + 1) l.
Proof using.
  intros Hb. remember (Z.to_nat (x + 1 - b)) as d eqn:Ed. revert b Hb Ed. induction d as [|d IH]; intros b Hb Ed Hq.
  - by replace b with (x + 1) by lia.
  - destruct (Hq b ltac:(lia)) as (m & Hm & Hr). rewrite (resent_of_next b m) by (done || lia). rewrite Hr. cbn [app].
    apply IH; [lia|lia|]. intros q Hq'. apply Hq. lia.
Qed.

Lemma resent_is_custom m : outgoing h m -> never_resent m = false -> exists p, m = OCustom p /\ traffic m.
Proof using. intros [->|[Ht|Ht]]; [done|destruct m; try done; eauto..]. Qed.

Lemma resent_customs l : omap custom_of (resent_among l) = omap custom_of l.
Proof using.
  unfold resent_among. induction l as [|m l IH]; [done|]. cbn [List.filter]. destruct (never_resent m) eqn:Er; cbn [negb omap list_omap]; rewrite IH; [|done].
  by destruct m.
Qed.

Lemma answers_caught m l ms0 s0 b e ws : answers peer l b e ws -> e = zlen l -> 1 <= b -> Forall (outgoing h) l -> held h m -> zlen l + 1 < 2 ^ 32 ->
  Forall (outgoing h) ms0 -> forall rs hs s, catching m (e + 1) ms0 s0 rs b hs s -> b <= e + 1 -> Forall (outgoing h) rs -> room (zlen (ms0 ++ rs) + (e + 1 - b)) ->
  exists s', process_all ws s = Ok s' /\
    recovered (ms0 ++ (rs ++ replied s0 (resent_of b l)) ++ replied s0 [m]) (e + 2) ((hs ++ (message_of <$> ws)) ++ [message_of (outbound_bytes peer m (e + 1))]) s' /\
    advanced own ms0 ((rs ++ replied s0 (resent_of b l)) ++ replied s0 [m]) s0 s' /\
    omap custom_payload (message_of <$> ws) = omap custom_of (resent_of b l).
Proof using P.
  intros Ha He Hb Hl Hm Hn Hms0. induction Ha as [b e Hlt|b e x ws Hx Hq Hor Ha IH|b e m' ws Hle Hm' Hr Ha IH]; intros rs hs s C Hbe Hrs Hroom.
  - unfold catching in C. assert (b = e + 1) as -> by lia. rewrite (proj2 (Z.ltb_ge _ _)) in C by lia. destruct C as [Rd D]. exists s. cbn [process_all fmap list_fmap omap list_omap].
    unfold resent_of, resent_among. rewrite zdrop_all by lia. cbn [List.filter]. change (replied s0 []) with (@nil Outbound). rewrite !app_nil_r. split_and!; [done| |exact D|done].
    by replace (e + 2) with (e + 1 + 1) by lia.
  - rewrite (resent_of_skip b x l) by (done || lia).
    destruct (caught_gap m (e + 1) ms0 s0 Hms0 Hm ltac:(lia) rs b hs s x C) as (s1 & E1 & C1); [lia|exact Hrs|unfold room, Max_Wire in *; lia|lia|lia|].
    destruct (IH He ltac:(lia) _ _ _ C1 ltac:(lia) Hrs) as (s' & E & Rd & D & Hp); [unfold room, Max_Wire in *; lia|].
    exists s'. cbn [process_all fmap list_fmap omap list_omap]. rewrite E1, ok_bind. split; [exact E|].
    rewrite <- (app_assoc hs) in Rd. split; [exact Rd|]. split; [exact D|]. destruct (gap_read_back b (x + 1) ltac:(lia)) as (fs & Ep & R).
    assert (message_of (gap_bytes peer b (x + 1)) = make_valid_message_view fs) as -> by (unfold message_of; by rewrite Ep).
    rewrite (proj2 (payload_read _ _ _ _ R)) by done. exact Hp.
  - rewrite (resent_of_next b m' l), Hr by (done || lia). cbn [app].
    assert (Ho : outgoing h m') by (rewrite Forall_forall in Hl; apply Hl; by eapply znth_elem). destruct (resent_is_custom m' Ho Hr) as (p & -> & Ht).
    destruct (caught_custom m (e + 1) ms0 s0 Hms0 Hm ltac:(lia) rs b hs s p C) as (s1 & E1 & C1 & Hrs1); [lia|exact Hrs|unfold room, Max_Wire in *; lia|exact Ht|lia|].
    destruct (IH He ltac:(lia) _ _ _ C1 ltac:(lia) Hrs1) as (s' & E & Rd & D & Hp).
    { pose proof (replied_length s0 (OCustom p)). rewrite app_assoc, zlen_app. unfold room, Max_Wire in *. lia. }
    exists s'. cbn [process_all fmap list_fmap omap list_omap]. rewrite E1, ok_bind. split; [exact E|].
    change (OCustom p :: resent_of (b + 1) l) with ([OCustom p] ++ resent_of (b + 1) l). rewrite replied_app, (app_assoc rs).
    rewrite <- (app_assoc hs) in Rd. split; [exact Rd|]. split; [exact D|]. destruct (resent_read_back p b Ht ltac:(lia)) as (fs & Ep & R).
    assert (message_of (resent_bytes peer (OCustom p) b) = make_valid_message_view fs) as -> by (unfold message_of; by rewrite Ep).
    rewrite (proj1 (payload_read _ _ _ _ R) p eq_refl (ex_intro _ _ eq_refl)). cbn [app omap list_omap custom_of]. by rewrite Hp.
Qed.

(** ** The side that is asked *)

(** A request is answered; nothing is numbered anew. *)
Lemma request_processed b e ms k hs st c s : steady own ms k hs st c s -> RecoveryCache.empty c = true -> Forall (outgoing h) ms -> room (zlen ms) -> 1 <= k < 2 ^ 32 ->
  1 <= b < 2 ^ 32 -> 1 <= e <= zlen ms -> let w := outbound_bytes peer (OResendRequest b e) k in
  exists s' ws, process_wire_message_ w s = Ok s' /\ steady own ms (k + 1) (hs ++ [message_of w]) st c s' /\ answers own ms b e ws /\
    queued s' = queued s ++ ws /\ role_ s' = role_ s /\ id_ s' = id_ s.
Proof using P.
  intros A Hc Hms Hr Hg Hb He w. unfold room, Max_Wire in Hr.
  destruct (read_back own peer h P (OResendRequest b e) k) as (fs & Ep & Rd); [by right; right|lia|]. fold w in Ep.
  destruct (steady_dispatch own (B "2") _ fs w ms k hs st c s A (or_intror eq_refl) ltac:(lia) Rd) as (s1 & E & A1 & M & Hq).
  set (vm := make_valid_message_view fs) in *. set (s2 := emit (EHandled vm) s1) in *.
  assert (Hfc : forall z, 0 <= z < 2 ^ 32 -> fc_or 0 (from_chars 32 (to_chars (i64 z))) = z).
  { intros z Hz. rewrite i64_small, to_chars_nonneg by lia. pose proof (from_chars_to_dec z ltac:(lia) 32 [] ltac:(lia) I) as Ez.
    rewrite app_nil_r in Ez. by rewrite Ez. }
  assert (Hno : forall t : Z, bool_decide (t ∉ header_tags ++ (tag <$> [mk_field 7 (to_chars (i64 b))])) = true -> t ∉ header_tags ++ (tag <$> [mk_field 7 (to_chars (i64 b))]))
    by (intros t Ht; exact (bool_decide_eq_true_1 _ Ht)).
  pose proof (ra_field _ _ _ _ _ Rd 7 _ [] _ eq_refl ltac:(apply (bool_decide_unpack _); by vm_compute)) as H7.
  pose proof (ra_field _ _ _ _ _ Rd 16 _ [_] _ eq_refl ltac:(apply Hno; reflexivity)) as H16. fold vm in H7, H16.
  pose proof (sd_params _ _ _ _ _ _ _ A1) as Hp. pose proof (pa_ids _ _ _ P) as Hids. unfold ids_ok in Hids.
  pose proof (sent_wires_bytes own peer h P ms Hms ltac:(lia)) as Hbl. unfold Max_Wire in Hbl.
  destruct (resend_answered_spec s2 ms vm (to_chars (i64 b)) (to_chars (i64 e))) as (s' & ws & Eh & Hans & Q & _ & _ & K & H' & Ad);
    [|lia|by rewrite Hp; lia|by rewrite Hp; lia|exact H7|exact H16|rewrite Hfc; lia|].
  { split; [rewrite Hp; apply A1|]. eapply Forall_impl; [exact Hms|]. intros m Hm. destruct (outgoing_ok own peer h P m Hm) as (_ & ? & ?). by split. }
  rewrite !Hfc, Hp in Hans by lia. unfold request_end in Hans.
  rewrite (proj2 (Z.eqb_neq _ _)), (proj2 (Z.ltb_ge _ _)) in Hans by lia. cbn [orb] in Hans.
  assert (Em : message_of w = vm) by (unfold message_of; by rewrite Ep).
  assert (A' : steady own ms (k + 1) (hs ++ [vm]) st c s').
  { destruct H' as [I' _]. pose proof (handled_adds _ _ (send_not_handled _ _ Ad)). rewrite (kp_params _ _ K), Hp in I'.
    destruct A1 as [_ ? ? ? ? ? ? ?], K. split; congruence. }
  exists s', ws. split_and!; [|by rewrite Em|exact Hans|..].
  - unfold process_wire_message_. rewrite Ep, ok_bind. cbv beta iota. rewrite E. change (handle (B "2") vm s1) with (handle_resend_request vm s2).
    rewrite Eh, ok_bind. unfold drain_recovery_cache_. by rewrite (sd_cache _ _ _ _ _ _ _ A'), Hc.
  - rewrite Q. unfold queued. by rewrite <- Hq.
  - rewrite (kp_role _ _ K). apply (M []).
  - rewrite (kp_id _ _ K). apply (M []).
Qed.
End Gap.

(** Answers do not depend on what was sent after the range. *)
Lemma answers_prefix params l l' b e ws : answers params (l ++ l') b e ws -> 1 <= b -> e <= zlen l -> answers params l b e ws.
Proof.
  intros Ha. induction Ha as [b e Hlt|b e x ws Hx Hq Hor Ha IH|b e m ws Hle Hm Hr Ha IH]; intros Hb He; [by constructor|..].
  - apply ans_gap; [done| | |apply IH; lia].
    + intros q Hq'. destruct (Hq q Hq') as (m & Hm & Hr). rewrite znth_app_l in Hm by lia. by exists m.
    + destruct (Z.eq_dec x e) as [|Hne]; [by left|]. destruct Hor as [?|(m & Hm & Hr)]; [done|]. rewrite znth_app_l in Hm by lia. right. by exists m.
  - rewrite znth_app_l in Hm by lia. by apply (ans_message _ _ _ _ m); [..|apply IH; lia].
Qed.

(** The whole exchange.  The session [s] expects [k] and reads [m], the last message of the other
    side, which has sent [ms'] before: what [s] and the other side, [s'], do. *)
Lemma gap_exchange own peer h m ms ms' k hs st c s hs' st' c' s' : parties own peer h ->
  steady own ms k hs st c s -> st <> RECOVERING_RESEND -> (m = logon_of h \/ established st = true) ->
  steady peer (ms' ++ [m]) (zlen ms + 1) hs' st' c' s' -> RecoveryCache.empty c' = true ->
  Forall (outgoing h) ms -> Forall (outgoing h) ms' -> held h m -> 1 <= k <= zlen ms' -> zlen ms' + 1 < k + window -> room (zlen ms + zlen ms' + 1) ->
  (exists sp, represents (recovery_cache_ s) sp) -> cache_room s ->
  let r := OResendRequest k (zlen ms') in let lost := zdrop (k - 1) ms' in
  let rs := r :: replied own h s (resent_among lost ++ [m]) in let req := outbound_bytes own r (zlen ms + 1) in
  exists s1 s1' ws s2, process_wire_message_ (outbound_bytes peer m (zlen ms' + 1)) s = Ok s1 /\ state_ s1 = RECOVERING_RESEND /\
    handled s1 = hs /\ advanced own ms [r] s s1 /\
    process_wire_message_ req s' = Ok s1' /\ steady peer (ms' ++ [m]) (zlen ms + 2) (hs' ++ [message_of req]) st' c' s1' /\
    queued s1' = queued s' ++ ws /\ role_ s1' = role_ s' /\ id_ s1' = id_ s' /\
    process_all ws s1 = Ok s2 /\ recovered own (ms ++ rs) (zlen ms' + 2) (handled s2) s2 /\ advanced own ms rs s s2 /\
    omap custom_payload (handled s2) = omap custom_payload hs ++ omap custom_of (lost ++ [m]).
Proof.
  intros P A Hns Hest A' Hc' Hms Hms' Hm Hk Hwin Hroom Hca Hcr r lost rs req. pose proof (zlen_nonneg ms). unfold room, Max_Wire, window in *.
  pose proof (parties_sym _ _ _ P) as P'. pose proof (held_outgoing _ _ Hm) as Hmo. set (n := zlen ms' + 1) in *.
  destruct (gap_opens own peer h P m n ms k hs st c s A Hns Hest Hms Hm) as (s1 & E1 & Rv & D1); try done; unfold room, Max_Wire, window, n; try lia.
  replace (n - 1) with (zlen ms') in Rv, D1 by (unfold n; lia). fold r in Rv, D1.
  assert (Hr : outgoing h r) by (by right; right). assert (Hrs : Forall (outgoing h) [r]) by (by constructor).
  destruct (request_processed peer own h P' k (zlen ms') (ms' ++ [m]) (zlen ms + 1) hs' st' c' s' A' Hc') as (s1' & ws & E1' & A1' & Hans & Q1' & R1' & I1');
    [by apply Forall_app; split; [|constructor]|rewrite zlen_app; change (zlen [m]) with 1; unfold room, Max_Wire; lia|lia|lia|rewrite zlen_app; change (zlen [m]) with 1; lia|].
  fold r req in E1', A1'. apply answers_prefix in Hans; [|lia|lia]. replace (zlen ms + 1 + 1) with (zlen ms + 2) in A1' by lia.
  destruct (answers_caught own peer h P m ms' ms s k (zlen ms') ws Hans eq_refl ltac:(lia) Hms' Hm ltac:(lia) Hms [r] hs s1)
    as (s2 & E2 & Rd & D2 & Hp); [|lia|exact Hrs|rewrite zlen_app; change (zlen [r]) with 1; unfold room, Max_Wire; lia|].
  { unfold catching. rewrite (proj2 (Z.ltb_lt _ _)) by lia. by split. }
  change (resent_of k ms') with (resent_among lost) in Rd, D2, Hp. fold n in Rd.
  assert (Ers : ([r] ++ replied own h s (resent_among lost)) ++ replied own h s [m] = rs) by (unfold rs; by rewrite replied_app, <- app_assoc).
  rewrite Ers in Rd, D2. pose proof (sd_handled _ _ _ _ _ _ _ (rd_steady _ _ _ _ _ Rd)) as Hh. rewrite <- Hh in Rd.
  exists s1, s1', ws, s2. split_and!; try assumption; [apply Rv|apply (sd_handled _ _ _ _ _ _ _ (rv_steady _ _ _ _ _ _ _ Rv))|].
  rewrite Hh, !omap_app, Hp, resent_customs, <- app_assoc. fold lost. cbn [omap list_omap].
  by rewrite (payload_sent own peer h P m n Hmo) by (unfold n; lia).
Qed.

(** C3: two engines close a gap.  A session has handled the first messages of the other side,
    has missed at least one and fewer than 512 of the following ones, and reads a later
    heartbeat, test request or custom message.  It asks for exactly the missing range; the other
    side answers; and once the answers are read, the session is active again with an empty
    cache and expects the number after the last one.  Every custom message that was lost, and
    the one held back, has been handed to its handler exactly once and in the order in which it
    was sent, gap fills stand for the others, and the session has sent its request and one reply
    for each message that asks for it, nothing else. *)
Theorem engines_close_gap own peer h m ms got s ms' got' s' : parties own peer h ->
  active own ms got s -> Forall (outgoing h) ms -> active peer (ms' ++ [m]) got' s' -> Forall (outgoing h) ms' -> traffic m ->
  zlen got' = zlen ms -> zlen got < zlen ms' < zlen got + window -> room (zlen ms + zlen ms' + 1) ->
  (exists sp, represents (recovery_cache_ s) sp) -> cache_room s ->
  let lost := zdrop (zlen got) ms' in
  exists s1 req s1' ws s2, process_wire_message_ (outbound_bytes peer m (zlen ms' + 1)) s = Ok s1 /\ state_ s1 = RECOVERING_RESEND /\
    handled s1 = handled s /\ queued s1 = queued s ++ [req] /\
    process_wire_message_ req s' = Ok s1' /\ active peer (ms' ++ [m]) (got' ++ [req]) s1' /\ queued s1' = queued s' ++ ws /\
    process_all ws s1 = Ok s2 /\ state_ s2 = ACTIVE /\ next_in (seqs s2) = zlen ms' + 2 /\ RecoveryCache.empty (recovery_cache_ s2) = true /\
    omap custom_payload (handled s2) = omap custom_payload (handled s) ++ omap custom_of (lost ++ [m]) /\
    session_ok s2 (sent_wires own (ms ++ OResendRequest (zlen got + 1) (zlen ms') ::
      omap (reply own h (role_ s) (id_ s)) (resent_among lost ++ [m]))).
Proof.
  intros P [_ A] Hms [Hc' A'] Hms' Hm Hgot Hgap Hroom Hca Hcr lost. rewrite Hgot in A'. pose proof (zlen_nonneg got).
  destruct (gap_exchange own peer h m ms ms' _ _ _ _ s _ _ _ s' P A ltac:(done) ltac:(by right) A' Hc' Hms Hms' ltac:(by left) ltac:(lia) ltac:(lia) Hroom Hca Hcr)
    as (s1 & s1' & ws & s2 & E1 & Hst & Hh & D1 & E1' & A1' & Q1' & _ & _ & E2 & [Rs Re] & _ & Hp).
  replace (zlen got + 1 - 1) with (zlen got) in Rs, Hp by lia. fold lost in Rs, Hp. rewrite <- (sd_handled _ _ _ _ _ _ _ A) in Hh, Hp.
  exists s1, (outbound_bytes own (OResendRequest (zlen got + 1) (zlen ms')) (zlen ms + 1)), s1', ws, s2.
  split_and!; try assumption; try apply Rs; [by rewrite (ad_queue _ _ _ _ _ D1), wires_from_cons|]. eapply active_intro; [exact A1'|exact Hc'|rewrite zlen_app; change (zlen [_]) with 1; lia|by rewrite fmap_app].
Qed.

(** ** Instances *)

(** A session that is active and has neither sent nor handled a message. *)
Definition active_new (i : SessionID) (r : Role) (p : SessionParameters) : Session :=
  (session_new i r p) <| conn_ := Some 7 |> <| state_ := ACTIVE |>.

Lemma active_new_ok i r own peer h : parties own peer h -> 0 <= id i < 2 ^ 64 -> active own [] [] (active_new i r own).
Proof.
  intros P Hi. split; [done|]. split; try done.
  split; [apply scratch_new_wf|apply P|apply P|apply message_store_new_inv|done|done|by exists 7].
Qed.

(** It sends one message after the other. *)
Fixpoint send_all (own : SessionParameters) (ms : list Outbound) (s : Session) : Res Session :=
  match ms with
  | [] => Ok s
  | m :: ms => let! s := send_built (build clock own m) false s in send_all own ms s
  end.

Lemma active_sends own peer h ms ms0 got s : parties own peer h -> active own ms0 got s -> Forall (outgoing h) (ms0 ++ ms) -> room (zlen (ms0 ++ ms)) ->
  exists s', send_all own ms s = Ok s' /\ active own (ms0 ++ ms) got s'.
Proof.
  intros P. revert ms0 s. induction ms as [|m ms IH]; intros ms0 s A Ho Hr; [exists s; by rewrite app_nil_r|].
  rewrite cons_middle, app_assoc in Ho, Hr |- *. destruct A as [Hc A]. pose proof Ho as [[H0 Hm]%Forall_app _]%Forall_app.
  rewrite Forall_singleton in Hm. zlen_norm. pose proof (zlen_nonneg ms). unfold room, Max_Wire in Hr.
  destruct (steady_send own peer h P m ms0 _ _ _ _ s A H0 Hm) as (s1 & E1 & A1 & _ & _); [unfold room, Max_Wire; lia|].
  cbn [send_all]. rewrite E1, ok_bind. apply (IH (ms0 ++ [m]) s1); [by eapply active_intro|done|]. zlen_norm. unfold room, Max_Wire. lia.
Qed.

Definition demo_peer : SessionParameters := peer_params demo_params.
Definition demo_beat : Z := heart_beat_int demo_params.

Lemma demo_parties : parties demo_params demo_peer demo_beat.
Proof.
  pose proof demo_session_text as Ht. split; try done; try (by vm_compute). by destruct Ht.
Qed.

Definition demo_lost : list Outbound := [OHeartbeat []; OCustom (B "one"); OTestRequest (B "ping"); OCustom (B "two")].
Lemma demo_lost_ok : Forall traffic (demo_lost ++ [OCustom (B "three")]).
Proof.
  assert (Hc : forall l : bytes, bool_decide (l <> [] /\ SOH ∉ l) = true -> value_text l) by (intros l Hl; exact (bool_decide_eq_true_1 _ Hl)).
  repeat constructor; try apply not_elem_of_nil; try (apply Hc; by vm_compute); try (by vm_compute).
Qed.

(** Four messages are lost, two of them custom messages; the fifth one arrives. *)
Example engines_close_gap_witness :
  let s := active_new (mk_session_id 0 1) ACCEPTOR demo_params in
  exists s', active demo_peer (demo_lost ++ [OCustom (B "three")]) [] s' /\
  exists s1 req s1' ws s2, process_wire_message_ (outbound_bytes demo_peer (OCustom (B "three")) 5) s = Ok s1 /\ state_ s1 = RECOVERING_RESEND /\
    handled s1 = handled s /\ queued s1 = queued s ++ [req] /\
    process_wire_message_ req s' = Ok s1' /\ active demo_peer (demo_lost ++ [OCustom (B "three")]) ([] ++ [req]) s1' /\ queued s1' = queued s' ++ ws /\
    process_all ws s1 = Ok s2 /\ state_ s2 = ACTIVE /\ next_in (seqs s2) = 6 /\ RecoveryCache.empty (recovery_cache_ s2) = true /\
    omap custom_payload (handled s2) = [B "one"; B "two"; B "three"] /\
    session_ok s2 (sent_wires demo_params ([] ++ OResendRequest 1 4 ::
      omap (reply demo_params demo_beat (role_ s) (id_ s)) [OCustom (B "one"); OCustom (B "two"); OCustom (B "three")])).
Proof.
  intros s. pose proof demo_parties as P. pose proof demo_lost_ok as Ht.
  assert (Ho : Forall (outgoing demo_beat) ([] ++ demo_lost ++ [OCustom (B "three")])) by (eapply Forall_impl; [exact Ht|by apply traffic_outgoing]).
  destruct (active_sends demo_peer demo_params demo_beat (demo_lost ++ [OCustom (B "three")]) [] [] (active_new (mk_session_id 0 2) INITIATOR demo_peer))
    as (s' & _ & A'); [by apply parties_sym|by eapply (active_new_ok _ _ _ _ _ (parties_sym _ _ _ P))|exact Ho|by vm_compute|].
  exists s'. split; [exact A'|]. apply Forall_app in Ht as [Ht1 Ht2]. rewrite Forall_singleton in Ht2.
  apply (engines_close_gap demo_params demo_peer demo_beat (OCustom (B "three")) [] [] s demo_lost [] s' P);
    [by eapply (active_new_ok _ _ _ _ _ P)|by apply Forall_nil|exact A'|eapply Forall_impl; [exact Ht1|by apply traffic_outgoing]|exact Ht2|done|by vm_compute|by vm_compute| |by vm_compute].
  eexists. apply new_represents.
Defined.
