(* ===== verification/SessionReconnect.v ===== *)
(** Two sessions that lose their connection and meet again on a new one: [SessionReconnect]
    follows the Logons, the gap that they show when messages were lost with the connection, and
    the messages that close it, until both sides are active and in step. *)
From Stdlib Require Import Strings.Byte.
From stdpp Require Import gmap.
From S2P Require Import Prelude.
From S2P Require Import Text.
From S2P Require Import Network.
From S2P Require Import Message.
From S2P Require Import Parser.
From S2P Require Import Framer.
From S2P Require Import MessageStore.
From S2P Require Import RecoveryCache.
From S2P Require Import Validator.
From S2P Require Import Factory.
From S2P Require Import Session.
From S2P Require Import SessionBase.
From S2P Require Import SessionInbound.
From S2P Require Import SessionOutbound.
From S2P Require Import SessionSafety.
From S2P Require Import SessionLogon.
From S2P Require Import SessionTraffic.
From S2P Require Import SessionRecovery.

(** ** Coming back *)

(** A read fails with [ec], the manager sets connection [c], and the session starts again. *)
Definition come_back (ec : error_code) (c : Z) : list event := [EvRead ec []; EvSetConnection (Some c); EvStart RECONNECT].

(** A permanent error. *)
Definition breaks (ec : error_code) : Prop := ec <> success /\ ec <> operation_aborted /\ classify_readwrite_error ec <> Transient.

(** Room for what a gap puts into the cache. *)
Definition cache_ready (s : Session) : Prop := (exists sp, represents (recovery_cache_ s) sp) /\ cache_room s.

Lemma cleared_ready s s' : cache_ready s -> recovery_cache_ s' = RecoveryCache.clear (recovery_cache_ s) ->
  cache_ready s' /\ RecoveryCache.empty (recovery_cache_ s') = true.
Proof.
  intros [(sp & R) Hr] E. pose proof (reset_represents _ _ 0 R ltac:(unfold seq_ok; lia)) as R0. rewrite clear_start in E. rewrite <- E in R0.
  split; [split; [by eexists|]|].
  - unfold cache_room in *. by rewrite E.
  - by rewrite (empty_spec _ _ R0), bool_decide_true.
Qed.

(** A session that has come back: it has sent [ms], expects [k], and has queued [q]. *)
Record returned (own : SessionParameters) (ms : list Outbound) (k : Z) (hs : list ValidMessage) (st : SessionState) (q : list bytes) (s s' : Session) : Prop := {
  rt_steady : steady own ms k hs st (recovery_cache_ s') s';
  rt_empty : RecoveryCache.empty (recovery_cache_ s') = true;
  rt_cache : cache_ready s';
  rt_role : role_ s' = role_ s;
  rt_id : id_ s' = id_ s;
  rt_queue : queued s' = q
}.

Section Back.
Context (own peer : SessionParameters) (h : Z).
Hypothesis P : parties own peer h.

(** What is set before a Logon is sent. *)
Record prepared (s s' : Session) : Prop := {
  pp_factory : msg_factory_ s' = msg_factory_ s;
  pp_params : params_ s' = params_ s;
  pp_store : store_ s' = store_ s;
  pp_stopped : stopped_ s' = stopped_ s;
  pp_conn : conn_ s' = conn_ s;
  pp_state : state_ s' = state_ s;
  pp_role : role_ s' = role_ s;
  pp_id : id_ s' = id_ s;
  pp_effects : effects_ s' = effects_ s ++ [ELog fix_info (B "Session reconnecting") None];
  pp_cache : recovery_cache_ s' = RecoveryCache.clear (recovery_cache_ s);
  pp_queue : write_q_ s' = [];
  pp_test_req : test_req_id_ s' = 0
}.

Lemma restart_prepares s : stopped_ s = false -> is_Some (conn_ s) -> exists s0, prepared s s0 /\ start RECONNECT s =
  let! s1 := match role_ s with
             | INITIATOR => let! s1 := send_logon false s0 in Ok (schedule_logon_timeout_ (s1 <| state_ := LOGON_SENT |>))
             | ACCEPTOR => Ok (schedule_logon_timeout_ (s0 <| state_ := AWAITING_LOGON |>))
             end in do_read s1.
Proof using.
  intros Hs [c Hc]. unfold start, start_after_reconnect_. change (conn_ (log _ _ s)) with (conn_ s). rewrite Hc.
  change (stopped_ (log _ _ s)) with (stopped_ s). rewrite Hs. eexists. split; [|reflexivity]. split; reflexivity.
Qed.

Lemma prepared_steady ms k hs st c s s' : steady own ms k hs st c s -> prepared s s' -> steady own ms k hs st (recovery_cache_ s') s'.
Proof using.
  intros [I Hst Hp Hk _ Hh Hi _] [E1 E2 E3 E4 E5 E6 _ E8 E9 _ _ E12]. split; [|congruence|congruence| |reflexivity| |congruence|rewrite E12; lia].
  - destruct I. split; unfold seqs in *; congruence.
  - unfold seqs in *. congruence.
  - rewrite <- Hh. apply (handled_adds s). by exists [ELog fix_info (B "Session reconnecting") None].
Qed.

(** The state in which the Logon is prepared. *)
Lemma broken_steady ms k hs st c0 s s1 cc c ec : steady own ms k hs st c0 s ->
  lost_connection (emit (ELog (mk_log_context LTransport CError High) (B "Read error: ") (Some ec)) s) s1 cc ->
  let s2 := set_connection (Some c) s1 in
  steady own ms k hs DISCONNECTED (recovery_cache_ s1) s2 /\ write_q_ s2 = [] /\ role_ s2 = role_ s /\ id_ s2 = id_ s /\
  recovery_cache_ s2 = RecoveryCache.clear (recovery_cache_ s).
Proof using.
  intros [I Hst Hp Hk _ Hh Hi Ht] D s2. assert (I0 : session_ok (emit (ELog (mk_log_context LTransport CError High) (B "Read error: ") (Some ec)) s) (sent_wires own ms)) by (destruct I; by split).
  pose proof (lost_connection_ok _ _ _ cc c I0 D) as I2. destruct D. split_and!; try done. split; try done.
  - exact (eq_trans lc_params Hp).
  - unfold seqs in *. change (msg_factory_ s2) with (msg_factory_ s1). by rewrite lc_factory.
  - rewrite <- Hh. unfold handled. change (effects_ s2) with (effects_ s1). rewrite lc_effects. unfold handled_of. rewrite omap_app.
    change (effects_ (emit (ELog _ _ _) s)) with (effects_ s ++ [ELog (mk_log_context LTransport CError High) (B "Read error: ") (Some ec)]).
    rewrite omap_app. cbn [omap list_omap down_effects]. by rewrite !app_nil_r.
  - change (id_ s2) with (id_ s1). by rewrite lc_id.
  - change (test_req_id_ s2) with (test_req_id_ s1). by rewrite lc_test_req.
Qed.

(** The read that a start begins. *)
Lemma start_reads ms k hs st c s : steady own ms k hs st c s -> exists s', do_read s = Ok s' /\ steady own ms k hs st c s' /\
  recovery_cache_ s' = recovery_cache_ s /\ advanced own ms [] s s'.
Proof using.
  intros A. destruct (so_conn _ _ (sd_ok _ _ _ _ _ _ _ A)) as [cc Hc]. unfold do_read. rewrite (so_live _ _ (sd_ok _ _ _ _ _ _ _ A)), Hc.
  eexists. split; [reflexivity|]. split; [|split; [done|by apply advanced_same]].
  apply (steady_same _ _ _ _ _ _ s); [exact A|by split|]. apply (handled_adds s). by apply adds_emit.
Qed.

Lemma come_back_spec ec c ms k hs st c0 s : steady own ms k hs st c0 s -> st <> DISCONNECTED -> reconnecting_ s = false -> breaks ec -> cache_ready s ->
  Forall (outgoing h) ms -> room (zlen ms) ->
  let logon := match role_ s with INITIATOR => [logon_of h] | ACCEPTOR => [] end in
  exists s', session_run (come_back ec c) s = Ok s' /\
    returned own (ms ++ logon) k hs (match role_ s with INITIATOR => LOGON_SENT | ACCEPTOR => AWAITING_LOGON end) (wires_from own (zlen ms) logon) s s'.
Proof using P.
  intros A Hd Hrec (B1 & B2 & B3) Hca Hms Hr logon. pose proof (sd_state _ _ _ _ _ _ _ A) as Hst.
  destruct (read_error_spec s _ ec (sd_ok _ _ _ _ _ _ _ A) ltac:(by rewrite Hst) Hrec B1 B2 B3) as (cc & s1 & E1 & D).
  destruct (broken_steady _ _ _ _ _ _ _ _ c _ A D) as (A2 & Q2 & R2 & I2 & C2). set (s2 := set_connection (Some c) s1) in *.
  cbn [session_run come_back session_step]. rewrite E1, !ok_bind. fold s2.
  destruct (restart_prepares s2 (so_live _ _ (sd_ok _ _ _ _ _ _ _ A2)) (so_conn _ _ (sd_ok _ _ _ _ _ _ _ A2))) as (s3 & P3 & ->). rewrite R2.
  pose proof (prepared_steady _ _ _ _ _ _ _ A2 P3) as A3. pose proof (pp_cache _ _ P3) as C3.
  destruct (cleared_ready s s2 Hca C2) as [Hca2 _]. destruct (cleared_ready s2 s3 Hca2 C3) as [Hca3 He3].
  assert (Hend : forall ms' st' s4, steady own ms' k hs st' (recovery_cache_ s3) s4 -> recovery_cache_ s4 = recovery_cache_ s3 -> advanced own ms logon s3 s4 ->
    exists s', do_read (schedule_logon_timeout_ s4) = Ok s' /\ returned own ms' k hs st' (wires_from own (zlen ms) logon) s s').
  { intros ms' st' s4 A4 C4 D4. assert (A5 : steady own ms' k hs st' (recovery_cache_ s3) (schedule_logon_timeout_ s4)).
    { apply (steady_same _ _ _ _ _ _ s4); [exact A4|by split|]. apply (handled_adds s4). by apply adds_emit. }
    destruct (start_reads _ _ _ _ _ _ A5) as (s5 & E5 & A6 & C6 & D6). exists s5. split; [exact E5|]. change (recovery_cache_ (schedule_logon_timeout_ s4)) with (recovery_cache_ s4) in C6.
    rewrite C4 in C6. destruct D4 as [Dr Di Dq], D6 as [Er Ei Eq]. split.
    - by rewrite C6.
    - by rewrite C6.
    - destruct Hca3 as [H1 H2]. unfold cache_ready, cache_room in *. by rewrite C6.
    - exact (eq_trans Er (eq_trans Dr (eq_trans (pp_role _ _ P3) R2))).
    - exact (eq_trans Ei (eq_trans Di (eq_trans (pp_id _ _ P3) I2))).
    - rewrite Eq, app_nil_r. refine (eq_trans Dq _). unfold queued. by rewrite (pp_queue _ _ P3). }
  unfold logon in *. destruct (role_ s).
  - destruct (steady_send own peer h P (logon_of h) ms k hs _ _ s3 A3 Hms ltac:(by left) Hr) as (s4 & E4 & A4 & M4 & Q4).
    assert (Hsend : send_logon false s3 = send_built (build clock own (logon_of h)) false s3).
    { assert (Hb : heart_beat_int (params_ s3) = h) by (rewrite (sd_params _ _ _ _ _ _ _ A3); apply P).
      pose proof (pa_range _ _ _ P). rewrite send_logon_small, Hb, (sd_params _ _ _ _ _ _ _ A3) by lia. done. }
    rewrite Hsend, E4, ok_bind. pose proof (advanced_one own (logon_of h) ms _ _ s3 s4 M4 Q4) as D4.
    destruct (Hend (ms ++ [logon_of h]) LOGON_SENT (s4 <| state_ := LOGON_SENT |>)) as (s' & E' & Rt);
      [exact (steady_state own LOGON_SENT _ _ _ _ _ _ A4)|exact (sd_cache _ _ _ _ _ _ _ A4)|destruct D4; split; assumption|].
    rewrite ok_bind, E', ok_bind. exists s'. split; [reflexivity|exact Rt].
  - destruct (Hend (ms ++ []) AWAITING_LOGON (s3 <| state_ := AWAITING_LOGON |>)) as (s' & E' & Rt);
      [rewrite app_nil_r; exact (steady_state own AWAITING_LOGON _ _ _ _ _ _ A3)|reflexivity|apply advanced_same; reflexivity|].
    rewrite ok_bind, E', ok_bind. exists s'. split; [reflexivity|exact Rt].
Qed.
End Back.

(** ** Messages in order *)

Section InOrder.
Context (own peer : SessionParameters) (h : Z).
Hypothesis P : parties own peer h.

(** A message in order is handled and answered; a Logon makes the session active. *)
Lemma process_held m ms k hs st c s : steady own ms k hs st c s -> RecoveryCache.empty c = true -> (m = logon_of h \/ established st = true) ->
  1 <= k < 2 ^ 32 -> Forall (outgoing h) ms -> held h m -> room (zlen ms) -> let w := outbound_bytes peer m k in
  exists s', process_wire_message_ w s = Ok s' /\ steady own (ms ++ replied own h s [m]) (k + 1) (hs ++ [message_of w]) (state_after m st) c s' /\
    advanced own ms (replied own h s [m]) s s'.
Proof using P.
  intros A Hc Hst Hk Hms Hm Hr w. rewrite replied_one.
  destruct (read_back own peer h P m k (held_outgoing _ _ Hm) ltac:(lia)) as (fs & Ep & R). fold w in Ep.
  destruct (dispatch_held own peer h P m fs w ms k hs st c s A Hst ltac:(lia) Hms Hm Hr R) as (s' & E & A' & D).
  exists s'. split_and!; [| |exact D].
  - unfold process_wire_message_. rewrite Ep, ok_bind. cbv beta iota. rewrite E, ok_bind. unfold drain_recovery_cache_.
    by rewrite (sd_cache _ _ _ _ _ _ _ A'), Hc.
  - unfold message_of. rewrite Ep. exact A'.
Qed.

Lemma replied_advanced l ms rs s s' : advanced own ms rs s s' -> replied own h s' l = replied own h s l.
Proof using. intros [R I _]. unfold replied. by rewrite R, I. Qed.

Lemma process_all_held l ms k hs c s : steady own ms k hs ACTIVE c s -> RecoveryCache.empty c = true -> Forall traffic l ->
  1 <= k -> k + zlen l < 2 ^ 32 -> Forall (outgoing h) ms -> room (zlen ms + zlen (replied own h s l)) ->
  exists s', process_all (wires_from peer (k - 1) l) s = Ok s' /\
    steady own (ms ++ replied own h s l) (k + zlen l) (hs ++ (message_of <$> wires_from peer (k - 1) l)) ACTIVE c s' /\
    advanced own ms (replied own h s l) s s' /\ omap custom_payload (message_of <$> wires_from peer (k - 1) l) = omap custom_of l.
Proof using P.
  intros A Hc Hl. revert ms k hs s A. induction Hl as [|m l Hm Hl IH]; intros ms k hs s A Hk Hk2 Hms Hr.
  - exists s. change (replied own h s []) with (@nil Outbound). change (wires_from peer (k - 1) []) with (@nil bytes). change (zlen []) with 0.
    rewrite Z.add_0_r. cbn [fmap list_fmap process_all]. rewrite !app_nil_r. split_and!; [done|exact A|by apply advanced_same|done].
  - assert (Er : replied own h s (m :: l) = replied own h s [m] ++ replied own h s l) by exact (replied_app own h s [m] l).
    rewrite Er, zlen_app in Hr. pose proof (zlen_nonneg (replied own h s l)). pose proof (zlen_nonneg (replied own h s [m])).
    rewrite zlen_cons in Hk2 |- *. pose proof (zlen_nonneg l). rewrite wires_from_cons. replace (k - 1 + 1) with k by lia.
    destruct (process_held m ms k hs ACTIVE c s A Hc ltac:(by right) ltac:(lia) Hms ltac:(by left)) as (s1 & E1 & A1 & D1); [unfold room, Max_Wire in *; lia|].
    assert (Hst : state_after m ACTIVE = ACTIVE) by by destruct m. rewrite Hst in A1.
    destruct (IH (ms ++ replied own h s [m]) (k + 1) (hs ++ [message_of (outbound_bytes peer m k)]) s1 A1) as (s' & E & A' & D & Hp);
      [lia|lia|by apply (replied_outgoing own peer h P); [..|apply A]|rewrite (replied_advanced _ _ _ _ _ D1), zlen_app; by rewrite Z.add_assoc in Hr|].
    replace (k + 1 - 1) with k in * by lia. rewrite (replied_advanced _ _ _ _ _ D1) in A', D.
    exists s'. cbn [fmap list_fmap process_all omap list_omap]. rewrite E1, ok_bind.
    rewrite Er, (payload_sent own peer h P m k) by (by apply traffic_outgoing || lia). split_and!.
    + exact E.
    + rewrite app_assoc. rewrite <- (app_assoc hs) in A'. replace (k + (1 + zlen l)) with (k + 1 + zlen l) by lia. exact A'.
    + by eapply advanced_trans.
    + rewrite Hp. by destruct (custom_of m).
Qed.

(** ** Which answers there are *)

(** Messages that are not answered when they are sent again. *)
Definition unanswered (m : Outbound) : bool :=
  match m with OCustom p => match find (B "custom_response") p 0 with Some _ => true | None => false end | _ => true end.

Lemma resent_cases l (Q : Outbound -> Prop) : Forall (outgoing h) l -> (forall p, OCustom p ∈ l -> traffic (OCustom p) -> Q (OCustom p)) -> Forall Q (resent_among l).
Proof using.
  intros Ho HQ. apply Forall_forall. intros m Hm. apply list_elem_of_In, List.filter_In in Hm as [Hm Hr].
  apply list_elem_of_In in Hm. rewrite Forall_forall in Ho. apply negb_true_iff in Hr.
  destruct (resent_is_custom h m (Ho m Hm) Hr) as (p & -> & Ht). by apply HQ.
Qed.

Lemma replied_nil s l : Forall (fun m => reply own h (role_ s) (id_ s) m = None) l -> replied own h s l = [].
Proof using. unfold replied. induction 1 as [|m l Hm _ IH]; [done|]. cbn [omap list_omap]. by rewrite Hm. Qed.

Lemma resent_silent s l : Forall (outgoing h) l -> Forall (fun m => unanswered m = true) l -> replied own h s (resent_among l) = [].
Proof using.
  intros Ho Hu. apply replied_nil, resent_cases; [exact Ho|]. intros p Hp _. rewrite Forall_forall in Hu. specialize (Hu _ Hp).
  cbn [unanswered reply] in *. by destruct (find _ p 0).
Qed.

Lemma replies_traffic s l : Forall (outgoing h) l -> 0 <= id (id_ s) < 2 ^ 64 -> Forall traffic (replied own h s (resent_among l)).
Proof using P.
  intros Ho Hi. pose proof (resent_cases l traffic Ho ltac:(by intros)) as Ht. unfold replied. induction Ht as [|m l' Hm _ IH]; [constructor|].
  cbn [omap list_omap]. destruct (reply own h (role_ s) (id_ s) m) as [m'|] eqn:E; [|exact IH]. constructor; [|exact IH]. by eapply (reply_traffic own peer h P).
Qed.
End InOrder.

Lemma replies_length own h s l : zlen (replied own h s (resent_among l)) <= zlen l.
Proof.
  unfold replied, resent_among. induction l as [|m l IH]; [done|]. cbn [List.filter]. rewrite zlen_cons. destruct (negb (never_resent m)); [|lia].
  cbn [omap list_omap]. destruct (reply own h (role_ s) (id_ s) m); rewrite ?zlen_cons; lia.
Qed.

(** Replies are not answered in turn. *)
Lemma replies_unanswered own peer h s s' l : Forall (outgoing h) l -> replied peer h s' (replied own h s (resent_among l)) = [].
Proof.
  intros Ho. apply replied_nil. pose proof (resent_cases h l traffic Ho ltac:(by intros)) as Ht. unfold replied. induction Ht as [|m l' Hm _ IH]; [constructor|].
  cbn [omap list_omap]. destruct (reply own h (role_ s) (id_ s) m) as [m'|] eqn:E; [|exact IH]. constructor; [|exact IH].
  pose proof (reply_quiet own h _ _ m m' (role_ s') (id_ s') Hm E) as Hq. destruct m as [| |id| | | | |p|]; try done; cbn [reply] in *; [by injection E as <-|].
  destruct (find _ p 0); [done|]. injection E as <-. cbn [reply] in Hq |- *. by destruct (find _ _ 0).
Qed.

(** ** Reading in turn *)

(** In each round [b] reads what [a] has queued since the last one, then [a] what [b] has. *)
Fixpoint exchange (rounds na nb : nat) (a b : Session) : Res (Session * Session) :=
  match rounds with
  | O => Ok (a, b)
  | S rounds =>
      let! b' := process_all (drop na (queued a)) b in
      let! a' := process_all (drop nb (queued b')) a in
      exchange rounds (length (queued a)) (length (queued b')) a' b'
  end.

Lemma exchange_round rounds na nb a b qa qb a' b' : drop na (queued a) = qa -> process_all qa b = Ok b' -> drop nb (queued b') = qb -> process_all qb a = Ok a' ->
  exchange (S rounds) na nb a b = exchange rounds (length (queued a)) (length (queued b')) a' b'.
Proof. intros E1 Eb E2 Ea. cbn [exchange]. by rewrite E1, Eb, ok_bind, E2, Ea, ok_bind. Qed.

Lemma exchange_idle rounds a b : exchange rounds (length (queued a)) (length (queued b)) a b = Ok (a, b).
Proof.
  induction rounds as [|rounds IH]; [done|]. by rewrite (exchange_round rounds _ _ a b [] [] a b) by (done || by rewrite drop_all).
Qed.

Lemma process_one w s s' : process_wire_message_ w s = Ok s' -> process_all [w] s = Ok s'.
Proof. intros E. cbn [process_all]. by rewrite E. Qed.

Lemma wires_one p k m : wires_from p k [m] = [outbound_bytes p m (k + 1)].
Proof. apply wires_from_cons. Qed.

(** ** Meeting again *)

(** Two sessions that have come back: the initiator [a] has sent [ms_a], and now its Logon; the
    acceptor [b] has sent [ms_b]; they expect the numbers [ka] and [kb]. *)
Section Meet.
Context (pa pb : SessionParameters) (h : Z) (ms_a ms_b : list Outbound) (ka kb : Z) (hs_a hs_b : list ValidMessage) (a b : Session).
Hypothesis P : parties pa pb h.
Hypothesis Hoa : Forall (outgoing h) ms_a.
Hypothesis Hob : Forall (outgoing h) ms_b.
Hypothesis Hroom : room (zlen ms_a + zlen ms_b + 3).
Hypothesis Aa : steady pa (ms_a ++ [logon_of h]) ka hs_a LOGON_SENT (recovery_cache_ a) a.
Hypothesis Ab : steady pb ms_b kb hs_b AWAITING_LOGON (recovery_cache_ b) b.
Hypothesis Ea : RecoveryCache.empty (recovery_cache_ a) = true.
Hypothesis Eb : RecoveryCache.empty (recovery_cache_ b) = true.
Hypothesis Ca : cache_ready a.
Hypothesis Cb : cache_ready b.
Hypothesis Ra : role_ a = INITIATOR.
Hypothesis Rb : role_ b = ACCEPTOR.
Hypothesis Qa : queued a = wires_from pa (zlen ms_a) [logon_of h].
Hypothesis Qb : queued b = [].

(** They are active and in step; each has been handed the custom messages it had missed, and [b]
    what [a] has answered to them. *)
Definition reunited : Prop :=
  let lost_a := zdrop (kb - 1) ms_a in let lost_b := zdrop (ka - 1) ms_b in
  exists a' b' ms ms', (forall rounds, (3 <= rounds)%nat -> exchange rounds 0 0 a b = Ok (a', b')) /\
    ms_a `prefix_of` ms /\ ms_b `prefix_of` ms' /\ recovered pa ms (zlen ms' + 1) (handled a') a' /\ recovered pb ms' (zlen ms + 1) (handled b') b' /\
    omap custom_payload (handled a') = omap custom_payload hs_a ++ omap custom_of lost_b /\
    omap custom_payload (handled b') = omap custom_payload hs_b ++ omap custom_of (lost_a ++ replied pa h a (resent_among lost_b)).

Lemma logon_reply own r i : reply own h r i (logon_of h) = if bool_decide (r = ACCEPTOR) then Some (logon_of h) else None.
Proof using. done. Qed.
Lemma logon_answered own s : role_ s = ACCEPTOR -> replied own h s [logon_of h] = [logon_of h].
Proof using. intros E. by rewrite replied_one, logon_reply, bool_decide_true. Qed.
Lemma logon_accepted own s : role_ s = INITIATOR -> replied own h s [logon_of h] = [].
Proof using. intros E. by rewrite replied_one, logon_reply, bool_decide_false by (by rewrite E). Qed.

Lemma active_recovered own ms k hs c s : steady own ms k hs ACTIVE c s -> RecoveryCache.empty c = true -> recovered own ms k (handled s) s.
Proof using. intros A Hc. pose proof (sd_cache _ _ _ _ _ _ _ A) as <-. pose proof (sd_handled _ _ _ _ _ _ _ A) as <-. by split. Qed.

Lemma rooms : room (zlen ms_a) /\ room (zlen ms_b) /\ room (zlen (ms_a ++ [logon_of h])) /\ Forall (outgoing h) (ms_a ++ [logon_of h]) /\
  zlen (ms_a ++ [logon_of h]) = zlen ms_a + 1 /\ 0 <= zlen ms_a < 2 ^ 20 /\ 0 <= zlen ms_b < 2 ^ 20 /\ held h (logon_of h).
Proof using Hroom Hoa.
  pose proof (zlen_nonneg ms_a). pose proof (zlen_nonneg ms_b). unfold room, Max_Wire in *. rewrite !zlen_app. change (zlen [logon_of h]) with 1.
  split_and!; try lia; [|by right]. apply Forall_app. split; [done|]. constructor; [by left|constructor].
Qed.

(** The acceptor reads the Logon in order. *)
Lemma logon_in_order : kb = zlen ms_a + 1 -> let w := outbound_bytes pa (logon_of h) kb in
  exists b1, process_all (drop 0 (queued a)) b = Ok b1 /\ steady pb (ms_b ++ [logon_of h]) (zlen ms_a + 2) (hs_b ++ [message_of w]) ACTIVE (recovery_cache_ b) b1 /\
    advanced pb ms_b [logon_of h] b b1.
Proof using P Hoa Hob Hroom Ab Eb Rb Qa.
  intros Hk w. destruct rooms as (_ & Hr & _ & _ & _ & Ha & _ & Hh).
  destruct (process_held pb pa h (parties_sym _ _ _ P) (logon_of h) ms_b kb hs_b AWAITING_LOGON _ b Ab Eb ltac:(by left) ltac:(lia) Hob Hh Hr) as (b1 & E1 & A1 & D1).
  rewrite (logon_answered pb b Rb) in A1, D1. replace (kb + 1) with (zlen ms_a + 2) in A1 by lia. exists b1. split_and!; [|exact A1|exact D1].
  cbn [drop]. rewrite Qa, wires_one, <- Hk. by apply process_one.
Qed.

Lemma reunited_in_order : ka = zlen ms_b + 1 -> kb = zlen ms_a + 1 -> reunited.
Proof using All.
  intros Hka Hkb. unfold reunited. set (lost_a := zdrop (kb - 1) ms_a). set (lost_b := zdrop (ka - 1) ms_b). destruct rooms as (_ & _ & Hr & Ho & Hl & Ha & Hb & Hh). destruct (logon_in_order Hkb) as (b1 & E1 & A1 & D1).
  set (w := outbound_bytes pb (logon_of h) ka).
  destruct (process_held pa pb h P (logon_of h) (ms_a ++ [logon_of h]) ka hs_a LOGON_SENT _ a Aa Ea ltac:(by left) ltac:(lia) Ho Hh Hr) as (a1 & E2 & A2 & D2).
  rewrite (logon_accepted pa a Ra) in A2, D2. rewrite app_nil_r in A2. fold w in E2, A2.
  exists a1, b1, (ms_a ++ [logon_of h]), (ms_b ++ [logon_of h]). split_and!.
  - intros rounds Hrounds. destruct rounds as [|rounds]; [lia|].
    rewrite (exchange_round rounds 0 0 a b _ [w] a1 b1 eq_refl E1); [|cbn [drop]; rewrite (ad_queue _ _ _ _ _ D1), Qb, wires_one; by subst ka|by apply process_one].
    assert (Eq : queued a1 = queued a) by (rewrite (ad_queue _ _ _ _ _ D2); change (wires_from pa (zlen (ms_a ++ [logon_of h])) []) with (@nil bytes); by rewrite app_nil_r).
    rewrite <- Eq. apply exchange_idle.
  - by eexists.
  - by eexists.
  - eapply active_recovered; [|exact Ea]. replace (zlen (ms_b ++ [logon_of h]) + 1) with (ka + 1) by (rewrite zlen_app; change (zlen [_]) with 1; lia). exact A2.
  - eapply active_recovered; [|exact Eb]. replace (zlen (ms_a ++ [logon_of h]) + 1) with (zlen ms_a + 2) by lia. exact A1.
  - rewrite (sd_handled _ _ _ _ _ _ _ A2), omap_app. unfold lost_b. rewrite zdrop_all by lia. cbn [omap list_omap]. unfold w.
    by rewrite (payload_sent pa pb h P _ _ (held_outgoing _ _ Hh)) by lia.
  - rewrite (sd_handled _ _ _ _ _ _ _ A1), omap_app. unfold lost_a, lost_b. rewrite !zdrop_all by lia. cbn [omap list_omap].
    by rewrite (payload_sent pb pa h (parties_sym _ _ _ P) _ _ (held_outgoing _ _ Hh)) by lia.
Qed.

(** What follows what was queued before. *)
Lemma drop_queued (s s' : Session) q : queued s' = queued s ++ q -> drop (length (queued s)) (queued s') = q.
Proof using. intros ->. apply drop_app_length. Qed.

(** The initiator's messages were lost: its Logon opens the gap. *)
Lemma reunited_initiator_lost : ka = zlen ms_b + 1 -> 1 <= kb <= zlen ms_a -> zlen ms_a + 1 < kb + window ->
  Forall (fun m => unanswered m = true) (zdrop (kb - 1) ms_a) -> reunited.
Proof using All.
  intros Hka Hkb Hwin Hsil. unfold reunited. set (lost_a := zdrop (kb - 1) ms_a) in *. set (lost_b := zdrop (ka - 1) ms_b).
  destruct rooms as (_ & _ & Hr & Ho & Hl & Ha & Hb & Hh). pose proof Aa as A. rewrite Hka in A.
  destruct (gap_exchange pb pa h (logon_of h) ms_b ms_a kb hs_b _ _ b hs_a _ _ a (parties_sym _ _ _ P) Ab ltac:(done) ltac:(by left) A Ea Hob Hoa Hh Hkb Hwin)
    as (b1 & a1 & ws & b2 & E1 & _ & _ & D1 & E2 & A2 & Q2 & R2 & _ & E3 & Rd3 & D3 & Hp); [unfold room, Max_Wire in *; lia|apply Cb|apply Cb|]. fold lost_a in Rd3, D3, Hp.
  rewrite (replied_app pb h b), (resent_silent pb h b lost_a), (logon_answered pb b Rb) in Rd3, D3 by (done || by apply Forall_drop || by unfold lost_a, zdrop; apply Forall_drop).
  cbn [app] in Rd3, D3. set (r := OResendRequest kb (zlen ms_a)) in *. set (w := outbound_bytes pb (logon_of h) (zlen ms_b + 2)).
  destruct (process_held pa pb h P (logon_of h) (ms_a ++ [logon_of h]) (zlen ms_b + 2) _ LOGON_SENT _ a1 A2 Ea ltac:(by left) ltac:(lia) Ho Hh Hr) as (a2 & E4 & A4 & D4).
  rewrite (logon_accepted pa a1) in A4, D4 by congruence. rewrite app_nil_r in A4. fold w in E4, A4.
  assert (Q4 : queued a2 = queued a1) by (rewrite (ad_queue _ _ _ _ _ D4); change (wires_from pa _ []) with (@nil bytes); by rewrite app_nil_r).
  assert (Q1 : queued b1 = [outbound_bytes pb r (zlen ms_b + 1)]) by by rewrite (ad_queue _ _ _ _ _ D1), Qb, wires_one.
  assert (Q3 : queued b2 = queued b1 ++ [w]).
  { rewrite (ad_queue _ _ _ _ _ D3), Qb, Q1, wires_from_cons, wires_one. cbn [app]. unfold w. by replace (zlen ms_b + 1 + 1) with (zlen ms_b + 2) by lia. }
  exists a2, b2, (ms_a ++ [logon_of h]), (ms_b ++ [r; logon_of h]). split_and!.
  - intros rounds Hrounds. destruct rounds as [|[|rounds]]; [lia|lia|].
    rewrite (exchange_round _ 0 0 a b [outbound_bytes pa (logon_of h) (zlen ms_a + 1)] [outbound_bytes pb r (zlen ms_b + 1)] a1 b1);
      [|by rewrite Qa, wires_one|by apply process_one|by rewrite Q1|by apply process_one].
    rewrite (exchange_round _ _ _ a1 b1 ws [w] a2 b2); [|by apply drop_queued|exact E3|by apply drop_queued|by apply process_one].
    rewrite <- Q4. apply exchange_idle.
  - by eexists.
  - by eexists.
  - eapply active_recovered; [|exact Ea]. replace (zlen (ms_b ++ [r; logon_of h]) + 1) with (zlen ms_b + 2 + 1) by (rewrite zlen_app; change (zlen [_; _]) with 2; lia). exact A4.
  - replace (zlen (ms_a ++ [logon_of h]) + 1) with (zlen ms_a + 2) by lia. exact Rd3.
  - rewrite (sd_handled _ _ _ _ _ _ _ A4), !omap_app. unfold lost_b. rewrite zdrop_all by lia. cbn [omap list_omap]. unfold w, r.
    rewrite (payload_sent pa pb h P _ _ (held_outgoing _ _ Hh)), (payload_sent pa pb h P (OResendRequest kb (zlen ms_a))) by (lia || by right; right).
    by rewrite !app_nil_r.
  - rewrite Hp. unfold lost_b. rewrite zdrop_all by lia. change (replied pa h a (resent_among [])) with (@nil Outbound). rewrite !omap_app. done.
Qed.

(** The acceptor's messages were lost: its answer to the Logon opens the gap. *)
Lemma reunited_acceptor_lost : kb = zlen ms_a + 1 -> 1 <= ka <= zlen ms_b -> zlen ms_b + 1 < ka + window -> reunited.
Proof using All.
  intros Hkb Hka Hwin. unfold reunited. set (lost_a := zdrop (kb - 1) ms_a). set (lost_b := zdrop (ka - 1) ms_b) in *.
  destruct rooms as (_ & _ & Hr & Ho & Hl & Ha & Hb & Hh). destruct (logon_in_order Hkb) as (b1 & E1 & A1 & D1).
  set (la := ms_a ++ [logon_of h]) in *. replace (zlen ms_a + 2) with (zlen la + 1) in A1 by lia.
  assert (Hob' : Forall (outgoing h) lost_b) by (by unfold lost_b, zdrop; apply Forall_drop).
  destruct (gap_exchange pa pb h (logon_of h) la ms_b ka hs_a _ _ a _ _ _ b1 P Aa ltac:(done) ltac:(by left) A1 Eb Ho Hob Hh Hka Hwin)
    as (a1 & b2 & ws & a2 & E2 & _ & _ & D2 & E3 & A3 & Q3 & R3 & I3 & E4 & Rd4 & D4 & Hp); [unfold room, Max_Wire in *; lia|apply Ca|apply Ca|]. fold lost_b in Rd4, D4, Hp.
  rewrite (replied_app pa h a), (logon_accepted pa a Ra), app_nil_r in Rd4, D4.
  set (r := OResendRequest ka (zlen ms_b)) in *. set (ys := replied pa h a (resent_among lost_b)) in *.
  pose proof (replies_traffic pa pb h P a lost_b Hob' (sd_id _ _ _ _ _ _ _ Aa)) as Hys. fold ys in Hys.
  assert (Hylen : zlen ys <= zlen ms_b) by (pose proof (replies_length pa h a lost_b) as H; fold ys in H; unfold lost_b in H; rewrite zlen_zdrop in H by lia; lia).
  assert (Hn : replied pb h b2 ys = []) by (unfold ys; by apply replies_unanswered).
  destruct (process_all_held pb pa h (parties_sym _ _ _ P) ys (ms_b ++ [logon_of h]) (zlen la + 2) _ _ b2 A3 Eb Hys) as (b3 & E5 & A5 & D5 & Hp5);
    [lia|lia|by apply Forall_app; rewrite Forall_singleton; split; [|left]|rewrite Hn, zlen_app; change (zlen [logon_of h]) with 1; change (zlen []) with 0; unfold room, Max_Wire in *; lia|].
  rewrite Hn in A5, D5. rewrite app_nil_r in A5.
  assert (Q1 : queued b1 = [outbound_bytes pb (logon_of h) (zlen ms_b + 1)]) by by rewrite (ad_queue _ _ _ _ _ D1), Qb, wires_one.
  assert (Q2 : queued a1 = queued a ++ [outbound_bytes pa r (zlen la + 1)]) by by rewrite (ad_queue _ _ _ _ _ D2), wires_one.
  assert (Q4 : queued a2 = queued a1 ++ wires_from pa (zlen la + 2 - 1) ys).
  { rewrite (ad_queue _ _ _ _ _ D4), Q2, wires_from_cons, <- app_assoc. cbn [app]. by replace (zlen la + 2 - 1) with (zlen la + 1) by lia. }
  assert (Q5 : queued b3 = queued b2) by (rewrite (ad_queue _ _ _ _ _ D5); change (wires_from pb _ []) with (@nil bytes); by rewrite app_nil_r).
  exists a2, b3, (la ++ r :: ys), (ms_b ++ [logon_of h]). split_and!.
  - intros rounds Hrounds. destruct rounds as [|[|[|rounds]]]; [lia|lia|lia|].
    rewrite (exchange_round _ 0 0 a b (queued a) [outbound_bytes pb (logon_of h) (zlen ms_b + 1)] a1 b1); [|done|exact E1|by rewrite Q1|by apply process_one].
    rewrite (exchange_round _ _ _ a1 b1 [outbound_bytes pa r (zlen la + 1)] ws a2 b2); [|by apply drop_queued|by apply process_one|by apply drop_queued|exact E4].
    rewrite (exchange_round _ _ _ a2 b2 (wires_from pa (zlen la + 2 - 1) ys) [] a2 b3); [|by apply drop_queued|exact E5|by rewrite Q5, drop_all|done].
    apply exchange_idle.
  - unfold la. rewrite <- app_assoc. by eexists.
  - by eexists.
  - replace (zlen (ms_b ++ [logon_of h]) + 1) with (zlen ms_b + 2) by (rewrite zlen_app; change (zlen [logon_of h]) with 1; lia). exact Rd4.
  - eapply active_recovered; [|exact Eb]. replace (zlen (la ++ r :: ys) + 1) with (zlen la + 2 + zlen ys) by (rewrite zlen_app, zlen_cons; lia). exact A5.
  - rewrite Hp, omap_app. cbn [omap list_omap custom_of logon_of]. by rewrite app_nil_r.
  - rewrite (sd_handled _ _ _ _ _ _ _ A5), !omap_app, Hp5. unfold lost_a. rewrite zdrop_all by lia. cbn [omap list_omap]. unfold r.
    rewrite (payload_sent pb pa h (parties_sym _ _ _ P) _ _ (held_outgoing _ _ Hh)) by lia.
    rewrite (payload_sent pb pa h (parties_sym _ _ _ P) (OResendRequest ka (zlen ms_b))) by (lia || by right; right).
    cbn [custom_of logon_of]. by rewrite !app_nil_r.
Qed.
End Meet.

(** C4: two engines meet again.  Two active sessions lose their connection, each with a
    permanent error at any moment, and come back on a new one.  Each has handled a first part of
    what the other has sent: one of them all of it, the other all but fewer than 512 messages,
    and what the acceptor has missed asks for no answer.  Then three rounds of reading what the
    other side has queued are enough, and more change nothing: the Logons are exchanged, the
    Logon that is too high is held back until the lost messages are resent or filled, both
    sessions are active with empty caches, and each expects the number that the other uses next.
    Every lost custom message has been handed to its handler exactly once and in the order in
    which it was sent; the acceptor has also been handed the answers to those that the initiator
    had missed. *)
Theorem engines_reconnect pa pb h ms_a got_a a ms_b got_b b ec_a ca ec_b cb : parties pa pb h ->
  active pa ms_a got_a a -> active pb ms_b got_b b -> role_ a = INITIATOR -> role_ b = ACCEPTOR ->
  Forall (outgoing h) ms_a -> Forall (outgoing h) ms_b -> room (zlen ms_a + zlen ms_b + 3) ->
  reconnecting_ a = false -> reconnecting_ b = false -> breaks ec_a -> breaks ec_b -> cache_ready a -> cache_ready b ->
  zlen got_a <= zlen ms_b < zlen got_a + window -> zlen got_b <= zlen ms_a < zlen got_b + window ->
  let lost_a := zdrop (zlen got_b) ms_a in let lost_b := zdrop (zlen got_a) ms_b in
  lost_a = [] \/ lost_b = [] -> Forall (fun m => unanswered m = true) lost_a ->
  exists a0 b0 a' b' ms ms', session_run (come_back ec_a ca) a = Ok a0 /\ session_run (come_back ec_b cb) b = Ok b0 /\
    (forall rounds, (3 <= rounds)%nat -> exchange rounds 0 0 a0 b0 = Ok (a', b')) /\
    state_ a' = ACTIVE /\ state_ b' = ACTIVE /\
    RecoveryCache.empty (recovery_cache_ a') = true /\ RecoveryCache.empty (recovery_cache_ b') = true /\
    ms_a `prefix_of` ms /\ ms_b `prefix_of` ms' /\ session_ok a' (sent_wires pa ms) /\ session_ok b' (sent_wires pb ms') /\
    next_in (seqs a') = zlen ms' + 1 /\ next_in (seqs b') = zlen ms + 1 /\
    omap custom_payload (handled a') = omap custom_payload (handled a) ++ omap custom_of lost_b /\
    omap custom_payload (handled b') = omap custom_payload (handled b) ++
      omap custom_of (lost_a ++ omap (reply pa h INITIATOR (id_ a)) (resent_among lost_b)).
Proof.
  intros P [Ea A] [Eb A'] Ra Rb Hoa Hob Hroom Ha Hb Ba Bb Ca Cb Hga Hgb lost_a lost_b Hlost Hun.
  pose proof (zlen_nonneg ms_a). pose proof (zlen_nonneg ms_b). pose proof (zlen_nonneg got_a). pose proof (zlen_nonneg got_b).
  assert (Hl : forall (l : list Outbound) k, 0 <= k <= zlen l -> zdrop k l = [] -> zlen l <= k).
  { intros l k Hk E. pose proof (zlen_zdrop k l ltac:(lia)) as Hz. rewrite E in Hz. change (zlen []) with 0 in Hz. lia. }
  destruct (come_back_spec pa pb h P ec_a ca ms_a _ _ _ _ a A ltac:(done) Ha Ba Ca Hoa) as (a0 & E1 & [A0 E0 C0 R0 I0 Q0]); [unfold room, Max_Wire in *; lia|].
  destruct (come_back_spec pb pa h (parties_sym _ _ _ P) ec_b cb ms_b _ _ _ _ b A' ltac:(done) Hb Bb Cb Hob) as (b0 & E2 & [B0 F0 D0 S0 J0 T0]); [unfold room, Max_Wire in *; lia|].
  rewrite Ra in A0, R0, Q0. rewrite Rb in B0, S0, T0. rewrite app_nil_r in B0.
  assert (M : reunited pa pb h ms_a ms_b (zlen got_a + 1) (zlen got_b + 1) (message_of <$> got_a) (message_of <$> got_b) a0 b0).
  { destruct (decide (zlen got_b = zlen ms_a)) as [Hkb|Hkb]; [destruct (decide (zlen got_a = zlen ms_b)) as [Hka|Hka]|].
    - apply reunited_in_order; assumption || congruence || lia.
    - apply reunited_acceptor_lost; assumption || congruence || lia.
    - destruct Hlost as [Hx|Hx]; (apply Hl in Hx; [|lia]); [lia|]. apply reunited_initiator_lost; try (assumption || congruence || lia).
      by replace (zlen got_b + 1 - 1) with (zlen got_b) by lia. }
  unfold reunited in M. replace (zlen got_a + 1 - 1) with (zlen got_a) in M by lia. replace (zlen got_b + 1 - 1) with (zlen got_b) in M by lia.
  unfold replied in M. rewrite R0, I0 in M. rewrite <- (sd_handled _ _ _ _ _ _ _ A), <- (sd_handled _ _ _ _ _ _ _ A') in M.
  destruct M as (a' & b' & ms & ms' & Hx & Pa & Pb & [Sa Ta] & [Sb Tb] & Ha' & Hb').
  exists a0, b0, a', b', ms, ms'. split_and!; try assumption; apply Sa || apply Sb.
Qed.

(** ** Instances *)

(** The initiator has missed four messages of the acceptor, two of them custom messages; the
    Logon that answers its own is held back until they are resent or filled. *)
Example engines_reconnect_witness :
  let a := active_new (mk_session_id 0 2) INITIATOR demo_peer in
  exists b, send_all demo_params demo_lost (active_new (mk_session_id 0 1) ACCEPTOR demo_params) = Ok b /\
  exists a0 b0 a' b' ms ms', session_run (come_back connection_reset 8) a = Ok a0 /\ session_run (come_back connection_reset 9) b = Ok b0 /\
    (forall rounds, (3 <= rounds)%nat -> exchange rounds 0 0 a0 b0 = Ok (a', b')) /\
    state_ a' = ACTIVE /\ state_ b' = ACTIVE /\
    RecoveryCache.empty (recovery_cache_ a') = true /\ RecoveryCache.empty (recovery_cache_ b') = true /\
    [] `prefix_of` ms /\ demo_lost `prefix_of` ms' /\ session_ok a' (sent_wires demo_peer ms) /\ session_ok b' (sent_wires demo_params ms') /\
    next_in (seqs a') = zlen ms' + 1 /\ next_in (seqs b') = zlen ms + 1 /\
    omap custom_payload (handled a') = omap custom_payload (handled a) ++ [B "one"; B "two"] /\
    omap custom_payload (handled b') = omap custom_payload (handled b) ++ let answer := B "custom_response from" ++ readable demo_peer (id_ a) in [answer; answer].
Proof.
  intros a. pose proof (parties_sym _ _ _ demo_parties) as P. pose proof demo_lost_ok as Ht. apply Forall_app in Ht as [Ht _].
  assert (Ho : Forall (outgoing demo_beat) ([] ++ demo_lost)) by (eapply Forall_impl; [exact Ht|by apply traffic_outgoing]).
  assert (Ha : active demo_peer [] [] a) by by eapply (active_new_ok _ _ _ _ _ P).
  assert (Hca : cache_ready a) by (split; [eexists; apply new_represents|by vm_compute]).
  assert (Hr : room (zlen (@nil Outbound) + zlen demo_lost + 3)) by by vm_compute.
  assert (H1 : zlen (@nil bytes) <= zlen demo_lost < zlen (@nil bytes) + window) by by vm_compute.
  assert (H2 : zlen (@nil bytes) <= zlen (@nil Outbound) < zlen (@nil bytes) + window) by by vm_compute.
  assert (Hbr : breaks connection_reset) by (split_and!; by vm_compute).
  assert (El : omap custom_of (zdrop (zlen (@nil bytes)) demo_lost) = [B "one"; B "two"]) by by vm_compute.
  set (answer := B "custom_response from" ++ readable demo_peer (id_ a)).
  assert (Er : omap custom_of (zdrop (zlen (@nil bytes)) [] ++ omap (reply demo_peer demo_beat INITIATOR (id_ a)) (resent_among (zdrop (zlen (@nil bytes)) demo_lost))) = [answer; answer]) by by vm_compute.
  set (b00 := active_new (mk_session_id 0 1) ACCEPTOR demo_params).
  destruct (active_sends demo_params demo_peer demo_beat demo_lost [] [] b00 demo_parties) as (b & E & A'); [by eapply (active_new_ok _ _ _ _ _ demo_parties)|exact Ho|by vm_compute|].
  exists b. split; [exact E|].
  assert (F : (let! b := send_all demo_params demo_lost b00 in Ok (role_ b, reconnecting_ b, recovery_cache_ b)) = Ok (ACCEPTOR, false, recovery_cache_ b00)) by by vm_compute.
  rewrite E, ok_bind in F. injection F as Fr Fc Fs.
  assert (Hcb : cache_ready b) by (unfold cache_ready, cache_room; rewrite Fs; exact Hca).
  pose proof (engines_reconnect demo_peer demo_params demo_beat [] [] a demo_lost [] b connection_reset 8 connection_reset 9 P Ha A' eq_refl Fr
    (Forall_nil_2 _) Ho Hr eq_refl Fc Hbr Hbr Hca Hcb H1 H2 (or_introl eq_refl) (Forall_nil_2 _)) as W.
  cbv zeta in W. rewrite El, Er in W. exact W.
Defined.

(** The initiator has done [lost], the connection fails before anything of it arrives, and both
    sides connect again. *)
Definition reconnect_after (lost : event) (rounds : nat) : Res (Session * Session) :=
  let! a := session_run (lost :: come_back connection_reset 8) (active_new (mk_session_id 0 2) INITIATOR demo_peer) in
  let! b := session_run (come_back connection_reset 8) (active_new (mk_session_id 0 1) ACCEPTOR demo_params) in
  exchange rounds 0 0 a b.

(** The Logon opens the gap, and a lost heartbeat is filled before it is answered. *)
Lemma reconnect_fills_gap :
  (let! '(a, b) := reconnect_after (EvHeartbeatTimer success) 3 in Ok (state_ a, state_ b, stopped_ a, stopped_ b)) = Ok (ACTIVE, ACTIVE, false, false).
Proof. by vm_compute. Qed.

(** [unanswered] is needed: a lost custom message is resent and answered before the Logon is, so
    the initiator, which still waits for the Logon, logs out when it reads the answer, and the
    acceptor stops for good. *)
Lemma reconnect_ends_session :
  (let! '(a, b) := reconnect_after (EvSendFromApp [mk_field 9250 (B "one")] (Message.msg_type (B "cu"))) 3 in Ok (state_ b, stopped_ b)) = Ok (DISCONNECTED, true).
Proof. by vm_compute. Qed.
