(* ===== verification/Application.v ===== *)
(** Programs around the engine: the shell (FixShell.cpp), the reactor (Reactor.cpp), the socket
    behind a connection and the timers (AsioConnection.cpp, AsioTimer.cpp), and the applications
    of Application.hpp and examples/basic.cpp with the [main] of the latter. *)
From Stdlib Require Import Strings.Byte.
From stdpp Require Import gmap.
From S2P Require Import Prelude.
From S2P Require Import Text.
From S2P Require Import Network.
From S2P Require Import Message.
From S2P Require Import Validator.
From S2P Require Import Factory.
From S2P Require Import Session.
From S2P Require Import SessionTrace.
From S2P Require Import SessionPool.
From S2P Require Import SessionManager.

(** ** The shell *)

Module FixShell.

Definition newline_byte : byte := x0a.
Definition line (text : bytes) : bytes := text ++ [newline_byte].

(** [std::cout] as what was written so far. *)
Definition print_to_screen (message : bytes) (newline : bool) (out : bytes) : bytes :=
  let out := out ++ message in if newline then out ++ [newline_byte] else out.
Definition print (message out : bytes) : bytes := print_to_screen message false out.

Definition help (out : bytes) : bytes :=
  let out := print (line (B "Available commands:")) out in
  let out := print (line (B "  help  - Show this help message")) out in
  let out := print (line (B "  clear - Clear the screen and destroy the main thread which also destroys all active sessions")) out in
  print (line (B "  exit   - Exit the shell")) out.

Definition clear (out : bytes) : bytes := out ++ x1b :: B "[2J" ++ x1b :: B "[1;1H".

(** The [while (true)]; [lines]: what [std::getline] will read.  The second result is what is
    left unread. *)
Fixpoint run_loop (lines : list bytes) (out : bytes) : bytes * list bytes :=
  let out := print (B "> ") out in
  match lines with
  | [] => (out, [])
  | l :: rest =>
      if bool_decide (l = B "help") then run_loop rest (help out)
      else if bool_decide (l = B "clear") then run_loop rest (clear out)
      else if bool_decide (l = B "exit") || bool_decide (l = B "quit") then (out, rest)
      else run_loop rest (print (line (B "Unknown command. Type 'help' for commands.")) out)
  end.

Definition shell_run (lines : list bytes) (out : bytes) : bytes * list bytes :=
  run_loop lines (print (line (B "FIX Shell started. Type 'help' for commands.")) out).

Definition leaves (l : bytes) : bool := bool_decide (l = B "exit") || bool_decide (l = B "quit").

(** What a command shows. *)
Definition response (l : bytes) : bytes :=
  if bool_decide (l = B "help") then help []
  else if bool_decide (l = B "clear") then clear []
  else line (B "Unknown command. Type 'help' for commands.").

Lemma run_loop_step l lines out : leaves l = false -> run_loop (l :: lines) out = run_loop lines (out ++ B "> " ++ response l).
Proof.
  unfold leaves, response. cbn [run_loop]. intros ->. cbv beta iota zeta delta [print print_to_screen help clear].
  do 2 (case_bool_decide; [by rewrite ?app_nil_l, <- !app_assoc|]). by rewrite <- !app_assoc.
Qed.

(** The shell answers every command and returns at the first [exit] or [quit], or at the end of
    the input; what follows stays unread. *)
Lemma shell_run_exact cmds rest out : Forall (fun l => leaves l = false) cmds ->
  match rest with [] => True | l :: _ => leaves l = true end ->
  shell_run (cmds ++ rest) out = (out ++ line (B "FIX Shell started. Type 'help' for commands.") ++
    concat ((fun l => B "> " ++ response l) <$> cmds) ++ B "> ", drop 1 rest).
Proof.
  intros Hc Hr. unfold shell_run, print, print_to_screen. rewrite app_assoc. generalize (out ++ line (B "FIX Shell started. Type 'help' for commands.")) as o.
  induction Hc as [|l cmds Hl _ IH]; intros o; cbn [app].
  - destruct rest as [|l rest]; cbn [run_loop fmap list_fmap concat app]; [done|]. unfold leaves in Hr.
    do 2 (case_bool_decide; [subst; by vm_compute in Hr|]). by rewrite Hr.
  - rewrite run_loop_step, IH by done. cbn [fmap list_fmap concat]. by rewrite <- !app_assoc.
Qed.

Example demo_shell : (shell_run [B "status"; B "quit"; B "help"] []).2 = [B "help"].
Proof. by vm_compute. Qed.

End FixShell.

(** ** The reactor *)

Module Reactor.

(** [guarded]: the work guard is held; [stopped]: [io_context_.stop()] was called;
    [workers_]: the number of threads. *)
Record Reactor : Set := mk_reactor { guarded : bool; stopped : bool; workers_ : Z }.

Definition reactor_new : Reactor := mk_reactor true false 0.
Definition reactor_run (n_threads : Z) (r : Reactor) : Reactor :=
  if negb (workers_ r =? 0) then r else mk_reactor (guarded r) (stopped r) (Z.max 1 n_threads).
Definition reactor_stop (r : Reactor) : Reactor := mk_reactor false true (workers_ r).

Section Wait.
(** Whether [io_context::run] returns once the handlers that run have returned: it does when the
    context was stopped, and it does not while there is work and the context was not stopped. *)
Context (run_returns : bool -> bool -> bool).
Hypothesis returns_stopped : forall g, run_returns g true = true.
Hypothesis waits_for_work : run_returns true false = false.

(** [run_single]: whether the calling thread comes back. *)
Definition run_single (r : Reactor) : bool := run_returns (guarded r) (stopped r).
(** [workers_.clear()] joins the threads; [None] if it blocks. *)
Definition wait (r : Reactor) : option Reactor :=
  if (workers_ r =? 0) || run_returns (guarded r) (stopped r) then Some (mk_reactor (guarded r) (stopped r) 0) else None.

(** Without a stop nobody comes back from a running reactor; after a stop everybody does. *)
Lemma wait_blocks n : wait (reactor_run n reactor_new) = None /\ run_single (reactor_run n reactor_new) = false.
Proof using waits_for_work.
  unfold wait, reactor_run, run_single, reactor_new. cbn. rewrite waits_for_work. destruct (Z.eqb_spec (Z.max 1 n) 0); [lia|done].
Qed.
Lemma wait_after_stop r : wait (reactor_stop r) = Some (mk_reactor false true 0) /\ run_single (reactor_stop r) = true.
Proof using returns_stopped. unfold wait, run_single, reactor_stop. cbn. by rewrite returns_stopped, orb_true_r. Qed.
End Wait.

(** A reactor runs at least one thread, as many as it is asked for (there is no limit of four),
    and a second [run] changes nothing. *)
Lemma run_threads n m : workers_ (reactor_run n reactor_new) = Z.max 1 n /\ reactor_run m (reactor_run n reactor_new) = reactor_run n reactor_new.
Proof. split; [done|]. unfold reactor_run at 1. destruct (Z.eqb_spec (workers_ (reactor_run n reactor_new)) 0) as [E|E]; [cbn in E; lia|done]. Qed.

End Reactor.

(** ** Sockets and timers *)

(** What is asked of the socket and of the [steady_timer]. *)
Inductive asio_call : Set :=
  | CReadSome | CWriteSome | CShutdownBoth | CClose
  | CExpiresAfter (ms : Z) | CAsyncWait | CCancel.

Definition async_read_some (calls : list asio_call) : list asio_call := calls ++ [CReadSome].
Definition async_write_some (calls : list asio_call) : list asio_call := calls ++ [CWriteSome].
(** [sockfd_->is_open()] and the calls so far; errors of [shutdown] and [close] are ignored. *)
Definition close (is_open : bool) (calls : list asio_call) : bool * list asio_call :=
  if is_open then (false, calls ++ [CShutdownBoth; CClose]) else (is_open, calls).
Definition timer_start (duration : Z) (calls : list asio_call) : list asio_call := calls ++ [CExpiresAfter duration; CAsyncWait].
Definition timer_cancel (calls : list asio_call) : list asio_call := calls ++ [CCancel].

Lemma close_idempotent o calls : let '(o1, c1) := close o calls in close o1 c1 = (o1, c1) /\ o1 = false.
Proof. by destruct o. Qed.

(** ** An application *)

Abbreviation app_event := (ValidMessage * SessionID)%type (only parsing).

(** [ApplicationExample], and [DummyApplication], which has another name and a reference to the
    manager: what [get_name] returns, its strand, the sessions it was given, whether
    [session_manager_] is set, and what it has written to [std::cout]. *)
Record Application : Type := mk_application {
  get_name : bytes;
  strand_ : list app_event;
  session_ids_ : list SessionID;
  has_manager : bool;
  console : bytes
}.
Definition eta_application (a : Application) : Application := mk_application (get_name a) (strand_ a) (session_ids_ a) (has_manager a) (console a).
#[export] Hint Extern 1 (@Updater Application _ _) => derive_updater eta_application : typeclass_instances.

(** [App{session_manager, ...}] with the constructor of the example. *)
Definition make_application (session_manager : bool) : Application := mk_application (B "ApplicationExample") [] [] session_manager [].
Definition dummy_application : Application := mk_application (B "DummyApplication") [] [] true [].
Definition set_session_manager (a : Application) : Application := a <| has_manager := true |>.
Definition set_session_ids (ids : list SessionID) (a : Application) : Application := a <| session_ids_ := ids |>.
(** The function that [get_app_sink] returns: it posts to the strand of the application. *)
Definition app_sink (ev : app_event) (a : Application) : Application := a <| strand_ := strand_ a ++ [ev] |>.

Definition received_line (name t : bytes) (sid : SessionID) : bytes :=
  name ++ B " received message of type: " ++ t ++ B " for session: " ++ to_dec (id sid) ++ [x0a].
Definition answer (sid : SessionID) : OutBoundAppMsg := mk_outbound [mk_field 9250 (B "Yello")] sid (Message.msg_type (B "cu")).

(** The type is printed through the pointer of the header cache, and the answer is sent through
    [session_manager_]; the second result is what is sent. *)
Definition process_event_ (ev : app_event) (a : Application) : Res (Application * OutBoundAppMsg) :=
  let '(v, sid) := ev in
  match slot v MsgTypeSlot with
  | None => Err NullDeref
  | Some t =>
      let a := a <| console := console a ++ received_line (get_name a) t sid |> in
      if has_manager a then Ok (a, answer sid) else Err NullDeref
  end.

(** A program: the engine, whose [app_sink_] is the function of [get_app_sink], and the
    application. *)
Record Program : Type := mk_program { pr_engine : SessionManager; pr_app : Application }.
Inductive program_op : Type := PEngine (op : manager_op) | PApp.

Definition program_step (op : program_op) (p : Program) : Res (Program * list SessionID) :=
  match op with
  | PEngine op =>
      let! '(m, ids) := manager_step op (pr_engine p) in
      let new := drop (length (app_events (pr_engine p))) (app_events m) in
      Ok (mk_program m (foldl (fun a ev => app_sink ev a) (pr_app p) new), ids)
  | PApp =>
      match strand_ (pr_app p) with
      | [] => Ok (p, [])
      | ev :: evs =>
          let! '(a, msg) := process_event_ ev ((pr_app p) <| strand_ := evs |>) in
          Ok (mk_program (send msg (pr_engine p)) a, [])
      end
  end.

(** ** The application is never called *)

(** No function for the application waits on the manager's strand, and none has run. *)
Definition not_app (t : Task) : Prop := match t with TAppEvent _ _ => False | _ => True end.
Definition quiet (m : SessionManager) : Prop := app_events m = [] /\ Forall not_app (exec_ m).

Lemma quiet_same m m' : app_events m' = app_events m -> exec_ m' = exec_ m -> quiet m -> quiet m'.
Proof. unfold quiet. by intros -> ->. Qed.
Lemma quiet_post t m : not_app t -> quiet m -> quiet (post t m).
Proof. intros Ht [He Hx]. split; [exact He|]. cbn. apply Forall_app. by split; [|constructor]. Qed.

Lemma start_slots_same slots m m' : start_slots slots m = Ok m' -> app_events m' = app_events m /\ exec_ m' = exec_ m.
Proof.
  revert m. induction slots as [|[p|] slots IH]; intros m; cbn [start_slots]; [by intros [= <-]| |done].
  intros E. by apply IH in E.
Qed.
Lemma stop_all_same ptrs m : let m' := foldl (fun m sess => on_strand (address sess) EvStop m) m ptrs in
  app_events m' = app_events m /\ exec_ m' = exec_ m.
Proof. cbv zeta. revert m. induction ptrs as [|p ptrs IH]; intros m; cbn [foldl]; [done|]. by destruct (IH (on_strand (address p) EvStop m)). Qed.
Lemma tell_same h e m m' : tell h e m = Ok m' -> app_events m' = app_events m /\ exec_ m' = exec_ m.
Proof. unfold tell. intros E. apply bind_ok in E as ([p|] & _ & E); by injection E as <-. Qed.

Lemma session_event_quiet a e m m' : session_event a e m = Ok m' -> quiet m -> quiet m'.
Proof.
  unfold session_event. destruct (heap_ m !! a) as [o|]; [|by intros [= <-]].
  destruct (session_step e (obj_session o)) as [s|] eqn:Es; cbn [mbind res_bind]; [|done]. intros [= <-] [He Hx].
  destruct (session_step_grows _ _ _ Es) as [_ _ _ (l & El & Hl)]. split; [exact He|]. cbn. rewrite El, drop_app_length.
  apply Forall_app. split; [exact Hx|]. clear -Hl. induction Hl as [|x l Hx _ IH]; [constructor|].
  destruct x; cbn [omap list_omap callback]; try exact IH; by constructor.
Qed.
Lemma run_session_quiet a m m' : run_session a m = Ok m' -> quiet m -> quiet m'.
Proof.
  unfold run_session. destruct (heap_ m !! a) as [[s [|e es]]|]; [by intros [= <-]| |by intros [= <-]].
  intros E Q. by apply (session_event_quiet _ _ _ _ E).
Qed.
Lemma run_manager_quiet m m' : run_manager m = Ok m' -> quiet m -> quiet m'.
Proof.
  unfold run_manager. destruct (exec_ m) as [|t ts] eqn:Et; [by intros [= <-]|]. intros E [He Hx]. rewrite Et in Hx.
  inversion Hx as [|? ? Ht Hts]; subst. assert (Q : quiet (m <| exec_ := ts |>)) by by split.
  destruct t as [h|v h|msg| |h]; cbn [run_task] in E; [|done|..].
  - unfold reconnect_session_impl_ in E. destruct (session_configs_ _ !! _); [|by injection E as <-].
    apply bind_ok in E as ([p|] & _ & E); by injection E as <-.
  - destruct (tell_same _ _ _ _ E). by apply (quiet_same (m <| exec_ := ts |>)).
  - injection E as <-. destruct (stop_all_same (get_all (session_pool_ (m <| exec_ := ts |>))) (m <| exec_ := ts |>)).
    by apply (quiet_same (m <| exec_ := ts |>)).
  - destruct (tell_same _ _ _ _ E). by apply (quiet_same (m <| exec_ := ts |>)).
Qed.

Lemma manager_step_quiet op m m' ids : manager_step op m = Ok (m', ids) -> quiet m -> quiet m'.
Proof.
  destruct op as [c|h|msg|h| | | |a|a e|k ec c|a]; cbn [manager_step]; intros E Q.
  - apply bind_ok in E as ([sid m1] & E & E'). injection E' as <- _. unfold create_session in E. apply bind_ok in E as ([p pool] & _ & E).
    by injection E as _ <-.
  - apply bind_ok in E as (m1 & E & E'). injection E' as <- _. apply bind_ok in E as ([b m2] & E & E'). injection E' as <-.
    unfold remove_session in E. apply bind_ok in E as ([b' pool] & _ & E). by injection E as _ <-.
  - injection E as <- _. by apply quiet_post.
  - injection E as <- _. by apply quiet_post.
  - injection E as <- _. by apply quiet_post.
  - apply bind_ok in E as (m1 & E & E'). injection E' as <- _. destruct (start_slots_same _ _ _ E). by apply (quiet_same m).
  - apply bind_ok in E as (m1 & E & E'). injection E' as <- _. by apply (run_manager_quiet m).
  - apply bind_ok in E as (m1 & E & E'). injection E' as <- _. by apply (run_session_quiet a m).
  - apply bind_ok in E as (m1 & E & E'). injection E' as <- _. by apply (session_event_quiet a e m).
  - injection E as <- _. destruct (requests m !! k) as [rq|]; [|done]. unfold request_handler.
    destruct (heap_ _ !! rq_session rq); destruct (negb _); try done. by destruct (rq_listen rq).
  - injection E as <- _. unfold destroy_session. case_bool_decide; [done|]. by destruct (heap_ m !! a) as [[s [|]]|].
Qed.

Fixpoint program_run (ops : list program_op) (p : Program) : Res Program :=
  match ops with [] => Ok p | op :: ops => let! '(p, _) := program_step op p in program_run ops p end.

(** Whatever happens to a program, its application gets no message: the types that the registry
    knows are the ones that the sessions handle themselves. *)
Lemma application_silent ops a p : strand_ a = [] -> program_run ops (mk_program manager_new a) = Ok p -> pr_app p = a.
Proof.
  intros Ha. assert (H : forall ops p0, quiet (pr_engine p0) -> pr_app p0 = a -> program_run ops p0 = Ok p -> pr_app p = a); [|by apply H].
  clear ops. induction ops as [|op ops IH]; intros p0 Q E0 E; cbn [program_run] in E; [by injection E as <-|].
  apply bind_ok in E as ([p1 ids] & E1 & E). destruct op as [op|]; cbn [program_step] in E1.
  - apply bind_ok in E1 as ([m ids'] & E1 & E2). injection E2 as <- _. pose proof (manager_step_quiet _ _ _ _ E1 Q) as Qm.
    apply (IH (mk_program m _)) in E; [exact E|exact Qm|]. cbn [pr_app]. by rewrite (proj1 Qm), drop_nil.
  - rewrite E0, Ha in E1. injection E1 as <- _. by apply (IH p0).
Qed.

(** If it did get one, it would print its type and answer the session it came from. *)
Lemma process_event_answers v sid t a : slot v MsgTypeSlot = Some t -> has_manager a = true ->
  process_event_ (v, sid) a = Ok (a <| console := console a ++ received_line (get_name a) t sid |>, answer sid).
Proof. intros Ht Ha. unfold process_event_. rewrite Ht. change (has_manager (a <| console := _ |>)) with (has_manager a). by rewrite Ha. Qed.

(** ** examples/basic.cpp *)

Module Basic.

Definition default_params : SessionParameters :=
  mk_params (B "0") (B "FIX.4.4") (B "test_sender") (B "test_target") 30 0 false true.
Definition server_conn_config : ConnectionConfig := mk_conn_config (B "127.0.0.1") 5001 ACCEPTOR 1.
Definition server_session_params : SessionParameters := default_params <| sender_comp_id := B "SRV" |> <| target_comp_id := B "CLT" |> <| heart_beat_int := 30 |>.
Definition server_config : SessionCreationConfig := mk_creation (conn_role server_conn_config) server_conn_config server_session_params.
Definition client_conn_config : ConnectionConfig := mk_conn_config (B "127.0.0.1") 5001 INITIATOR 1.
Definition client_session_params : SessionParameters := default_params <| sender_comp_id := B "CLT" |> <| target_comp_id := B "SRV" |> <| heart_beat_int := 30 |>.
Definition client_config : SessionCreationConfig := mk_creation (conn_role client_conn_config) client_conn_config client_session_params.
Definition configs : list SessionCreationConfig := [server_config; client_config].

(** [main] up to [reactor.run()]. *)
Definition main_setup : Res Program :=
  let a := set_session_manager (make_application false) in
  let! '(ids, m) := create_all configs manager_new in
  Ok (mk_program m (set_session_ids ids a)).

(** [main] after [shell.run()]: [stop_all] only posts to the manager's strand, and the reactor is
    stopped at once. *)
Definition main_cleanup (p : Program) (r : Reactor.Reactor) : Program * Reactor.Reactor :=
  (mk_program (stop_all (pr_engine p)) (pr_app p), Reactor.reactor_stop r).

(** The acceptor is session 0 and listens, the initiator is session 1 and connects. *)
Example main_setup_result : exists p, main_setup = Ok p /\
  session_ids_ (pr_app p) = [mk_session_id 0 0; mk_session_id 1 1] /\
  (fun rq => (rq_listen rq, rq_session rq, rq_mode rq)) <$> requests (pr_engine p) = [(true, 0, NORMAL); (false, 1, NORMAL)].
Proof. apply ok_such. vm_compute. by split. Qed.

(** Nothing but the threads of the reactor runs what [stop_all] posts, so the sessions are only
    stopped if a thread gets to it before it sees the stop. *)
Lemma cleanup_posts p r : let '(p', r') := main_cleanup p r in
  exec_ (pr_engine p') = exec_ (pr_engine p) ++ [TStopAll] /\ heap_ (pr_engine p') = heap_ (pr_engine p) /\ Reactor.stopped r' = true.
Proof. done. Qed.

End Basic.
