(* ===== verification/SessionLink.v ===== *)
(** Two sessions of this engine and the transport between them: [SessionLink] runs both sides,
    from the start on, with their timers, their applications and a byte stream in each
    direction that may take and deliver any number of bytes at a time. *)
From Stdlib Require Import Strings.Byte.
From stdpp Require Import gmap.
From S2P Require Import Prelude.
From S2P Require Import Text.
From S2P Require Import Network.
From S2P Require Import Message.
From S2P Require Import Parser.
From S2P Require Import LinearBuffer.
From S2P Require Import Framer.
From S2P Require Import MessageStore.
From S2P Require Import RecoveryCache.
From S2P Require Import Validator.
From S2P Require Import Factory.
From S2P Require Import Session.
From S2P Require Import SessionBase.
From S2P Require Import SessionInbound.
From S2P Require Import SessionOutbound.
From S2P Require Import SessionWrite.
From S2P Require Import SessionLogon.
From S2P Require Import SessionTraffic.
From S2P Require Import Application.

(** ** One end *)

(** A session with its outstanding writes and what the transport has taken from it, the number
    of its outstanding reads, and the number of bytes it has received. *)
Record Endpoint : Type := mk_endpoint { en_channel : Channel; en_reads : Z; en_received : Z }.
Definition en_session (e : Endpoint) : Session := ch_session (en_channel e).
Definition en_accepted (e : Endpoint) : bytes := ch_accepted (en_channel e).
Definition en_outstanding (e : Endpoint) : list bytes := ch_outstanding (en_channel e).

Definition new_effects (s s' : Session) : list Effect := zdrop (zlen (effects_ s)) (effects_ s').

(** A handler has taken the session to [s']: the reads and writes it has started are outstanding. *)
Definition after (s' : Session) (e : Endpoint) : Endpoint :=
  let l := new_effects (en_session e) s' in
  mk_endpoint (mk_channel s' (en_accepted e) (en_outstanding e ++ writes_of l)) (en_reads e + zlen (reads_of l)) (en_received e).

Definition step (ev : event) (e : Endpoint) : Res Endpoint :=
  let! s' := session_step ev (en_session e) in Ok (after s' e).

(** The first of the outstanding writes completes with at most [n] bytes. *)
Definition written (n : Z) (e : Endpoint) : Res Endpoint :=
  match en_outstanding e with
  | [] => Ok e
  | d :: out =>
      let n := Z.min n (zlen d) in
      step (EvWrite success n) (mk_endpoint (mk_channel (en_session e) (en_accepted e ++ ztake n d) out) (en_reads e) (en_received e))
  end.

(** An outstanding read completes with at most [n] of the bytes [stream] that were sent to the
    session; a read returns no more than [cap]. *)
Definition delivered (cap n : Z) (stream : bytes) (e : Endpoint) : Res Endpoint :=
  let d := ztake (Z.min n cap) (zdrop (en_received e) stream) in
  if (en_reads e <=? 0) || bool_decide (d = []) then Ok e
  else step (EvRead success d) (mk_endpoint (en_channel e) (en_reads e - 1) (en_received e + zlen d)).

(** ** Both ends *)

Inductive Side : Set := SideA | SideB.
Record Link : Type := mk_link { lk_a : Endpoint; lk_b : Endpoint }.
Definition at_ (x : Side) (l : Link) : Endpoint := match x with SideA => lk_a l | SideB => lk_b l end.
Definition other (x : Side) : Side := match x with SideA => SideB | SideB => SideA end.
Definition put (x : Side) (e : Endpoint) (l : Link) : Link :=
  match x with SideA => mk_link e (lk_b l) | SideB => mk_link (lk_a l) e end.

(** What may happen.  An application sends its custom messages only when it is logged on.  The
    heartbeat and the inbound timer expire only when they are armed, which is when the session is
    established.  The timeouts that end a session are not among these: the logon timer does not
    expire, and the inbound timer does not expire again while a test request is not answered. *)
Inductive link_op : Set :=
  | LHeartbeat (x : Side)
  | LTestRequest (x : Side)
  | LApp (x : Side) (payload : bytes)
  | LWritten (x : Side) (n : Z)
  | LDelivered (x : Side) (n : Z).

Definition custom_type : MsgType := Message.msg_type (B "cu").

Definition link_step (cap : Z) (op : link_op) (l : Link) : Res Link :=
  match op with
  | LHeartbeat x =>
      if established (state_ (en_session (at_ x l))) then let! e := step (EvHeartbeatTimer success) (at_ x l) in Ok (put x e l) else Ok l
  | LTestRequest x =>
      if established (state_ (en_session (at_ x l))) && negb (awaiting_test_request_response_ (en_session (at_ x l)))
      then let! e := step (EvInboundTimer success) (at_ x l) in Ok (put x e l) else Ok l
  | LApp x p =>
      if established (state_ (en_session (at_ x l)))
      then let! e := step (EvSendFromApp [mk_field 9250 p] custom_type) (at_ x l) in Ok (put x e l) else Ok l
  | LWritten x n => let! e := written n (at_ x l) in Ok (put x e l)
  | LDelivered x n => let! e := delivered cap n (en_accepted (at_ (other x) l)) (at_ x l) in Ok (put x e l)
  end.

Fixpoint link_run (cap : Z) (ops : list link_op) (l : Link) : Res Link :=
  match ops with
  | [] => Ok l
  | op :: ops' => let! l := link_step cap op l in link_run cap ops' l
  end.

(** A new session with a connection starts. *)
Definition endpoint_start (i : SessionID) (r : Role) (p : SessionParameters) (c : Z) : Res Endpoint :=
  step (EvStart NORMAL) (mk_endpoint (mk_channel (set_connection (Some c) (session_new i r p)) [] []) 0 0).

Definition link_start (ia ib : SessionID) (pa pb : SessionParameters) (ca cb : Z) : Res Link :=
  let! a := endpoint_start ia INITIATOR pa ca in
  let! b := endpoint_start ib ACCEPTOR pb cb in
  Ok (mk_link a b).

(** ** What one end keeps *)

(** [l] takes its elements from [us] and [rs], each in its order. *)
Inductive merged {A} : list A -> list A -> list A -> Prop :=
  | merged_nil : merged [] [] []
  | merged_left x us rs l : merged us rs l -> merged (us ++ [x]) rs (l ++ [x])
  | merged_right x us rs l : merged us rs l -> merged us (rs ++ [x]) (l ++ [x]).

Lemma merged_rights {A} (us rs l xs : list A) : merged us rs l -> merged us (rs ++ xs) (l ++ xs).
Proof.
  revert rs l. induction xs as [|x xs IH]; intros rs l M; [by rewrite !app_nil_r|]. rewrite (cons_middle x rs), (cons_middle x l), !app_assoc. by apply IH, merged_right.
Qed.

(** The initiator sends its Logon unasked. *)
Definition first_unasked (r : Role) : Z := match r with INITIATOR => 1 | ACCEPTOR => 0 end.

Section Party.
Context (own peer : SessionParameters) (h : Z).
Hypothesis P : parties own peer h.

(** The session has sent [ms] and handled the messages [got] of the other side. *)
Definition session_at (ms : list Outbound) (got : list bytes) (s : Session) : Prop :=
  match got with [] => starting own h ms s | _ => active own ms got s /\ ms <> [] end.

Lemma session_at_ok ms got s : session_at ms got s -> session_ok s (sent_wires own ms) /\ next_in (seqs s) = zlen got + 1 /\
  handled s = message_of <$> got /\ 0 <= id (id_ s) < 2 ^ 64.
Proof using. intros A. destruct got; [destruct A|destruct A as [[_ []] _]]; split_and!; try assumption; lia. Qed.

Lemma session_at_framer f ms got s : session_at ms got s -> session_at ms got (s <| framer_ := f |>).
Proof using.
  destruct got; [intros [I ? ? ? ? ? ? ?]|intros [A ?]; split; [|done]].
  - split; try done. destruct I; by split.
  - destruct A as [Hc [I ? ? ? ? ? ? ?]]. split; [exact Hc|]. split; try done. destruct I; by split.
Qed.
Lemma session_at_read c ms got s : session_at ms got s -> session_at ms got (emit (ERead c) s).
Proof using.
  assert (Hh : handled (emit (ERead c) s) = handled s) by (apply handled_adds; by apply adds_emit).
  destruct got; [intros [I ? ? ? ? ? ? ?]|intros [A ?]; split; [|done]].
  - split; try done; [destruct I; by split|congruence].
  - destruct A as [Hc [I ? ? ? ? ? ? ?]]. split; [exact Hc|]. split; try done; [destruct I; by split|congruence].
Qed.

(** What it answers to the messages [hs]. *)
Definition replies (s : Session) (hs : list Outbound) : list Outbound := omap (reply own h (role_ s) (id_ s)) hs.

(** The next message of the other side. *)
Lemma process_next m ms got s : session_at ms got s -> history h ms -> (if decide (got = []) then m = logon_of h else traffic m) ->
  room (zlen ms) -> zlen got + 2 < 2 ^ 32 ->
  let w := outbound_bytes peer m (zlen got + 1) in let ms' := ms ++ replies s [m] in
  exists s', process_wire_message_ w s = Ok s' /\ session_at ms' (got ++ [w]) s' /\ history h ms' /\
    moved (concat (sent_wires own ms)) (concat (sent_wires own ms')) s s'.
Proof using P.
  intros A Hms Hm Hr Hg w ms'. assert (Er : replies s [m] = option_list (reply own h (role_ s) (id_ s) m))
    by (unfold replies; cbn; by destruct (reply _ _ _ _ m)).
  unfold ms'. rewrite Er. destruct got as [|w0 got]; cbn [decide] in Hm.
  - rewrite decide_True in Hm by done. subst m. destruct (process_first own peer h P ms s A) as (s' & E & A' & M).
    exists s'. split_and!; [exact E| | |exact M].
    + split; [exact A'|]. destruct (sg_role _ _ _ _ A) as [(_ & -> & _)|(-> & -> & _)]; done.
    + destruct (sg_role _ _ _ _ A) as [(-> & -> & _)|(-> & -> & _)]; by split.
  - rewrite decide_False in Hm by done. destruct A as [A Hne]. pose proof (sd_id _ _ _ _ _ _ _ (ac_steady _ _ _ _ A)) as Hi.
    destruct (process_traffic own peer h P m ms (w0 :: got) s A Hms Hm Hr Hg) as (s' & E & A' & M).
    exists s'. split_and!; [exact E| | |exact M].
    + split; [exact A'|]. by destruct ms.
    + destruct (reply own h (role_ s) (id_ s) m) as [r|] eqn:Em; cbn [option_list]; [|by rewrite app_nil_r].
      apply history_snoc; [done|done|]. by eapply reply_traffic.
Qed.

Lemma wires_from_drop (k : nat) hs : wires_from peer (Z.of_nat k) (drop k hs) = drop k (sent_wires peer hs).
Proof using.
  apply list_eq. intros i. unfold wires_from, sent_wires. rewrite lookup_drop, !list_lookup_imap, lookup_drop.
  destruct (hs !! (k + i)%nat); cbn [fmap option_fmap option_map]; [|reflexivity]. by replace (Z.of_nat k + Z.of_nat i) with (Z.of_nat (k + i)) by lia.
Qed.

(** Messages that may come after [got]. *)
Definition may_follow (got : list bytes) (hs : list Outbound) : Prop :=
  match hs with [] => True | m :: hs' => (if decide (got = []) then m = logon_of h else traffic m) /\ Forall traffic hs' end.
Lemma may_follow_cons w got m hs : may_follow got (m :: hs) -> may_follow (got ++ [w]) hs.
Proof using.
  intros [_ Ht]. destruct Ht as [|m' hs Hm Ht]; [done|]. split; [|done]. rewrite decide_False; [done|]. by destruct got.
Qed.

(** What the loop over messages [hs], starting at [s], has done at [s']. *)
Record looped (ms : list Outbound) (got : list bytes) (hs : list Outbound) (ns : list bytes) (v rest : bytes) (s s' : Session) : Prop := {
  lp_session : session_at (ms ++ replies s hs) (got ++ wires_from peer (zlen got) hs) s';
  lp_history : history h (ms ++ replies s hs);
  lp_synced : synced (framer_ s') [] ns v rest;
  lp_end : origin_of (framer_ s') + zlen (view_of (framer_ s')) = origin_of (framer_ s) + zlen (view_of (framer_ s));
  lp_capacity : LinearBuffer.capacity_ (buffer_ (framer_ s')) = LinearBuffer.capacity_ (buffer_ (framer_ s));
  lp_conn : conn_ s' = conn_ s;
  lp_id : id_ s' = id_ s;
  lp_role : role_ s' = role_ s;
  lp_queue : zlen (write_q_ s') + zlen (concat (sent_wires own ms)) <= zlen (write_q_ s) + zlen (concat (sent_wires own (ms ++ replies s hs)));
  lp_channel : exists l, effects_ s' = effects_ s ++ l /\ reads_of l = [] /\
    forall acc out, channel_ok (concat (sent_wires own ms)) (mk_channel s acc out) ->
      channel_ok (concat (sent_wires own (ms ++ replies s hs))) (mk_channel s' acc (out ++ writes_of l))
}.

Lemma looped_cons m ms got hs ns v rest s s1 f1 s' w : w = outbound_bytes peer m (zlen got + 1) ->
  moved (concat (sent_wires own ms)) (concat (sent_wires own (ms ++ replies s [m]))) s s1 ->
  origin_of f1 + zlen (view_of f1) = origin_of (framer_ s) + zlen (view_of (framer_ s)) ->
  LinearBuffer.capacity_ (buffer_ f1) = LinearBuffer.capacity_ (buffer_ (framer_ s)) ->
  looped (ms ++ replies s [m]) (got ++ [w]) hs ns v rest (s1 <| framer_ := f1 |>) s' -> looped ms got (m :: hs) ns v rest s s'.
Proof using.
  intros Ew [Mf Mc Mi Mr Mq (l1 & El1 & Rl1 & C1)] He Hca [A Hh Sy He' Hca' Hc' Hi' Hr' Hq' (l & El & Rl & C')].
  assert (Erep : (ms ++ replies s [m]) ++ replies (s1 <| framer_ := f1 |>) hs = ms ++ replies s (m :: hs)).
  { unfold replies. change (role_ (s1 <| framer_ := f1 |>)) with (role_ s1). change (id_ (s1 <| framer_ := f1 |>)) with (id_ s1).
    rewrite Mi, Mr, <- app_assoc. f_equal. by rewrite <- omap_app. }
  rewrite Erep in *. split; try done.
  - rewrite wires_from_cons, cons_middle, app_assoc, <- Ew. rewrite zlen_app in A. exact A.
  - rewrite He'. exact He.
  - rewrite Hca'. exact Hca.
  - rewrite Hc'. exact Mc.
  - rewrite Hi'. exact Mi.
  - rewrite Hr'. exact Mr.
  - change (write_q_ (s1 <| framer_ := f1 |>)) with (write_q_ s1) in Hq'. lia.
  - exists (l1 ++ l). split_and!.
    + rewrite El. change (effects_ (s1 <| framer_ := f1 |>)) with (effects_ s1). by rewrite El1, app_assoc.
    + by rewrite reads_of_app, Rl1, Rl.
    + intros acc out Ch. rewrite writes_of_app, app_assoc. apply C'. destruct (C1 acc out Ch). by split.
Qed.

(** The loop of a read over the messages [hs], which the framer has queued. *)
Lemma read_loop_party fuel hs ms got ns v rest s : session_at ms got s -> history h ms -> may_follow got hs ->
  synced (framer_ s) (wires_from peer (zlen got) hs) ns v rest -> origin_of (framer_ s) + zlen (view_of (framer_ s)) < 2 ^ 61 ->
  (length hs < fuel)%nat -> room (zlen ms + zlen hs) -> zlen got + zlen hs + 2 < 2 ^ 32 ->
  exists s', read_loop fuel s = Ok s' /\ looped ms got hs ns v rest s s'.
Proof using P.
  revert hs ms got s. induction fuel as [|fuel IH]; intros hs ms got s A Hms Hhs Sy Hb Hf Hr Hg; [lia|]. cbn [read_loop].
  rewrite has_message_spec by apply Sy. rewrite (sy_windows _ _ _ _ _ Sy). destruct hs as [|m hs].
  { cbn [wires_from imap layout] in *. rewrite bool_decide_true by done. exists s. split; [done|].
    split; unfold replies, wires_from; cbn [omap list_omap imap]; rewrite ?app_nil_r; try done.
    exists []. split_and!; [by rewrite app_nil_r|done|]. intros acc out. by rewrite !app_nil_r. }
  pose proof (wires_from_cons peer (zlen got) m hs) as Ew. rewrite Ew in *. rewrite bool_decide_false by done. cbn [negb length] in *.
  rewrite zlen_cons in Hr, Hg. pose proof (zlen_nonneg hs).
  destruct (get_consume_synced _ _ _ ns v rest Sy Hb) as (-> & f1 & Ec & S1 & He & Hca). rewrite ok_bind.
  destruct (process_next m ms got s A Hms (proj1 Hhs)) as (s1 & -> & A1 & Hms1 & M); [unfold room, Max_Wire in *; lia|lia|].
  rewrite ok_bind, (mv_framer _ _ _ _ M), Ec, ok_bind. set (w := outbound_bytes peer m (zlen got + 1)) in *.
  assert (Hlen : zlen (ms ++ replies s [m]) <= zlen ms + 1)
    by (unfold replies; cbn; rewrite zlen_app; destruct (reply _ _ _ _ m); cbn; zlia).
  assert (Hw : zlen (got ++ [w]) = zlen got + 1) by (by rewrite zlen_app).
  destruct (IH hs (ms ++ replies s [m]) (got ++ [w]) (s1 <| framer_ := f1 |>)) as (s' & E & L).
  - by apply session_at_framer.
  - done.
  - by eapply may_follow_cons.
  - rewrite Hw. exact S1.
  - change (framer_ (s1 <| framer_ := f1 |>)) with f1. lia.
  - lia.
  - unfold room, Max_Wire in *. lia.
  - lia.
  - exists s'. split; [exact E|]. by eapply looped_cons.
Qed.

(** ** Its invariant *)

(** Messages that are answered; Logons aside. *)
Definition asks (m : Outbound) : bool :=
  match m with
  | OTestRequest _ => true
  | OCustom p => match find (B "custom_response") p 0 with Some _ => false | None => true end
  | _ => false
  end.

(** The end has sent [ms], of which [n] answer nothing, and handled [k] of the messages [hs] of
    the other side. *)
Record party (ms hs : list Outbound) (k : nat) (n : Z) (e : Endpoint) : Prop := {
  py_session : session_at ms (take k (sent_wires peer hs)) (en_session e);
  py_history : history h ms;
  py_channel : channel_ok (concat (sent_wires own ms)) (en_channel e);
  py_reads : en_reads e = 1;
  py_count : (k <= length hs)%nat;
  py_framer : exists v, synced (framer_ (en_session e)) [] (drop k (sent_wires peer hs)) v (zdrop (en_received e) (concat (sent_wires peer hs))) /\
    starved (drop k (sent_wires peer hs)) v;
  py_received : 0 <= en_received e <= zlen (concat (sent_wires peer hs));
  py_end : origin_of (framer_ (en_session e)) + zlen (view_of (framer_ (en_session e))) = en_received e;
  py_capacity : LinearBuffer.capacity_ (buffer_ (framer_ (en_session e))) <= 65536 + en_received e * (1 + Min_Grow);
  py_own : zlen (List.filter asks ms) <= n;
  py_total : zlen ms <= 1 + n + zlen (List.filter asks (take k hs));
  py_answers : exists us, merged us (replies (en_session e) (take k hs)) ms /\ zlen us <= n + first_unasked (role_ (en_session e))
}.

(** The other side sends one more message. *)
Lemma party_heard ms hs k n e m : party ms hs k n e -> is_frame (outbound_bytes peer m (zlen hs + 1)) -> party ms (hs ++ [m]) k n e.
Proof using.
  intros [A Hh Ch Hr Hk (v & Sy & Hst) Hrec He Hc Ho Ht Han] Hw. set (w := outbound_bytes peer m (zlen hs + 1)) in *.
  assert (Hl : length (sent_wires peer hs) = length hs) by (pose proof (sent_wires_length peer hs); unfold zlen in *; lia).
  assert (Ec : concat (sent_wires peer (hs ++ [m])) = concat (sent_wires peer hs) ++ w)
    by (rewrite sent_wires_snoc, concat_app; cbn [concat]; by rewrite app_nil_r).
  pose proof (sy_rest _ _ _ _ _ Sy) as Er. pose proof (sy_frames _ _ _ _ _ Sy) as Hf.
  split; try done.
  - rewrite sent_wires_snoc, take_app_le by lia. exact A.
  - rewrite length_app. lia.
  - exists v. rewrite sent_wires_snoc, drop_app_le by lia. fold w. split; [|by eapply starved_extend].
    rewrite sent_wires_snoc in Ec. fold w in Ec. rewrite Ec, zdrop_app_l by lia. by apply synced_extend.
  - rewrite Ec, zlen_app. zlen_pos. lia.
  - by rewrite take_app_le by lia.
  - by rewrite take_app_le by lia.
Qed.

Lemma party_hears ms hs k n e xs : party ms hs k n e -> history h (hs ++ xs) -> zlen (hs ++ xs) + 1 < 2 ^ 32 -> party ms (hs ++ xs) k n e.
Proof using P.
  revert hs. induction xs as [|x xs IH]; intros hs A Hh Hl; [by rewrite app_nil_r|].
  rewrite cons_middle, app_assoc in Hh, Hl |- *. apply IH; [|done|done]. apply party_heard; [done|].
  pose proof (zlen_nonneg hs). rewrite !zlen_app in Hl. change (zlen [x]) with 1 in Hl. pose proof (zlen_nonneg xs).
  apply (wire_size peer own h (parties_sym _ _ _ P)); [|lia]. pose proof (history_outgoing h _ Hh) as Ho. rewrite Forall_forall in Ho.
  apply Ho. rewrite !elem_of_app. left. right. by left.
Qed.

(** ** Timers and the application *)

(** The timers are armed again. *)
Lemma active_armed t n ms got s : active own ms got s ->
  let s' := emit (EArm t n) (emit (ECancel t) s) in active own ms got s' /\ forall b, moved b b s s'.
Proof using.
  intros A s'. assert (Ad : forall Q : Effect -> bool, Q (EArm t n) = true -> Q (ECancel t) = true -> adds Q s s')
    by (intros Q H1 H2; etransitivity; [by apply adds_emit|by apply adds_emit]). split.
  - apply (active_same own ms got s); [done|by split|]. apply handled_adds. by apply Ad.
  - intros b. apply moved_same; [by split|]. by apply Ad.
Qed.

Lemma active_established ms got s : active own ms got s -> stopped_ s = false /\ established (state_ s) = true.
Proof using. intros A. destruct (active_spec _ _ _ _ A) as (I & Hst & _). split; [apply I|by rewrite Hst]. Qed.

(** What each of them sends. *)
Inductive local_event : event -> (Session -> Outbound) -> Prop :=
  | le_heartbeat : local_event (EvHeartbeatTimer success) (fun _ => OHeartbeat [])
  | le_test_request : local_event (EvInboundTimer success) (fun s => OTestRequest (B "TESTREQ_" ++ to_dec (test_req_id_ s)))
  | le_app p : value_text p -> zlen p <= 1000 -> local_event (EvSendFromApp [mk_field 9250 p] custom_type) (fun _ => OCustom p).

Lemma local_traffic ev m ms got s : local_event ev m -> active own ms got s -> traffic (m s).
Proof using.
  intros Hev A. pose proof (sd_test_req _ _ _ _ _ _ _ (ac_steady _ _ _ _ A)) as Ht. destruct Hev as [| |p Hp Hl]; cbn [traffic]; unfold Max_Text.
  - split; [apply not_elem_of_nil|by vm_compute].
  - pose proof (to_dec_length (test_req_id_ s) ltac:(lia) 20 ltac:(lia) ltac:(lia)) as Hl.
    assert (Hd : SOH ∉ (B "TESTREQ_" ++ to_dec (test_req_id_ s))).
    { apply not_elem_of_app. split; [apply (bool_decide_unpack _); by vm_compute|].
      apply not_digit_notin; [apply to_dec_digits; lia|done]. }
    assert (Hz : zlen (B "TESTREQ_" ++ to_dec (test_req_id_ s)) <= 1100) by (rewrite zlen_app; change (zlen (B "TESTREQ_")) with 8; lia).
    by split.
  - split; [done|lia].
Qed.

Lemma local_step ev m ms got s : local_event ev m -> active own ms got s -> history h ms -> room (zlen ms) ->
  (ev = EvInboundTimer success -> awaiting_test_request_response_ s = false) ->
  exists s', session_step ev s = Ok s' /\ active own (ms ++ [m s]) got s' /\
    moved (concat (sent_wires own ms)) (concat (sent_wires own (ms ++ [m s]))) s s'.
Proof using P.
  intros Hev A Hms Hr Haw. pose proof (local_traffic _ _ _ _ _ Hev A) as Hm. destruct (active_established _ _ _ A) as [Hl _].
  destruct (active_spec _ _ _ _ A) as (_ & _ & Hpar & _).
  destruct Hev as [| |p Hp Hlp]; cbn [session_step]; unfold heartbeat_timer_handler, inbound_timer_handler, send_from_app, on_timer; rewrite Hl; cbn [orb].
  - rewrite bool_decide_false, bool_decide_true by done. cbn [negb].
    destruct (active_send own peer h P (OHeartbeat []) ms got s A Hms Hm Hr) as (s1 & E & A1 & M1).
    replace (send_heartbeat [] s) with (send_built (build clock own (OHeartbeat [])) false s) by (unfold send_heartbeat; by rewrite Hpar).
    rewrite E, ok_bind. destruct (active_armed HeartbeatTimer (heart_beat_int (params_ s1)) _ _ _ A1) as [A2 M2].
    exists (schedule_heartbeat_ s1). split_and!; [done|exact A2|]. eapply moved_trans; [exact M1|apply M2].
  - rewrite bool_decide_false, bool_decide_true, (Haw eq_refl) by done. cbn [negb]. cbv zeta.
    set (text := B "TESTREQ_" ++ to_dec (test_req_id_ (s <| awaiting_test_request_response_ := true |>))).
    set (s0 := log fix_warn _ _). pose proof (u64_range (test_req_id_ s + 1)) as Hu.
    assert (Hh0 : handled s0 = handled s) by (apply (handled_adds s s0); eexists; by split).
    assert (A0 : active own ms got s0) by (destruct A as [Hc [I ? ? ? ? ? ? ?]]; split; [exact Hc|]; split; try done; [destruct I; by split|by rewrite Hh0]).
    assert (M0 : forall b, moved b b s s0) by (intros b; apply moved_quiet; try done; by eexists).
    destruct (active_send own peer h P (OTestRequest text) ms got s0 A0 Hms Hm Hr) as (s1 & E & A1 & M1).
    replace (send_test_request text s0) with (send_built (build clock own (OTestRequest text)) false s0)
      by (unfold send_test_request; change (params_ s0) with (params_ s); by rewrite Hpar).
    rewrite E, ok_bind. destruct (active_armed InboundTimer (heart_beat_int (params_ s1)) _ _ _ A1) as [A2 M2].
    exists (schedule_test_request_timeout_ s1). split_and!; [done|exact A2|].
    eapply moved_trans; [apply M0|]. eapply moved_trans; [exact M1|apply M2].
  - replace (from_app clock (params_ s) [mk_field 9250 p] custom_type) with (build clock own (OApp [mk_field 9250 p] custom_type)) by (by rewrite Hpar).
    destruct (steady_send_as own peer h P (OApp [mk_field 9250 p] custom_type) (OCustom p) ms _ _ _ _ s (ac_steady _ _ _ _ A) (history_outgoing _ _ Hms)
      (traffic_outgoing _ _ Hm) Hr) as (s' & E & A' & M & _); [done| | |exists s'; split_and!; [exact E|eapply active_intro; [exact A'|apply A|done..]|exact M]].
    + split; [apply (bool_decide_unpack _); by vm_compute|]. constructor; [|done]. apply (bool_decide_unpack _); by vm_compute.
    + split; [|split; [done|apply (bool_decide_unpack _); by vm_compute]]. constructor; [|done]. by split.
Qed.

(** A handler has sent a message. *)
Lemma after_moved t t' s' e : channel_ok t (en_channel e) -> moved t t' (en_session e) s' ->
  channel_ok t' (en_channel (after s' e)) /\ en_reads (after s' e) = en_reads e.
Proof using.
  intros Ch [_ _ _ _ _ (l & El & Rl & C)]. unfold after. assert (En : new_effects (en_session e) s' = l) by (unfold new_effects; by rewrite El, zdrop_app_exact).
  rewrite En, Rl. cbn [en_channel en_reads]. split; [|change (zlen []) with 0; lia]. apply C.
  unfold en_accepted, en_outstanding, en_session. by destruct (en_channel e).
Qed.

Lemma party_sends ms hs k n e s' m : party ms hs k n e -> active own (ms ++ [m]) (take k (sent_wires peer hs)) s' -> take k (sent_wires peer hs) <> [] ->
  ms <> [] -> traffic m -> moved (concat (sent_wires own ms)) (concat (sent_wires own (ms ++ [m]))) (en_session e) s' ->
  party (ms ++ [m]) hs k (n + 1) (after s' e).
Proof using.
  intros [A Hh Ch Hr Hk (v & Sy & Hst) Hrec He Hc Ho Ht (us & Mu & Hus)] A' Hne Hms Hm M. destruct (after_moved _ _ _ _ Ch M) as [Ch' Hr'].
  assert (Ef : framer_ (en_session (after s' e)) = framer_ (en_session e)) by apply (mv_framer _ _ _ _ M).
  split; try done; rewrite ?Ef; try done.
  - unfold session_at. change (en_session (after s' e)) with s'. destruct (take k (sent_wires peer hs)); [done|]. split; [done|by destruct ms].
  - by apply history_snoc.
  - by rewrite Hr'.
  - by exists v.
  - rewrite List.filter_app, zlen_app. cbn [List.filter]. destruct (asks m); zlia.
  - rewrite zlen_app. change (zlen [m]) with 1. lia.
  - exists (us ++ [m]). unfold replies in *. change (en_session (after s' e)) with s'. rewrite (mv_role _ _ _ _ M), (mv_id _ _ _ _ M).
    split; [by apply merged_left|]. rewrite zlen_app. change (zlen [m]) with 1. lia.
Qed.

(** ** Writes *)

(** A completed write changes the queue and may start the next write. *)
Lemma write_keeps n s s' : write_handler success n s = Ok s' ->
  exists q b l, s' = s <| write_q_ := q |> <| write_inflight_ := b |> <| effects_ := effects_ s ++ l |> /\ forallb send_effect l = true /\ reads_of l = [].
Proof using.
  unfold write_handler. destruct (stopped_ s) eqn:Es; cbn [orb].
  { intros [= <-]. exists (write_q_ s), (write_inflight_ s), []. rewrite app_nil_r. by destruct s. }
  rewrite bool_decide_false, bool_decide_true by done. cbn [negb]. destruct (write_q_ s) as [|p q]; [done|]. unfold do_write. session_simpl. cbn [data sent].
  destruct (if zlen (data p) <=? u64 (sent p + n) then q else mk_pending (data p) (u64 (sent p + n)) :: q) as [|p1 q1] eqn:Eq.
  - intros [= <-]. exists [], false, []. rewrite app_nil_r. by destruct s.
  - rewrite Es. destruct (conn_ s) as [c|] eqn:Ec; [|done]. intros [= <-].
    exists (p1 :: q1), (write_inflight_ s), [EWrite c (zdrop (sent p1) (data p1))]. destruct s. cbn in *. by subst.
Qed.

Lemma session_at_written q b l ms got s : session_at ms got s -> write_q_ s <> [] -> forallb send_effect l = true ->
  session_at ms got (s <| write_q_ := q |> <| write_inflight_ := b |> <| effects_ := effects_ s ++ l |>).
Proof using.
  intros A Hq Hl. set (s' := s <| write_q_ := q |> <| write_inflight_ := b |> <| effects_ := effects_ s ++ l |>).
  assert (Hh : handled s' = handled s).
  { apply handled_adds. exists l. split; [done|]. clear -Hl. induction l as [|e l IH]; [done|]. apply andb_true_iff in Hl as [He Hl].
    cbn. rewrite IH by done. by destruct e. }
  unfold session_at in *. destruct got.
  - destruct A as [I ? ? ? ? ? ? Hr]. split; try done; [destruct I; by split|by rewrite Hh|]. left. destruct Hr as [Hr|(_ & _ & _ & Hq' & _)]; done.
  - destruct A as [[Hc [I ? ? ? ? ? ? ?]] Hne]. split; [|done]. split; [exact Hc|]. split; try done; [destruct I; by split|by rewrite Hh].
Qed.

Lemma party_written ms hs k n e nb : party ms hs k n e -> 0 <= nb ->
  exists e', written nb e = Ok e' /\ party ms hs k n e' /\ role_ (en_session e') = role_ (en_session e) /\ id_ (en_session e') = id_ (en_session e) /\
    en_received e' = en_received e /\ zlen (en_accepted e) <= zlen (en_accepted e') /\ (en_outstanding e = [] -> e' = e) /\
    (1 <= nb -> en_outstanding e <> [] ->
     zlen (pending_bytes (en_session e')) + zlen (write_q_ (en_session e')) < zlen (pending_bytes (en_session e)) + zlen (write_q_ (en_session e))).
Proof using.
  intros [A Hh Ch Hr Hk Hfr Hrec He Hc Ho Ht Han] Hn. unfold written. destruct (en_outstanding e) as [|d out] eqn:Eo.
  { exists e. split_and!; done. }
  destruct (done_step _ nb _ Ch Hn) as (c' & Ew & Ch' & Hless). cbn [write_step] in Ew. unfold en_outstanding in Eo. rewrite Eo in Ew.
  change (ch_session (en_channel e)) with (en_session e) in Ew. change (ch_accepted (en_channel e)) with (en_accepted e) in Ew.
  apply bind_ok in Ew as (s' & Es & [= <-]). unfold step. cbn [session_step en_session en_channel ch_session]. rewrite Es, ok_bind.
  pose proof (co_front _ _ Ch) as Hf. rewrite Eo in Hf.
  assert (Hq : write_q_ (en_session e) <> []) by (unfold en_session; by destruct (write_q_ (ch_session (en_channel e)))).
  destruct (write_keeps _ _ _ Es) as (q & b & l & Es' & Hl & Rl).
  assert (En : new_effects (en_session e) s' = l) by (unfold new_effects; rewrite Es'; cbn [upd effects_]; by rewrite zdrop_app_exact).
  eexists. split; [reflexivity|]. unfold after. cbn [en_channel en_reads en_received en_session ch_session]. rewrite En.
  assert (Ewr : new_writes (en_session e) s' = writes_of l) by (unfold new_writes; change (zdrop _ _) with (new_effects (en_session e) s'); by rewrite En).
  rewrite Ewr in Ch'. split_and!.
  - split; try done; cbn [en_session en_channel ch_session].
    + rewrite Es'. by apply session_at_written.
    + rewrite Rl. change (zlen []) with 0. cbn [en_reads]. lia.
    + rewrite Es'. exact Hfr.
    + rewrite Es'. exact He.
    + rewrite Es'. exact Hc.
    + rewrite Es'. exact Han.
  - cbn [en_session en_channel ch_session]. by rewrite Es'.
  - cbn [en_session en_channel ch_session]. by rewrite Es'.
  - done.
  - unfold en_accepted. cbn [en_channel ch_accepted]. rewrite zlen_app. zlen_pos. lia.
  - done.
  - intros H1 _. specialize (Hless H1). cbn [ch_session] in Hless. unfold en_session. cbn [en_channel ch_session]. apply Hless. by rewrite Eo.
Qed.

(** ** Reads *)

Lemma wires_from_take k j hs : take j (wires_from peer k hs) = wires_from peer k (take j hs).
Proof using.
  revert k j. induction hs as [|m hs IH]; intros k [|j]; [done..|]. cbn [take]. rewrite !wires_from_cons. cbn [take]. by rewrite IH.
Qed.

Lemma history_follow (k j : nat) hs : history h hs -> (k <= length hs)%nat -> may_follow (take k (sent_wires peer hs)) (take j (drop k hs)).
Proof using.
  intros Hh Hk. destruct hs as [|m hs]; [by destruct k, j|]. destruct Hh as [-> Ht]. destruct k as [|k]; cbn [take drop].
  - destruct j as [|j]; [done|]. cbn [take]. split; [done|by apply Forall_take].
  - apply (Forall_drop _ k), (Forall_take _ j) in Ht. destruct (take j (drop k hs)) as [|m' hs']; [done|]. inversion Ht; subst.
    split; [|done]. unfold sent_wires. rewrite imap_cons. cbn [take]. by rewrite decide_False.
Qed.

Lemma replies_quiet s xs got : may_follow got xs -> List.filter asks (replies s xs) = [].
Proof using.
  assert (Hq : forall r i m m', traffic m -> reply own h r i m = Some m' -> asks m' = false).
  { intros r i m m' Hm Er. pose proof (reply_quiet own h r i m m' r i Hm Er) as H. destruct m' as [| | | | | | |p|]; try done. cbn in H |- *.
    by destruct (find _ p 0). }
  assert (Ht : forall ys, Forall traffic ys -> List.filter asks (replies s ys) = []).
  { induction 1 as [|m ys Hm _ IH]; [done|]. unfold replies. cbn [omap list_omap].
    destruct (reply own h (role_ s) (id_ s) m) as [m'|] eqn:Er; [|done]. cbn [List.filter]. by rewrite (Hq _ _ _ _ Hm Er). }
  destruct xs as [|m xs]; [done|]. intros [Hm Hxs]. unfold replies. cbn [omap list_omap].
  destruct (reply own h (role_ s) (id_ s) m) as [m'|] eqn:Er; [|by apply Ht]. cbn [List.filter]. specialize (Ht xs Hxs).
  unfold replies in Ht. rewrite Ht. assert (asks m' = false) as ->; [|done]. destruct (decide (got = [])); [|by eapply Hq].
  subst m. unfold logon_of in Er. cbn [reply] in Er. case_bool_decide; [|done]. by injection Er as <-.
Qed.

Lemma replies_count s xs : Forall traffic xs -> zlen (replies s xs) = zlen (List.filter asks xs).
Proof using.
  induction 1 as [|m xs Hm _ IH]; [done|]. unfold replies. cbn [omap list_omap List.filter]. unfold replies in IH.
  destruct m as [| | | | | | |p|]; try done; cbn [reply asks].
  - by rewrite !zlen_cons, IH.
  - destruct (find _ p 0); [done|]. by rewrite !zlen_cons, IH.
Qed.

Lemma replies_bound ms got s xs : session_at ms got s -> may_follow got xs ->
  zlen (ms ++ replies s xs) <= Z.max 1 (zlen ms) + zlen (List.filter asks xs).
Proof using.
  intros A Hxs. rewrite zlen_app. destruct xs as [|m xs]; [unfold replies; cbn; zlia|]. destruct Hxs as [Hm Hxs].
  destruct got as [|w got]; cbn [decide] in Hm; [rewrite decide_True in Hm by done|rewrite decide_False in Hm by done].
  - subst m. pose proof (replies_count s xs Hxs) as Hc. unfold replies in *. cbn [omap list_omap logon_of reply List.filter asks].
    unfold session_at in A. destruct (sg_role _ _ _ _ A) as [(Er & -> & _)|(Er & -> & _)]; case_bool_decide; try congruence.
    + lia.
    + rewrite zlen_cons. change (zlen (@nil Outbound)) with 0. lia.
  - rewrite (replies_count s (m :: xs)) by by constructor. lia.
Qed.

(** The part of the framer: the messages [k .. k + j - 1] become complete. *)
Lemma party_append ms hs k n e d rest : party ms hs k n e -> history h hs ->
  zdrop (en_received e) (concat (sent_wires peer hs)) = d ++ rest -> 1 <= zlen d <= read_limit (min_wire own) -> room (zlen hs) ->
  exists f1 j v', append d (framer_ (en_session e)) = Ok f1 /\ (k + j <= length hs)%nat /\ Z.of_nat j < Completed_Capacity /\
    synced f1 (wires_from peer (Z.of_nat k) (take j (drop k hs))) (drop (k + j) (sent_wires peer hs)) v' rest /\
    starved (drop (k + j) (sent_wires peer hs)) v' /\ origin_of f1 + zlen (view_of f1) = en_received e + zlen d /\
    LinearBuffer.capacity_ (buffer_ f1) <= 65536 + (en_received e + zlen d) * (1 + Min_Grow).
Proof using P.
  intros [_ _ _ _ Hk (v & Sy & Hst) Hrec He Hc _ _ _] Hhs Ed Hd Hroom. unfold room, Max_Wire, Min_Grow in *.
  pose proof (zlen_nonneg hs). pose proof (zlen_nonneg d). pose proof (zlen_nonneg rest). pose proof (parties_sym _ _ _ P) as P'.
  pose proof (sent_wires_bytes peer own h P' hs (history_outgoing _ _ Hhs) ltac:(lia)) as Hb. unfold Max_Wire in Hb.
  assert (Hsum : en_received e + zlen d + zlen rest = zlen (concat (sent_wires peer hs))).
  { apply (f_equal zlen) in Ed. rewrite zlen_zdrop, zlen_app in Ed by lia. lia. }
  rewrite Ed in Sy.
  destruct (append_synced d _ _ v rest Sy) as (f1 & qs & ns & v' & Ea & Eq & Ev & S1 & Hl & Hfull & He1 & Hc1); [lia|unfold Min_Grow; lia|].
  pose proof (sent_wires_frames peer own h P' hs (history_outgoing _ _ Hhs) ltac:(lia)) as Hfr.
  apply (Forall_drop _ k) in Hfr. rewrite Eq in Hfr, Hst. apply Forall_app in Hfr as [Hqs _].
  assert (Hnf : zlen qs < Completed_Capacity).
  { apply (chunk_not_full (min_wire peer) qs ns v v' d Hst Ev); [|rewrite (min_wire_faces own peer (pa_faces _ _ _ P)); lia]. eapply Forall_impl; [exact Hqs|]. by intros w (_ & ? & _). }
  destruct Hfull as [?|Hst']; [lia|].
  assert (Hlen : length (sent_wires peer hs) = length hs) by (pose proof (sent_wires_length peer hs); unfold zlen in *; lia).
  assert (Hj : (length qs + length ns = length hs - k)%nat) by (rewrite <- length_app, <- Eq, length_drop; lia).
  assert (Ens : drop (k + length qs) (sent_wires peer hs) = ns) by (by rewrite <- drop_drop, Eq, drop_app_length).
  assert (Eqs : wires_from peer (Z.of_nat k) (take (length qs) (drop k hs)) = qs) by (by rewrite <- wires_from_take, wires_from_drop, Eq, take_app_length).
  exists f1, (length qs), v'. unfold Min_Grow in *. rewrite Eqs, Ens. split_and!; try done; [lia|lia|lia].
Qed.

(** A read: these messages are handled. *)
Lemma party_reads ms hs k n e d rest : party ms hs k n e -> history h hs ->
  zdrop (en_received e) (concat (sent_wires peer hs)) = d ++ rest -> 1 <= zlen d <= read_limit (min_wire own) ->
  room (zlen ms + zlen hs) ->
  exists e' j, step (EvRead success d) (mk_endpoint (en_channel e) (en_reads e - 1) (en_received e + zlen d)) = Ok e' /\
    party (ms ++ replies (en_session e) (take j (drop k hs))) hs (k + j) n e' /\ en_accepted e' = en_accepted e /\
    role_ (en_session e') = role_ (en_session e) /\ id_ (en_session e') = id_ (en_session e) /\ en_received e' = en_received e + zlen d /\
    zlen (write_q_ (en_session e')) + zlen (concat (sent_wires own ms)) <=
      zlen (write_q_ (en_session e)) + zlen (concat (sent_wires own (ms ++ replies (en_session e) (take j (drop k hs))))).
Proof using P.
  intros Py Hhs Ed Hd Hroom. pose proof (zlen_nonneg ms). pose proof (zlen_nonneg hs). pose proof (zlen_nonneg d). pose proof (zlen_nonneg rest).
  destruct (party_append _ _ _ _ _ d rest Py Hhs Ed Hd) as (f1 & j & v' & Ea & Hj & Hjc & S1 & Hst & He1 & Hc1); [unfold room, Max_Wire in *; lia|].
  destruct Py as [A Hh Ch Hr Hk _ Hrec He Hc Ho Ht (us & Mu & Hus)]. set (s := en_session e) in *. set (xs := take j (drop k hs)) in *.
  assert (Hlen : length (sent_wires peer hs) = length hs) by (pose proof (sent_wires_length peer hs); unfold zlen in *; lia).
  assert (Hlk : zlen (take k (sent_wires peer hs)) = Z.of_nat k) by (unfold zlen; rewrite length_take; lia).
  assert (Hsum : en_received e + zlen d + zlen rest = zlen (concat (sent_wires peer hs))).
  { apply (f_equal zlen) in Ed. rewrite zlen_zdrop, zlen_app in Ed by lia. lia. }
  assert (Hxl : length xs = j) by (unfold xs; rewrite length_take, length_drop; lia).
  pose proof (history_follow k j hs Hhs Hk) as Hfo. fold xs in Hfo. pose proof (sent_wires_bytes peer own h (parties_sym _ _ _ P) hs (history_outgoing _ _ Hhs)) as Hb.
  unfold room, Max_Wire in *.
  destruct (read_loop_party (S (Z.to_nat Completed_Capacity)) xs ms (take k (sent_wires peer hs)) (drop (k + j) (sent_wires peer hs)) v' rest (s <| framer_ := f1 |>))
    as (r & Er & [Ar Hhr Sr Her Hcr Hcor Hir Hrr Hqr (l & El & Rl & Chr)]).
  { by apply session_at_framer. } { done. } { done. } { rewrite Hlk. exact S1. } { change (framer_ (s <| framer_ := f1 |>)) with f1. lia. }
  { rewrite Hxl. unfold Completed_Capacity in *. lia. } { unfold room, Max_Wire, zlen in *. lia. } { unfold zlen in *. lia. }
  change (replies (s <| framer_ := f1 |>) xs) with (replies s xs) in *. change (effects_ (s <| framer_ := f1 |>)) with (effects_ s) in El.
  change (framer_ (s <| framer_ := f1 |>)) with f1 in *. rewrite Hlk in Ar.
  destruct (session_at_ok _ _ _ Ar) as (Iok & _). destruct (so_conn _ _ Iok) as [c Hcc].
  exists (after (emit (ERead c) r) (mk_endpoint (en_channel e) (en_reads e - 1) (en_received e + zlen d))), j.
  assert (En : new_effects s (emit (ERead c) r) = l ++ [ERead c])
    by (unfold new_effects, emit; cbn [upd effects_]; by rewrite El, <- app_assoc, zdrop_app_exact).
  destruct (session_at_ok _ _ _ A) as (Is & _).
  split; [|split]; [| |by split_and!].
  - unfold step, session_step. change (en_session (mk_endpoint (en_channel e) _ _)) with s. unfold read_handler.
    rewrite (so_live _ _ Is), bool_decide_false, bool_decide_true by done. cbn [orb negb]. rewrite Ea, ok_bind, Er, ok_bind.
    unfold do_read. by rewrite (so_live _ _ Iok), Hcc, ok_bind.
  - unfold after. change (en_session (mk_endpoint (en_channel e) _ _)) with s. rewrite En, writes_of_app, reads_of_app, Rl.
    split; cbn [en_session en_channel ch_session en_reads en_received].
    + apply session_at_read. unfold xs in Ar. rewrite <- wires_from_take, wires_from_drop, take_take_drop in Ar. exact Ar.
    + exact Hhr.
    + destruct (Chr (en_accepted e) (en_outstanding e)) as [C1 C2 C3 C4 C5 C6].
      { unfold s, en_session, en_accepted, en_outstanding in *. destruct Ch. by split. }
      cbn [app writes_of omap list_omap]. rewrite app_nil_r. by split.
    + change (zlen _) with 1. lia.
    + lia.
    + exists v'. change (framer_ (emit (ERead c) r)) with (framer_ r). split; [|exact Hst].
      rewrite <- zdrop_zdrop, Ed, zdrop_app_exact by lia. exact Sr.
    + lia.
    + change (framer_ (emit (ERead c) r)) with (framer_ r). lia.
    + change (framer_ (emit (ERead c) r)) with (framer_ r). lia.
    + rewrite List.filter_app, (replies_quiet _ _ _ Hfo), app_nil_r. exact Ho.
    + fold xs. pose proof (replies_bound ms _ s xs A Hfo). assert (Ef : zlen (List.filter asks (take (k + j) hs)) = zlen (List.filter asks (take k hs)) + zlen (List.filter asks xs))
        by (by rewrite <- take_take_drop, List.filter_app, zlen_app).
      pose proof (zlen_nonneg (List.filter asks ms)). pose proof (zlen_nonneg (List.filter asks (take k hs))).
      pose proof (zlen_nonneg (List.filter asks xs)). lia.
    + exists us. unfold replies in *. change (role_ (emit (ERead c) r)) with (role_ r). change (id_ (emit (ERead c) r)) with (id_ r).
      rewrite Hir, Hrr, <- take_take_drop, omap_app. fold xs. split; [by apply merged_rights|exact Hus].
Qed.
End Party.

(** ** Both ends together *)

Definition set_at {A} (x : Side) (v : A) (f : Side -> A) (y : Side) : A :=
  match x, y with SideA, SideA | SideB, SideB => v | _, _ => f y end.

(** Heartbeats, test requests and messages of the applications. *)
Definition is_send (op : link_op) : bool := match op with LHeartbeat _ | LTestRequest _ | LApp _ _ => true | _ => false end.
Definition sends (ops : list link_op) : Z := zlen (List.filter is_send ops).
Definition op_fits (op : link_op) : Prop :=
  match op with LApp _ p => value_text p /\ zlen p <= 1000 | LWritten _ n | LDelivered _ n => 0 <= n | _ => True end.

(** The stores hold that many messages. *)
Definition Max_Sends : Z := 250000.

Definition side_role (x : Side) : Role := match x with SideA => INITIATOR | SideB => ACCEPTOR end.

Section Linked.
(** The parameters of the two sides. *)
Context (p : Side -> SessionParameters) (h : Z).
Hypothesis P : forall x, parties (p x) (p (other x)) h.
(** Reads that cannot fill the ring of the framer. *)
Context (cap : Z).
Hypothesis Hcap : forall x, 1 <= cap <= read_limit (min_wire (p x)).

(** Each side [x] has sent [ms x], of which [n x] answer nothing, and handled [k x] messages of
    the other side; at most [N] messages answer nothing. *)
Record link_ok (N : Z) (ms : Side -> list Outbound) (k : Side -> nat) (n : Side -> Z) (l : Link) : Prop := {
  lk_party : forall x, party (p x) (p (other x)) h (ms x) (ms (other x)) (k x) (n x) (at_ x l);
  lk_received : forall x, en_received (at_ x l) <= zlen (en_accepted (at_ (other x) l));
  lk_roles : forall x, role_ (en_session (at_ x l)) = side_role x;
  lk_sends : n SideA + n SideB <= N
}.

Lemma link_total N ms k n l x : link_ok N ms k n l -> zlen (ms x) <= 1 + N.
Proof using.
  intros [Hp _ _ Hn]. assert (Hf : forall hs (j : nat), zlen (List.filter asks (take j hs)) <= zlen (List.filter asks hs)).
  { intros hs j. rewrite <- (take_drop j hs) at 2. rewrite List.filter_app, zlen_app. zlen_pos. lia. }
  pose proof (py_total _ _ _ _ _ _ _ _ (Hp x)). pose proof (py_own _ _ _ _ _ _ _ _ (Hp (other x))).
  specialize (Hf (ms (other x)) (k x)). destruct x; cbn [other] in *; lia.
Qed.

(** Side [x] has moved to [e], and has sent [xs] more messages. *)
Lemma link_put N N' ms k n l x xs ms' k' n' e : link_ok N ms k n l -> N' <= Max_Sends ->
  ms' x = ms x ++ xs -> ms' (other x) = ms (other x) -> k' (other x) = k (other x) -> n' (other x) = n (other x) ->
  party (p x) (p (other x)) h (ms x ++ xs) (ms (other x)) (k' x) (n' x) e -> zlen (ms x ++ xs) <= 1 + N' ->
  role_ (en_session e) = role_ (en_session (at_ x l)) ->
  en_received e <= zlen (en_accepted (at_ (other x) l)) -> zlen (en_accepted (at_ x l)) <= zlen (en_accepted e) ->
  n' SideA + n' SideB <= N' -> link_ok N' ms' k' n' (put x e l).
Proof using P.
  intros [Hp Hr Hro Hn] HN Em Em' Ek En Pe Hl Hrole He Ha Hn'. unfold Max_Sends in HN.
  assert (Po : party (p (other x)) (p x) h (ms (other x)) (ms x ++ xs) (k (other x)) (n (other x)) (at_ (other x) l)).
  { pose proof (Hp (other x)) as H. pose proof (P (other x)) as P'. assert (E : other (other x) = x) by by destruct x. rewrite E in *.
    apply party_hears; [exact P'|exact H|exact (py_history _ _ _ _ _ _ _ _ Pe)|lia]. }
  pose proof (Hr SideA). pose proof (Hr SideB). rewrite <- Em in *. rewrite <- Em' in *. rewrite <- Ek, <- En in Po. rewrite Hro in Hrole.
  split; [intros y|intros y|intros y|exact Hn']; destruct x; try destruct y; cbn [put at_ other lk_a lk_b side_role] in *; try assumption;
    solve [lia|apply (Hro SideA)|apply (Hro SideB)].
Qed.

Lemma local_link x ev m N ms k n l : link_ok N ms k n l -> N + 1 <= Max_Sends -> local_event ev m ->
  established (state_ (en_session (at_ x l))) = true -> (ev = EvInboundTimer success -> awaiting_test_request_response_ (en_session (at_ x l)) = false) ->
  exists e ms' n', step ev (at_ x l) = Ok e /\ link_ok (N + 1) ms' k n' (put x e l).
Proof using P.
  intros L HN Hev Hest Haw. pose proof (lk_party _ _ _ _ _ L x) as Py. pose proof (link_total _ _ _ _ _ x L) as Ht. unfold Max_Sends in *.
  pose proof (py_session _ _ _ _ _ _ _ _ Py) as A. set (s := en_session (at_ x l)) in *. set (got := take (k x) (sent_wires (p (other x)) (ms (other x)))) in *.
  assert (Hgot : got <> []) by (intros Hg; rewrite Hg in A; by rewrite (sg_state _ _ _ _ A) in Hest).
  assert (A' : active (p x) (ms x) got s /\ ms x <> []) by (unfold session_at in A; by destruct got). destruct A' as [A' Hne].
  destruct (local_step _ _ _ (P x) ev m _ got s Hev A' (py_history _ _ _ _ _ _ _ _ Py)) as (s' & E & A1 & M);
    [unfold room, Max_Wire; lia|exact Haw|].
  pose proof (party_sends _ _ _ _ _ _ _ _ _ _ Py A1 Hgot Hne (local_traffic _ _ _ _ _ _ Hev A') M) as Py'.
  exists (after s' (at_ x l)), (set_at x (ms x ++ [m s]) ms), (set_at x (n x + 1) n). split; [unfold step; fold s; by rewrite E|].
  pose proof (lk_sends _ _ _ _ _ L) as Hs. pose proof (lk_received _ _ _ _ _ L x) as Hr.
  apply (link_put N _ ms k n l x [m s]); [exact L|exact HN|by destruct x|by destruct x|done|by destruct x| | |exact (mv_role _ _ _ _ M)|exact Hr|done|].
  - destruct x; exact Py'.
  - rewrite zlen_app. change (zlen [_]) with 1. lia.
  - destruct x; cbn [set_at]; lia.
Qed.

(** ** The work that is left *)

Definition total (ms : Side -> list Outbound) (x : Side) : Z := zlen (concat (sent_wires (p x) (ms x))).
Definition Reply_Work : Z := 3 * Max_Wire + 1.

(** For the messages of side [x]: the bytes the transport has yet to take, the length of the
    queue, the bytes the other side has yet to receive; and the replies it has yet to send. *)
Definition work (ms : Side -> list Outbound) (k : Side -> nat) (l : Link) (x : Side) : Z :=
  (total ms x - zlen (en_accepted (at_ x l))) + zlen (write_q_ (en_session (at_ x l))) + (total ms x - en_received (at_ (other x) l)) +
  Reply_Work * zlen (replies (p x) h (en_session (at_ x l)) (drop (k x) (ms (other x)))).
Definition all_work ms k l : Z := work ms k l SideA + work ms k l SideB.

Lemma all_work_at ms k l x : all_work ms k l = work ms k l x + work ms k l (other x).
Proof using. unfold all_work. destruct x; cbn [other]; lia. Qed.

Lemma pending_total N ms k n l x : link_ok N ms k n l ->
  zlen (pending_bytes (en_session (at_ x l))) = total ms x - zlen (en_accepted (at_ x l)).
Proof using.
  intros L. pose proof (co_stream _ _ (py_channel _ _ _ _ _ _ _ _ (lk_party _ _ _ _ _ L x))) as E. apply (f_equal zlen) in E. rewrite zlen_app in E.
  unfold total, en_accepted, en_session in *. lia.
Qed.

Lemma work_nonneg N ms k n l : link_ok N ms k n l -> 0 <= all_work ms k l.
Proof using.
  intros L. assert (H : forall x, 0 <= work ms k l x); [|pose proof (H SideA); pose proof (H SideB); unfold all_work; lia].
  intros x. unfold work. pose proof (pending_total _ _ _ _ _ x L). pose proof (zlen_nonneg (pending_bytes (en_session (at_ x l)))).
  pose proof (zlen_nonneg (write_q_ (en_session (at_ x l)))).
  pose proof (zlen_nonneg (replies (p x) h (en_session (at_ x l)) (drop (k x) (ms (other x))))).
  pose proof (py_received _ _ _ _ _ _ _ _ (lk_party _ _ _ _ _ L (other x))) as Hr. assert (E : other (other x) = x) by by destruct x.
  rewrite E in Hr. unfold total, Reply_Work, Max_Wire in *. lia.
Qed.

(** What is on the way to side [x]. *)
Definition in_transit (x : Side) (l : Link) : bytes := zdrop (en_received (at_ x l)) (en_accepted (at_ (other x) l)).

(** Nothing happens because nothing is left to do, or work is done. *)
Definition progress (idle : Prop) (ms : Side -> list Outbound) (k : Side -> nat) (l : Link) (ms' : Side -> list Outbound) (k' : Side -> nat) (l' : Link) : Prop :=
  (idle /\ l' = l /\ ms' = ms /\ k' = k) \/ all_work ms' k' l' < all_work ms k l.

Lemma written_link x nb N ms k n l : link_ok N ms k n l -> N <= Max_Sends -> 0 <= nb ->
  exists e, written nb (at_ x l) = Ok e /\ link_ok N ms k n (put x e l) /\
    (1 <= nb -> progress (en_outstanding (at_ x l) = []) ms k l ms k (put x e l)).
Proof using P.
  intros L HN Hnb. destruct (party_written _ _ _ _ _ _ _ _ nb (lk_party _ _ _ _ _ L x) Hnb) as (e & E & Py & Hro & Hid & Hre & Ha & Hidle & Hless).
  exists e. split; [exact E|]. pose proof (link_total _ _ _ _ _ x L) as Ht.
  pose proof (lk_sends _ _ _ _ _ L) as Hs. pose proof (lk_received _ _ _ _ _ L x) as Hr. rewrite <- Hre in Hr.
  assert (L' : link_ok N ms k n (put x e l)) by (apply (link_put N _ ms k n l x []); rewrite ?app_nil_r; done).
  split; [exact L'|]. intros H1. destruct (decide (en_outstanding (at_ x l) = [])) as [Ho|Ho].
  { left. rewrite (Hidle Ho). split_and!; try done. by destruct l, x. }
  right. specialize (Hless H1 Ho). rewrite !(all_work_at _ _ _ x). pose proof (pending_total _ _ _ _ _ x L) as E1. pose proof (pending_total _ _ _ _ _ x L') as E2.
  unfold work. destruct x; cbn [put at_ other lk_a lk_b] in *; unfold replies in *; rewrite Hro, Hid, Hre; lia.
Qed.

Lemma total_grows ms ms' x xs : ms' x = ms x ++ xs -> history h (ms x ++ xs) -> zlen (ms x ++ xs) < 2 ^ 32 ->
  total ms x <= total ms' x <= total ms x + Max_Wire * zlen xs.
Proof using P.
  intros Em Hh Hl. unfold total. rewrite Em. pose proof (sent_wires_frames _ _ _ (P x) _ (history_outgoing _ _ Hh) Hl) as Hf. unfold sent_wires in *. rewrite imap_app in *.
  apply Forall_app in Hf as [_ Hf]. rewrite concat_app, zlen_app.
  assert (Hx : forall ws, Forall (fun w => is_frame w /\ min_wire (p x) <= zlen w <= Max_Wire) ws -> zlen (concat ws) <= Max_Wire * zlen ws).
  { induction 1 as [|w ws [_ Hw] _ IH]; [done|]. cbn [concat]. rewrite zlen_app, zlen_cons. lia. }
  specialize (Hx _ Hf). unfold zlen in *. rewrite length_imap in Hx. lia.
Qed.

(** A reply is not answered by the other side. *)
Lemma replies_silent x s s' got ys : may_follow h got ys -> role_ s <> role_ s' ->
  replies (p (other x)) h s' (replies (p x) h s ys) = [].
Proof using.
  assert (Ht : forall zs, Forall traffic zs -> replies (p (other x)) h s' (replies (p x) h s zs) = []).
  { induction 1 as [|m zs Hm _ IH]; [done|]. unfold replies in *. cbn [omap list_omap].
    destruct (reply (p x) h (role_ s) (id_ s) m) as [m'|] eqn:Er; [|done]. cbn [omap list_omap].
    assert (reply (p (other x)) h (role_ s') (id_ s') m' = None) as ->; [|done].
    pose proof (reply_quiet (p x) h (role_ s) (id_ s) m m' (role_ s') (id_ s') Hm Er) as Hq. by destruct m' as [| | | | | | |pl|]; try done;
      destruct m; try done; cbn [reply] in *; destruct (find _ pl 0). }
  intros Hf Hr. destruct ys as [|m ys]; [done|]. destruct Hf as [Hm Hys]. destruct (decide (got = [])); [|apply (Ht (m :: ys)); by constructor].
  subst m. unfold replies in *. cbn [omap list_omap reply logon_of]. specialize (Ht ys Hys). case_bool_decide as Ha; [|done].
  cbn [omap list_omap reply logon_of]. rewrite bool_decide_false by congruence. done.
Qed.

(** What was received is no longer on the way, and a reply costs less than its message. *)
Lemma delivered_work x e j (d : bytes) N ms k n l : link_ok N ms k n l -> 1 <= zlen d ->
  let xs := replies (p x) h (en_session (at_ x l)) (take j (drop (k x) (ms (other x)))) in
  let ms' := set_at x (ms x ++ xs) ms in let k' := set_at x (k x + j)%nat k in
  history h (ms x ++ xs) -> zlen (ms x ++ xs) < 2 ^ 32 ->
  en_accepted e = en_accepted (at_ x l) -> role_ (en_session e) = role_ (en_session (at_ x l)) -> id_ (en_session e) = id_ (en_session (at_ x l)) ->
  en_received e = en_received (at_ x l) + zlen d ->
  zlen (write_q_ (en_session e)) + total ms x <= zlen (write_q_ (en_session (at_ x l))) + total ms' x ->
  all_work ms' k' (put x e l) < all_work ms k l.
Proof using P.
  intros L Hd xs ms' k' Hh Hl Ha Hro Hid Hre Hq. pose proof (lk_party _ _ _ _ _ L x) as Py. pose proof (lk_party _ _ _ _ _ L (other x)) as Po.
  destruct (total_grows ms ms' x xs) as [Ht1 Ht2]; [by destruct x|done|done|].
  assert (E1 : zlen (replies (p x) h (en_session (at_ x l)) (drop (k x) (ms (other x)))) =
    zlen xs + zlen (replies (p x) h (en_session e) (drop (k' x) (ms' (other x))))).
  { assert (k' x = (k x + j)%nat) as -> by by destruct x. assert (ms' (other x) = ms (other x)) as -> by by destruct x.
    unfold xs, replies. rewrite Hro, Hid, <- zlen_app, <- omap_app, <- drop_drop. by rewrite take_drop. }
  assert (E2 : replies (p (other x)) h (en_session (at_ (other x) l)) (drop (k' (other x)) (ms' x)) =
    replies (p (other x)) h (en_session (at_ (other x) l)) (drop (k (other x)) (ms x))).
  { assert (k' (other x) = k (other x)) as -> by by destruct x. assert (ms' x = ms x ++ xs) as -> by by destruct x.
    pose proof (py_count _ _ _ _ _ _ _ _ Po) as Hk. assert (Eo : other (other x) = x) by by destruct x. rewrite Eo in Hk.
    rewrite drop_app_le by lia. unfold replies at 1. rewrite omap_app. fold (replies (p (other x)) h (en_session (at_ (other x) l)) (drop (k (other x)) (ms x))).
    fold (replies (p (other x)) h (en_session (at_ (other x) l)) xs). unfold xs.
    rewrite (replies_silent x (en_session (at_ x l)) _ (take (k x) (sent_wires (p (other x)) (ms (other x))))), app_nil_r; [done| |].
    - apply history_follow; [|exact (py_count _ _ _ _ _ _ _ _ Py)]. exact (py_history _ _ _ _ _ _ _ _ Po).
    - rewrite !(lk_roles _ _ _ _ _ L). by destruct x. }
  assert (E3 : total ms' (other x) = total ms (other x)) by (unfold total; by destruct x).
  rewrite !(all_work_at _ _ _ x). unfold work. unfold Reply_Work, Max_Wire in *. pose proof (zlen_nonneg xs).
  assert (Eo : other (other x) = x) by by destruct x. rewrite !Eo.
  assert (Ex : at_ x (put x e l) = e /\ at_ (other x) (put x e l) = at_ (other x) l) by by destruct x. destruct Ex as [-> ->].
  rewrite E1, E2, E3, Ha, Hre. lia.
Qed.

Lemma delivered_link x nb N ms k n l : link_ok N ms k n l -> N <= Max_Sends ->
  exists e ms' k', delivered cap nb (en_accepted (at_ (other x) l)) (at_ x l) = Ok e /\ link_ok N ms' k' n (put x e l) /\
    (1 <= nb -> progress (in_transit x l = []) ms k l ms' k' (put x e l)).
Proof using P Hcap.
  intros L HN. pose proof (Hcap x) as Hcx. pose proof (lk_party _ _ _ _ _ L x) as Py. pose proof (lk_party _ _ _ _ _ L (other x)) as Po.
  pose proof (link_total _ _ _ _ _ x L) as Ht. pose proof (link_total _ _ _ _ _ (other x) L) as Ht'. pose proof (lk_received _ _ _ _ _ L x) as Hrec.
  assert (Hput : put x (at_ x l) l = l) by by destruct l, x.
  unfold delivered. rewrite (py_reads _ _ _ _ _ _ _ _ Py). cbn [Z.leb orb]. fold (in_transit x l). set (d := ztake _ _).
  destruct (decide (d = [])) as [Hd|Hd].
  { rewrite bool_decide_true by done. exists (at_ x l), ms, k. rewrite Hput. split_and!; [done|exact L|]. intros H1. left. split_and!; try done.
    unfold d, ztake in Hd. destruct (in_transit x l); [done|]. by replace (Z.to_nat _) with (S (Z.to_nat (Z.min nb cap - 1))) in Hd by lia. }
  rewrite bool_decide_false by done. pose proof (py_received _ _ _ _ _ _ _ _ Py) as Hr0.
  pose proof (co_stream _ _ (py_channel _ _ _ _ _ _ _ _ Po)) as Es. change (ch_accepted (en_channel (at_ (other x) l))) with (en_accepted (at_ (other x) l)) in Es.
  assert (Hdl : 1 <= zlen d) by (destruct d; [done|rewrite zlen_cons; zlen_pos; lia]).
  assert (Hd' : zlen d <= zlen (in_transit x l)) by (unfold d, ztake, zlen; rewrite length_take; lia).
  assert (Hit : zlen (in_transit x l) = zlen (en_accepted (at_ (other x) l)) - en_received (at_ x l)) by (unfold in_transit; by rewrite zlen_zdrop by lia).
  destruct (party_reads _ _ _ (P x) (ms x) (ms (other x)) (k x) (n x) (at_ x l) d
    (zdrop (Z.min nb cap) (in_transit x l) ++ pending_bytes (en_session (at_ (other x) l))) Py)
    as (e & j & E & Py' & Ha & Hro & Hid & Hre & Hq).
  { exact (py_history _ _ _ _ _ _ _ _ Po). }
  { rewrite <- Es, zdrop_app_l, app_assoc by lia. f_equal. unfold d. by rewrite ztake_zdrop. }
  { split; [exact Hdl|]. unfold d, ztake, zlen in *. rewrite length_take. lia. }
  { unfold room, Max_Wire, Max_Sends in *. lia. }
  rewrite (py_reads _ _ _ _ _ _ _ _ Py) in E. set (xs := replies (p x) h (en_session (at_ x l)) (take j (drop (k x) (ms (other x))))) in *.
  pose proof (lk_sends _ _ _ _ _ L) as Hs. pose proof (py_total _ _ _ _ _ _ _ _ Py') as Ht1. pose proof (py_own _ _ _ _ _ _ _ _ Po) as Ho.
  assert (Hlx : zlen (ms x ++ xs) <= 1 + N).
  { rewrite <- (take_drop (k x + j) (ms (other x))) in Ho. rewrite List.filter_app, zlen_app in Ho.
    pose proof (zlen_nonneg (List.filter asks (drop (k x + j) (ms (other x))))). destruct x; cbn [other] in *; lia. }
  exists e, (set_at x (ms x ++ xs) ms), (set_at x (k x + j)%nat k). split; [exact E|]. split.
  { apply (link_put N _ ms k n l x xs); [exact L|exact HN|by destruct x|by destruct x|by destruct x|done|destruct x; exact Py'|exact Hlx|exact Hro|lia|by rewrite Ha|done]. }
  intros _. right. apply (delivered_work x e j d N ms k n l L Hdl); try done; fold xs.
  - exact (py_history _ _ _ _ _ _ _ _ Py').
  - unfold Max_Sends in HN. lia.
  - unfold total at 2. replace (set_at x (ms x ++ xs) ms x) with (ms x ++ xs) by by destruct x. exact Hq.
Qed.

(** ** Runs *)

Lemma link_later N N' ms k n l : link_ok N ms k n l -> N <= N' -> link_ok N' ms k n l.
Proof using. intros [] H. split; try done; lia. Qed.

Lemma sends_one op : sends [op] = if is_send op then 1 else 0.
Proof using. by destruct op. Qed.

Lemma link_step_ok op N ms k n l : link_ok N ms k n l -> N + sends [op] <= Max_Sends -> op_fits op ->
  exists l' ms' k' n', link_step cap op l = Ok l' /\ link_ok (N + sends [op]) ms' k' n' l'.
Proof using P Hcap.
  intros L HN Hop. rewrite sends_one in *. destruct op as [x|x|x pl|x nb|x nb]; cbn [link_step is_send] in *; rewrite ?Z.add_0_r in *.
  - destruct (established _) eqn:Hest; [|exists l, ms, k, n; split; [done|apply (link_later N); [done|lia]]].
    destruct (local_link x _ _ N ms k n l L HN le_heartbeat Hest) as (e & ms' & n' & -> & L'); [done|]. rewrite ok_bind. eauto 6.
  - destruct (established _) eqn:Hest; cbn [andb]; [|exists l, ms, k, n; split; [done|apply (link_later N); [done|lia]]].
    destruct (awaiting_test_request_response_ _) eqn:Haw; cbn [negb]; [exists l, ms, k, n; split; [done|apply (link_later N); [done|lia]]|].
    destruct (local_link x _ _ N ms k n l L HN le_test_request Hest) as (e & ms' & n' & -> & L'); [done|]. rewrite ok_bind. eauto 6.
  - destruct (established _) eqn:Hest; [|exists l, ms, k, n; split; [done|apply (link_later N); [done|lia]]]. destruct Hop as [Hp Hl].
    destruct (local_link x _ _ N ms k n l L HN (le_app pl Hp Hl) Hest) as (e & ms' & n' & -> & L'); [done|]. rewrite ok_bind. eauto 6.
  - destruct (written_link x nb N ms k n l L HN Hop) as (e & -> & L' & _). rewrite ok_bind. eauto 6.
  - destruct (delivered_link x nb N ms k n l L HN) as (e & ms' & k' & -> & L' & _). rewrite ok_bind. eauto 6.
Qed.

Lemma link_run_ok ops N ms k n l : link_ok N ms k n l -> N + sends ops <= Max_Sends -> Forall op_fits ops ->
  exists l' ms' k' n', link_run cap ops l = Ok l' /\ link_ok (N + sends ops) ms' k' n' l'.
Proof using P Hcap.
  intros L HN Hops. revert N ms k n l L HN. induction Hops as [|op ops Hop _ IH]; intros N ms k n l L HN.
  - exists l, ms, k, n. split; [done|]. unfold sends in *. cbn [List.filter] in *. change (zlen []) with 0. by rewrite Z.add_0_r.
  - assert (Es : sends (op :: ops) = sends [op] + sends ops) by (unfold sends; cbn; destruct (is_send op); cbn; zlia).
    pose proof (zlen_nonneg (List.filter is_send ops)). rewrite Es, Z.add_assoc in *.
    destruct (link_step_ok op N ms k n l L) as (l1 & ms1 & k1 & n1 & E & L1); [unfold sends in *; lia|done|].
    cbn [link_run]. rewrite E, ok_bind. by apply (IH _ ms1 k1 n1).
Qed.

(** ** Settling *)

(** The transport serves both sides, at least one byte each where there is one. *)
Definition round : Set := Z * Z * Z * Z.
Definition round_ops (r : round) : list link_op :=
  let '(n1, n2, n3, n4) := r in [LWritten SideA n1; LDelivered SideB n2; LWritten SideB n3; LDelivered SideA n4].
Definition round_fits (r : round) : Prop := let '(n1, n2, n3, n4) := r in 1 <= n1 /\ 1 <= n2 /\ 1 <= n3 /\ 1 <= n4.

(** Nothing is left to do. *)
Definition settled (l : Link) : Prop := forall x, en_outstanding (at_ x l) = [] /\ in_transit x l = [].

(** What the operations of the transport do: [idle] operations change nothing. *)
Definition idle_op (l : Link) (op : link_op) : Prop :=
  match op with LWritten x _ => en_outstanding (at_ x l) = [] | LDelivered x _ => in_transit x l = [] | _ => False end.
Definition serves (op : link_op) : Prop := match op with LWritten _ n | LDelivered _ n => 1 <= n | _ => False end.

Lemma serve_link op N ms k n l : link_ok N ms k n l -> N <= Max_Sends -> serves op ->
  exists l' ms' k', link_step cap op l = Ok l' /\ link_ok N ms' k' n l' /\ progress (idle_op l op) ms k l ms' k' l'.
Proof using P Hcap.
  intros L HN Hop. destruct op as [x|x|x pl|x nb|x nb]; try done; cbn [link_step idle_op serves] in *.
  - destruct (written_link x nb N ms k n l L HN ltac:(lia)) as (e & -> & L' & Hp). rewrite ok_bind. exists (put x e l), ms, k. by split_and!; [| |apply Hp].
  - destruct (delivered_link x nb N ms k n l L HN) as (e & ms' & k' & -> & L' & Hp). rewrite ok_bind. exists (put x e l), ms', k'. by split_and!; [| |apply Hp].
Qed.

Lemma serve_run ops N ms k n l : link_ok N ms k n l -> N <= Max_Sends -> Forall serves ops ->
  exists l' ms' k', link_run cap ops l = Ok l' /\ link_ok N ms' k' n l' /\ progress (Forall (idle_op l) ops) ms k l ms' k' l'.
Proof using P Hcap.
  intros L HN Hops. revert ms k l L. induction Hops as [|op ops Hop _ IH]; intros ms k l L.
  - exists l, ms, k. split_and!; [done|done|]. left. by split_and!.
  - destruct (serve_link op N ms k n l L HN Hop) as (l1 & ms1 & k1 & E & L1 & Hp). cbn [link_run]. rewrite E, ok_bind.
    destruct (IH ms1 k1 l1 L1) as (l2 & ms2 & k2 & E2 & L2 & Hp2). exists l2, ms2, k2. split_and!; [done|done|].
    destruct Hp as [(Hi & -> & -> & ->)|Hw]; [destruct Hp2 as [(Hi2 & -> & -> & ->)|Hw2]|destruct Hp2 as [(_ & -> & -> & ->)|Hw2]].
    + left. split_and!; try done. by constructor.
    + by right.
    + by right.
    + right. lia.
Qed.

Lemma round_settles r N ms k n l : link_ok N ms k n l -> N <= Max_Sends -> round_fits r ->
  exists l' ms' k', link_run cap (round_ops r) l = Ok l' /\ link_ok N ms' k' n l' /\ progress (settled l) ms k l ms' k' l'.
Proof using P Hcap.
  intros L HN Hr. destruct r as [[[n1 n2] n3] n4]. destruct Hr as (H1 & H2 & H3 & H4).
  destruct (serve_run (round_ops (n1, n2, n3, n4)) N ms k n l L HN) as (l' & ms' & k' & E & L' & Hp); [by repeat constructor|].
  exists l', ms', k'. split_and!; [done|done|]. destruct Hp as [(Hi & -> & -> & ->)|Hw]; [|by right]. left. split_and!; try done.
  unfold round_ops in Hi. rewrite !Forall_cons in Hi. destruct Hi as (I1 & I2 & I3 & I4 & _). by intros [].
Qed.

Lemma idle_step op l : serves op -> idle_op l op -> link_step cap op l = Ok l.
Proof using.
  assert (Hput : forall x, put x (at_ x l) l = l) by (intros x; by destruct l, x).
  destruct op as [x|x|x pl|x nb|x nb]; try done; cbn [link_step idle_op serves]; intros _ Hi.
  - unfold written. rewrite Hi, ok_bind. by rewrite Hput.
  - unfold delivered. fold (in_transit x l). rewrite Hi. assert (ztake (Z.min nb cap) (@nil byte) = []) as -> by (unfold ztake; apply take_nil).
    rewrite bool_decide_true, orb_true_r, ok_bind by done. by rewrite Hput.
Qed.
Lemma settled_run ops l : settled l -> Forall serves ops -> link_run cap ops l = Ok l.
Proof using.
  intros Hs. induction 1 as [|op ops Hop _ IH]; [done|]. cbn [link_run]. rewrite idle_step, ok_bind by (done || (destruct op; try done; apply Hs)). exact IH.
Qed.

Lemma link_run_app ops1 ops2 l : link_run cap (ops1 ++ ops2) l = (let! l1 := link_run cap ops1 l in link_run cap ops2 l1).
Proof using. revert l. induction ops1 as [|op ops1 IH]; intros l; [done|]. cbn [link_run app]. by destruct (link_step cap op l); cbn [mbind res_bind]; [apply IH|]. Qed.

Lemma round_serves r : round_fits r -> Forall serves (round_ops r).
Proof using. destruct r as [[[n1 n2] n3] n4]. intros (H1 & H2 & H3 & H4). by repeat constructor. Qed.

(** As many rounds as there is work left settle everything. *)
Lemma rounds_settle rs N ms k n l : link_ok N ms k n l -> N <= Max_Sends -> Forall round_fits rs -> all_work ms k l < zlen rs ->
  exists l' ms' k', link_run cap (concat (round_ops <$> rs)) l = Ok l' /\ link_ok N ms' k' n l' /\ settled l'.
Proof using P Hcap.
  intros L HN Hrs. revert ms k l L. induction Hrs as [|r rs Hr Hrs IH]; intros ms k l L Hw.
  { pose proof (work_nonneg _ _ _ _ _ L). change (zlen []) with 0 in Hw. lia. }
  destruct (round_settles r N ms k n l L HN Hr) as (l1 & ms1 & k1 & E & L1 & Hp). cbn [fmap list_fmap concat]. rewrite link_run_app, E, ok_bind.
  rewrite zlen_cons in Hw. destruct Hp as [(Hset & -> & -> & ->)|Hless]; [|apply (IH ms1 k1 l1 L1); lia].
  exists l, ms, k. split_and!; [|done|done]. apply settled_run; [done|]. clear -Hrs.
  induction Hrs as [|r rs Hr _ IH]; [constructor|]. cbn [fmap list_fmap concat]. apply Forall_app. split; [by apply round_serves|exact IH].
Qed.

(** A settled side has handled everything. *)
Lemma settled_handled N ms k n l x : link_ok N ms k n l -> settled l -> k x = length (ms (other x)).
Proof using.
  intros L Hs. pose proof (lk_party _ _ _ _ _ L x) as Py. pose proof (lk_party _ _ _ _ _ L (other x)) as Po.
  pose proof (py_channel _ _ _ _ _ _ _ _ Po) as Ch. destruct (Hs (other x)) as [Hout _]. destruct (Hs x) as [_ Htr].
  pose proof (co_front _ _ Ch) as Hf. unfold en_outstanding in Hout. rewrite Hout in Hf. pose proof (co_stream _ _ Ch) as Es.
  assert (Hp : pending_bytes (ch_session (en_channel (at_ (other x) l))) = []) by (unfold pending_bytes; by destruct (write_q_ _)).
  rewrite Hp, app_nil_r in Es. destruct (py_framer _ _ _ _ _ _ _ _ Py) as (v & Sy & Hst). unfold in_transit, en_accepted in Htr.
  pose proof (sy_rest _ _ _ _ _ Sy) as Er. rewrite <- Es, Htr, app_nil_r in Er. subst v.
  assert (Hd : drop (k x) (sent_wires (p (other x)) (ms (other x))) = []).
  { destruct (drop _ _) as [|w ws]; [done|]. cbn [starved concat] in Hst. rewrite zlen_app in Hst. pose proof (zlen_nonneg (concat ws)). lia. }
  apply (f_equal length) in Hd. rewrite length_drop in Hd. cbn in Hd. pose proof (py_count _ _ _ _ _ _ _ _ Py).
  pose proof (sent_wires_length (p (other x)) (ms (other x))) as Hl. unfold zlen in Hl. lia.
Qed.

(** It has sent its Logon. *)
Lemma settled_sent N ms k n l : link_ok N ms k n l -> settled l -> ms SideA <> [] /\ ms SideB <> [].
Proof using.
  intros L Hset. pose proof (settled_handled _ _ _ _ _ SideB L Hset) as Kb. cbn [other] in Kb.
  pose proof (lk_party _ _ _ _ _ L SideA) as Pa. pose proof (lk_party _ _ _ _ _ L SideB) as Pb. cbn [other at_] in Pa, Pb.
  assert (Ha : ms SideA <> []).
  { pose proof (py_session _ _ _ _ _ _ _ _ Pa) as A. pose proof (lk_roles _ _ _ _ _ L SideA) as Hr. unfold session_at in A.
    destruct (take _ _); [|apply A]. destruct (sg_role _ _ _ _ A) as [(_ & -> & _)|(Hr' & _)]; [done|]. cbn [at_ side_role] in Hr. congruence. }
  split; [exact Ha|]. pose proof (py_session _ _ _ _ _ _ _ _ Pb) as A.
  rewrite Kb, firstn_all2 in A by (pose proof (sent_wires_length (p SideA) (ms SideA)); unfold zlen in *; lia).
  unfold session_at in A. destruct (sent_wires _ (ms SideA)) eqn:Ew; [|apply A]. by destruct (ms SideA).
Qed.
End Linked.

(** ** From the start *)

(** The parameters of two sides before the Logon: opposite CompIDs, and an initiator that proposes
    a valid interval and does not reset the sequence numbers. *)
Record can_talk (pa pb : SessionParameters) (ia ib : SessionID) : Prop := {
  ct_text_a : session_text pa (now_fix clock);
  ct_text_b : session_text pb (now_fix clock);
  ct_faces : faces pb pa;
  ct_ids : ids_ok pa;
  ct_enc_a : - 2 ^ 31 <= encrypt_method pa < 2 ^ 31;
  ct_enc_b : - 2 ^ 31 <= encrypt_method pb < 2 ^ 31;
  ct_beat : 10 <= heart_beat_int pa <= 120;
  ct_reset : initiator_reset_on_logon pa = false;
  ct_id_a : 0 <= id ia < 2 ^ 64;
  ct_id_b : 0 <= id ib < 2 ^ 64
}.

(** The parameters once the acceptor has taken over the interval. *)
Definition agreed (pa pb : SessionParameters) (x : Side) : SessionParameters :=
  match x with SideA => pa | SideB => pb <| heart_beat_int := heart_beat_int pa |> end.

Lemma agreed_parties pa pb ia ib x : can_talk pa pb ia ib -> parties (agreed pa pb x) (agreed pa pb (other x)) (heart_beat_int pa).
Proof.
  intros [Ta Tb [Fs Ft] Hi Ea Eb Hh _ _ _].
  assert (H : parties (agreed pa pb SideA) (agreed pa pb SideB) (heart_beat_int pa)).
  { split; try done. destruct Tb. by split. }
  destruct x; [exact H|by apply parties_sym].
Qed.

Lemma agreed_limit cap pa pb ia ib : can_talk pa pb ia ib -> 1 <= cap <= read_limit (min_wire pa) ->
  forall x, 1 <= cap <= read_limit (min_wire (agreed pa pb x)).
Proof. intros C Hc []; [done|]. cbn [agreed]. pose proof (agreed_parties pa pb ia ib SideA C) as P. cbn [agreed other] in P. pose proof (min_wire_faces _ _ (pa_faces _ _ _ P)) as E. by rewrite E. Qed.

Lemma start_a pa pb ia ib c : can_talk pa pb ia ib ->
  exists e, endpoint_start ia INITIATOR pa c = Ok e /\ party pa (agreed pa pb SideB) (heart_beat_int pa) [logon_of (heart_beat_int pa)] [] 0 0 e /\
    role_ (en_session e) = INITIATOR /\ en_received e = 0.
Proof.
  intros C. pose proof (agreed_parties pa pb ia ib SideA C) as P. destruct C as [Ta Tb Hf Hi Ea Eb Hh Hreset Hia Hib]. cbn [agreed other] in P.
  set (h := heart_beat_int pa) in *. set (s0 := set_connection (Some c) (session_new ia INITIATOR pa)).
  destruct (wire_size pa _ h P (logon_of h) 1 ltac:(by left) ltac:(lia)) as [_ Hw]. pose proof (min_wire_pos pa); unfold Max_Wire in Hw.
  destruct (start_initiator s0 [] c 1 (new_waiting ia INITIATOR pa c Ta Ea) eq_refl Hreset ltac:(change (- 2 ^ 31 <= h < 2 ^ 31); lia) ltac:(by vm_compute))
    as (s & E & I & Hst & Hq & Hin & K & Ef); [change (0 + zlen (outbound_bytes pa (logon_of h) 1) < 2 ^ 31); lia|].
  change (logon_bytes (params_ s0) (heart_beat_int (params_ s0)) (zlen [] + 1)) with (outbound_bytes pa (logon_of h) 1) in *.
  set (w := outbound_bytes pa (logon_of h) 1) in *.
  unfold endpoint_start, step. fold s0. set (e0 := mk_endpoint (mk_channel s0 [] []) 0 0).
  assert (Es : session_step (EvStart NORMAL) (en_session e0) = Ok s) by exact E. rewrite Es, ok_bind. eexists. split; [reflexivity|].
  unfold after. change (en_session e0) with s0.
  assert (En : new_effects s0 s = [ELog fix_info (B "Session started") None; ERead c; EWrite c w; ELog fix_info (B "Logon sent") None; EArm LogonTimer logon_response_timeout])
    by (unfold new_effects; by rewrite Ef, zdrop_app_exact).
  rewrite En. split; [|split; [exact (kp_role _ _ K)|done]]. split; cbn [en_session en_channel en_reads en_received ch_session]; try done.
  - split; try done; [by rewrite Hst|exact (kp_next_in _ _ K)| |change (handled s = handled s0); apply handled_adds; by eexists| | |].
    + change (recovery_cache_ s) with (recovery_cache_ (s <| state_ := state_ s0 |>)). by rewrite (kp_cache _ _ K).
    + change (id_ s) with (id_ (s <| state_ := state_ s0 |>)). by rewrite (kp_id _ _ K).
    + change (test_req_id_ s) with (test_req_id_ (s <| state_ := state_ s0 |>)). by rewrite (kp_test_req _ _ K).
    + left. split_and!; [exact (kp_role _ _ K)|done|exact (kp_params _ _ K)].
  - split; cbn [ch_session ch_accepted ch_outstanding]; unfold pending_bytes; rewrite ?Hq; try done.
    + apply I.
    + apply I.
    + constructor; [|done]. cbn [sent data]. lia.
  - assert (Efr : framer_ s = framer_new) by exact (kp_framer _ _ K). rewrite Efr. exists []. split; [by apply (framer_new_synced [])|done].
  - assert (Efr : framer_ s = framer_new) by exact (kp_framer _ _ K). by rewrite Efr.
  - assert (Efr : framer_ s = framer_new) by exact (kp_framer _ _ K). by rewrite Efr.
  - exists [logon_of h]. split; [apply (merged_left (logon_of h) [] [] []), merged_nil|]. change (role_ s) with (role_ (s <| state_ := state_ s0 |>)).
    by rewrite (kp_role _ _ K).
Qed.

Lemma start_b pa pb ia ib c : can_talk pa pb ia ib ->
  exists e, endpoint_start ib ACCEPTOR pb c = Ok e /\ party (agreed pa pb SideB) pa (heart_beat_int pa) [] [] 0 0 e /\
    role_ (en_session e) = ACCEPTOR /\ en_received e = 0.
Proof.
  intros [Ta Tb Hf Hi Ea Eb Hh Hreset Hia Hib]. set (s0 := set_connection (Some c) (session_new ib ACCEPTOR pb)).
  destruct (start_acceptor s0 c (new_waiting ib ACCEPTOR pb c Tb Eb) eq_refl) as (s & E & [I Hc Hst Hn Hca Hq Hin] & Hp & Hr & Hfr & Hid & Htr & Ef).
  unfold endpoint_start, step. fold s0. set (e0 := mk_endpoint (mk_channel s0 [] []) 0 0).
  assert (Es : session_step (EvStart NORMAL) (en_session e0) = Ok s) by exact E. rewrite Es, ok_bind. eexists. split; [reflexivity|].
  unfold after. change (en_session e0) with s0.
  assert (En : new_effects s0 s = [ELog fix_info (B "Session started") None; ERead c; EArm LogonTimer logon_response_timeout])
    by (unfold new_effects; by rewrite Ef, zdrop_app_exact).
  rewrite En. split; [|by split]. change (framer_ s0) with framer_new in Hfr.
  split; cbn [en_session en_channel en_reads en_received ch_session]; rewrite ?Hfr; try done.
  - split; try done; [change (handled s = handled s0); apply handled_adds; by eexists|by rewrite Hid|by rewrite Htr|].
    right. split_and!; try done. by rewrite Hp.
  - split; cbn [ch_session ch_accepted ch_outstanding]; unfold pending_bytes; rewrite ?Hq; try done. apply I.
  - exists []. split; [by apply (framer_new_synced [])|done].
  - exists []. split; [apply merged_nil|]. by rewrite Hr.
Qed.

Definition start_sent (pa : SessionParameters) (x : Side) : list Outbound := match x with SideA => [logon_of (heart_beat_int pa)] | SideB => [] end.

Lemma link_started pa pb ia ib ca cb : can_talk pa pb ia ib ->
  exists l, link_start ia ib pa pb ca cb = Ok l /\
    link_ok (agreed pa pb) (heart_beat_int pa) 0 (start_sent pa) (fun _ => 0%nat) (fun _ => 0) l.
Proof.
  intros C. destruct (start_a pa pb ia ib ca C) as (a & Ea & Pa & Ra & Hra). destruct (start_b pa pb ia ib cb C) as (b & Eb & Pb & Rb & Hrb).
  unfold link_start. rewrite Ea, ok_bind, Eb, ok_bind. eexists. split; [reflexivity|]. split.
  - intros []; [exact Pa|]. cbn [at_ other start_sent agreed lk_b]. apply (party_hears _ _ _ (agreed_parties pa pb ia ib SideB C) [] [] 0 0 b [_]); [exact Pb|by split|by vm_compute].
  - intros []; cbn [at_ other lk_a lk_b]; rewrite ?Hra, ?Hrb; apply zlen_nonneg.
  - by intros [].
  - done.
Qed.

(** What holds of one end at any time: it has sent [ms] and handled the first [k] of the messages
    [hs] of the other side; [us] are those of [ms] that it was not asked for. *)
Record in_step (own peer : SessionParameters) (us ms hs : list Outbound) (k : nat) (e : Endpoint) : Prop := {
  is_live : stopped_ (en_session e) = false;
  is_out : next_out (seqs (en_session e)) = zlen ms + 1;
  is_in : next_in (seqs (en_session e)) = Z.of_nat k + 1;
  is_count : (k <= length hs)%nat;
  is_handled : handled (en_session e) = message_of <$> take k (sent_wires peer hs);
  is_answers : merged us (omap (reply own (heart_beat_int own) (role_ (en_session e)) (id_ (en_session e))) (take k hs)) ms;
  is_state : if decide (k = 0%nat) then established (state_ (en_session e)) = false else state_ (en_session e) = ACTIVE;
  is_stored : store_inv (store_ (en_session e)) (sent_wires own ms);
  is_stream : en_accepted e ++ pending_bytes (en_session e) = concat (sent_wires own ms);
  is_read : en_reads e = 1;
  is_write : (length (en_outstanding e) <= 1)%nat
}.

Lemma party_in_step own peer h ms hs k n e : parties own peer h -> party own peer h ms hs k n e ->
  exists us, zlen us <= n + first_unasked (role_ (en_session e)) /\ in_step own peer us ms hs k e.
Proof.
  intros P [A Hh Ch Hr Hk _ _ _ _ _ _ (us & Mu & Hus)]. destruct (session_at_ok _ _ _ _ _ A) as (I & Hin & Hha & _).
  assert (Hl : zlen (take k (sent_wires peer hs)) = Z.of_nat k).
  { pose proof (sent_wires_length peer hs). unfold zlen in *. rewrite length_take. lia. }
  exists us. split; [done|]. split; try done.
  - apply I.
  - rewrite (so_next _ _ I). by rewrite sent_wires_length.
  - by rewrite Hin, Hl.
  - by rewrite (pa_beat _ _ _ P).
  - destruct (take k (sent_wires peer hs)) as [|w ws] eqn:Et; cbn [session_at] in A.
    + rewrite decide_True by (change (zlen []) with 0 in Hl; lia). apply A.
    + rewrite decide_False by (rewrite zlen_cons in Hl; zlen_pos; lia). apply A.
  - apply I.
  - exact (co_stream _ _ Ch).
  - pose proof (co_front _ _ Ch) as Hf. unfold en_outstanding. rewrite Hf. destruct (write_q_ _); cbn; lia.
Qed.

(** Both ends. *)
Lemma link_in_steps pa pb ia ib N ms k n l : can_talk pa pb ia ib -> link_ok (agreed pa pb) (heart_beat_int pa) N ms k n l ->
  exists ua ub, zlen ua + zlen ub <= 1 + N /\
    in_step (agreed pa pb SideA) (agreed pa pb SideB) ua (ms SideA) (ms SideB) (k SideA) (lk_a l) /\
    in_step (agreed pa pb SideB) (agreed pa pb SideA) ub (ms SideB) (ms SideA) (k SideB) (lk_b l).
Proof.
  intros C [Hp _ Hro Hn]. destruct (party_in_step _ _ _ _ _ _ _ _ (agreed_parties pa pb ia ib SideA C) (Hp SideA)) as (ua & Ha & Ia).
  destruct (party_in_step _ _ _ _ _ _ _ _ (agreed_parties pa pb ia ib SideB C) (Hp SideB)) as (ub & Hb & Ib).
  rewrite (Hro SideA) in Ha. rewrite (Hro SideB) in Hb. cbn [side_role first_unasked] in Ha, Hb. exists ua, ub. split_and!; [lia|exact Ia|exact Ib].
Qed.

(** C1: two sessions of this engine stay in step.  A new initiator and a new acceptor that fit
    ([can_talk]: opposite CompIDs of at most 1000 bytes together, an initiator that proposes an
    interval of 10 to 120 seconds and does not ask for a reset of the sequence numbers) start on
    a transport.  Then, in any order: their heartbeat timers expire; their inbound timers expire,
    each only when no test request of its session awaits an answer; once they are logged on, their
    applications send custom messages of at most 1000 bytes; and the transport takes any number of bytes at a time and
    delivers up to [cap].  So the two timeouts that end a session are left out, that of the Logon
    and that of a test request: the peer is slow, but not so slow.  [cap] is 1023 times the
    shortest message of these CompIDs, which is more than the 64 KiB of the read buffer if the two
    have 18 characters.  As long as at most [Max_Sends] messages are sent unasked, no handler
    faults and no session stops, and at any time, on either side: the numbers of the messages it
    has sent are [1 .. next_out - 1], each is in its store, and what the transport took followed
    by what is queued is exactly these messages; it has handled exactly the first [next_in - 1]
    messages of the other side, in order, each once; what it has sent are the answers to these
    messages, in order, and, in between, what it was not asked for, which on both sides together
    is at most the first Logon and one message for each event that sends one; it is active once it
    has handled the Logon; and one read and at most one write are outstanding. *)
Theorem link_in_step cap pa pb ia ib ca cb ops : can_talk pa pb ia ib -> 1 <= cap <= read_limit (min_wire pa) -> Forall op_fits ops -> sends ops <= Max_Sends ->
  exists l0 l ua ub ma mb ka kb, link_start ia ib pa pb ca cb = Ok l0 /\ link_run cap ops l0 = Ok l /\ zlen ua + zlen ub <= 1 + sends ops /\
    in_step (agreed pa pb SideA) (agreed pa pb SideB) ua ma mb ka (lk_a l) /\ in_step (agreed pa pb SideB) (agreed pa pb SideA) ub mb ma kb (lk_b l).
Proof.
  intros C Hcap Hops Hs. destruct (link_started pa pb ia ib ca cb C) as (l0 & E0 & L0).
  destruct (link_run_ok _ _ (fun x => agreed_parties pa pb ia ib x C) cap (agreed_limit cap pa pb ia ib C Hcap) ops 0 _ _ _ l0 L0) as (l & ms & k & n & E & L); [lia|done|].
  destruct (link_in_steps pa pb ia ib _ _ _ _ _ C L) as (ua & ub & Hu & Ia & Ib).
  exists l0, l, ua, ub, (ms SideA), (ms SideB), (k SideA), (k SideB). by split_and!.
Qed.

(** C2: what was sent arrives and is answered.  After any run as in [link_in_step], with the same
    parameters and timers, if the transport keeps serving both sides (at least one byte of what
    is outstanding each time), then after finitely many rounds both sessions are logged on and
    have handled all that the other one sent; each has sent the answers to all of it, in order,
    and between them only what it was not asked for, at most the Logon and one message for each
    event of the run that sends one: so every test request and every custom message that is not a
    response has been answered once; nothing is queued, outstanding or on the way, and each side
    expects the number that the other one will use next. *)
Theorem link_settles cap pa pb ia ib ca cb ops : can_talk pa pb ia ib -> 1 <= cap <= read_limit (min_wire pa) -> Forall op_fits ops -> sends ops <= Max_Sends ->
  exists l0 l W, link_start ia ib pa pb ca cb = Ok l0 /\ link_run cap ops l0 = Ok l /\
    forall rs, Forall round_fits rs -> W < zlen rs ->
    exists l' ua ub ma mb, link_run cap (concat (round_ops <$> rs)) l = Ok l' /\ ma <> [] /\ mb <> [] /\ zlen ua + zlen ub <= 1 + sends ops /\
      in_step (agreed pa pb SideA) (agreed pa pb SideB) ua ma mb (length mb) (lk_a l') /\ in_step (agreed pa pb SideB) (agreed pa pb SideA) ub mb ma (length ma) (lk_b l') /\
      forall x, en_outstanding (at_ x l') = [] /\ in_transit x l' = [].
Proof.
  intros C Hcap Hops Hs. destruct (link_started pa pb ia ib ca cb C) as (l0 & E0 & L0). set (P := fun x => agreed_parties pa pb ia ib x C). set (Hc := agreed_limit cap pa pb ia ib C Hcap).
  destruct (link_run_ok _ _ P cap Hc ops 0 _ _ _ l0 L0) as (l & ms & k & n & E & L); [lia|done|].
  exists l0, l, (all_work (agreed pa pb) (heart_beat_int pa) ms k l). split_and!; [done|done|]. intros rs Hrs HW.
  destruct (rounds_settle _ _ P cap Hc rs _ ms k n l L ltac:(lia) Hrs HW) as (l' & ms' & k' & E' & L' & Hset).
  pose proof (settled_handled _ _ _ _ _ _ _ SideA L' Hset) as Ka. pose proof (settled_handled _ _ _ _ _ _ _ SideB L' Hset) as Kb. cbn [other] in Ka, Kb.
  destruct (settled_sent _ _ _ _ _ _ _ L' Hset) as [Ha Hb].
  destruct (link_in_steps pa pb ia ib _ _ _ _ _ C L') as (ua & ub & Hu & Ia & Ib).
  exists l', ua, ub, (ms' SideA), (ms' SideB). rewrite <- Ka, <- Kb. by split_and!.
Qed.

(** ** Instances *)

(** The sessions of examples/basic.cpp. *)
Abbreviation demo_a := Basic.client_session_params.
Abbreviation demo_b := Basic.server_session_params.
Abbreviation demo_id_a := (mk_session_id 1 1).
Abbreviation demo_id_b := (mk_session_id 0 0).

Lemma demo_can_talk : can_talk demo_a demo_b demo_id_a demo_id_b.
Proof.
  assert (Hc : forall l : bytes, bool_decide (l <> [] /\ SOH ∉ l) = true -> value_text l) by (intros l Hl; exact (bool_decide_eq_true_1 _ Hl)).
  split; first [by vm_compute|by split|split; [done|apply Hc; by vm_compute..]].
Qed.

(** The Logon is cut in two; both applications send before and after the other side has read;
    the initiator's inbound timer expires. *)
Definition demo_link_ops : list link_op :=
  [LWritten SideA 40; LDelivered SideB 25; LWritten SideA 4096; LHeartbeat SideB; LDelivered SideB 4096; LApp SideB (B "hello");
   LWritten SideB 100; LDelivered SideA 4096; LWritten SideB 4096; LDelivered SideA 4096; LTestRequest SideA; LApp SideA (B "Yello");
   LWritten SideB 4096; LDelivered SideA 70; LWritten SideA 200; LDelivered SideB 4096].

Lemma demo_link_fits : Forall op_fits demo_link_ops /\ sends demo_link_ops <= Max_Sends.
Proof.
  assert (Hc : forall l : bytes, bool_decide (l <> [] /\ SOH ∉ l) = true -> value_text l) by (intros l Hl; exact (bool_decide_eq_true_1 _ Hl)).
  split; [|by vm_compute]. repeat constructor; try (by vm_compute); try (apply Hc; by vm_compute).
Qed.

Example link_in_step_witness :
  exists l0 l ua ub ma mb ka kb, link_start demo_id_a demo_id_b demo_a demo_b 7 8 = Ok l0 /\ link_run 4096 demo_link_ops l0 = Ok l /\ zlen ua + zlen ub <= 1 + sends demo_link_ops /\
    in_step (agreed demo_a demo_b SideA) (agreed demo_a demo_b SideB) ua ma mb ka (lk_a l) /\
    in_step (agreed demo_a demo_b SideB) (agreed demo_a demo_b SideA) ub mb ma kb (lk_b l).
Proof. apply (link_in_step 4096 demo_a demo_b); [apply demo_can_talk|by vm_compute|apply demo_link_fits|apply demo_link_fits]. Defined.

Example link_settles_witness :
  exists l0 l W, link_start demo_id_a demo_id_b demo_a demo_b 7 8 = Ok l0 /\ link_run 4096 demo_link_ops l0 = Ok l /\
    forall rs, Forall round_fits rs -> W < zlen rs ->
    exists l' ua ub ma mb, link_run 4096 (concat (round_ops <$> rs)) l = Ok l' /\ ma <> [] /\ mb <> [] /\ zlen ua + zlen ub <= 1 + sends demo_link_ops /\
      in_step (agreed demo_a demo_b SideA) (agreed demo_a demo_b SideB) ua ma mb (length mb) (lk_a l') /\
      in_step (agreed demo_a demo_b SideB) (agreed demo_a demo_b SideA) ub mb ma (length ma) (lk_b l') /\
      forall x, en_outstanding (at_ x l') = [] /\ in_transit x l' = [].
Proof. apply (link_settles 4096 demo_a demo_b); [apply demo_can_talk|by vm_compute|apply demo_link_fits|apply demo_link_fits]. Defined.

(** The numbers after the run, and after four more rounds. *)
Definition demo_numbers (ops : list link_op) : Res (Z * Z * Z * Z) :=
  let! l := link_start demo_id_a demo_id_b demo_a demo_b 7 8 in
  let! l := link_run 4096 ops l in
  let a := seqs (en_session (lk_a l)) in let b := seqs (en_session (lk_b l)) in
  Ok (next_out a, next_in b, next_out b, next_in a).

Example demo_link_numbers : demo_numbers demo_link_ops = Ok (5, 3, 3, 3).
Proof. by vm_compute. Qed.
Example demo_settled_numbers : demo_numbers (demo_link_ops ++ concat (round_ops <$> replicate 4 (4096, 4096, 4096, 4096))) = Ok (5, 5, 5, 5).
Proof. by vm_compute. Qed.
