(* ===== verification/Loopback.v ===== *)
(** [Fix::TestSupport::LoopbackConnection] (include/fix/core/LoopbackTransport.hpp): two connections
    joined in memory.

    Each method takes the lock of a channel once or twice; what runs under one lock is one step,
    so that a write that found a pending read is in [fulfilling] between its two steps, and any
    interleaving of steps is a run.  A handler is a number; what it is called with is in [posted],
    in the order of the calls of [boost::asio::post].  A completed read has the bytes that were
    copied to its buffer. *)
From Stdlib Require Import Strings.Byte.
From S2P Require Import Prelude.
From S2P Require Import Network.

(** The two ends that [make_pair] returns. *)
Inductive End : Set := EndA | EndB.
#[export] Instance end_eq_dec : EqDecision End.
Proof. solve_decision. Defined.
Definition peer (e : End) : End := match e with EndA => EndB | EndB => EndA end.

Record PendingRead : Set := mk_pending { buffer_size : Z; handler : Z }.
Record LoopbackChannel : Set := mk_channel {
  inbound : bytes;
  pending : option PendingRead;
  closed : bool;
  close_reason : error_code
}.
Definition channel_new : LoopbackChannel := mk_channel [] None false operation_aborted.

(** A handler that was posted: whether of a read, its error, the bytes read, the size written. *)
Record Completion : Set := mk_completion { c_end : End; c_read : bool; c_handler : Z; c_error : error_code; c_data : bytes; c_size : Z }.

(** [outbound_] of an end is the channel of its peer.  [sent] and [started] are the history: the
    bytes put into a channel, and the handlers of the reads on it. *)
Record Loopback : Type := mk_loopback {
  channel : End -> LoopbackChannel;
  write_log_ : End -> bytes;
  fulfilling : list (End * PendingRead * option Z * Z);
  posted : list Completion;
  sent : End -> bytes;
  started : End -> list Z
}.
Definition eta_loopback (s : Loopback) : Loopback :=
  mk_loopback (channel s) (write_log_ s) (fulfilling s) (posted s) (sent s) (started s).
#[export] Hint Extern 1 (@Updater Loopback _ _) => derive_updater eta_loopback : typeclass_instances.

Definition make_pair : Loopback := mk_loopback (fun _ => channel_new) (fun _ => []) [] [] (fun _ => []) (fun _ => []).

Definition at_end {A} (e : End) (a : A) (f : End -> A) : End -> A := fun e' => if decide (e' = e) then a else f e'.
Definition set_channel (e : End) (c : LoopbackChannel) (s : Loopback) : Loopback := s <| channel := at_end e c (channel s) |>.
Definition post (c : Completion) (s : Loopback) : Loopback := s <| posted := posted s ++ [c] |>.

(** [n] bytes of the channel for a buffer of [size] bytes. *)
Definition take_inbound (size : Z) (c : LoopbackChannel) : bytes * LoopbackChannel :=
  let n := Z.min size (zlen (inbound c)) in
  (ztake n (inbound c), mk_channel (zdrop n (inbound c)) (pending c) (closed c) (close_reason c)).

Definition async_read_some (e : End) (size h : Z) (s : Loopback) : Loopback :=
  let c := channel s e in
  let s := s <| started := at_end e (started s e ++ [h]) (started s) |> in
  if closed c then post (mk_completion e true h (close_reason c) [] 0) s
  else if negb (bool_decide (inbound c = [])) then
    let '(data, c) := take_inbound size c in
    post (mk_completion e true h success data (zlen data)) (set_channel e c s)
  else set_channel e (mk_channel (inbound c) (Some (mk_pending size h)) (closed c) (close_reason c)) s.

(** Bytes are put into the channel of [e]; a read that is pending there is taken, with the
    handler of the write, if it is one. *)
Definition deliver (e : End) (data : bytes) (write : option Z) (s : Loopback) : Loopback :=
  let c := channel s e in
  let s := s <| sent := at_end e (sent s e ++ data) (sent s) |> in
  let s := set_channel e (mk_channel (inbound c ++ data) None (closed c) (close_reason c)) s in
  match pending c with
  | Some p => s <| fulfilling := fulfilling s ++ [(e, p, write, zlen data)] |>
  | None => match write with Some h => post (mk_completion (peer e) false h success [] (zlen data)) s | None => s end
  end.

Definition async_write_some (e : End) (data : bytes) (h : Z) (s : Loopback) : Loopback :=
  let s := s <| write_log_ := at_end e (write_log_ s e ++ data) (write_log_ s) |> in
  if closed (channel s (peer e)) then post (mk_completion e false h broken_pipe [] 0) s
  else deliver (peer e) data (Some h) s.

Definition inject_inbound (e : End) (data : bytes) (s : Loopback) : Loopback :=
  if closed (channel s e) then s else deliver e data None s.

(** The second half of a write or an injection. *)
Definition fulfil (k : nat) (s : Loopback) : Loopback :=
  match fulfilling s !! k with
  | None => s
  | Some (e, p, write, size) =>
      let '(data, c) := take_inbound (buffer_size p) (channel s e) in
      let s := set_channel e c (s <| fulfilling := delete k (fulfilling s) |>) in
      let s := post (mk_completion e true (handler p) success data (zlen data)) s in
      match write with Some h => post (mk_completion (peer e) false h success [] size) s | None => s end
  end.

(** [close] and [simulate_disconnect] abort a pending read. *)
Definition shut (e : End) (reason : error_code) (s : Loopback) : Loopback :=
  let c := channel s e in
  let s := set_channel e (mk_channel (inbound c) None true reason) s in
  match pending c with Some p => post (mk_completion e true (handler p) reason [] 0) s | None => s end.
Definition close (e : End) (s : Loopback) : Loopback := shut e (close_reason (channel s e)) s.
Definition simulate_disconnect (e : End) (ec : error_code) (s : Loopback) : Loopback := shut e ec s.

Definition take_write_log (e : End) (s : Loopback) : bytes * Loopback :=
  (write_log_ s e, s <| write_log_ := at_end e [] (write_log_ s) |>).
Definition peek_write_log (e : End) (s : Loopback) : bytes := write_log_ s e.

(** ** Runs *)

Inductive loop_op : Type :=
  | LRead (e : End) (size h : Z)
  | LWrite (e : End) (data : bytes) (h : Z)
  | LInject (e : End) (data : bytes)
  | LFulfil (k : nat)
  | LClose (e : End)
  | LDisconnect (e : End) (ec : error_code)
  | LTakeLog (e : End).

Definition loop_step (op : loop_op) (s : Loopback) : Loopback :=
  match op with
  | LRead e size h => async_read_some e size h s
  | LWrite e data h => async_write_some e data h s
  | LInject e data => inject_inbound e data s
  | LFulfil k => fulfil k s
  | LClose e => close e s
  | LDisconnect e ec => simulate_disconnect e ec s
  | LTakeLog e => snd (take_write_log e s)
  end.
Definition loop_run (ops : list loop_op) (s : Loopback) : Loopback := foldl (fun s op => loop_step op s) s ops.

(** The reads on [e] that wait, and those that are completed. *)
Definition waiting (e : End) (s : Loopback) : list Z :=
  (match pending (channel s e) with Some p => [handler p] | None => [] end) ++
  omap (fun '(e', p, _, _) => if decide (e' = e) then Some (handler p) else None) (fulfilling s).
Definition read_by (e : End) (c : Completion) : bool := bool_decide (c_end c = e) && c_read c.
Definition completed (e : End) (s : Loopback) : list Z := c_handler <$> List.filter (read_by e) (posted s).
Definition received (e : End) (s : Loopback) : bytes := concat (c_data <$> List.filter (read_by e) (posted s)).

(** A reader waits for a read before it starts the next one, as a session does; buffers have
    room. *)
Definition loop_ok (op : loop_op) (s : Loopback) : Prop :=
  match op with LRead e size _ => waiting e s = [] /\ 0 < size | _ => True end.
Fixpoint loop_run_ok (ops : list loop_op) (s : Loopback) : Prop :=
  match ops with [] => True | op :: ops => loop_ok op s /\ loop_run_ok ops (loop_step op s) end.

(** ** The invariant *)

(** Sizes of buffers are not negative. *)
Definition sizes_ok (s : Loopback) : Prop :=
  (forall e p, pending (channel s e) = Some p -> 0 <= buffer_size p) /\
  forall x, x ∈ fulfilling s -> let '(_, p, _, _) := x in 0 <= buffer_size p.

Record loop_inv (s : Loopback) : Prop := {
  li_stream : forall e, received e s ++ inbound (channel s e) = sent s e;
  li_reads : forall e, completed e s ++ waiting e s = started s e;
  li_one : forall e, (length (waiting e s) <= 1)%nat;
  li_pending : forall e p, pending (channel s e) = Some p -> inbound (channel s e) = [];
  li_sizes : sizes_ok s
}.

Lemma at_end_eq {A} e (a : A) f : at_end e a f e = a.
Proof. unfold at_end. by rewrite decide_True. Qed.
Lemma at_end_ne {A} e e' (a : A) f : e' <> e -> at_end e a f e' = f e'.
Proof. intros. unfold at_end. by rewrite decide_False. Qed.

Lemma completed_post c e s : completed e (post c s) = completed e s ++ (if read_by e c then [c_handler c] else []).
Proof. unfold completed. cbn [posted post upd]. rewrite List.filter_app, fmap_app. cbn. by destruct (read_by e c). Qed.
Lemma received_post c e s : received e (post c s) = received e s ++ (if read_by e c then c_data c else []).
Proof.
  unfold received. cbn [posted post upd]. rewrite List.filter_app, fmap_app, concat_app. cbn.
  destruct (read_by e c); cbn; by rewrite ?app_nil_r.
Qed.
Lemma read_by_same e h ec d n : read_by e (mk_completion e true h ec d n) = true.
Proof. unfold read_by. cbn. by rewrite bool_decide_true. Qed.
Lemma read_by_other e e' h ec d n : e <> e' -> read_by e (mk_completion e' true h ec d n) = false.
Proof. intros. unfold read_by. cbn. by rewrite bool_decide_false. Qed.
Lemma read_by_write e e' h ec d n : read_by e (mk_completion e' false h ec d n) = false.
Proof. unfold read_by. cbn. by rewrite andb_false_r. Qed.

(** What the invariant says of one end. *)
Definition inv_at (e : End) (s : Loopback) : Prop :=
  received e s ++ inbound (channel s e) = sent s e /\ completed e s ++ waiting e s = started s e /\
  (length (waiting e s) <= 1)%nat /\ forall p, pending (channel s e) = Some p -> inbound (channel s e) = [].

Lemma loop_inv_at s : loop_inv s <-> sizes_ok s /\ forall e, inv_at e s.
Proof.
  split.
  - intros [H1 H2 H3 H4 H5]. split; [done|]. intros e. split_and!; [apply H1|apply H2|apply H3|]. intros p. apply H4.
  - intros [Hs H]. split; [..|done]; intros e; destruct (H e) as (H1 & H2 & H3 & H4); [done|done|done|exact H4].
Qed.

(** An end that an operation does not touch. *)
Record same_at (e : End) (s s' : Loopback) : Prop := {
  sa_channel : channel s' e = channel s e;
  sa_fulfilling : omap (fun '(e', p, _, _) => if decide (e' = e) then Some (handler p) else None) (fulfilling s') =
                  omap (fun '(e', p, _, _) => if decide (e' = e) then Some (handler p) else None) (fulfilling s);
  sa_posted : List.filter (read_by e) (posted s') = List.filter (read_by e) (posted s);
  sa_sent : sent s' e = sent s e;
  sa_started : started s' e = started s e
}.
#[export] Instance same_at_refl e : Reflexive (same_at e).
Proof. by split. Qed.
#[export] Instance same_at_trans e : Transitive (same_at e).
Proof. intros s1 s2 s3 [] []. split; congruence. Qed.

Lemma inv_same e s s' : same_at e s s' -> inv_at e s -> inv_at e s'.
Proof.
  intros [Ec Ef Ep Es Et] (H1 & H2 & H3 & H4). unfold inv_at, received, completed, waiting in *. rewrite Ec, Ef, Ep, Es, Et. by split_and!.
Qed.

Lemma same_post e c s : read_by e c = false -> same_at e s (post c s).
Proof. intros E. split; try done. cbn. rewrite List.filter_app. cbn. rewrite E. by rewrite app_nil_r. Qed.
Lemma same_set_channel e e' c s : e <> e' -> same_at e s (set_channel e' c s).
Proof. intros. split; try done. cbn. by rewrite at_end_ne. Qed.

(** The members of an end after the elementary changes. *)
Lemma channel_set e c s : channel (set_channel e c s) e = c.
Proof. apply at_end_eq. Qed.

Lemma take_inbound_spec size c : 0 <= size -> let '(data, c') := take_inbound size c in
  data ++ inbound c' = inbound c /\ pending c' = pending c /\ closed c' = closed c.
Proof. intros H. cbn. split_and!; [|done|done]. unfold ztake, zdrop. apply take_drop. Qed.

(** A read of [e] completes; [ws] still wait. *)
Lemma inv_completed e s s' h ec data n : inv_at e s -> completed e s ++ h :: waiting e s' = started s' e -> (length (waiting e s') <= 1)%nat ->
  posted s' = posted s -> sent s' e = sent s e -> data ++ inbound (channel s' e) = inbound (channel s e) ->
  (forall p, pending (channel s' e) = Some p -> inbound (channel s' e) = []) ->
  inv_at e (post (mk_completion e true h ec data n) s').
Proof.
  intros (H1 & H2 & H3 & H4) Hw Hl Ep Es Hd Hp. unfold inv_at. rewrite received_post, completed_post, read_by_same. cbn [c_data c_handler].
  set (s1 := post _ s'). change (waiting e s1) with (waiting e s'). change (channel s1 e) with (channel s' e). change (sent s1 e) with (sent s' e).
  change (started s1 e) with (started s' e).
  assert (received e s' = received e s) as -> by (unfold received; by rewrite Ep). assert (completed e s' = completed e s) as -> by (unfold completed; by rewrite Ep).
  rewrite Es, <- H1, <- !app_assoc, Hd. by split_and!.
Qed.

Lemma inv_read e size h s : 0 < size -> waiting e s = [] -> inv_at e s -> forall e', inv_at e' s -> inv_at e' (async_read_some e size h s).
Proof.
  intros Hsize Hw I e' I'. pose proof I as (H1 & H2 & H3 & H4). rewrite Hw, app_nil_r in H2.
  assert (Hp : pending (channel s e) = None) by (unfold waiting in Hw; by destruct (pending (channel s e))).
  assert (Hf : forall s', fulfilling s' = fulfilling s -> pending (channel s' e) = None -> waiting e s' = []).
  { intros s' Ef Ep. unfold waiting in *. apply app_eq_nil in Hw as [_ Hw]. by rewrite Ef, Ep. }
  unfold async_read_some. destruct (decide (e' = e)) as [->|Hne].
  2:{ apply (inv_same e' s); [|done]. destruct (closed _); [|destruct (negb _); [|]].
      - etransitivity; [|by apply same_post, read_by_other]. split; try done. cbn. by rewrite at_end_ne.
      - cbn [take_inbound]. etransitivity; [|by apply same_post, read_by_other]. etransitivity; [|by apply same_set_channel]. split; try done. cbn. by rewrite at_end_ne.
      - etransitivity; [|by apply same_set_channel]. split; try done. cbn. by rewrite at_end_ne. }
  set (s1 := s <| started := _ |>). assert (Es1 : started s1 e = started s e ++ [h]) by apply at_end_eq.
  destruct (closed (channel s e)); [|destruct (negb _) eqn:Ei].
  - assert (Hw1 : waiting e s1 = []) by by apply Hf.
    apply (inv_completed e s); rewrite ?Hw1; try done; [by rewrite Es1, H2|cbn; lia].
  - pose proof (take_inbound_spec size (channel s e) ltac:(lia)) as Ht. destruct (take_inbound size (channel s e)) as [data c]. destruct Ht as (Ht & Hc & _).
    assert (Ec : channel (set_channel e c s1) e = c) by apply channel_set.
    assert (Hw2 : waiting e (set_channel e c s1) = []) by (apply Hf; [done|rewrite Ec; congruence]).
    apply (inv_completed e s); rewrite ?Hw2, ?Ec; try done; [|cbn; lia|congruence].
    change (started (set_channel e c s1) e) with (started s1 e). by rewrite Es1, H2.
  - apply negb_false_iff, bool_decide_eq_true in Ei. unfold inv_at. rewrite channel_set. cbn [inbound pending].
    set (s2 := set_channel _ _ _). assert (Hw2 : waiting e s2 = [h]).
    { unfold waiting, s2 in *. rewrite channel_set. cbn [pending handler]. apply app_eq_nil in Hw as [_ Hw]. change (fulfilling (set_channel _ _ _)) with (fulfilling s).
      by rewrite Hw. }
    rewrite Hw2. split_and!; [exact H1|change (completed e s2) with (completed e s); by rewrite H2, <- Es1|cbn; lia|done].
Qed.

Lemma fulfilling_snoc e l e' p w n :
  omap (fun '(e', p, _, _) => if decide (e' = e) then Some (handler p) else None) (l ++ [(e', p, w, n)] : list (End * PendingRead * option Z * Z)) =
  omap (fun '(e', p, _, _) => if decide (e' = e) then Some (handler p) else None) l ++ (if decide (e' = e) then [handler p] else []).
Proof. rewrite omap_app. cbn. by destruct (decide (e' = e)). Qed.

Lemma peer_ne e : peer e <> e.
Proof. by destruct e. Qed.

(** Bytes put into a channel wait in it; the read that waited for them is about to get them. *)
Lemma inv_deliver e data w s e' : inv_at e' s -> inv_at e' (deliver e data w s).
Proof.
  intros I. unfold deliver. set (s1 := s <| sent := _ |>). set (c := mk_channel _ None _ _). set (s2 := set_channel e c s1).
  assert (Hpost : forall s', inv_at e' s' -> inv_at e' (match w with Some h => post (mk_completion (peer e) false h success [] (zlen data)) s' | None => s' end)).
  { intros s' I'. destruct w as [h|]; [|done]. apply (inv_same e' s'); [|done]. apply same_post, read_by_write. }
  destruct (decide (e' = e)) as [->|Hne].
  2:{ assert (S2 : same_at e' s s2) by (split; try done; cbn; by rewrite at_end_ne).
      destruct (pending (channel s e)) as [p|]; [|by apply Hpost, (inv_same e' s)]. apply (inv_same e' s); [|done]. etransitivity; [exact S2|].
      split; try done. cbn [fulfilling upd]. rewrite fulfilling_snoc, decide_False by done. by rewrite app_nil_r. }
  destruct I as (H1 & H2 & H3 & H4). assert (Ec : channel s2 e = c) by apply channel_set. assert (Es : sent s2 e = sent s e ++ data) by apply at_end_eq.
  destruct (pending (channel s e)) as [p|] eqn:Ep.
  - set (s3 := s2 <| fulfilling := _ |>). assert (Hw : waiting e s3 = waiting e s).
    { unfold waiting in *. rewrite Ep in *. cbn [length app] in H3. change (channel s3 e) with (channel s2 e). rewrite Ec. unfold s3. cbn [fulfilling upd].
      rewrite fulfilling_snoc, decide_True by done. change (fulfilling s2) with (fulfilling s). cbn [app]. destruct (omap _ _) as [|x l]; [done|cbn in H3; lia]. }
    unfold inv_at. rewrite Hw. change (channel s3 e) with (channel s2 e). rewrite Ec. change (sent s3 e) with (sent s2 e). rewrite Es. unfold c. cbn [inbound pending].
    change (received e s3) with (received e s). rewrite app_assoc, H1. by split_and!.
  - apply Hpost. assert (Hw : waiting e s2 = waiting e s) by (unfold waiting; rewrite Ec, Ep; done).
    unfold inv_at. rewrite Hw, Ec, Es. unfold c. cbn [inbound pending]. change (received e s2) with (received e s). rewrite app_assoc, H1. by split_and!.
Qed.

Lemma inv_write e data h s e' : inv_at e' s -> inv_at e' (async_write_some e data h s).
Proof.
  intros I. unfold async_write_some. set (s1 := s <| write_log_ := _ |>). assert (I1 : inv_at e' s1) by exact I.
  destruct (closed _); [|by apply inv_deliver]. apply (inv_same e' s1); [|done]. apply same_post, read_by_write.
Qed.
Lemma inv_inject e data s e' : inv_at e' s -> inv_at e' (inject_inbound e data s).
Proof. intros I. unfold inject_inbound. destruct (closed _); [done|by apply inv_deliver]. Qed.

Lemma inv_shut e r s e' : inv_at e' s -> inv_at e' (shut e r s).
Proof.
  intros I. unfold shut. set (c := mk_channel _ None _ _). set (s2 := set_channel e c s). destruct (decide (e' = e)) as [->|Hne].
  2:{ apply (inv_same e' s); [|done]. destruct (pending _); [etransitivity; [|by apply same_post, read_by_other]|]; by apply same_set_channel. }
  pose proof I as (H1 & H2 & H3 & H4). assert (Ec : channel s2 e = c) by apply channel_set.
  destruct (pending (channel s e)) as [p|] eqn:Ep.
  - assert (Hw : waiting e s = handler p :: waiting e s2) by (unfold waiting; by rewrite Ec, Ep). rewrite Hw in *. cbn [length] in H3.
    apply (inv_completed e s); rewrite ?Ec; try done; lia.
  - assert (Hw : waiting e s2 = waiting e s) by (unfold waiting; by rewrite Ec, Ep). unfold inv_at. rewrite Hw, Ec. by split_and!.
Qed.

Lemma omap_split {A C} (f : A -> option C) (k : nat) (l : list A) x : l !! k = Some x ->
  omap f l = omap f (take k l) ++ omap f [x] ++ omap f (drop (S k) l) /\ omap f (delete k l) = omap f (take k l) ++ omap f (drop (S k) l).
Proof.
  intros Hk. rewrite delete_take_drop, omap_app. split; [|done]. rewrite <- (take_drop_middle l k x Hk) at 1. rewrite omap_app. f_equal. by apply (omap_app f [x]).
Qed.
Lemma omap_delete_None {A C} (f : A -> option C) (k : nat) (l : list A) x : l !! k = Some x -> f x = None -> omap f (delete k l) = omap f l.
Proof. intros [-> ->]%(omap_split f) Hx. cbn. by rewrite Hx. Qed.
Lemma omap_delete_one {A C} (f : A -> option C) (k : nat) (l : list A) x y : l !! k = Some x -> f x = Some y -> (length (omap f l) <= 1)%nat ->
  omap f l = [y] /\ omap f (delete k l) = [].
Proof.
  intros [-> ->]%(omap_split f) Hx. cbn. rewrite Hx, !length_app. cbn [length app]. intros Hl.
  destruct (omap f (take k l)), (omap f (drop (S k) l)); cbn in *; done || lia.
Qed.

Lemma inv_fulfil k s e' : sizes_ok s -> inv_at e' s -> inv_at e' (fulfil k s).
Proof.
  intros [_ Hb] I. unfold fulfil. destruct (fulfilling s !! k) as [[[[e p] w] n]|] eqn:Ek; [|done].
  pose proof (take_inbound_spec (buffer_size p) (channel s e) (Hb _ (list_elem_of_lookup_2 _ _ _ Ek))) as Ht.
  destruct (take_inbound _ _) as [data c]. destruct Ht as (Ht & Hc & _). set (s2 := set_channel e c _).
  assert (Hpost : forall s', inv_at e' s' -> inv_at e' (match w with Some h => post (mk_completion (peer e) false h success [] n) s' | None => s' end)).
  { intros s' I'. destruct w as [h|]; [|done]. apply (inv_same e' s'); [|done]. apply same_post, read_by_write. }
  apply Hpost. destruct (decide (e' = e)) as [->|Hne].
  2:{ apply (inv_same e' s); [|done]. etransitivity; [|by apply same_post, read_by_other]. split; try done; cbn; [by rewrite at_end_ne|].
      apply (omap_delete_None _ _ _ _ Ek). cbn. by rewrite decide_False. }
  pose proof I as (H1 & H2 & H3 & H4). assert (Ec : channel s2 e = c) by apply channel_set.
  destruct (omap_delete_one (fun '(e', p, _, _) => if decide (e' = e) then Some (handler p) else None) k (fulfilling s) _ (handler p) Ek) as [Ef Ef'].
  { by rewrite decide_True. }
  { unfold waiting in H3. rewrite length_app in H3. lia. }
  assert (Ep : pending (channel s e) = None).
  { unfold waiting in H3. rewrite Ef in H3. destruct (pending (channel s e)); [cbn in H3; lia|done]. }
  assert (Hw : waiting e s2 = []) by (unfold waiting; rewrite Ec, Hc, Ep; exact Ef').
  assert (Hw0 : waiting e s = [handler p]) by (unfold waiting; rewrite Ep; exact Ef).
  apply (inv_completed e s); rewrite ?Hw, ?Ec; try done; [by rewrite <- Hw0|cbn; lia|congruence].
Qed.

(** ** Sizes *)

Lemma sizes_channel e c s : sizes_ok s -> (forall p, pending c = Some p -> 0 <= buffer_size p) -> sizes_ok (set_channel e c s).
Proof.
  intros [H1 H2] Hc. split; [|exact H2]. intros e' p. cbn. unfold at_end. case_decide; [apply Hc|apply H1].
Qed.

Lemma sizes_deliver e d w s : sizes_ok s -> sizes_ok (deliver e d w s).
Proof.
  intros S. unfold deliver. set (s1 := s <| sent := _ |>). set (c := mk_channel _ None _ _).
  assert (S2 : sizes_ok (set_channel e c s1)) by (by apply sizes_channel).
  destruct (pending (channel s e)) as [p|] eqn:Ep; [|by destruct w]. destruct S2 as [H1 H2]. split; [exact H1|].
  intros x. cbn. rewrite elem_of_app. intros [Hx|Hx]; [by apply H2|]. apply elem_of_cons in Hx as [->|Hx%not_elem_of_nil]; [|done]. by apply (proj1 S e).
Qed.

Lemma sizes_step op s : loop_ok op s -> sizes_ok s -> sizes_ok (loop_step op s).
Proof.
  intros Hok S. assert (Hpost : forall c s', sizes_ok s' -> sizes_ok (post c s')) by done.
  destruct op as [e size h|e data h|e data|k|e|e ec|e]; cbn [loop_step loop_ok] in *.
  - unfold async_read_some. destruct (closed _); [done|]. destruct (negb _).
    + cbn [take_inbound]. apply Hpost, sizes_channel; [done|]. cbn. apply S.
    + apply sizes_channel; [done|]. intros p [= <-]. cbn. lia.
  - unfold async_write_some. destruct (closed _); [done|]. by apply sizes_deliver.
  - unfold inject_inbound. destruct (closed _); [done|by apply sizes_deliver].
  - unfold fulfil. destruct (fulfilling s !! k) as [[[[e p] w] n]|] eqn:Ek; [|done]. cbn [take_inbound].
    cbv zeta. set (s' := post _ (set_channel e _ _)). assert (S' : sizes_ok s'); [|by destruct w].
    apply Hpost, sizes_channel; [|cbn; apply S]. destruct S as [H1 H2]. split; [exact H1|]. intros x Hx. apply H2. exact (list_elem_of_delete_inv _ _ _ Hx).
  - unfold close, shut. destruct (pending _); [apply Hpost|]; by apply sizes_channel.
  - unfold simulate_disconnect, shut. destruct (pending _); [apply Hpost|]; by apply sizes_channel.
  - done.
Qed.

Lemma inv_step op s : loop_ok op s -> loop_inv s -> loop_inv (loop_step op s).
Proof.
  intros Hok [S I]%loop_inv_at. apply loop_inv_at. split; [by apply sizes_step|]. intros e'. specialize (I e') as I'.
  destruct op; cbn [loop_step loop_ok] in *.
  - destruct Hok. by apply inv_read.
  - by apply inv_write.
  - by apply inv_inject.
  - by apply inv_fulfil.
  - by apply inv_shut.
  - by apply inv_shut.
  - exact I'.
Qed.

Lemma loop_inv_new : loop_inv make_pair.
Proof. split; try done; [intros e; cbn; lia|]. split; [done|]. by intros x ?%not_elem_of_nil. Qed.

Lemma loop_inv_run ops s : loop_run_ok ops s -> loop_inv s -> loop_inv (loop_run ops s).
Proof. revert s. induction ops as [|op ops IH]; intros s; [done|]. intros [Hop Hok] I. by apply IH, inv_step. Qed.

(** C35: the two connections of a pair are byte streams.  However the steps of reads, writes,
    injections, closes and disconnects interleave, as long as an end reads one buffer at a time:
    what an end has read, followed by what waits in its channel, is what was put into the
    channel, byte for byte; its reads complete in order, each at most once, and all that are not
    completed wait; and a read waits while there are bytes for it only while some write is
    between its two halves (it has put bytes into a channel and has yet to wake the reader). *)
Theorem loopback_stream ops e : loop_run_ok ops make_pair -> let s := loop_run ops make_pair in
  received e s ++ inbound (channel s e) = sent s e /\ completed e s ++ waiting e s = started s e /\
  (inbound (channel s e) <> [] -> waiting e s <> [] -> fulfilling s <> []).
Proof.
  intros Hok s. destruct (loop_inv_run ops make_pair Hok loop_inv_new) as [H1 H2 _ H4 _]. fold s in H1, H2, H4. split_and!; [apply H1|apply H2|].
  intros Hi Hw Hf. apply Hw. unfold waiting. rewrite Hf. destruct (pending (channel s e)) as [p|] eqn:Ep; [|done]. by destruct Hi; eapply H4.
Qed.

(** A read that waits, two writes, and a second read, interleaved. *)
Definition demo_loop : list loop_op :=
  [LRead EndB 4 1; LWrite EndA (B "8=FIX") 2; LWrite EndA (B ".4.4") 3; LFulfil 0; LRead EndB 100 4; LClose EndA; LWrite EndB (B "9=") 5].
Lemma loopback_stream_witness :
  received EndB (loop_run demo_loop make_pair) = B "8=FIX.4.4" /\ completed EndB (loop_run demo_loop make_pair) = [1; 4] /\
  received EndB (loop_run demo_loop make_pair) ++ inbound (channel (loop_run demo_loop make_pair) EndB) = sent (loop_run demo_loop make_pair) EndB.
Proof.
  split; [by vm_compute|]. split; [by vm_compute|]. apply (loopback_stream demo_loop EndB). cbn [loop_run_ok demo_loop loop_ok].
  split_and!; try done; by vm_compute.
Defined.
