(* ===== verification/LogCore.v ===== *)
(** [Fix::Log::LogCore] (include/fix/log/LogCore.hpp, src/LogCore.cpp, SessionLogger.hpp/.cpp): the
    log queue, the thread that empties it, and the files.

    Threads that log push entries into an [MpscRing] and release a semaphore; the drain thread
    acquires it, pops entries and writes them to the [LogFileSink].  A run interleaves single
    steps of all threads: of the queue as in [MpscRing], and of the drain thread one operation on
    the semaphore or the sink at a time.  A step that is not possible changes nothing.
    [written_] and [burst] are history: what was done to the sink, and how many entries the drain
    thread had popped when it last went to sleep. *)
From Stdlib Require Import Strings.Byte.
From stdpp Require Import gmap.
From S2P Require Import Prelude.
From S2P Require Import Session.
From S2P Require Import MpscRing.
From S2P Require Import LogFileSink.

(** Where the drain thread is; [drained] and [cnt] are its counters. *)
Inductive Drain : Type :=
  | DTest
  | DAcquire
  | DPop (drained : Z)
  | DWrite (drained : Z) (e : Entry)
  | DTry (drained : Z)
  | DLast (cnt : Z)
  | DLastPop (cnt : Z)
  | DLastWrite (cnt : Z) (e : Entry)
  | DShutdown
  | DDone.

(** [releasing]: the threads between [q_.push] and [sem_.release], with their tickets. *)
Record LogCore : Type := mk_core {
  q_ : State Entry;
  file_sink_ : LogFileSink;
  t_ : Drain;
  sem_ : Z;
  stop_requested : bool;
  releasing : gmap nat Z;
  written_ : list sink_op;
  burst : Z
}.
Definition eta_core (c : LogCore) : LogCore :=
  mk_core (q_ c) (file_sink_ c) (t_ c) (sem_ c) (stop_requested c) (releasing c) (written_ c) (burst c).
#[export] Hint Extern 1 (@Updater LogCore _ _) => derive_updater eta_core : typeclass_instances.

(** [if (drained >= 1024) break]. *)
Definition burst_cap : Z := 1024.

Section Core.
(** The files that can be opened; [max()] of a [counting_semaphore<1024>]; the order in which a
    hash table is traversed. *)
Context (can_open : bytes -> bool) (sem_max : Z) (hash_order : gmap Z SinkNode -> list Z).

Definition log_core_new (engine_run_id : bytes) (files : gmap bytes bytes) : LogCore :=
  mk_core state_new (log_file_sink_new can_open engine_run_id files) DTest 0 false ∅ [] 0.

(** More than [max()] is undefined behaviour. *)
Definition release (n : Z) (c : LogCore) : Res LogCore :=
  if sem_max <? sem_ c + n then Err OutOfBounds else Ok (c <| sem_ := sem_ c + n |>).

(** The call of [push] or [try_push]. *)
Definition core_call (is_try : bool) (tid : nat) (e : Entry) (c : LogCore) : LogCore :=
  match releasing c !! tid with
  | Some _ => c
  | None => match call_push is_try tid e (q_ c) with Some q => c <| q_ := q |> | None => c end
  end.

(** The next step of a thread that pushes: inside the queue, or the [release]; a [try_push] that
    failed returns without it. *)
Definition core_producer (tid : nat) (c : LogCore) : Res LogCore :=
  match releasing c !! tid with
  | Some _ => release 1 (c <| releasing := delete tid (releasing c) |>)
  | None =>
      match step_push tid (q_ c) with
      | None => Ok c
      | Some q =>
          let c' := c <| q_ := q |> in
          Ok match producers (q_ c) !! tid with
             | Some (PushEpoch ticket) => c' <| releasing := <[tid := ticket]> (releasing c) |>
             | _ => c'
             end
      end
  end.

(** [SessionLogger::log]. *)
Definition log_entry (sid : SessionID) (ctx : Context) (text : bytes) : Entry := mk_entry text sid ctx.
Definition logger_log (tid : nat) (sid : SessionID) (ctx : Context) (text : bytes) (c : LogCore) : LogCore :=
  core_call false tid (log_entry sid ctx text) c.

Definition sink_do (op : sink_op) (c : LogCore) : Res LogCore :=
  let! s := sink_step can_open op (file_sink_ c) in
  Ok (c <| file_sink_ := s |> <| written_ := written_ c ++ [op] |>).

Definition core_add_session (sid : SessionID) (readable_id : bytes) (c : LogCore) : Res LogCore := sink_do (SAdd sid readable_id) c.

(** The next step of [q_.pop(entry)]. *)
Definition pop_step (popped : Entry -> Drain) (failed : Drain) (c : LogCore) : Res LogCore :=
  match step_pop (q_ c) with
  | None => Ok c
  | Some q =>
      let c' := c <| q_ := q |> in
      match consumer_ (q_ c), consumer_ q with
      | PopLoad, PopLoad => Ok (c' <| t_ := failed |>)
      | PopTail (Some e), _ => Ok (c' <| t_ := popped e |>)
      | PopTail None, _ => Err OutOfBounds
      | _, _ => Ok c'
      end
  end.

(** The next step of [drain]; [try_acquire] may fail for no reason, which is [lucky] false. *)
Definition drain (lucky : bool) (c : LogCore) : Res LogCore :=
  match t_ c with
  | DTest => Ok (c <| t_ := if stop_requested c then DLast 0 else DAcquire |>)
  | DAcquire => Ok (if 0 <? sem_ c then c <| sem_ := sem_ c - 1 |> <| t_ := DPop 0 |> else c)
  | DPop drained => pop_step (DWrite drained) (DTry drained) c
  | DWrite drained e =>
      let! c := sink_do (SWrite e) c in
      Ok (c <| t_ := if burst_cap <=? drained + 1 then DTry (drained + 1) else DPop (drained + 1) |>)
  | DTry drained => Ok (if (0 <? sem_ c) && lucky then c <| sem_ := sem_ c - 1 |> <| t_ := DPop drained |>
                        else c <| t_ := DTest |> <| burst := drained |>)
  | DLast cnt => Ok (c <| t_ := if cnt <? capacity then DLastPop cnt else DShutdown |>)
  | DLastPop cnt => pop_step (DLastWrite cnt) (DLast (cnt + 1)) c
  | DLastWrite cnt e => let! c := sink_do (SWrite e) c in Ok (c <| t_ := DLast (cnt + 1) |>)
  | DShutdown =>
      let! s := shutdown can_open (hash_order (sess_to_file_ (file_sink_ c))) (file_sink_ c) in
      Ok (c <| file_sink_ := s |> <| t_ := DDone |>)
  | DDone => Ok c
  end.

(** What the destructor does before it waits for the thread. *)
Definition core_destroy (c : LogCore) : Res LogCore := release capacity (c <| stop_requested := true |>).

(** ** Runs *)

Inductive core_op : Type :=
  | CPush (tid : nat) (e : Entry)
  | CTryPush (tid : nat) (e : Entry)
  | CProducer (tid : nat)
  | CDrain (lucky : bool)
  | CAddSession (sid : SessionID) (readable_id : bytes)
  | CDestroy.

Definition core_step (op : core_op) (c : LogCore) : Res LogCore :=
  match op with
  | CPush tid e => Ok (core_call false tid e c)
  | CTryPush tid e => Ok (core_call true tid e c)
  | CProducer tid => core_producer tid c
  | CDrain lucky => drain lucky c
  | CAddSession sid name => core_add_session sid name c
  | CDestroy => core_destroy c
  end.
Fixpoint core_run (ops : list core_op) (c : LogCore) : Res LogCore :=
  match ops with [] => Ok c | op :: ops => let! c := core_step op c in core_run ops c end.

(** ** Steps of the queue *)

Definition in_flight (t : Drain) : list Entry := match t with DWrite _ e | DLastWrite _ e => [e] | _ => [] end.
Definition in_pop (t : Drain) : bool := match t with DPop _ | DLastPop _ => true | _ => false end.
Definition writes (ops : list sink_op) : list Entry := omap (fun op => match op with SWrite e => Some e | _ => None end) ops.

(** What producers leave alone. *)
Record same_consumer (q q' : State Entry) : Prop := {
  sc_consumer : consumer_ q' = consumer_ q;
  sc_tail : tail_ (ring q') = tail_ (ring q);
  sc_popped : popped_ q' = popped_ q;
  sc_taken : zlen (taken_ q) <= zlen (taken_ q')
}.

Lemma call_push_consumer is_try tid e q q' : call_push is_try tid e q = Some q' -> same_consumer q q'.
Proof using. unfold call_push. destruct (producers q !! tid); [done|]. intros [= <-]. split; try done. cbn. zlia. Qed.
Lemma step_push_consumer tid q q' : step_push tid q = Some q' -> same_consumer q q'.
Proof using. unfold step_push. intros E. repeat (case_match; try discriminate E); injection E as <-; by split. Qed.

Lemma same_base q q' : same_consumer q q' -> base q' = base q.
Proof using. intros [Hc Ht _ _]. unfold base. by rewrite Hc, Ht. Qed.

(** A call puts a producer at its ticket. *)
Lemma call_push_written is_try tid e (q q' : State Entry) t : mpsc_inv q -> zlen (taken_ q') < 2 ^ 63 -> call_push is_try tid e q = Some q' -> written q' t -> written q t.
Proof using.
  intros I Hlen. unfold call_push. destruct (producers q !! tid) eqn:Etid; [done|]. intros [= <-]. cbn in Hlen. pose proof (mi_head _ I) as Hh.
  rewrite zlen_app in Hlen. change (zlen [e]) with 1 in Hlen. pose proof (zlen_nonneg (taken_ q)).
  intros (H1 & H2 & H3). cbn in H1, H2, H3. rewrite u64_small in H1 by lia.
  assert (Ht : head_ (ring q) <> t).
  { pose proof (H3 tid _ (lookup_insert_eq _ _ _)) as Ht. by destruct is_try. }
  split; [lia|]. split; [done|]. intros i p Ei. apply (H3 i). rewrite lookup_insert_ne; [done|congruence].
Qed.

(** A ticket is written when its producer has stored the epoch. *)
Lemma step_push_written tid (q q' : State Entry) t : step_push tid q = Some q' -> written q' t -> written q t \/ producers q !! tid = Some (PushEpoch t).
Proof using.
  unfold step_push. destruct (producers q !! tid) as [p|] eqn:Ep; [|done].
  assert (Hset : forall r p', head_ r = head_ (ring q) -> ticket_of p' = ticket_of p -> written (set_producer tid p' (set_ring r q)) t -> written q t).
  { intros r p' Hr Hp'. apply (written_same q); [exact Hr|done|]. intros i. by apply (set_producer_tickets q tid p). }
  assert (Hdel : forall q1, head_ (ring q1) = head_ (ring q) -> (t ∉ lost_ q1 -> t ∉ lost_ q) -> producers q1 = delete tid (producers q) ->
    written q1 t -> ticket_of p <> t -> written q t).
  { intros q1 Hh Hl Hp (H1 & H2 & H3) Ht. split; [lia|]. split; [by apply Hl|]. intros i p' Ei Et. destruct (decide (tid = i)) as [<-|]; [congruence|].
    apply (H3 i p'); [|done]. rewrite Hp. by rewrite lookup_delete_ne. }
  intros E W. destruct p as [u d|u d|u d|u]; destruct (cell_at u (ring q)) as [c|]; try discriminate E.
  - injection E as <-. left. destruct (negb _); [done|]. revert W. by apply (Hset (ring q)).
  - injection E as <-. left. destruct (negb _); [|revert W; by apply (Hset (ring q))].
    pose proof W as (_ & Hl & _). cbn in Hl. apply not_elem_of_app in Hl as [Hl Hu]. apply (Hdel (try_push_fails tid u q)); try done.
    cbn. intros ->. apply Hu. left.
  - injection E as <-. left. revert W. by apply (Hset (set_cell u _ (ring q))).
  - injection E as <-. destruct (decide (u = t)) as [->|Hu]; [by right|left]. by apply (Hdel (push_returns tid (set_ring (set_cell u (mk_cell (u64 (u + 1)) (data c)) (ring q)) q))).
Qed.

(** [pop] returns false when the next ticket is not written. *)
Lemma pop_fails (q q' : State Entry) : mpsc_inv q -> zlen (taken_ q) < 2 ^ 63 -> consumer_ q = PopLoad -> step_pop q = Some q' -> consumer_ q' = PopLoad ->
  q' = q /\ ~ written q (base q).
Proof using.
  intros I Hlen Hc. pose proof (mi_tail _ I) as [H0 Hbh]. pose proof (mi_head _ I) as Hh.
  assert (Eb : base q = tail_ (ring q)) by (unfold base; rewrite Hc; lia).
  destruct (mi_window _ I (base q)) as (c & Ec & H); [rewrite capacity_val; lia|]. rewrite Eb in *.
  unfold step_pop. rewrite Ec, Hc. destruct (Z.eqb_spec (epoch c) (u64 (tail_ (ring q) + 1))) as [E|E]; cbn [negb]; intros [= <-]; [done|].
  intros _. split; [done|]. intros W. destruct H as [(_ & He & _)|[? _]]; [|done]. apply E. rewrite He, u64_small; [done|]. destruct W. lia.
Qed.

(** ** The invariant *)

(** The next ticket to be popped has been written, and its thread has released the semaphore. *)
Definition ready (c : LogCore) : Prop :=
  written (q_ c) (base (q_ c)) /\ forall tid t, releasing c !! tid = Some t -> t <> base (q_ c).

(** The drain thread is about to sleep, or sleeps, after a burst below the cap. *)
Definition watching (c : LogCore) : bool :=
  match t_ c with DTest | DAcquire => burst c <? burst_cap | DTry drained => drained <? burst_cap | _ => false end.
Definition last_phase (t : Drain) : bool :=
  match t with DLast _ | DLastPop _ | DLastWrite _ _ | DShutdown | DDone => true | _ => false end.

Record core_inv (files : gmap bytes bytes) (run : bytes) (c : LogCore) : Prop := {
  ci_ring : mpsc_inv (q_ c);
  ci_written : Some <$> (writes (written_ c) ++ in_flight (t_ c)) = popped_ (q_ c);
  ci_pop : in_pop (t_ c) = false -> consumer_ (q_ c) = PopLoad;
  ci_sem : 0 <= sem_ c;
  ci_sink : exists s, sink_run can_open (written_ c) (log_file_sink_new can_open run files) = Ok s /\
    match t_ c with DDone => shutdown can_open (hash_order (sess_to_file_ s)) s = Ok (file_sink_ c) | _ => file_sink_ c = s end;
  ci_wake : watching c = true -> ready c -> 1 <= sem_ c;
  ci_stop : last_phase (t_ c) = true -> stop_requested c = true
}.

Lemma core_inv_new files run : core_inv files run (log_core_new run files).
Proof using.
  split; try done; [apply state_new_inv|by eexists|]. intros _ [[H _] _]. cbn in H. unfold base in H. cbn in H. lia.
Qed.

(** Steps of threads that log. *)
Lemma inv_producer files run c c' : core_inv files run c -> mpsc_inv (q_ c') -> same_consumer (q_ c) (q_ c') -> t_ c' = t_ c ->
  file_sink_ c' = file_sink_ c -> written_ c' = written_ c -> burst c' = burst c -> (stop_requested c = true -> stop_requested c' = true) ->
  sem_ c <= sem_ c' -> (ready c' -> 1 <= sem_ c' \/ ready c) -> core_inv files run c'.
Proof using.
  intros [H1 H2 H3 H4 H5 H6 H7] Iq S Et Ef Ew Eb Es Hsem Hready. split; rewrite ?Et, ?Ef, ?Ew; try done.
  - by rewrite (sc_popped _ _ S).
  - by rewrite (sc_consumer _ _ S).
  - lia.
  - intros Hw Hr. unfold watching in *. rewrite Et, Eb in Hw. destruct (Hready Hr) as [|Hr']; [done|]. specialize (H6 Hw Hr'). lia.
  - intros Hl. by apply Es, H7.
Qed.

Lemma release_ok n c c' : release n c = Ok c' -> c' = c <| sem_ := sem_ c + n |>.
Proof using. unfold release. destruct (_ <? _); [done|]. by intros [= <-]. Qed.

Lemma same_consumer_refl (q : State Entry) : same_consumer q q.
Proof using. by split. Qed.

Lemma call_inv files run is_try tid e c : core_inv files run c -> zlen (taken_ (q_ (core_call is_try tid e c))) < 2 ^ 63 ->
  core_inv files run (core_call is_try tid e c) /\ zlen (taken_ (q_ c)) <= zlen (taken_ (q_ (core_call is_try tid e c))).
Proof using.
  intros I. unfold core_call. destruct (releasing c !! tid); [done|]. destruct (call_push is_try tid e (q_ c)) as [q|] eqn:E; [|done].
  change (q_ (c <| q_ := q |>)) with q. intros Hlen. pose proof (call_push_consumer _ _ _ _ _ E) as S. split; [|by destruct S].
  apply (inv_producer files run c); try done.
  - cbn. eapply call_push_inv; [apply (ci_ring _ _ _ I)|exact E|exact Hlen].
  - intros [Hw Hr]. right. cbn in Hw, Hr. rewrite (same_base _ _ S) in Hw, Hr. split; [|done].
    eapply call_push_written; [apply (ci_ring _ _ _ I)|exact Hlen|exact E|exact Hw].
Qed.

Lemma producer_inv files run tid c c' : core_inv files run c -> core_producer tid c = Ok c' -> zlen (taken_ (q_ c')) < 2 ^ 63 ->
  core_inv files run c' /\ zlen (taken_ (q_ c)) <= zlen (taken_ (q_ c')).
Proof using.
  intros I. unfold core_producer. destruct (releasing c !! tid) as [u|] eqn:Er.
  { intros ->%release_ok Hlen. split; [|done]. pose proof (ci_sem _ _ _ I). apply (inv_producer files run c); try done; [apply I|cbn; lia|intros _; left; cbn; lia]. }
  destruct (step_push tid (q_ c)) as [q|] eqn:E; [|by intros [= <-]]. pose proof (step_push_consumer _ _ _ E) as S.
  intros [= <-]. set (c' := match producers (q_ c) !! tid with Some (PushEpoch t) => _ | _ => _ end).
  assert (Eq : q_ c' = q) by (unfold c'; by repeat case_match). rewrite Eq. intros Hlen. split; [|by destruct S].
  assert (Hc : t_ c' = t_ c /\ file_sink_ c' = file_sink_ c /\ written_ c' = written_ c /\ burst c' = burst c /\ stop_requested c' = stop_requested c /\ sem_ c' = sem_ c)
    by (unfold c'; by repeat case_match).
  destruct Hc as (E1 & E2 & E3 & E4 & E5 & E6).
  apply (inv_producer files run c); try done; rewrite ?Eq, ?E5, ?E6; try done.
  - eapply step_push_inv; [apply (ci_ring _ _ _ I)|destruct S; lia|exact E].
  - intros [Hw Hr]. right. rewrite Eq, (same_base _ _ S) in *. destruct (step_push_written _ _ _ _ E Hw) as [Hw'|Hp].
    + split; [done|]. intros i t Ei. apply (Hr i). unfold c'. repeat case_match; try done. cbn. rewrite lookup_insert_ne; [done|congruence].
    + destruct (Hr tid (base (q_ c))); [|done]. unfold c'. rewrite Hp. apply lookup_insert_eq.
Qed.

(** ** Steps of the drain thread *)

(** A step that leaves the queue alone. *)
Lemma inv_local files run c c' : core_inv files run c -> q_ c' = q_ c -> releasing c' = releasing c -> written_ c' = written_ c ->
  file_sink_ c' = file_sink_ c -> stop_requested c' = stop_requested c -> in_flight (t_ c') = in_flight (t_ c) -> consumer_ (q_ c) = PopLoad ->
  0 <= sem_ c' -> t_ c <> DDone -> t_ c' <> DDone -> (watching c' = true -> ready c -> 1 <= sem_ c') ->
  (last_phase (t_ c') = true -> stop_requested c = true) -> core_inv files run c'.
Proof using.
  intros [H1 H2 H3 H4 H5 H6 H7] Eq Er Ew Ef Es Ei Hc Hsem Hd Hd' Hw Hl. split; rewrite ?Eq, ?Ew, ?Ef, ?Es, ?Ei; try done.
  - destruct H5 as (s & Hs & Hf). exists s. split; [exact Hs|]. by destruct (t_ c), (t_ c').
  - unfold ready. rewrite Eq, Er. intros W [R1 R2]. by apply Hw.
Qed.

(** What a step of [pop] does. *)
Lemma pop_step_spec popped failed c c' : mpsc_inv (q_ c) -> zlen (taken_ (q_ c)) < 2 ^ 63 -> pop_step popped failed c = Ok c' ->
  exists q t, c' = c <| q_ := q |> <| t_ := t |> /\ mpsc_inv q /\ taken_ q = taken_ (q_ c) /\
    ((t = t_ c /\ popped_ q = popped_ (q_ c)) \/
     (t = failed /\ q = q_ c /\ consumer_ q = PopLoad /\ ~ written q (base q)) \/
     (exists e, t = popped e /\ popped_ q = popped_ (q_ c) ++ [Some e] /\ consumer_ q = PopLoad)).
Proof using.
  intros I Hlen. unfold pop_step. destruct (step_pop (q_ c)) as [q|] eqn:E.
  2:{ intros [= <-]. exists (q_ c), (t_ c). split; [by destruct c|]. split; [done|]. split; [done|by left]. }
  pose proof (step_pop_inv _ _ I Hlen E) as Iq.
  assert (Htk : taken_ q = taken_ (q_ c)) by (unfold step_pop in E; repeat (case_match; try discriminate E); by injection E as <-).
  assert (Hsame : consumer_ (q_ c) <> PopLoad -> (forall out, consumer_ (q_ c) <> PopTail out) -> popped_ q = popped_ (q_ c)).
  { unfold step_pop in E. repeat (case_match; try discriminate E); injection E as <-; intros _ Ho; try done; exfalso; by eapply Ho. }
  destruct (consumer_ (q_ c)) as [| |out|[e|]] eqn:Ec.
  - destruct (consumer_ q) eqn:Ec'; intros [= <-].
    + destruct (pop_fails _ _ I Hlen Ec E Ec') as [-> Hw]. exists (q_ c), failed. split; [done|]. split; [done|]. split; [done|]. right. by left.
    + exists q, (t_ c). split; [done|]. split; [done|]. split; [done|]. left. split; [done|]. unfold step_pop in E. rewrite Ec in E.
      destruct (cell_at _ _); [|done]. injection E as <-. by destruct (negb _).
    + exists q, (t_ c). split; [done|]. split; [done|]. split; [done|]. left. split; [done|]. unfold step_pop in E. rewrite Ec in E.
      destruct (cell_at _ _); [|done]. injection E as <-. by destruct (negb _).
    + exists q, (t_ c). split; [done|]. split; [done|]. split; [done|]. left. split; [done|]. unfold step_pop in E. rewrite Ec in E.
      destruct (cell_at _ _); [|done]. injection E as <-. by destruct (negb _).
  - intros [= <-]. exists q, (t_ c). split; [done|]. split; [done|]. split; [done|]. left. split; [done|]. by apply Hsame.
  - intros [= <-]. exists q, (t_ c). split; [done|]. split; [done|]. split; [done|]. left. split; [done|]. by apply Hsame.
  - intros [= <-]. exists q, (popped e). split; [done|]. split; [done|]. split; [done|]. right. right. exists e. unfold step_pop in E. rewrite Ec in E.
    destruct (cell_at _ _); [|done]. by injection E as <-.
  - done.
Qed.

Lemma pop_inv files run popped failed c c' : core_inv files run c -> zlen (taken_ (q_ c)) < 2 ^ 63 -> pop_step popped failed c = Ok c' ->
  in_pop (t_ c) = true -> in_flight (t_ c) = [] -> (forall e, in_flight (popped e) = [e] /\ in_pop (popped e) = false /\ last_phase (popped e) = last_phase (t_ c)) ->
  in_flight failed = [] -> last_phase failed = last_phase (t_ c) -> failed <> DDone ->
  core_inv files run c' /\ taken_ (q_ c') = taken_ (q_ c).
Proof using.
  intros I Hlen E Hp Hi Hpop Hf Hl Hd. pose proof I as [H1 H2 H3 H4 H5 H6 H7]. destruct (pop_step_spec _ _ _ _ H1 Hlen E) as (q & t & -> & Iq & Htk & H).
  assert (Ht : t_ c <> DDone) by (intros Et; by rewrite Et in Hp). split; [|exact Htk].
  destruct H5 as (s & Hs & Hsf). assert (Esf : file_sink_ c = s) by (by destruct (t_ c)).
  destruct H as [(-> & Ep)|[(-> & -> & Ec & Hw)|(e & -> & Ep & Ec)]].
  - split; try done; cbn [q_ t_ upd written_ file_sink_ sem_ stop_requested]; [by rewrite Ep|by rewrite Hp|exists s; by split|].
    unfold watching. cbn. by destruct (t_ c).
  - split; try done; cbn [q_ t_ upd written_ file_sink_ sem_ stop_requested].
    + by rewrite Hf, <- Hi.
    + exists s. split; [done|]. by destruct failed.
    + intros _ [Hr _]. by destruct Hw.
    + rewrite Hl. apply H7.
  - destruct (Hpop e) as (P1 & P2 & P3). split; try done; cbn [q_ t_ upd written_ file_sink_ sem_ stop_requested].
    + rewrite P1, Ep, <- H2, Hi, app_nil_r, fmap_app. done.
    + exists s. split; [done|]. by destruct (popped e).
    + unfold watching. cbn. by destruct (popped e).
    + rewrite P3. apply H7.
Qed.

Lemma sink_do_ok op c c' : sink_do op c = Ok c' -> exists s, sink_step can_open op (file_sink_ c) = Ok s /\
  c' = c <| file_sink_ := s |> <| written_ := written_ c ++ [op] |>.
Proof using. unfold sink_do. intros (s & E & [= <-])%bind_ok. by exists s. Qed.

Lemma sink_run_snoc ops op s s1 s2 : sink_run can_open ops s = Ok s1 -> sink_step can_open op s1 = Ok s2 -> sink_run can_open (ops ++ [op]) s = Ok s2.
Proof using. intros E1 E2. rewrite sink_run_app, E1, ok_bind. cbn. by rewrite E2. Qed.

Lemma writes_snoc ops op : writes (ops ++ [op]) = writes ops ++ match op with SWrite e => [e] | _ => [] end.
Proof using. unfold writes. rewrite omap_app. by destruct op. Qed.

(** The entry in hand is written. *)
Lemma write_inv files run c c1 e t : core_inv files run c -> in_flight (t_ c) = [e] -> sink_do (SWrite e) c = Ok c1 -> in_flight t = [] ->
  watching (c1 <| t_ := t |>) = false -> last_phase t = last_phase (t_ c) -> t <> DDone -> core_inv files run (c1 <| t_ := t |>).
Proof using.
  intros [H1 H2 H3 H4 H5 H6 H7] Hi (s & Es & ->)%sink_do_ok Ht Hw Hl Hd. destruct H5 as (s0 & Hs & Hsf). assert (Esf : file_sink_ c = s0) by (by destruct (t_ c)). rewrite Esf in Es.
  split; try done; cbn [q_ t_ upd written_ file_sink_ sem_ stop_requested].
  - rewrite Ht, app_nil_r, writes_snoc, <- Hi. exact H2.
  - intros _. apply H3. by destruct (t_ c).
  - exists s. split; [by eapply sink_run_snoc|]. by destruct t.
  - intros Hw1. by assert (true = false) by (etransitivity; [symmetry; exact Hw1|exact Hw]).
  - rewrite Hl. apply H7.
Qed.

Lemma drain_inv files run lucky c c' : core_inv files run c -> zlen (taken_ (q_ c)) < 2 ^ 63 -> drain lucky c = Ok c' ->
  core_inv files run c' /\ taken_ (q_ c') = taken_ (q_ c).
Proof using.
  intros I Hlen E. pose proof I as [H1 H2 H3 H4 H5 H6 H7]. unfold drain in E. destruct (t_ c) as [| |d|d e|d|n|n|n e| |] eqn:Et.
  - injection E as <-. split; [|done]. apply (inv_local files run c); rewrite ?Et; try done; cbn [t_ upd].
    + by destruct (stop_requested c).
    + by apply H3.
    + by destruct (stop_requested c).
    + unfold watching in *. cbn. rewrite Et in H6. by destruct (stop_requested c).
    + by destruct (stop_requested c).
  - destruct (Z.ltb_spec 0 (sem_ c)) as [Hs|Hs]; injection E as <-; [|done]. split; [|done].
    apply (inv_local files run c); rewrite ?Et; try done; cbn; [by apply H3|lia].
  - apply (pop_inv files run _ _ _ _ I Hlen E); by rewrite ?Et.
  - apply bind_ok in E as (c1 & E1 & E). injection E as <-. pose proof E1 as (s & _ & ->)%sink_do_ok. split; [|done].
    eapply write_inv; [exact I|by rewrite Et|exact E1|..]; cbn [t_ upd]; rewrite ?Et; try (by case_match).
    unfold watching. cbn. destruct (Z.leb_spec burst_cap (d + 1)); [|done]. apply Z.ltb_ge. lia.
  - assert (Hc : consumer_ (q_ c) = PopLoad) by by apply H3.
    destruct (Z.ltb_spec 0 (sem_ c)) as [Hs|Hs]; [destruct lucky|]; cbn [andb] in E; injection E as <-; (split; [|done]).
    + apply (inv_local files run c); rewrite ?Et; try done. cbn. lia.
    + apply (inv_local files run c); rewrite ?Et; try done. unfold watching in *. by rewrite Et in H6.
    + apply (inv_local files run c); rewrite ?Et; try done. unfold watching in *. by rewrite Et in H6.
  - injection E as <-. assert (Hc : consumer_ (q_ c) = PopLoad) by by apply H3. split; [|done].
    apply (inv_local files run c); rewrite ?Et; try done; cbn [t_ upd]; try by destruct (n <? capacity).
  - apply (pop_inv files run _ _ _ _ I Hlen E); by rewrite ?Et.
  - apply bind_ok in E as (c1 & E1 & E). injection E as <-. pose proof E1 as (s & _ & ->)%sink_do_ok. split; [|done].
    eapply write_inv; [exact I|by rewrite Et|exact E1|..]; cbn [t_ upd]; by rewrite ?Et.
  - apply bind_ok in E as (s & E1 & E). injection E as <-. split; [|done]. destruct H5 as (s0 & Hs & Hsf). subst s0.
    split; try done; cbn [t_ upd q_ written_ in_flight].
    by exists (file_sink_ c).
  - by injection E as <-.
Qed.

(** The engine adds no sessions once the log is being destroyed, and destroys it once. *)
Definition core_ok (op : core_op) (c : LogCore) : Prop :=
  match op with CAddSession _ _ | CDestroy => stop_requested c = false | _ => True end.
Fixpoint core_run_ok (ops : list core_op) (c : LogCore) : Prop :=
  match ops with [] => True | op :: ops => core_ok op c /\ forall c', core_step op c = Ok c' -> core_run_ok ops c' end.


Lemma sink_do_queue op c c' : sink_do op c = Ok c' -> q_ c' = q_ c.
Proof using. by intros (s & _ & ->)%sink_do_ok. Qed.

Lemma drain_taken lucky c c' : drain lucky c = Ok c' -> taken_ (q_ c') = taken_ (q_ c).
Proof using.
  assert (Hpop : forall popped failed, pop_step popped failed c = Ok c' -> taken_ (q_ c') = taken_ (q_ c)).
  { intros popped failed. unfold pop_step. destruct (step_pop (q_ c)) as [q|] eqn:E; [|by intros [= <-]].
    assert (Htk : taken_ q = taken_ (q_ c)) by (unfold step_pop in E; repeat (case_match; try discriminate E); by injection E as <-).
    intros E'. repeat (case_match; try discriminate E'); by injection E' as <-. }
  unfold drain. destruct (t_ c) as [| |d|d e|d|n|n|n e| |]; try apply Hpop; try by intros [= <-].
  - intros [= <-]. by destruct (0 <? sem_ c).
  - intros (c1 & E1%sink_do_queue & [= <-])%bind_ok. cbn. by rewrite E1.
  - intros [= <-]. by destruct (_ && _).
  - intros (c1 & E1%sink_do_queue & [= <-])%bind_ok. cbn. by rewrite E1.
  - by intros (s & _ & [= <-])%bind_ok.
Qed.

Lemma core_step_inv files run op c c' : core_inv files run c -> core_ok op c -> core_step op c = Ok c' -> zlen (taken_ (q_ c')) < 2 ^ 63 ->
  core_inv files run c' /\ zlen (taken_ (q_ c)) <= zlen (taken_ (q_ c')).
Proof using.
  intros I Hok E Hlen. destruct op as [tid e|tid e|tid|lucky|sid name|]; cbn [core_step core_ok] in *.
  - injection E as <-. by apply call_inv.
  - injection E as <-. by apply call_inv.
  - by eapply producer_inv.
  - pose proof (drain_taken _ _ _ E) as Ht. rewrite Ht in Hlen. destruct (drain_inv _ _ _ _ _ I Hlen E) as [I' _]. split; [exact I'|by rewrite Ht].
  - apply sink_do_ok in E as (s & E & ->). split; [|done]. destruct I as [H1 H2 H3 H4 (s0 & Hs & Hf) H6 H7].
    assert (Hl : last_phase (t_ c) = false) by (destruct (last_phase (t_ c)); [|done]; specialize (H7 eq_refl); congruence).
    assert (Ef : file_sink_ c = s0) by (by destruct (t_ c)). rewrite Ef in E.
    split; try done; cbn [q_ t_ upd written_ file_sink_].
    + rewrite writes_snoc. by rewrite app_nil_r.
    + exists s. split; [by eapply sink_run_snoc|by destruct (t_ c)].
  - apply release_ok in E as ->. split; [|done]. pose proof (ci_sem _ _ _ I). pose proof capacity_val.
    apply (inv_producer files run c); try done; [apply I|cbn; rewrite capacity_val; lia|]. intros _. left. cbn. rewrite capacity_val. lia.
Qed.

Lemma core_step_taken op c c' : core_step op c = Ok c' -> zlen (taken_ (q_ c)) <= zlen (taken_ (q_ c')).
Proof using.
  assert (Hcall : forall is_try tid e, zlen (taken_ (q_ c)) <= zlen (taken_ (q_ (core_call is_try tid e c)))).
  { intros. unfold core_call. destruct (releasing c !! tid); [done|]. destruct (call_push _ _ _ _) eqn:E; [|done]. by destruct (call_push_consumer _ _ _ _ _ E). }
  intros E. destruct op as [tid e|tid e|tid|lucky|sid name|]; cbn [core_step] in E.
  - injection E as <-. apply Hcall.
  - injection E as <-. apply Hcall.
  - unfold core_producer in E. destruct (releasing c !! tid); [by apply release_ok in E as ->|]. destruct (step_push tid (q_ c)) as [q|] eqn:Es; [|by injection E as <-].
    injection E as <-. destruct (step_push_consumer _ _ _ Es) as [_ _ _ H]. by repeat case_match.
  - by rewrite (drain_taken _ _ _ E).
  - by rewrite (sink_do_queue _ _ _ E).
  - by apply release_ok in E as ->.
Qed.

Lemma core_run_taken ops c c' : core_run ops c = Ok c' -> zlen (taken_ (q_ c)) <= zlen (taken_ (q_ c')).
Proof using.
  revert c. induction ops as [|op ops IH]; intros c E; [by injection E as <-|]. apply bind_ok in E as (c1 & E1%core_step_taken & E%IH). lia.
Qed.

Lemma core_run_inv files run ops c c' : core_inv files run c -> core_run_ok ops c -> core_run ops c = Ok c' -> zlen (taken_ (q_ c')) < 2 ^ 63 ->
  core_inv files run c'.
Proof using.
  revert c. induction ops as [|op ops IH]; intros c I Hok E Hlen; [by injection E as <-|].
  apply bind_ok in E as (c1 & E1 & E). destruct Hok as [Hop Hok]. pose proof (core_run_taken _ _ _ E).
  apply (IH c1); [|by apply Hok|done|done]. apply (core_step_inv files run op c c1); [done|done|done|lia].
Qed.

(** ** The files follow the queue *)

(** The traversal of a hash table visits every key once. *)
Definition hash_order_ok : Prop := forall m, NoDup (hash_order m) /\ forall k, k ∈ hash_order m <-> is_Some (m !! k).

Lemma core_files files run c : (forall p, can_open p = true) -> hash_order_ok -> (forall name, relative name -> files !! session_path run name = None) ->
  core_inv files run c -> program_ok [] (written_ c) -> forall k name, (k, name) ∈ added (written_ c) ->
  disk (file_sink_ c) !! session_path run name =
    Some (match t_ c with DDone => json_array (entries k (written_ c)) | _ => json_open (entries k (written_ c)) end).
Proof using.
  intros Hopen Hho Hf I Hok k name Hin. destruct (ci_sink _ _ _ I) as (s & Es & Hs).
  destruct (sink_reaches can_open Hopen files run (written_ c) Hok Hf) as (s0 & A & Es0 & Is & K). rewrite Es in Es0. injection Es0 as <-.
  pose proof (sink_files files run _ _ A s k name Is K Hin) as Hd.
  destruct (t_ c) eqn:Et; try by rewrite Hs. destruct (Hho (sess_to_file_ s)) as [Hnd Hko].
  destruct (shutdown_ok can_open files run _ _ A s (hash_order (sess_to_file_ s)) Is K Hnd) as (s' & Es' & Hd').
  { intros j. rewrite Hko. exact (sink_nodes files run _ _ A s j Is K). }
  rewrite Hs in Es'. injection Es' as <-. by apply Hd'.
Qed.

Lemma popped_prefix files run c : core_inv files run c ->
  writes (written_ c) ++ in_flight (t_ c) = ztake (zlen (popped_ (q_ c))) (taken_ (q_ c)).
Proof using.
  intros I. pose proof (ci_written _ _ _ I) as H. rewrite (mi_popped _ (ci_ring _ _ _ I)) in H. apply (inj (fmap Some)) in H.
  by rewrite H, (popped_length _ (ci_ring _ _ _ I)).
Qed.

(** C18: the log files follow the queue.  The threads that log and the drain thread interleave in
    any way, and sessions are added between two operations of the drain thread on the sink (the
    code has no lock that keeps them apart), none once the log is being destroyed.  Files can be
    opened, those of the run do not exist yet, and [program_ok] holds of what is done to the sink:
    at most 128 sessions are added, with different names that are no absolute paths, and only
    these are written to (beyond 128, files are evicted, closed and appended to again).  Then the
    entries written to the files, with the one that the drain thread is about to write, are a
    prefix of what was pushed, in the order of the tickets; and the text of the file of every
    session that was added is an opening bracket and exactly the entries written for it, as
    [to_json] spells them, in that order, with the closing bracket after the end of the log. *)
Theorem log_files_follow_queue files run ops c :
  (forall p, can_open p = true) -> hash_order_ok -> (forall name, relative name -> files !! session_path run name = None) ->
  core_run_ok ops (log_core_new run files) -> core_run ops (log_core_new run files) = Ok c ->
  zlen (taken_ (q_ c)) < 2 ^ 63 -> program_ok [] (written_ c) ->
  writes (written_ c) ++ in_flight (t_ c) = ztake (zlen (popped_ (q_ c))) (taken_ (q_ c)) /\
  forall k name, (k, name) ∈ added (written_ c) -> disk (file_sink_ c) !! session_path run name =
    Some (match t_ c with DDone => json_array (entries k (written_ c)) | _ => json_open (entries k (written_ c)) end).
Proof using.
  intros Hopen Hho Hf Hok E Hlen Hp. pose proof (core_run_inv files run ops _ c (core_inv_new files run) Hok E Hlen) as I.
  split; [exact (popped_prefix _ _ _ I)|by apply (core_files files)].
Qed.

(** ** Waking up *)

(** C34: no entry is left behind by a thread that sleeps.  When the drain thread waits for the
    semaphore and no thread is in a push, everything that was pushed has been written, provided
    that no [try_push] has failed and that the thread popped fewer than 1024 entries before it
    went to sleep. *)
Theorem drain_keeps_up files run ops c :
  core_run_ok ops (log_core_new run files) -> core_run ops (log_core_new run files) = Ok c -> zlen (taken_ (q_ c)) < 2 ^ 63 ->
  t_ c = DAcquire -> sem_ c = 0 -> producers (q_ c) = ∅ -> releasing c = ∅ -> lost_ (q_ c) = [] -> burst c < burst_cap ->
  writes (written_ c) = taken_ (q_ c).
Proof using.
  intros Hok E Hlen Et Es Hp Hr Hl Hb. pose proof (core_run_inv files run ops _ c (core_inv_new files run) Hok E Hlen) as I.
  pose proof (popped_prefix _ _ _ I) as Hw. rewrite Et in Hw. cbn [in_flight] in Hw. rewrite app_nil_r in Hw. rewrite Hw.
  pose proof (ci_ring _ _ _ I) as Iq. pose proof (mi_head _ Iq) as Hh. pose proof (mi_tail _ Iq) as [H0 Hbh].
  assert (Hc : consumer_ (q_ c) = PopLoad) by (apply (ci_pop _ _ _ I); by rewrite Et).
  assert (Eb : base (q_ c) = tail_ (ring (q_ c))) by (unfold base; rewrite Hc; lia).
  rewrite (popped_length _ Iq). apply ztake_all. destruct (Z.lt_ge_cases (tail_ (ring (q_ c))) (zlen (taken_ (q_ c)))) as [Hlt|]; [|done]. exfalso.
  assert (Hsem : 1 <= sem_ c); [|lia]. apply (ci_wake _ _ _ I); [unfold watching; rewrite Et; by apply Z.ltb_lt|]. split.
  - destruct (all_written _ Iq Hl ltac:(lia)) as [W|(tid & p & Ep & _)]; [exact W|by rewrite Hp in Ep].
  - intros tid t Ht. by rewrite Hr in Ht.
Qed.

(** ** The end of the log *)

Definition remaining (c : LogCore) : Z := zlen (taken_ (q_ c)) - zlen (popped_ (q_ c)).
(** The entries that are still to be written. *)
Definition todo (c : LogCore) : list Entry := in_flight (t_ c) ++ zdrop (zlen (popped_ (q_ c))) (taken_ (q_ c)).

(** The last loop has turns enough for what is left. *)
Definition room (c : LogCore) : Prop :=
  match t_ c with
  | DLast n => 0 <= n <= 1024 /\ remaining c <= 1024 - n
  | DLastPop n => 0 <= n < 1024 /\ remaining c <= 1024 - n
  | DLastWrite n _ => 0 <= n < 1024 /\ remaining c <= 1023 - n
  | DShutdown | DDone => remaining c <= 0
  | _ => True
  end.

(** The log is being destroyed: nothing is pushed any more. *)
Record quiet (files : gmap bytes bytes) (run : bytes) (c : LogCore) : Prop := {
  qu_inv : core_inv files run c;
  qu_len : zlen (taken_ (q_ c)) < 2 ^ 63;
  qu_producers : producers (q_ c) = ∅;
  qu_lost : lost_ (q_ c) = [];
  qu_stop : stop_requested c = true;
  qu_acquire : t_ c = DAcquire -> 0 < sem_ c;
  qu_room : room c;
  qu_todo : program_ok [] (written_ c ++ (SWrite <$> todo c))
}.

(** How many steps the drain thread still takes, at most. *)
Definition effort (c : LogCore) : Z :=
  let first := 20520 + 20 * remaining c + 20 * sem_ c in
  let phase := Z.of_nat (consumer_phase (consumer_ (q_ c))) in
  match t_ c with
  | DTest => first + 1
  | DAcquire | DTry _ => first + 2
  | DPop _ => first + 2 + phase
  | DWrite _ _ => first + 7
  | DLast n => 8 + 20 * (1024 - n) + 20 * remaining c
  | DLastPop n => 2 + phase + 20 * (1024 - n) + 20 * remaining c
  | DLastWrite n _ => 7 + 20 * (1024 - n) + 20 * remaining c
  | DShutdown => 1
  | DDone => 0
  end.

Lemma remaining_nonneg files run c : core_inv files run c -> 0 <= remaining c.
Proof using.
  intros I. pose proof (ci_ring _ _ _ I) as Iq. unfold remaining. rewrite (popped_length _ Iq). pose proof (mi_tail _ Iq) as [H0 Hb]. pose proof (mi_head _ Iq).
  unfold base in Hb. destruct (consumer_ (q_ c)); lia.
Qed.

Lemma remaining_cap files run c : quiet files run c -> consumer_ (q_ c) = PopLoad -> remaining c <= 1024.
Proof using.
  intros [I Hlen Hp Hl _ _ _ _] Hc. pose proof (ci_ring _ _ _ I) as Iq. unfold remaining. rewrite (popped_length _ Iq). pose proof (mi_head _ Iq) as Hh.
  assert (Eb : base (q_ c) = tail_ (ring (q_ c))) by (unfold base; rewrite Hc; lia).
  destruct (Z.le_gt_cases (head_ (ring (q_ c)) - tail_ (ring (q_ c))) 1024) as [|Hgt]; [lia|]. exfalso.
  apply (mi_beyond _ Iq (head_ (ring (q_ c)) - 1)); [rewrite capacity_val; lia|]. split; [lia|]. rewrite Hl, Hp. split; [apply not_elem_of_nil|done].
Qed.

(** What [pop] does next when no push is under way. *)
Lemma pop_progress popped failed c : mpsc_inv (q_ c) -> zlen (taken_ (q_ c)) < 2 ^ 63 -> producers (q_ c) = ∅ -> lost_ (q_ c) = [] ->
  (remaining c = 0 /\ consumer_ (q_ c) = PopLoad /\ pop_step popped failed c = Ok (c <| q_ := q_ c |> <| t_ := failed |>)) \/
  exists q, follows (q_ c) q /\ producers q = ∅ /\
    ((pop_step popped failed c = Ok (c <| q_ := q |>) /\ popped_ q = popped_ (q_ c) /\ (consumer_phase (consumer_ q) < consumer_phase (consumer_ (q_ c)))%nat) \/
     exists e, pop_step popped failed c = Ok (c <| q_ := q |> <| t_ := popped e |>) /\ popped_ q = popped_ (q_ c) ++ [Some e] /\ consumer_ q = PopLoad).
Proof using.
  intros I Hlen Hp Hl. pose proof (mi_tail _ I) as [H0 Hbh]. pose proof (mi_head _ I) as Hh. unfold remaining. rewrite (popped_length _ I).
  assert (Hd : (consumer_ (q_ c) = PopLoad /\ base (q_ c) = head_ (ring (q_ c))) \/ (written (q_ c) (base (q_ c)) \/ consumer_ (q_ c) <> PopLoad)).
  { destruct (consumer_ (q_ c)) eqn:Hc; [|by right; right..]. destruct (Z.eq_dec (base (q_ c)) (head_ (ring (q_ c)))) as [|Hne]; [by left|]. right. left.
    split; [lia|]. rewrite Hl, Hp. split; [apply not_elem_of_nil|done]. }
  destruct Hd as [[Hc Eh]|Hw].
  - left. assert (Eb : base (q_ c) = tail_ (ring (q_ c))) by (unfold base; rewrite Hc; lia). split; [lia|]. split; [done|].
    destruct (mi_window _ I (base (q_ c))) as (cell & Ec & H); [rewrite capacity_val; lia|].
    destruct H as [((H & _) & _)|[_ He]]; [lia|]. unfold pop_step, step_pop. rewrite <- Eb, Ec, Hc, He.
    rewrite (proj2 (Z.eqb_neq _ _)); [cbn [negb]; by rewrite Hc|]. rewrite u64_small by lia. lia.
  - right. destruct (consumer_advances (q_ c) I Hlen Hw) as (q & E & F & Hhq & Hq). exists q. split; [done|].
    assert (Hpq : producers q = ∅) by (unfold step_pop in E; repeat (case_match; try discriminate E); by injection E as <-).
    split; [done|]. pose proof (mi_consumer _ I) as Hco. unfold consumer_ok in Hco. unfold pop_step. rewrite E.
    assert (Hnt : (forall out, consumer_ (q_ c) <> PopTail out) -> tail_ (ring q) = tail_ (ring (q_ c)) /\ popped_ q = popped_ (q_ c)).
    { intros Hout. unfold step_pop in E. repeat (case_match; try discriminate E); injection E as <-; try done; exfalso; by eapply Hout. }
    destruct (consumer_ (q_ c)) as [| |out|out] eqn:Hc.
    1-3: left; destruct Hnt as [Ht Ep]; [done|]; destruct Hq as [|(_ & Hn & Hph)]; [lia|]; split; [by destruct (consumer_ q)|done].
    destruct Hco as [Hout Hlt]. right.
    assert (Hsome : exists d, znth (taken_ (q_ c)) (tail_ (ring (q_ c))) = Some d) by (apply znth_is_Some; lia). destruct Hsome as [d Ed].
    exists d. rewrite Ed in Hout. subst out. split; [done|]. unfold step_pop in E. rewrite Hc in E. destruct (cell_at _ _); [|done]. by injection E as <-.
Qed.

(** What is written in the end. *)
Definition program (c : LogCore) : list sink_op := written_ c ++ (SWrite <$> todo c).

Lemma quiet_make files run lucky c c' : quiet files run c -> drain lucky c = Ok c' -> producers (q_ c') = ∅ -> lost_ (q_ c') = [] ->
  stop_requested c' = stop_requested c -> t_ c' <> DAcquire -> room c' ->
  program c' = program c -> quiet files run c'.
Proof using.
  intros [I Hlen Hp Hl Hs Ha Hr Ht] E Hp' Hl' Hs' Ha' Hr' Ht'. destruct (drain_inv _ _ _ _ _ I Hlen E) as [I' Htk].
  split; try done; [by rewrite Htk|by rewrite Hs'|]. fold (program c'). by rewrite Ht'.
Qed.

(** An entry moves from the queue to the thread. *)
Lemma todo_pop c q e t : mpsc_inv (q_ c) -> mpsc_inv q -> taken_ q = taken_ (q_ c) -> popped_ q = popped_ (q_ c) ++ [Some e] ->
  in_flight (t_ c) = [] -> in_flight t = [e] -> todo (c <| q_ := q |> <| t_ := t |>) = todo c.
Proof using.
  intros I Iq Htk Hpop Hi Ht. unfold todo. cbn [q_ t_ upd]. rewrite Ht, Hi, Htk, Hpop. cbn [app].
  pose proof (mi_popped _ Iq) as Ep. rewrite Hpop, Htk in Ep. pose proof (popped_length _ Iq) as Hlq. rewrite Hpop in Hlq.
  rewrite zlen_app in *. change (zlen [Some e]) with 1 in *. set (n := zlen (popped_ (q_ c))) in *. pose proof (zlen_nonneg (popped_ (q_ c))).
  rewrite <- Hlq in Ep. assert (Ee : znth (taken_ (q_ c)) n = Some e).
  { assert (El : (popped_ (q_ c) ++ [Some e]) !! Z.to_nat n = Some (Some e)).
    { rewrite lookup_app_r by (unfold n, zlen; lia). by replace (Z.to_nat n - length (popped_ (q_ c)))%nat with 0%nat by (unfold n, zlen; lia). }
    rewrite Ep, list_lookup_fmap in El. unfold ztake in El. rewrite lookup_take_lt in El by lia. unfold znth. rewrite (proj2 (Z.ltb_ge _ _)) by lia.
    destruct (taken_ (q_ c) !! Z.to_nat n); cbn in El; congruence. }
  unfold znth in Ee. rewrite (proj2 (Z.ltb_ge _ _)) in Ee by lia. unfold zdrop. rewrite (drop_S _ _ _ Ee). by replace (Z.to_nat (n + 1)) with (S (Z.to_nat n)) by lia.
Qed.

(** The entry in hand can be written. *)
Lemma quiet_write files run c e : (forall p, can_open p = true) -> (forall name, relative name -> files !! session_path run name = None) ->
  quiet files run c -> in_flight (t_ c) = [e] -> exists s, sink_do (SWrite e) c = Ok (c <| file_sink_ := s |> <| written_ := written_ c ++ [SWrite e] |>).
Proof using.
  intros Hopen Hf Q Hi. pose proof (qu_todo _ _ _ Q) as Ht. unfold todo in Ht. rewrite Hi in Ht. cbn [app fmap list_fmap] in Ht.
  change (SWrite e :: _) with ([SWrite e] ++ (SWrite <$> zdrop (zlen (popped_ (q_ c))) (taken_ (q_ c)))) in Ht. rewrite app_assoc in Ht. apply program_ok_app in Ht.
  destruct (sink_reaches can_open Hopen files run _ Ht Hf) as (s' & A & Es & _ & _).
  destruct (ci_sink _ _ _ (qu_inv _ _ _ Q)) as (s & Es0 & Hs). assert (Ef : file_sink_ c = s) by (by destruct (t_ c)).
  rewrite sink_run_app, Es0, ok_bind in Es. cbn in Es. apply bind_ok in Es as (s2 & Es2 & [= ->]). exists s'.
  unfold sink_do. rewrite Ef. cbn [sink_step]. by rewrite Es2.
Qed.

(** The files can be closed. *)
Lemma quiet_shutdown files run c : (forall p, can_open p = true) -> hash_order_ok -> (forall name, relative name -> files !! session_path run name = None) ->
  quiet files run c -> t_ c = DShutdown -> exists s, shutdown can_open (hash_order (sess_to_file_ (file_sink_ c))) (file_sink_ c) = Ok s.
Proof using.
  intros Hopen Hho Hf Q Et. pose proof (program_ok_app _ _ _ (qu_todo _ _ _ Q)) as Ht.
  destruct (sink_reaches can_open Hopen files run _ Ht Hf) as (s & A & Es & Is & K). destruct (ci_sink _ _ _ (qu_inv _ _ _ Q)) as (s0 & Es0 & Hs).
  rewrite Es in Es0. injection Es0 as <-. rewrite Et in Hs. rewrite Hs. destruct (Hho (sess_to_file_ s)) as [Hnd Hko].
  destruct (shutdown_ok can_open files run _ _ A s (hash_order (sess_to_file_ s)) Is K Hnd) as (s' & Es' & _); [|by exists s'].
  intros j. rewrite Hko. exact (sink_nodes files run _ _ A s j Is K).
Qed.

(** One step of a pop of the first loop or of the last one. *)
Lemma quiet_pop files run c : quiet files run c -> in_pop (t_ c) = true ->
  exists c', (forall lucky, drain lucky c = Ok c') /\ quiet files run c' /\ program c' = program c /\ 0 <= effort c' < effort c.
Proof using.
  intros Q Hin. pose proof Q as [I Hlen Hp Hl Hs Ha Hr Ht]. pose proof (ci_ring _ _ _ I) as Iq. pose proof (remaining_nonneg _ _ _ I) as Hrem. pose proof (ci_sem _ _ _ I) as Hsem.
  set (popped := fun e => match t_ c with DPop d => DWrite d e | DLastPop n => DLastWrite n e | t => t end).
  set (failed := match t_ c with DPop d => DTry d | DLastPop n => DLast (n + 1) | t => t end).
  assert (Ed : forall lucky, drain lucky c = pop_step popped failed c).
  { intros lucky. unfold drain, popped, failed. by destruct (t_ c). }
  destruct (pop_progress popped failed c Iq Hlen Hp Hl) as [(H0 & Hc & E)|(q & [F1 F2 F3] & Hpq & [(E & Ep & Hph)|(e & E & Ep & Hc)])].
  - set (c' := c <| q_ := q_ c |> <| t_ := failed |>) in E.
    assert (Hw : program c' = program c) by (unfold program, todo, c'; cbn [q_ t_ upd written_]; unfold failed; by destruct (t_ c)).
    exists c'. split; [intros lucky; by rewrite Ed, E|]. split; [|split; [exact Hw|]].
    + apply (quiet_make _ _ true c c' Q); [by rewrite Ed, E|done..| | |exact Hw].
      * cbn. unfold failed. by destruct (t_ c).
      * unfold room, c' in *. cbn [t_ upd]. unfold failed. destruct (t_ c); try done. unfold remaining in *. cbn. lia.
    + unfold effort, remaining, room, c' in *. cbn [q_ t_ upd sem_]. rewrite Hc. unfold failed. destruct (t_ c); try done; cbn; lia.
  - set (c' := c <| q_ := q |>) in E.
    assert (Hw : program c' = program c) by (unfold program, todo, c'; cbn [q_ t_ upd written_]; by rewrite F1, Ep).
    exists c'. split; [intros lucky; by rewrite Ed, E|]. split; [|split; [exact Hw|]].
    + apply (quiet_make _ _ true c c' Q); [by rewrite Ed, E|done|cbn; congruence|done| | |exact Hw].
      * cbn. by destruct (t_ c).
      * unfold room, remaining, c' in *. cbn [t_ upd q_]. by rewrite F1, Ep.
    + unfold effort, remaining, room, c' in *. cbn [q_ t_ upd sem_]. rewrite F1, Ep. destruct (t_ c); try done; lia.
  - assert (Hn : zlen (popped_ q) = zlen (popped_ (q_ c)) + 1) by (rewrite Ep, zlen_app; done).
    assert (Hpos : remaining c >= 1).
    { unfold remaining. pose proof (mi_tail _ F3) as [_ Hb]. pose proof (mi_head _ F3) as Hh. rewrite F1 in Hh. pose proof (popped_length _ F3).
      unfold base in Hb. rewrite Hc in Hb. lia. }
    set (c' := c <| q_ := q |> <| t_ := popped e |>) in E. assert (Hw : program c' = program c).
    { assert (Htd : todo c' = todo c) by (apply (todo_pop c q e (popped e) Iq F3 F1 Ep); unfold popped; by destruct (t_ c)). unfold program. by rewrite Htd. }
    exists c'. split; [intros lucky; by rewrite Ed, E|]. split; [|split; [exact Hw|]].
    + apply (quiet_make _ _ true c c' Q); [by rewrite Ed, E|done|cbn; congruence|done| | |exact Hw].
      * cbn. unfold popped. by destruct (t_ c).
      * unfold room, c' in *. cbn [t_ upd]. unfold popped. destruct (t_ c); try done. unfold remaining in *. cbn [q_ upd]. rewrite F1, Hn. lia.
    + unfold effort, remaining, room, c' in *. cbn [q_ t_ upd sem_]. rewrite F1, Hn. unfold popped. destruct (t_ c); try done; destruct (consumer_ (q_ c)); cbn; lia.
Qed.

(** One step of the drain thread, until it is done. *)
Lemma quiet_step files run lucky c : (forall p, can_open p = true) -> hash_order_ok -> (forall name, relative name -> files !! session_path run name = None) ->
  quiet files run c -> t_ c <> DDone -> exists c', drain lucky c = Ok c' /\ quiet files run c' /\ program c' = program c /\ 0 <= effort c' < effort c.
Proof using.
  intros Hopen Hho Hf Q Hd. destruct (in_pop (t_ c)) eqn:Hin; [destruct (quiet_pop files run c Q Hin) as (c' & E & H); exists c'; by split|].
  pose proof Q as [I Hlen Hp Hl Hs Ha Hr _]. pose proof (remaining_nonneg _ _ _ I) as Hrem. pose proof (ci_sem _ _ _ I) as Hsem.
  pose proof (ci_pop _ _ _ I Hin) as Hc. pose proof (remaining_cap _ _ _ Q Hc) as Hcap.
  assert (Hmake : forall c', drain lucky c = Ok c' -> q_ c' = q_ c -> stop_requested c' = stop_requested c -> t_ c' <> DAcquire -> room c' ->
    written_ c' ++ (SWrite <$> in_flight (t_ c')) = written_ c ++ (SWrite <$> in_flight (t_ c)) -> 0 <= effort c' < effort c ->
    exists c', drain lucky c = Ok c' /\ quiet files run c' /\ program c' = program c /\ 0 <= effort c' < effort c).
  { intros c' E Eq Es Ea Er Et He. assert (Hw : program c' = program c) by (unfold program, todo; by rewrite Eq, !fmap_app, !app_assoc, Et).
    exists c'. split; [done|]. split; [|done]. apply (quiet_make files run lucky c); try done; by rewrite Eq. }
  unfold room, effort in *. destruct (t_ c) as [| |d|d e|d|n|n|n e| |] eqn:Et; try done.
  - apply (Hmake (c <| t_ := DLast 0 |>)); try done; [unfold drain; by rewrite Et, Hs|cbn; unfold remaining in *; cbn; lia..].
  - specialize (Ha eq_refl). apply (Hmake (c <| sem_ := sem_ c - 1 |> <| t_ := DPop 0 |>)); try done; [unfold drain; by rewrite Et, (proj2 (Z.ltb_lt _ _) Ha)|].
    cbn. unfold remaining in *. cbn. rewrite Hc. cbn. lia.
  - destruct (quiet_write files run c e Hopen Hf Q) as [s Ew]; [by rewrite Et|].
    assert (E : drain lucky c = Ok (c <| file_sink_ := s |> <| written_ := written_ c ++ [SWrite e] |> <| t_ := if burst_cap <=? d + 1 then DTry (d + 1) else DPop (d + 1) |>))
      by (unfold drain; by rewrite Et, Ew).
    apply (Hmake _ E); try done; cbn [t_ upd written_]; case_match; try done; cbn; rewrite ?app_nil_r; try done; unfold remaining in *; cbn; rewrite ?Hc; cbn; lia.
  - apply (Hmake (if (0 <? sem_ c) && lucky then c <| sem_ := sem_ c - 1 |> <| t_ := DPop d |> else c <| t_ := DTest |> <| burst := d |>));
      [unfold drain; by rewrite Et|..]; destruct (Z.ltb_spec 0 (sem_ c)); try destruct lucky; try done; cbn; unfold remaining in *; cbn; rewrite ?Hc; cbn; lia.
  - apply (Hmake (c <| t_ := if n <? capacity then DLastPop n else DShutdown |>)); try done; [unfold drain; by rewrite Et|..]; rewrite capacity_val; cbn [t_ upd];
      destruct (Z.ltb_spec n 1024); try done; cbn; unfold remaining in *; cbn; rewrite ?Hc; cbn; lia.
  - destruct (quiet_write files run c e Hopen Hf Q) as [s Ew]; [by rewrite Et|].
    assert (E : drain lucky c = Ok (c <| file_sink_ := s |> <| written_ := written_ c ++ [SWrite e] |> <| t_ := DLast (n + 1) |>)) by (unfold drain; by rewrite Et, Ew).
    apply (Hmake _ E); try done; cbn; unfold remaining in *; cbn; [lia|by rewrite app_nil_r|lia].
  - destruct (quiet_shutdown files run c Hopen Hho Hf Q Et) as [s Ew].
    apply (Hmake (c <| file_sink_ := s |> <| t_ := DDone |>)); try done; unfold drain; by rewrite Et, Ew.
Qed.

Definition drain_run (luck : nat -> bool) (n : nat) : list core_op := (fun i => CDrain (luck i)) <$> seq 0 n.
Lemma drain_run_S luck n : drain_run luck (S n) = CDrain (luck 0%nat) :: drain_run (fun i => luck (S i)) n.
Proof using. unfold drain_run. rewrite <- cons_seq, <- fmap_S_seq, fmap_cons, <- list_fmap_compose. done. Qed.

Lemma quiet_run files run (m : nat) luck c : (forall p, can_open p = true) -> hash_order_ok -> (forall name, relative name -> files !! session_path run name = None) ->
  quiet files run c -> effort c <= Z.of_nat m -> exists n c', core_run (drain_run luck n) c = Ok c' /\ quiet files run c' /\ t_ c' = DDone /\
    taken_ (q_ c') = taken_ (q_ c) /\ program c' = program c.
Proof using.
  intros Hopen Hho Hf. revert luck c. induction m as [|m IH]; intros luck c Q He.
  all: assert (Hd : t_ c = DDone \/ t_ c <> DDone) by (destruct (t_ c); (by left) || by right).
  all: destruct Hd as [Ed|Hd]; [exists 0%nat, c; by split_and!|].
  all: destruct (quiet_step files run (luck 0%nat) c Hopen Hho Hf Q Hd) as (c1 & E1 & Q1 & Hw1 & He1).
  1: lia.
  destruct (IH (fun i => luck (S i)) c1 Q1 ltac:(lia)) as (n & c' & Er & Q' & Ed & Htk & Hw). exists (S n), c'.
  rewrite drain_run_S. cbn [core_run core_step]. rewrite E1, ok_bind. split_and!; [exact Er|exact Q'|exact Ed| |congruence].
  rewrite Htk. exact (drain_taken _ _ _ E1).
Qed.

(** C19: destroying the log writes everything that was pushed.  The log has run as in
    [log_files_follow_queue]: files can be opened, those of the run are new, and [program_ok]
    holds of what was written and is left to write (at most 128 sessions, with different relative
    names, added before they are written to).  No push is under way and none has failed, and the
    semaphore can count the tokens that it holds and 1024 more (the code asks for a maximum of
    at least 1024: where it is no larger, no token may be left).  Then, wherever the drain thread
    is and whatever [try_acquire] answers, the thread that the destructor waits for ends, without
    a fault; every entry that was ever pushed has been written, in the order of the tickets; and
    the text of the file of every session is its entries, as [to_json] spells them, in brackets. *)
Theorem destroy_writes_all files run ops c luck :
  (forall p, can_open p = true) -> hash_order_ok -> (forall name, relative name -> files !! session_path run name = None) ->
  core_run_ok ops (log_core_new run files) -> core_run ops (log_core_new run files) = Ok c -> zlen (taken_ (q_ c)) < 2 ^ 63 ->
  stop_requested c = false -> producers (q_ c) = ∅ -> releasing c = ∅ -> lost_ (q_ c) = [] -> sem_ c + capacity <= sem_max ->
  program_ok [] (program c) ->
  exists n c', core_run (CDestroy :: drain_run luck n) c = Ok c' /\ t_ c' = DDone /\ writes (written_ c') = taken_ (q_ c) /\
    written_ c' = program c /\ forall k name, (k, name) ∈ added (written_ c') ->
    disk (file_sink_ c') !! session_path run name = Some (json_array (entries k (written_ c'))).
Proof using.
  intros Hopen Hho Hf Hok E Hlen Hs Hp Hr Hl Hsem Hprog. pose proof (core_run_inv files run ops _ c (core_inv_new files run) Hok E Hlen) as I.
  assert (Ed : core_step CDestroy c = Ok (c <| stop_requested := true |> <| sem_ := sem_ c + capacity |>)).
  { cbn. unfold core_destroy, release. cbn [sem_ upd]. by rewrite (proj2 (Z.ltb_ge _ _)). }
  set (c0 := c <| stop_requested := true |> <| sem_ := sem_ c + capacity |>) in Ed.
  assert (Hph : last_phase (t_ c) = false) by (destruct (last_phase (t_ c)) eqn:Hph; [|done]; pose proof (ci_stop _ _ _ I Hph); congruence).
  assert (Q0 : quiet files run c0).
  { destruct (core_step_inv files run CDestroy c c0 I Hs Ed Hlen) as [I0 _]. split; try done; cbn.
    - intros _. pose proof (ci_sem _ _ _ I). rewrite capacity_val. lia.
    - unfold room. cbn. by destruct (t_ c). }
  destruct (quiet_run files run (Z.to_nat (effort c0)) luck c0 Hopen Hho Hf Q0 ltac:(lia)) as (n & c' & Er & Q' & Et & Htk & Hw).
  pose proof (qu_room _ _ _ Q') as Hrm. unfold room in Hrm. rewrite Et in Hrm. pose proof (remaining_nonneg _ _ _ (qu_inv _ _ _ Q')) as Hrem.
  assert (Hall : zlen (popped_ (q_ c')) = zlen (taken_ (q_ c'))) by (unfold remaining in *; lia).
  assert (Ew : written_ c' = program c).
  { change (program c) with (program c0). rewrite <- Hw. unfold program, todo. rewrite Et, Hall, zdrop_all by done. by rewrite app_nil_r. }
  exists n, c'. change (core_run (CDestroy :: drain_run luck n) c) with (let! c := core_step CDestroy c in core_run (drain_run luck n) c).
  rewrite Ed, ok_bind. split_and!; [exact Er|exact Et| |exact Ew|].
  - pose proof (popped_prefix _ _ _ (qu_inv _ _ _ Q')) as Hpre. rewrite Et in Hpre. cbn [in_flight] in Hpre. rewrite app_nil_r, Hall in Hpre.
    rewrite Hpre, ztake_all by done. exact Htk.
  - intros k name Hin. pose proof (core_files files run c' Hopen Hho Hf (qu_inv _ _ _ Q')) as H. rewrite Et in H. apply H; [|exact Hin].
    by rewrite Ew.
Qed.
End Core.

(** ** A run: two threads log, the drain thread keeps up; the log is destroyed with an entry left *)

Definition all_open (_ : bytes) : bool := true.
Definition demo_order (m : gmap Z SinkNode) : list Z := (map_to_list m).*1.
Lemma demo_order_ok : hash_order_ok demo_order.
Proof.
  intros m. split; [apply NoDup_fst_map_to_list|]. intros k. unfold demo_order. rewrite list_elem_of_fmap. split.
  - intros ([k' n] & -> & Hin%elem_of_map_to_list). by exists n.
  - intros [n Hn]. exists (k, n). split; [done|]. by apply elem_of_map_to_list.
Qed.

(** Only the destructor asks the thread to stop. *)
Definition is_destroy (op : core_op) : bool := match op with CDestroy => true | _ => false end.
Lemma step_keeps_stop sem_max op c c' : is_destroy op = false -> core_step all_open sem_max demo_order op c = Ok c' -> stop_requested c' = stop_requested c.
Proof.
  intros Hd E. destruct op as [tid e|tid e|tid|lucky|sid name|]; cbn [core_step] in E; [..|done].
  - injection E as <-. unfold core_call. by repeat case_match.
  - injection E as <-. unfold core_call. by repeat case_match.
  - unfold core_producer in E. destruct (releasing c !! tid); [by apply release_ok in E as ->|]. destruct (step_push tid (q_ c)); injection E as <-; [|done]. by repeat case_match.
  - assert (Hpop : forall p f, pop_step p f c = Ok c' -> stop_requested c' = stop_requested c).
    { intros p f. unfold pop_step. intros E'. repeat (case_match; try discriminate E'); by injection E' as <-. }
    unfold drain in E. destruct (t_ c); try (by injection E as <-); try (by eapply Hpop).
    + injection E as <-. by case_match.
    + apply bind_ok in E as (c1 & (s & _ & ->)%sink_do_ok & E). by injection E as <-.
    + injection E as <-. by case_match.
    + apply bind_ok in E as (c1 & (s & _ & ->)%sink_do_ok & E). by injection E as <-.
    + apply bind_ok in E as (s & _ & E). by injection E as <-.
  - by apply sink_do_ok in E as (s & _ & ->).
Qed.
Lemma no_destroy_ok sem_max ops c : forallb (fun op => negb (is_destroy op)) ops = true -> stop_requested c = false ->
  core_run_ok all_open sem_max demo_order ops c.
Proof.
  revert c. induction ops as [|op ops IH]; intros c; [done|]. cbn. intros [Hop Hops]%andb_prop Hs. split; [by destruct op|].
  intros c' E. apply IH; [done|]. rewrite (step_keeps_stop sem_max op c c'); [done|by destruct op|exact E].
Qed.

Definition core_demo (sem_max : Z) (ops : list core_op) : LogCore :=
  match core_run all_open sem_max demo_order ops (log_core_new all_open (B "run") ∅) with Ok c => c | Err _ => log_core_new all_open (B "run") ∅ end.
Definition push_entry (tid : nat) (e : Entry) : list core_op := CPush tid e :: replicate 4 (CProducer tid).
Definition demo_session : core_op := CAddSession (mk_session_id 0 1) (B "A-B").
(** Thread 1 takes the first ticket and pauses while thread 2 pushes. *)
Definition demo_pushes : list core_op :=
  [demo_session; CPush 1 (demo_entry 1 (B "up"))] ++ push_entry 2 (demo_entry 1 (B "down")) ++ replicate 4 (CProducer 1).
Definition demo_drained : list core_op := demo_pushes ++ replicate 20 (CDrain true).

Lemma drain_keeps_up_witness : burst (core_demo 1024 demo_drained) = 2 /\ writes (written_ (core_demo 1024 demo_drained)) = taken_ (q_ (core_demo 1024 demo_drained)).
Proof.
  split; [by vm_compute|]. apply (drain_keeps_up all_open 1024 demo_order ∅ (B "run") demo_drained); [by apply no_destroy_ok|by vm_compute..].
Defined.

Lemma log_files_follow_queue_witness :
  disk (file_sink_ (core_demo 1024 demo_drained)) !! session_path (B "run") (B "A-B") =
    Some (json_open [added_entry (mk_session_id 0 1); demo_entry 1 (B "up"); demo_entry 1 (B "down")]).
Proof.
  destruct (log_files_follow_queue all_open 1024 demo_order ∅ (B "run") demo_drained (core_demo 1024 demo_drained)) as [_ H].
  - done.
  - exact demo_order_ok.
  - done.
  - by apply no_destroy_ok.
  - by vm_compute.
  - by vm_compute.
  - vm_compute. split_and!; try done; try (by intros H; apply not_elem_of_nil in H); by left.
  - exact (H 1 (B "A-B") ltac:(vm_compute; left)).
Defined.

(** Two entries are pushed and the thread has acquired one token, so one is left, on a semaphore
    whose maximum is larger than the 1024 that the code asks for, as the standard permits. *)
Definition demo_unwritten : list core_op :=
  demo_session :: push_entry 1 (demo_entry 1 (B "up")) ++ push_entry 2 (demo_entry 1 (B "down")) ++ [CDrain true; CDrain true].

Lemma destroy_writes_all_witness : sem_ (core_demo (2 ^ 31 - 1) demo_unwritten) = 1 /\
  exists n c', core_run all_open (2 ^ 31 - 1) demo_order (CDestroy :: drain_run (fun _ => false) n) (core_demo (2 ^ 31 - 1) demo_unwritten) = Ok c' /\
  t_ c' = DDone /\ writes (written_ c') = [demo_entry 1 (B "up"); demo_entry 1 (B "down")].
Proof.
  split; [by vm_compute|].
  destruct (destroy_writes_all all_open (2 ^ 31 - 1) demo_order ∅ (B "run") demo_unwritten (core_demo (2 ^ 31 - 1) demo_unwritten) (fun _ => false)) as (n & c' & E & Et & Ew & _ & _).
  - done.
  - exact demo_order_ok.
  - done.
  - by apply no_destroy_ok.
  - by vm_compute.
  - by vm_compute.
  - by vm_compute.
  - by vm_compute.
  - by vm_compute.
  - by vm_compute.
  - by vm_compute.
  - vm_compute. split_and!; try done; try (by intros H; apply not_elem_of_nil in H); by left.
  - exists n, c'. split_and!; [exact E|exact Et|]. rewrite Ew. by vm_compute.
Defined.

(** ** A lost wake-up

    [drained] is not reset between acquisitions of one burst.  Past the cap each acquisition pops
    at most one entry; so when the thread has used up the tokens of entries that wait behind an
    unfinished push, it pops that push's entry when it comes, finds no token, and sleeps with the
    others unwritten. *)
Definition pop_one : list core_op := replicate 5 (CDrain true).
Definition stalled : list core_op :=
  [demo_session; CDrain true] ++ concat (replicate 1024 (push_entry 1 (demo_entry 1 []))) ++
  CDrain true :: concat (replicate 1024 pop_one) ++
  CPush 1 (demo_entry 1 []) :: push_entry 2 (demo_entry 1 (B "left behind")) ++ concat (replicate 1024 [CDrain true; CDrain true]) ++
  replicate 4 (CProducer 1) ++ CDrain true :: pop_one ++ [CDrain true; CDrain true].

(** The drain thread can sleep on an entry: after a burst of more than 1024 entries there is
    a run, without a fault and within the semaphore's maximum, that ends with the thread waiting,
    no token, no push under way, no [try_push] failed, and one of 1026 entries unwritten. *)
Lemma drain_loses_wakeup : exists c, core_run all_open 1024 demo_order stalled (log_core_new all_open (B "run") ∅) = Ok c /\
  t_ c = DAcquire /\ sem_ c = 0 /\ map_to_list (producers (q_ c)) = [] /\ map_to_list (releasing c) = [] /\ lost_ (q_ c) = [] /\
  zlen (taken_ (q_ c)) = 1026 /\ zlen (writes (written_ c)) = 1025.
Proof. apply ok_such. vm_compute. by split_and!. Qed.
